(** * nnForge layers: sparse convolution and negative log likelihood

    A shallow embedding of [nnforge/sparse_convolution_layer.cpp] and
    [nnforge/negative_log_likelihood_layer.cpp].

    - [unsigned int] is a [Z] reduced modulo [2^32] after every arithmetic
      operation ([u32]); [int] is obtained from it with [to_int].
    - [float] is IEEE-754 binary32, taken from the Standard Library's
      executable specification ([SpecFloat], precision 24, emax 128).
    - [std::vector] is a [list]; [operator[]] outside the vector is
      undefined behaviour, recorded as the outcome [Undefined].
    - C++ exceptions are the outcome [Throw]; the text given to
      [boost::format] is kept verbatim together with its arguments.
    - the random generator is a parameter of the functions that draw from
      it (a type of states with the two distributions the code uses). *)

From Stdlib Require Import ZArith QArith Qround List Sorted Lia Bool String.
From Stdlib Require Import Floats.SpecFloat.
From stdpp Require Import base list strings.

Local Open Scope Z_scope.

(** ** Machine integers *)

Definition u32 (x : Z) : Z := x mod 2 ^ 32.

(** [static_cast<int>] of an [unsigned int]. *)
Definition to_int (x : Z) : Z := if x <? 2 ^ 31 then x else x - 2 ^ 32.

Definition is_u32 (x : Z) : Prop := 0 <= x < 2 ^ 32.

(** ** Outcomes of a call: a value, an exception, undefined behaviour, or
    a loop that is still running when the fuel given to it is used up *)

Record message := boost_format { fmt : string; args : list Z }.

Inductive exception :=
| runtime_error (what : message)
| neural_network_exception (what : message).

Inductive outcome (A : Type) :=
| Ret (a : A)
| Throw (e : exception)
| Undefined
| Unfinished.
Arguments Ret {A} a.
Arguments Throw {A} e.
Arguments Undefined {A}.
Arguments Unfinished {A}.

#[global] Instance outcome_ret : MRet outcome := fun A a => Ret a.
#[global] Instance outcome_bind : MBind outcome := fun A B f m =>
  match m with
  | Ret a => f a
  | Throw e => Throw e
  | Undefined => Undefined
  | Unfinished => Unfinished
  end.

(** [v[i]] on a [std::vector]. *)
Definition at_ {A} (v : list A) (i : nat) : outcome A :=
  match v !! i with
  | Some x => Ret x
  | None => Undefined
  end.

(** [v[i] = x]. *)
Definition set_at {A} (v : list A) (i : nat) (x : A) : outcome (list A) :=
  if decide (i < length v)%nat then Ret (<[i := x]> v) else Undefined.

(** [for (unsigned int i = from; i < from + n; ++i) body(i)] threading a state. *)
Fixpoint for_ {S} (n : nat) (from : nat) (body : nat -> S -> outcome S) (s : S)
  : outcome S :=
  match n with
  | O => Ret s
  | Datatypes.S n' => s' ← body from s; for_ n' (Datatypes.S from) body s'
  end.

(** The same loop when the body only checks. *)
Definition for_check (n : nat) (body : nat -> outcome unit) : outcome unit :=
  for_ n 0%nat (fun i _ => body i) tt.

(** ** binary32 *)

Definition float := spec_float.

Definition prec32 : Z := 24.
Definition emax32 : Z := 128.

Definition fmul : float -> float -> float := SFmul prec32 emax32.
Definition fadd : float -> float -> float := SFadd prec32 emax32.
Definition fdiv : float -> float -> float := SFdiv prec32 emax32.
Definition sqrtf : float -> float := SFsqrt prec32 emax32.
Definition fabs : float -> float := SFabs.
(** [a > b] *)
Definition fgt (a b : float) : bool := SFltb b a.
(** [a >= b] *)
Definition fge (a b : float) : bool := SFleb b a.
(** [a <= b] *)
Definition fle (a b : float) : bool := SFleb a b.
(** [a != b] *)
Definition fne (a b : float) : bool := negb (SFeqb a b).

(** The binary32 number nearest to [m * 2^e]. *)
Definition float_lit (m e : Z) : float := binary_normalize prec32 emax32 m e false.

(** [static_cast<float>(x)] for an [unsigned int] [x]. *)
Definition float_of_uint (x : Z) : float := float_lit x 0.

(** [static_cast<unsigned int>(f)]: truncation towards zero; undefined when
    the truncated value is not an [unsigned int]. *)
Definition uint_of_float (f : float) : outcome Z :=
  match f with
  | S754_zero _ => Ret 0
  | S754_finite s m e =>
      let t := if 0 <=? e then Z.pos m * 2 ^ e else Z.pos m / 2 ^ (- e) in
      if s then (if t =? 0 then Ret 0 else Undefined)
      else if t <? 2 ^ 32 then Ret t else Undefined
  | _ => Undefined
  end.

Definition F_0_0 : float := S754_zero false.
Definition F_0_5 : float := float_lit 1 (-1).
Definition F_1_0 : float := float_lit 1 0.
Definition F_minus_1_0 : float := binary_normalize prec32 emax32 (-1) 0 false.
Definition F_100_0 : float := float_lit 100 0.
(** [1.01F]: the binary32 number nearest to 1.01 is 8472494 * 2^-23. *)
Definition F_1_01 : float := float_lit 8472494 (-23).

(** ** Shape descriptors and layer actions *)

Record layer_configuration_specific := {
  feature_map_count : Z;
  dimension_sizes : list Z
}.

(** Modelled from the spec: [layer_configuration_specific] is declared in a
    header that is not part of the sources; its derived quantities are
    "neuron-count-per-feature-map = product of dimension sizes; total neuron
    count = that times feature-map count", computed in [unsigned int]. *)
Definition get_neuron_count_per_feature_map (c : layer_configuration_specific) : Z :=
  fold_left (fun acc x => u32 (acc * x)) (dimension_sizes c) 1.

Definition get_neuron_count (c : layer_configuration_specific) : Z :=
  u32 (feature_map_count c * get_neuron_count_per_feature_map c).

Definition get_dimension_count (c : layer_configuration_specific) : nat :=
  length (dimension_sizes c).

(** Modelled from the spec: [layer_action] is declared in a header that is
    not part of the sources: "a tagged variant over {forward, backward-data
    (parameterized by which input index), backward-weights}". *)
Inductive action_type := forward | backward_data | backward_weights.

Record layer_action := {
  get_action_type : action_type;
  get_backprop_index : nat
}.

(** [throw neural_network_exception((boost::format(f) % a1 % ...).str())] *)
Definition nn_throw {A} (f : string) (a : list Z) : outcome A :=
  Throw (neural_network_exception (boost_format f a)).

(** [throw std::runtime_error((boost::format(f) % a1 % ...).str())] *)
Definition rt_throw {A} (f : string) (a : list Z) : outcome A :=
  Throw (runtime_error (boost_format f a)).

(** [if (c) throw ...;] *)
Definition throw_if (c : bool) (e : outcome unit) : outcome unit :=
  if c then e else Ret tt.

(** Unsigned division; dividing by zero is undefined. *)
Definition udiv (a b : Z) : outcome Z :=
  if b =? 0 then Undefined else Ret (a / b).

(** ** The sparse convolution layer *)

Record sparse_convolution_layer := {
  window_sizes : list Z;
  left_zero_padding : list Z;
  right_zero_padding : list Z;
  strides : list Z;
  input_feature_map_count : Z;
  output_feature_map_count : Z;
  feature_map_connection_sparsity_ratio : float;
  feature_map_connection_count : Z;
  bias : bool
}.

(** [sparse_convolution_layer::check] *)
Definition check (this : sparse_convolution_layer) : outcome unit :=
  for_check (length (window_sizes this)) (fun i =>
    w ← at_ (window_sizes this) i;
    throw_if (w =? 0)
      (nn_throw "window dimension for sparse convolution layer may not be zero" []));;
  throw_if (feature_map_connection_count this <? input_feature_map_count this)
    (nn_throw "feature_map_connection_count may not be smaller than input_feature_map_count" []);;
  throw_if (feature_map_connection_count this <? output_feature_map_count this)
    (nn_throw "feature_map_connection_count may not be smaller than output_feature_map_count" []);;
  throw_if (u32 (input_feature_map_count this * output_feature_map_count this)
              <? feature_map_connection_count this)
    (nn_throw "feature_map_connection_count may not be larger than in dense case" []);;
  for_check (length (window_sizes this)) (fun i =>
    p ← at_ (left_zero_padding this) i;
    w ← at_ (window_sizes this) i;
    throw_if (w <=? p)
      (nn_throw "left zero padding %1% of dimension (%2%) is greater or equal than layer window size (%3%)"
         [p; Z.of_nat i; w]));;
  for_check (length (window_sizes this)) (fun i =>
    p ← at_ (right_zero_padding this) i;
    w ← at_ (window_sizes this) i;
    throw_if (w <=? p)
      (nn_throw "right zero padding %1% of dimension (%2%) is greater or equal than layer window size (%3%)"
         [p; Z.of_nat i; w]));;
  for_check (length (strides this)) (fun i =>
    s ← at_ (strides this) i;
    throw_if (s =? 0)
      (nn_throw "stride dimension (%1%) is 0" [Z.of_nat i])).

(** [if (given.empty()) field.resize(n, d); else field = given;] on a field
    that the member initialisers left empty. *)
Definition resize_or_copy (given : list Z) (n : nat) (d : Z) : list Z :=
  match given with
  | [] => replicate n d
  | _ => given
  end.

(** The body shared, word for word, by the two constructors (lines 48-70
    and 89-111), run on the object as the member initialisers left it. *)
Definition constructor_body (this : sparse_convolution_layer)
    (left_zero_padding_ right_zero_padding_ strides_ : list Z)
  : outcome sparse_convolution_layer :=
  let n := length (window_sizes this) in
  throw_if (negb (length left_zero_padding_ =? 0)%nat && negb (length left_zero_padding_ =? n)%nat)
    (rt_throw "Invalid dimension count %1% for left zero padding"
       [Z.of_nat (length left_zero_padding_)]);;
  throw_if (negb (length right_zero_padding_ =? 0)%nat && negb (length right_zero_padding_ =? n)%nat)
    (rt_throw "Invalid dimension count %1% for right zero padding"
       [Z.of_nat (length right_zero_padding_)]);;
  throw_if (negb (length strides_ =? 0)%nat && negb (length strides_ =? n)%nat)
    (rt_throw "Invalid dimension count %1% for strides" [Z.of_nat (length strides_)]);;
  let this :=
    {| window_sizes := window_sizes this;
       left_zero_padding := resize_or_copy left_zero_padding_ n 0;
       right_zero_padding := resize_or_copy right_zero_padding_ n 0;
       strides := resize_or_copy strides_ n 1;
       input_feature_map_count := input_feature_map_count this;
       output_feature_map_count := output_feature_map_count this;
       feature_map_connection_sparsity_ratio := feature_map_connection_sparsity_ratio this;
       feature_map_connection_count := feature_map_connection_count this;
       bias := bias this |} in
  check this;;
  Ret this.

(** The constructor taking [feature_map_connection_count]. *)
Definition sparse_convolution_layer_count
    (window_sizes_ : list Z)
    (input_feature_map_count_ output_feature_map_count_ : Z)
    (feature_map_connection_count_ : Z)
    (left_zero_padding_ right_zero_padding_ strides_ : list Z)
    (bias_ : bool) : outcome sparse_convolution_layer :=
  constructor_body
    {| window_sizes := window_sizes_;
       left_zero_padding := [];
       right_zero_padding := [];
       strides := [];
       input_feature_map_count := input_feature_map_count_;
       output_feature_map_count := output_feature_map_count_;
       feature_map_connection_sparsity_ratio := F_minus_1_0;
       feature_map_connection_count := feature_map_connection_count_;
       bias := bias_ |}
    left_zero_padding_ right_zero_padding_ strides_.

(** [static_cast<unsigned int>(input_feature_map_count * output_feature_map_count
    * feature_map_connection_sparsity_ratio + 0.5F)] *)
Definition connection_count_of_ratio (input_feature_map_count_ output_feature_map_count_ : Z)
    (ratio : float) : outcome Z :=
  uint_of_float
    (fadd (fmul (float_of_uint (u32 (input_feature_map_count_ * output_feature_map_count_)))
                ratio)
          F_0_5).

(** The constructor taking [feature_map_connection_sparsity_ratio]. *)
Definition sparse_convolution_layer_ratio
    (window_sizes_ : list Z)
    (input_feature_map_count_ output_feature_map_count_ : Z)
    (feature_map_connection_sparsity_ratio_ : float)
    (left_zero_padding_ right_zero_padding_ strides_ : list Z)
    (bias_ : bool) : outcome sparse_convolution_layer :=
  count ← connection_count_of_ratio input_feature_map_count_ output_feature_map_count_
             feature_map_connection_sparsity_ratio_;
  constructor_body
    {| window_sizes := window_sizes_;
       left_zero_padding := [];
       right_zero_padding := [];
       strides := [];
       input_feature_map_count := input_feature_map_count_;
       output_feature_map_count := output_feature_map_count_;
       feature_map_connection_sparsity_ratio := feature_map_connection_sparsity_ratio_;
       feature_map_connection_count := count;
       bias := bias_ |}
    left_zero_padding_ right_zero_padding_ strides_.

(** Modelled from the spec: the protobuf record read by [read_proto] is
    generated code that is not part of the sources. Optional fields are
    options; the per-dimension accessors return the stored value or the
    schema default, which is what the fields below hold. *)
Record SparseConvolutionalDimensionParam := {
  kernel_size : Z;
  left_padding : Z;
  right_padding : Z;
  stride : Z
}.

Record SparseConvolutionalParam := {
  param_input_feature_map_count : Z;
  param_output_feature_map_count : Z;
  param_bias : bool;
  dimension_param : list SparseConvolutionalDimensionParam;
  param_feature_map_connection_count : option Z;
  param_feature_map_connection_sparsity_ratio : option float
}.

(** [sparse_convolution_layer::read_proto]; [instance_name] and the layer
    type only appear in the two messages and are left out of them. *)
Definition read_proto (sparse_convolution_param : option SparseConvolutionalParam)
  : outcome sparse_convolution_layer :=
  match sparse_convolution_param with
  | None => nn_throw "No sparse_convolution_param specified for layer %1% of type %2%" []
  | Some param =>
      let ic := param_input_feature_map_count param in
      let oc := param_output_feature_map_count param in
      '(ratio, count) ←
        match param_feature_map_connection_count param,
              param_feature_map_connection_sparsity_ratio param with
        | Some c, _ => Ret (F_minus_1_0, c)
        | None, Some r => c ← connection_count_of_ratio ic oc r; Ret (r, c)
        | None, None =>
            nn_throw "No sparsity pattern defined in sparse_convolution_param specified for layer %1% of type %2%" []
        end;
      let this :=
        {| window_sizes := map kernel_size (dimension_param param);
           left_zero_padding := map left_padding (dimension_param param);
           right_zero_padding := map right_padding (dimension_param param);
           strides := map stride (dimension_param param);
           input_feature_map_count := ic;
           output_feature_map_count := oc;
           feature_map_connection_sparsity_ratio := ratio;
           feature_map_connection_count := count;
           bias := param_bias param |} in
      check this;;
      Ret this
  end.

(** Lines 162-167: the size pushed for dimension [i]. *)
Definition output_dimension_size (this : sparse_convolution_layer)
    (input0 : layer_configuration_specific) (i : nat) : outcome Z :=
  d ← at_ (dimension_sizes input0) i;
  l ← at_ (left_zero_padding this) i;
  r ← at_ (right_zero_padding this) i;
  let total_input_dimension_size := u32 (u32 (d + l) + r) in
  w ← at_ (window_sizes this) i;
  throw_if (total_input_dimension_size <? w)
    (nn_throw "Too small total dimension size (with padding) (%1%) of dimension (%2%) is smaller than layer window size (%3%)"
       [total_input_dimension_size; Z.of_nat i; w]);;
  s ← at_ (strides this) i;
  q ← udiv (u32 (total_input_dimension_size - w)) s;
  Ret (u32 (q + 1)).

(** [sparse_convolution_layer::get_output_layer_configuration_specific] *)
Definition get_output_layer_configuration_specific (this : sparse_convolution_layer)
    (input_configuration_specific_list : list layer_configuration_specific)
  : outcome layer_configuration_specific :=
  input0 ← at_ input_configuration_specific_list 0;
  throw_if (negb (feature_map_count input0 =? input_feature_map_count this))
    (nn_throw "Feature map count in layer (%1%) and input configuration (%2%) don't match"
       [input_feature_map_count this; feature_map_count input0]);;
  throw_if (negb (get_dimension_count input0 =? length (window_sizes this))%nat)
    (nn_throw "Dimension count in layer (%1%) and input configuration (%2%) don't match"
       [Z.of_nat (length (window_sizes this)); Z.of_nat (get_dimension_count input0)]);;
  res_dimension_sizes ←
    for_ (length (window_sizes this)) 0%nat (fun i res =>
      x ← output_dimension_size this input0 i;
      Ret (res ++ [x])) [];
  Ret {| feature_map_count := output_feature_map_count this;
         dimension_sizes := res_dimension_sizes |}.

(** Line 187: the size pushed for dimension [i]. *)
Definition input_dimension_size (this : sparse_convolution_layer)
    (output_configuration_specific : layer_configuration_specific) (i : nat) : outcome Z :=
  o ← at_ (dimension_sizes output_configuration_specific) i;
  s ← at_ (strides this) i;
  w ← at_ (window_sizes this) i;
  l ← at_ (left_zero_padding this) i;
  r ← at_ (right_zero_padding this) i;
  Ret (u32 (u32 (u32 (u32 (u32 (o - 1) * s) + w) - l) - r)).

(** [sparse_convolution_layer::get_input_layer_configuration_specific]: the
    returned pair is the [bool] result and the configuration written
    through the reference parameter. *)
Definition get_input_layer_configuration_specific (this : sparse_convolution_layer)
    (output_configuration_specific : layer_configuration_specific)
    (input_layer_id : nat)
  : outcome (bool * layer_configuration_specific) :=
  throw_if (negb (feature_map_count output_configuration_specific
                    =? output_feature_map_count this))
    (nn_throw "Feature map count in layer (%1%) and output configuration (%2%) don't match"
       [output_feature_map_count this; feature_map_count output_configuration_specific]);;
  throw_if (negb (get_dimension_count output_configuration_specific
                    =? length (window_sizes this))%nat)
    (nn_throw "Dimension count in layer (%1%) and input configuration (%2%) don't match"
       [Z.of_nat (length (window_sizes this));
        Z.of_nat (get_dimension_count output_configuration_specific)]);;
  dims ←
    for_ (length (window_sizes this)) 0%nat (fun i res =>
      x ← input_dimension_size this output_configuration_specific i;
      Ret (res ++ [x])) [];
  Ret (true, {| feature_map_count := output_feature_map_count this;
                dimension_sizes := dims |}).

(** [sparse_convolution_layer::get_data_config] *)
Definition get_data_config (this : sparse_convolution_layer) : list Z :=
  let weight_count :=
    fold_left (fun weight_count x => u32 (weight_count * x)) (window_sizes this)
      (feature_map_connection_count this) in
  let res := [] ++ [weight_count] in
  if bias this then res ++ [output_feature_map_count this] else res.

(** [sparse_convolution_layer::get_data_custom_config] *)
Definition get_data_custom_config (this : sparse_convolution_layer) : list Z :=
  [feature_map_connection_count this; u32 (output_feature_map_count this + 1)].

(** [sparse_convolution_layer::get_flops_per_entry] *)
Definition get_flops_per_entry (this : sparse_convolution_layer)
    (input_configuration_specific_list : list layer_configuration_specific)
    (action : layer_action) : outcome float :=
  match get_action_type action with
  | forward | backward_data | backward_weights =>
      out ← get_output_layer_configuration_specific this input_configuration_specific_list;
      let neuron_count := get_neuron_count_per_feature_map out in
      let per_item_flops :=
        fold_left (fun per_item_flops x => u32 (per_item_flops * x)) (window_sizes this)
          (u32 (feature_map_connection_count this * 2)) in
      let per_item_flops :=
        if negb (bias this) then u32 (per_item_flops - 1) else per_item_flops in
      Ret (fmul (float_of_uint neuron_count) (float_of_uint per_item_flops))
  end.

(** ** The negative log likelihood layer *)

Record negative_log_likelihood_layer := { scale : float }.

(** [negative_log_likelihood_layer::get_output_layer_configuration_specific] *)
Definition nll_get_output_layer_configuration_specific (this : negative_log_likelihood_layer)
    (input_configuration_specific_list : list layer_configuration_specific)
  : outcome layer_configuration_specific :=
  input0 ← at_ input_configuration_specific_list 0;
  input1 ← at_ input_configuration_specific_list 1;
  throw_if (negb (feature_map_count input0 =? feature_map_count input1))
    (nn_throw "Feature map counts in 2 input layers for negative_log_likelihood_layer don't match: %1% and %2%"
       [feature_map_count input0; feature_map_count input1]);;
  throw_if (negb (get_neuron_count_per_feature_map input0
                    =? get_neuron_count_per_feature_map input1))
    (nn_throw "Neuron count per feature maps mismatch in 2 input layers for negative_log_likelihood_layer" []);;
  (if (2 <? length input_configuration_specific_list)%nat then
     input2 ← at_ input_configuration_specific_list 2;
     throw_if (negb (feature_map_count input2 =? 1))
       (nn_throw "Feature map count for negative_log_likelihood_layer scaling should be equal to 1, while it is %1%"
          [feature_map_count input2]);;
     throw_if (negb (get_neuron_count_per_feature_map input2
                       =? get_neuron_count_per_feature_map input0))
       (nn_throw "Neuron count per feature map negative_log_likelihood_layer for scaling equals %1%, expected %2%"
          [get_neuron_count_per_feature_map input2; get_neuron_count_per_feature_map input0])
   else Ret tt);;
  Ret {| feature_map_count := 1; dimension_sizes := dimension_sizes input0 |}.

(** [negative_log_likelihood_layer::get_input_layer_configuration_specific] *)
Definition nll_get_input_layer_configuration_specific (this : negative_log_likelihood_layer)
    (output_configuration_specific : layer_configuration_specific)
    (input_layer_id : nat) : bool := false.

(** [negative_log_likelihood_layer::get_flops_per_entry] *)
Definition nll_get_flops_per_entry (this : negative_log_likelihood_layer)
    (input_configuration_specific_list : list layer_configuration_specific)
    (action : layer_action) : outcome float :=
  match get_action_type action with
  | forward =>
      out ← nll_get_output_layer_configuration_specific this input_configuration_specific_list;
      let neuron_count := get_neuron_count out in
      input0 ← at_ input_configuration_specific_list 0;
      let per_item_flops := u32 (feature_map_count input0 * 3) in
      Ret (fmul (float_of_uint neuron_count) (float_of_uint per_item_flops))
  | backward_data =>
      input ← at_ input_configuration_specific_list (get_backprop_index action);
      let neuron_count := get_neuron_count input in
      let per_item_flops := 2 in
      Ret (fmul (float_of_uint neuron_count) (float_of_uint per_item_flops))
  | _ => Ret F_0_0
  end.

(** ** The random generator

    [random_generator] is declared in a header that is not part of the
    sources, so it is a parameter: a type of generator states with the two
    distributions the code draws from. A draw returns the value and the
    advanced generator. *)
Class random_generator (G : Type) := {
  (** [std::uniform_int_distribution<unsigned int>(a, b)(generator)] *)
  uniform_int_distribution : Z -> Z -> G -> Z * G;
  (** [std::normal_distribution<float>(mean, stddev)(generator)] *)
  normal_distribution : float -> float -> G -> float * G
}.

(** What the C++ standard promises of [uniform_int_distribution]. *)
Class uniform_in_range (G : Type) `{random_generator G} : Prop :=
  uniform_range : forall a b g, a <= b -> a <= fst (uniform_int_distribution a b g) <= b.

(** [v[i]] with an [unsigned int] index. *)
Definition at_u {A} (v : list A) (i : Z) : outcome A := at_ v (Z.to_nat i).

(** [v[i] = x] with an [unsigned int] index. *)
Definition set_at_u {A} (v : list A) (i : Z) (x : A) : outcome (list A) :=
  set_at v (Z.to_nat i) x.

(** [v.erase(std::find(v.begin(), v.end(), x))]; erasing [end()] is undefined. *)
Fixpoint erase_find (v : list Z) (x : Z) : outcome (list Z) :=
  match v with
  | [] => Undefined
  | y :: v' => if y =? x then Ret v' else v'' ← erase_find v' x; Ret (y :: v'')
  end.

(** [static_cast<unsigned int>(v.size() - 1)] *)
Definition size_minus_1 {A} (v : list A) : Z := u32 (Z.of_nat (length v) - 1).

(** ** The connectivity generator *)

(** The local variables of one pass of the [while (true)] loop of
    [fill_connection_matrix]. *)
Record attempt := {
  local_connection_matrix : list bool;
  output_feature_map_connection_count_list : list Z;
  output_feature_map_id_available_list : list Z;
  output_feature_map_id_available_overflow_list : list Z;
  input_feature_map_connection_count_list : list Z;
  input_feature_map_id_available_list : list Z;
  input_feature_map_id_available_overflow_list : list Z;
  explore_strict : bool;
  current_output_feature_map_index : Z
}.

(** The four caps of a pass. *)
Record caps := {
  max_connections_for_output_feature_map : Z;
  max_connections_for_input_feature_map : Z;
  max_connections_for_output_feature_map_overflow : Z;
  max_connections_for_input_feature_map_overflow : Z
}.

(** [std::max(m + 1, static_cast<unsigned int>(m * 1.01F))] *)
Definition overflow_cap (m : Z) : outcome Z :=
  t ← uint_of_float (fmul (float_of_uint m) F_1_01);
  Ret (Z.max (u32 (m + 1)) t).

(** Lines 342-345. *)
Definition compute_caps (output_feature_map_count input_feature_map_count
    feature_map_connection_count margin : Z) : outcome caps :=
  qo ← udiv (u32 (u32 (feature_map_connection_count + output_feature_map_count) - 1))
            output_feature_map_count;
  let max_o := u32 (qo + margin) in
  qi ← udiv (u32 (u32 (feature_map_connection_count + input_feature_map_count) - 1))
            input_feature_map_count;
  let max_i := u32 (qi + margin) in
  max_o_overflow ← overflow_cap max_o;
  max_i_overflow ← overflow_cap max_i;
  Ret {| max_connections_for_output_feature_map := max_o;
         max_connections_for_input_feature_map := max_i;
         max_connections_for_output_feature_map_overflow := max_o_overflow;
         max_connections_for_input_feature_map_overflow := max_i_overflow |}.

(** Lines 347-355: the number of [true] entries of each row. *)
Definition count_output_connections (m : list bool)
    (output_feature_map_count input_feature_map_count : Z) : outcome (list Z) :=
  for_ (Z.to_nat output_feature_map_count) 0%nat (fun output_feature_map_id lst =>
    feature_map_count ←
      for_ (Z.to_nat input_feature_map_count) 0%nat (fun input_feature_map_id feature_map_count =>
        b ← at_u m (u32 (u32 (Z.of_nat output_feature_map_id * input_feature_map_count)
                          + Z.of_nat input_feature_map_id));
        Ret (if b : bool then u32 (feature_map_count + 1) else feature_map_count)) 0;
    set_at lst output_feature_map_id feature_map_count)
    (replicate (Z.to_nat output_feature_map_count) 0).

(** Lines 366-374: the number of [true] entries of each column. *)
Definition count_input_connections (m : list bool)
    (output_feature_map_count input_feature_map_count : Z) : outcome (list Z) :=
  for_ (Z.to_nat input_feature_map_count) 0%nat (fun input_feature_map_id lst =>
    feature_map_count ←
      for_ (Z.to_nat output_feature_map_count) 0%nat (fun output_feature_map_id feature_map_count =>
        b ← at_u m (u32 (u32 (Z.of_nat output_feature_map_id * input_feature_map_count)
                          + Z.of_nat input_feature_map_id));
        Ret (if b : bool then u32 (feature_map_count + 1) else feature_map_count)) 0;
    set_at lst input_feature_map_id feature_map_count)
    (replicate (Z.to_nat input_feature_map_count) 0).

(** Lines 356-364 and 375-383: the ids below the cap and below the
    overflow cap, in increasing order. *)
Definition available_lists (count_list : list Z) (n max_connections max_connections_overflow : Z)
  : outcome (list Z * list Z) :=
  for_ (Z.to_nat n) 0%nat (fun i '(available, available_overflow) =>
    c ← at_ count_list i;
    Ret (if c <? max_connections then available ++ [Z.of_nat i] else available,
         if c <? max_connections_overflow then available_overflow ++ [Z.of_nat i]
         else available_overflow))
    ([], []).

(** [std::accumulate(v.begin(), v.end(), 0)]: the sum is formed in
    [unsigned int] and stored in an [int] at every step. *)
Definition accumulate (v : list Z) : Z :=
  fold_left (fun acc x => to_int (u32 (acc + x))) v 0.

Section Generator.
Context {G : Type} `{random_generator G}.

(** Lines 396-402: up to [n] tries pairing the output under the cursor
    with a random available input. The result is the pair found, if any. *)
Fixpoint try_cursor (n : nat) (input_feature_map_count : Z) (a : attempt) (g : G)
  : outcome (option (Z * Z) * G) :=
  match n with
  | O => Ret (None, g)
  | S n' =>
      output_feature_map_id ←
        at_u (output_feature_map_id_available_list a) (current_output_feature_map_index a);
      let '(k, g) :=
        uniform_int_distribution 0 (size_minus_1 (input_feature_map_id_available_list a)) g in
      input_feature_map_id ← at_u (input_feature_map_id_available_list a) k;
      b ← at_u (local_connection_matrix a)
            (u32 (u32 (output_feature_map_id * input_feature_map_count) + input_feature_map_id));
      if negb b then Ret (Some (output_feature_map_id, input_feature_map_id), g)
      else try_cursor n' input_feature_map_count a g
  end.

(** Lines 405-412 and 419-426: up to [n] tries pairing a random entry of
    [outputs] with a random entry of [inputs]. *)
Fixpoint try_random (n : nat) (input_feature_map_count : Z) (m : list bool)
    (outputs inputs : list Z) (g : G) : outcome (option (Z * Z) * G) :=
  match n with
  | O => Ret (None, g)
  | S n' =>
      let '(k, g) := uniform_int_distribution 0 (size_minus_1 outputs) g in
      output_feature_map_id ← at_u outputs k;
      let '(k, g) := uniform_int_distribution 0 (size_minus_1 inputs) g in
      input_feature_map_id ← at_u inputs k;
      b ← at_u m
            (u32 (u32 (output_feature_map_id * input_feature_map_count) + input_feature_map_id));
      if negb b then Ret (Some (output_feature_map_id, input_feature_map_id), g)
      else try_random n' input_feature_map_count m outputs inputs g
  end.

(** Lines 391-427: the fallback ladder. Returns the pair found, if any,
    and the value of [explore_strict] after it. *)
Definition find_pair (input_feature_map_count : Z) (a : attempt) (g : G)
  : outcome (option (Z * Z) * bool * G) :=
  '(found, explore_strict_, g) ←
    (if explore_strict a then
       '(found, g) ← try_cursor 20 input_feature_map_count a g;
       '(found, g) ←
         match found with
         | Some p => Ret (Some p, g)
         | None =>
             try_random 100 input_feature_map_count (local_connection_matrix a)
               (output_feature_map_id_available_list a)
               (input_feature_map_id_available_list a) g
         end;
       Ret (found, bool_decide (is_Some found), g)
     else Ret (None, false, g));
  match found with
  | Some p => Ret (Some p, explore_strict_, g)
  | None =>
      '(found, g) ←
        try_random 100 input_feature_map_count (local_connection_matrix a)
          (output_feature_map_id_available_overflow_list a)
          (input_feature_map_id_available_overflow_list a) g;
      Ret (found, explore_strict_, g)
  end.

(** Lines 433-441: one more connection for [output_feature_map_id]. The
    result is the count list, the two lists of available outputs and
    [current_output_feature_map_index]. *)
Definition count_output_connection (c : caps) (a : attempt) (output_feature_map_id : Z)
  : outcome (list Z * list Z * list Z * Z) :=
  old ← at_u (output_feature_map_connection_count_list a) output_feature_map_id;
  let output_feature_map_connection_count := u32 (old + 1) in
  ocl ← set_at_u (output_feature_map_connection_count_list a) output_feature_map_id
          output_feature_map_connection_count;
  if output_feature_map_connection_count =? max_connections_for_output_feature_map c then
    l ← erase_find (output_feature_map_id_available_list a) output_feature_map_id;
    Ret (ocl, l, output_feature_map_id_available_overflow_list a,
         current_output_feature_map_index a)
  else
    let index := u32 (current_output_feature_map_index a + 1) in
    if output_feature_map_connection_count
         =? max_connections_for_output_feature_map_overflow c then
      l ← erase_find (output_feature_map_id_available_overflow_list a)
            output_feature_map_id;
      Ret (ocl, output_feature_map_id_available_list a, l, index)
    else
      Ret (ocl, output_feature_map_id_available_list a,
           output_feature_map_id_available_overflow_list a, index).

(** Lines 443-447: one more connection for [input_feature_map_id]. The
    result is the count list and the two lists of available inputs. *)
Definition count_input_connection (c : caps) (a : attempt) (input_feature_map_id : Z)
  : outcome (list Z * list Z * list Z) :=
  old ← at_u (input_feature_map_connection_count_list a) input_feature_map_id;
  let input_feature_map_connection_count := u32 (old + 1) in
  icl ← set_at_u (input_feature_map_connection_count_list a) input_feature_map_id
          input_feature_map_connection_count;
  if input_feature_map_connection_count =? max_connections_for_input_feature_map c then
    l ← erase_find (input_feature_map_id_available_list a) input_feature_map_id;
    Ret (icl, l, input_feature_map_id_available_overflow_list a)
  else if input_feature_map_connection_count
            =? max_connections_for_input_feature_map_overflow c then
    l ← erase_find (input_feature_map_id_available_overflow_list a) input_feature_map_id;
    Ret (icl, input_feature_map_id_available_list a, l)
  else
    Ret (icl, input_feature_map_id_available_list a,
         input_feature_map_id_available_overflow_list a).

(** Lines 431-453: the bookkeeping after the pair
    [(output_feature_map_id, input_feature_map_id)] was found. *)
Definition mark_connection (c : caps) (input_feature_map_count : Z) (a : attempt)
    (explore_strict_ : bool) (output_feature_map_id input_feature_map_id : Z)
  : outcome attempt :=
  m ← set_at_u (local_connection_matrix a)
        (u32 (u32 (output_feature_map_id * input_feature_map_count) + input_feature_map_id))
        true;
  '(ocl, oal, oaol, index) ← count_output_connection c a output_feature_map_id;
  '(icl, ial, iaol) ← count_input_connection c a input_feature_map_id;
  let index :=
    match oal with
    | [] => index
    | _ => u32 (index mod Z.of_nat (length oal))
    end in
  let explore_strict_ :=
    if explore_strict_ then
      negb (bool_decide (oal = [])) && negb (bool_decide (ial = []))
    else explore_strict_ in
  Ret {| local_connection_matrix := m;
         output_feature_map_connection_count_list := ocl;
         output_feature_map_id_available_list := oal;
         output_feature_map_id_available_overflow_list := oaol;
         input_feature_map_connection_count_list := icl;
         input_feature_map_id_available_list := ial;
         input_feature_map_id_available_overflow_list := iaol;
         explore_strict := explore_strict_;
         current_output_feature_map_index := index |}.

(** One pass of the [for] loop at line 389. [None] stands for
    [should_retry_with_larger_margin = true; break;]. *)
Definition place_edge (c : caps) (input_feature_map_count : Z) (a : attempt) (g : G)
  : outcome (option attempt * G) :=
  '(found, explore_strict_, g) ← find_pair input_feature_map_count a g;
  match found with
  | Some (output_feature_map_id, input_feature_map_id) =>
      a' ← mark_connection c input_feature_map_count a explore_strict_
             output_feature_map_id input_feature_map_id;
      Ret (Some a', g)
  | None => Ret (None, g)
  end.

(** [n] passes of that loop, unless one of them breaks. *)
Fixpoint place_edges (n : nat) (c : caps) (input_feature_map_count : Z) (a : attempt) (g : G)
  : outcome (option attempt * G) :=
  match n with
  | O => Ret (Some a, g)
  | S n' =>
      '(r, g) ← place_edge c input_feature_map_count a g;
      match r with
      | Some a' => place_edges n' c input_feature_map_count a' g
      | None => Ret (None, g)
      end
  end.

(** Lines 341-388: the caps and the bookkeeping a pass starts from. *)
Definition start_attempt (connection_matrix : list bool)
    (output_feature_map_count input_feature_map_count feature_map_connection_count margin : Z)
  : outcome (caps * attempt) :=
  c ← compute_caps output_feature_map_count input_feature_map_count
        feature_map_connection_count margin;
  ocl ← count_output_connections connection_matrix output_feature_map_count
          input_feature_map_count;
  '(oal, oaol) ← available_lists ocl output_feature_map_count
                    (max_connections_for_output_feature_map c)
                    (max_connections_for_output_feature_map_overflow c);
  icl ← count_input_connections connection_matrix output_feature_map_count
          input_feature_map_count;
  '(ial, iaol) ← available_lists icl input_feature_map_count
                    (max_connections_for_input_feature_map c)
                    (max_connections_for_input_feature_map_overflow c);
  Ret (c, {| local_connection_matrix := connection_matrix;
             output_feature_map_connection_count_list := ocl;
             output_feature_map_id_available_list := oal;
             output_feature_map_id_available_overflow_list := oaol;
             input_feature_map_connection_count_list := icl;
             input_feature_map_id_available_list := ial;
             input_feature_map_id_available_overflow_list := iaol;
             explore_strict := true;
             current_output_feature_map_index := 0 |}).

(** One pass of the [while (true)] loop, lines 341-467: the matrix to
    commit, or [None] when the pass ends with
    [should_retry_with_larger_margin]. *)
Definition generation_attempt (connection_matrix : list bool)
    (output_feature_map_count input_feature_map_count feature_map_connection_count margin : Z)
    (g : G) : outcome (option (list bool) * G) :=
  '(c, a) ← start_attempt connection_matrix output_feature_map_count input_feature_map_count
              feature_map_connection_count margin;
  '(r, g) ←
    (let initial_connection_count :=
       accumulate (output_feature_map_connection_count_list a) in
     place_edges
       (Z.to_nat (to_int feature_map_connection_count - initial_connection_count))
       c input_feature_map_count a g);
  Ret (option_map local_connection_matrix r, g).

(** The [while (true)] loop from a given [margin]. [fuel] bounds the
    number of passes; the outcome is [Unfinished] when the loop is still
    running after [fuel] passes. The margin of the pass that succeeded
    is returned with the matrix. *)
Fixpoint fill_connection_matrix_from (fuel : nat) (margin : Z) (connection_matrix : list bool)
    (g : G) (output_feature_map_count input_feature_map_count feature_map_connection_count : Z)
  : outcome (list bool * Z * G) :=
  match fuel with
  | O => Unfinished
  | S fuel' =>
      '(r, g) ← generation_attempt connection_matrix output_feature_map_count
                  input_feature_map_count feature_map_connection_count margin g;
      match r with
      | Some local_connection_matrix_ => Ret (local_connection_matrix_, margin, g)
      | None =>
          fill_connection_matrix_from fuel' (u32 (margin + 1)) connection_matrix g
            output_feature_map_count input_feature_map_count feature_map_connection_count
      end
  end.

(** [sparse_convolution_layer::fill_connection_matrix] *)
Definition fill_connection_matrix (fuel : nat) (connection_matrix : list bool) (g : G)
    (output_feature_map_count input_feature_map_count feature_map_connection_count : Z)
  : outcome (list bool * G) :=
  '(m, _, g) ← fill_connection_matrix_from fuel 0 connection_matrix g
                 output_feature_map_count input_feature_map_count
                 feature_map_connection_count;
  Ret (m, g).


(** [data_custom[k][i] = x] *)
Definition set_at2 {A} (data : list (list A)) (k : nat) (i : Z) (x : A)
  : outcome (list (list A)) :=
  v ← at_ data k;
  v' ← set_at_u v i x;
  set_at data k v'.

(** [data_custom[k][i]] *)
Definition at2 {A} (data : list (list A)) (k : nat) (i : Z) : outcome A :=
  v ← at_ data k;
  at_u v i.

(** [++x] on an [int]; signed overflow is undefined. *)
Definition int_incr (x : Z) : outcome Z :=
  if x + 1 <? 2 ^ 31 then Ret (x + 1) else Undefined.

(** [sparse_convolution_layer::fill_data_custom] *)
Definition fill_data_custom (data_custom : list (list Z)) (connection_matrix : list bool)
    (output_feature_map_count input_feature_map_count : Z) : outcome (list (list Z)) :=
  '(data_custom, current_column_offset) ←
    for_ (Z.to_nat (to_int output_feature_map_count)) 0%nat
      (fun output_feature_map_id '(data_custom, current_column_offset) =>
         data_custom ← set_at2 data_custom 1 (Z.of_nat output_feature_map_id)
                         current_column_offset;
         for_ (Z.to_nat (to_int input_feature_map_count)) 0%nat
           (fun input_feature_map_id '(data_custom, current_column_offset) =>
              b ← at_u connection_matrix
                    (u32 (u32 (Z.of_nat output_feature_map_id * input_feature_map_count)
                          + Z.of_nat input_feature_map_id));
              if b : bool then
                data_custom ← set_at2 data_custom 0 current_column_offset
                                (Z.of_nat input_feature_map_id);
                current_column_offset ← int_incr current_column_offset;
                Ret (data_custom, current_column_offset)
              else Ret (data_custom, current_column_offset))
           (data_custom, current_column_offset))
      (data_custom, 0);
  set_at2 data_custom 1 output_feature_map_count current_column_offset.

(** [sparse_convolution_layer::randomize_custom_data] *)
Definition randomize_custom_data (fuel : nat) (this : sparse_convolution_layer)
    (data_custom : list (list Z)) (g : G) : outcome (list (list Z) * G) :=
  let connection_matrix :=
    replicate
      (Z.to_nat (u32 (output_feature_map_count this * input_feature_map_count this)))
      false in
  '(connection_matrix, g) ←
    fill_connection_matrix fuel connection_matrix g (output_feature_map_count this)
      (input_feature_map_count this) (feature_map_connection_count this);
  data_custom ← fill_data_custom data_custom connection_matrix
                  (output_feature_map_count this) (input_feature_map_count this);
  Ret (data_custom, g).

(** Lines 317-319: a draw, repeated while its magnitude exceeds
    [max_abs_value]. [fuel] bounds the number of draws. *)
Fixpoint draw_weight (fuel : nat) (standard_deviation max_abs_value : float) (g : G)
  : outcome (float * G) :=
  match fuel with
  | O => Unfinished
  | S fuel' =>
      let '(val, g) := normal_distribution F_0_0 standard_deviation g in
      if fgt (fabs val) max_abs_value
      then draw_weight fuel' standard_deviation max_abs_value g
      else Ret (val, g)
  end.

(** [sparse_convolution_layer::randomize_weights] *)
Definition randomize_weights (fuel : nat) (this : sparse_convolution_layer)
    (data : list (list float)) (data_custom : list (list Z)) (g : G)
  : outcome (list (list float) * G) :=
  let weight_count :=
    fold_left (fun weight_count x => u32 (weight_count * x)) (window_sizes this) 1 in
  '(data, current_weight_index, g) ←
    for_ (Z.to_nat (output_feature_map_count this)) 0%nat
      (fun output_feature_map_id '(data, current_weight_index, g) =>
         hi ← at2 data_custom 1 (u32 (Z.of_nat output_feature_map_id + 1));
         lo ← at2 data_custom 1 (Z.of_nat output_feature_map_id);
         let current_input_feature_map_count := u32 (hi - lo) in
         if 0 <? current_input_feature_map_count then
           let current_average_feature_map_count :=
             sqrtf (fmul (float_of_uint current_input_feature_map_count)
                         (float_of_uint (output_feature_map_count this))) in
           let standard_deviation :=
             sqrtf (fdiv F_1_0 (fmul current_average_feature_map_count
                                     (float_of_uint weight_count))) in
           let max_abs_value := fmul F_100_0 standard_deviation in
           let currrent_input_neuron_count :=
             u32 (weight_count * current_input_feature_map_count) in
           for_ (Z.to_nat currrent_input_neuron_count) 0%nat
             (fun i '(data, current_weight_index, g) =>
                '(val, g) ← draw_weight fuel standard_deviation max_abs_value g;
                data ← set_at2 data 0 current_weight_index val;
                Ret (data, u32 (current_weight_index + 1), g))
             (data, current_weight_index, g)
         else Ret (data, current_weight_index, g))
      (data, 0, g);
  if bias this then
    bias_values ← at_ data 1;
    data ← set_at data 1 (replicate (length bias_values) F_0_0);
    Ret (data, g)
  else Ret (data, g).
End Generator.

(** ** A scripted generator

    The draws to come are listed in advance; a uniform draw on [[a, b]] takes
    the next entry [r] and returns [a + r mod (b - a + 1)]; a normal draw
    returns [mean + stddev * r]. Once the script is used up every entry
    reads as [0]. *)
Definition script := list Z.

#[global] Instance script_generator : random_generator script := {|
  uniform_int_distribution a b g :=
    match g with
    | [] => (a, [])
    | r :: g' => (a + r mod (b - a + 1), g')
    end;
  normal_distribution mean stddev g :=
    match g with
    | [] => (mean, [])
    | r :: g' =>
        (fadd mean (fmul stddev (binary_normalize prec32 emax32 r 0 false)), g')
    end
|}.


(** * Vocabulary of the statements *)

(** The product of the entries of a list of sizes. *)
Definition product (l : list Z) : Z := fold_right Z.mul 1 l.

(** ** Sample configurations *)

(** Window 3x3, 4 input and 6 output feature maps, 12 connections. *)
Definition example_layer : sparse_convolution_layer :=
  {| window_sizes := [3; 3];
     left_zero_padding := [0; 0];
     right_zero_padding := [0; 0];
     strides := [1; 1];
     input_feature_map_count := 4;
     output_feature_map_count := 6;
     feature_map_connection_sparsity_ratio := F_minus_1_0;
     feature_map_connection_count := 12;
     bias := true |}.


(** What the optional third input of the loss layer must look like: one
    feature map, and as many neurons per feature map as the first input. *)
Definition scaling_input_ok (input0 : layer_configuration_specific)
    (rest : list layer_configuration_specific) : Prop :=
  match rest with
  | [] => True
  | input2 :: _ =>
      feature_map_count input2 = 1
      /\ get_neuron_count_per_feature_map input2 = get_neuron_count_per_feature_map input0
  end.

(** Two inputs with 10 feature maps and spatial sizes [1]. *)
Definition example_nll_input : layer_configuration_specific :=
  {| feature_map_count := 10; dimension_sizes := [1] |}.

Definition example_nll_input_5 : layer_configuration_specific :=
  {| feature_map_count := 5; dimension_sizes := [1] |}.

Definition example_nll : negative_log_likelihood_layer := {| scale := F_1_0 |}.

(** A padding or stride list handed to a constructor is acceptable when it
    is empty or has one entry per window dimension. *)
Definition dimension_count_ok (given window_sizes_ : list Z) : Prop :=
  given = [] \/ length given = length window_sizes_.

(** The object a constructor builds from its arguments once the
    dimension counts are accepted: empty lists are replaced by defaults. *)
Definition constructed (window_sizes_ : list Z)
    (input_feature_map_count_ output_feature_map_count_ : Z) (ratio : float)
    (feature_map_connection_count_ : Z)
    (left_zero_padding_ right_zero_padding_ strides_ : list Z) (bias_ : bool)
  : sparse_convolution_layer :=
  {| window_sizes := window_sizes_;
     left_zero_padding := resize_or_copy left_zero_padding_ (length window_sizes_) 0;
     right_zero_padding := resize_or_copy right_zero_padding_ (length window_sizes_) 0;
     strides := resize_or_copy strides_ (length window_sizes_) 1;
     input_feature_map_count := input_feature_map_count_;
     output_feature_map_count := output_feature_map_count_;
     feature_map_connection_sparsity_ratio := ratio;
     feature_map_connection_count := feature_map_connection_count_;
     bias := bias_ |}.

(** Some entry of [padding] is greater than or equal to its window size. *)
Definition padding_too_large (padding window_sizes_ : list Z) : Prop :=
  exists i p w, padding !! i = Some p /\ window_sizes_ !! i = Some w /\ w <= p.

(** The conditions under which [check] is said to reject the parameters. *)
Definition rejected (window_sizes_ : list Z)
    (input_feature_map_count_ output_feature_map_count_ feature_map_connection_count_ : Z)
    (left_zero_padding_ right_zero_padding_ strides_ : list Z) : Prop :=
  Exists (fun w => w = 0) window_sizes_
  \/ feature_map_connection_count_ < Z.max input_feature_map_count_ output_feature_map_count_
  \/ input_feature_map_count_ * output_feature_map_count_ < feature_map_connection_count_
  \/ padding_too_large left_zero_padding_ window_sizes_
  \/ padding_too_large right_zero_padding_ window_sizes_
  \/ Exists (fun s => s = 0) strides_.

(** The message [e] names a field of [this] that violates its constraint. *)
Definition names_failing_field (e : message) (this : sparse_convolution_layer) : Prop :=
  (e = boost_format "window dimension for sparse convolution layer may not be zero" []
   /\ exists i, window_sizes this !! i = Some 0)
  \/ (e = boost_format
            "feature_map_connection_count may not be smaller than input_feature_map_count" []
      /\ feature_map_connection_count this < input_feature_map_count this)
  \/ (e = boost_format
            "feature_map_connection_count may not be smaller than output_feature_map_count" []
      /\ feature_map_connection_count this < output_feature_map_count this)
  \/ (e = boost_format "feature_map_connection_count may not be larger than in dense case" []
      /\ u32 (input_feature_map_count this * output_feature_map_count this)
           < feature_map_connection_count this)
  \/ (exists (i : nat) p w,
        e = boost_format
              "left zero padding %1% of dimension (%2%) is greater or equal than layer window size (%3%)"
              [p; Z.of_nat i; w]
        /\ left_zero_padding this !! i = Some p /\ window_sizes this !! i = Some w /\ w <= p)
  \/ (exists (i : nat) p w,
        e = boost_format
              "right zero padding %1% of dimension (%2%) is greater or equal than layer window size (%3%)"
              [p; Z.of_nat i; w]
        /\ right_zero_padding this !! i = Some p /\ window_sizes this !! i = Some w /\ w <= p)
  \/ (exists i : nat,
        e = boost_format "stride dimension (%1%) is 0" [Z.of_nat i]
        /\ strides this !! i = Some 0).

(** What [check] accepts. *)
Definition accepted_by_check (this : sparse_convolution_layer) : Prop :=
  (forall i w, window_sizes this !! i = Some w -> w <> 0)
  /\ input_feature_map_count this <= feature_map_connection_count this
  /\ output_feature_map_count this <= feature_map_connection_count this
  /\ feature_map_connection_count this
       <= u32 (input_feature_map_count this * output_feature_map_count this)
  /\ (forall i p w, left_zero_padding this !! i = Some p ->
                    window_sizes this !! i = Some w -> p < w)
  /\ (forall i p w, right_zero_padding this !! i = Some p ->
                    window_sizes this !! i = Some w -> p < w)
  /\ (forall i s, strides this !! i = Some s -> s <> 0).

(** The exception thrown for a list of [n] entries given as [what]. *)
Definition invalid_dimension_count (what : string) (n : nat) : exception :=
  runtime_error (boost_format ("Invalid dimension count %1% for " ++ what) [Z.of_nat n]).

(** A valid edge-count construction: window 3x3, padding and strides left
    to their defaults. *)
Definition example_defaults : outcome sparse_convolution_layer :=
  sparse_convolution_layer_count [3; 3] 4 6 12 [] [] [] true.

(** Binary32 0.5. *)
Definition example_ratio : float := F_0_5.

(** An input with 4 feature maps of 10x10 neurons. *)
Definition example_input : layer_configuration_specific :=
  {| feature_map_count := 4; dimension_sizes := [10; 10] |}.

Definition action (t : action_type) (backprop_index : nat) : layer_action :=
  {| get_action_type := t; get_backprop_index := backprop_index |}.

(** The rational number a finite binary32 value stands for. *)
Definition float_value (f : float) : option Q :=
  match f with
  | S754_zero _ => Some 0%Q
  | S754_finite s m e =>
      let sm := if s then Z.neg m else Z.pos m in
      Some (if 0 <=? e then inject_Z (sm * 2 ^ e)
            else Qmake sm (2 ^ Z.to_pos (- e))%positive)
  | _ => None
  end.

(** [round]: the nearest integer, halves rounded up. *)
Definition round_half_up (q : Q) : Z := Qfloor (q + (1 # 2))%Q.

(** A stored ratio of 0.5 with 4 input and 6 output feature maps. *)
Definition example_param : SparseConvolutionalParam :=
  {| param_input_feature_map_count := 4;
     param_output_feature_map_count := 6;
     param_bias := true;
     dimension_param :=
       [ {| kernel_size := 3; left_padding := 0; right_padding := 0; stride := 1 |};
         {| kernel_size := 3; left_padding := 0; right_padding := 0; stride := 1 |} ];
     param_feature_map_connection_count := None;
     param_feature_map_connection_sparsity_ratio := Some F_0_5 |}.

(** Window 3, stride 2, one input and one output feature map. *)
Definition example_strided_layer : sparse_convolution_layer :=
  {| window_sizes := [3];
     left_zero_padding := [0];
     right_zero_padding := [0];
     strides := [2];
     input_feature_map_count := 1;
     output_feature_map_count := 1;
     feature_map_connection_sparsity_ratio := F_minus_1_0;
     feature_map_connection_count := 1;
     bias := true |}.

Definition example_strided_input : layer_configuration_specific :=
  {| feature_map_count := 1; dimension_sizes := [10] |}.

(** The part of the padded input that the last window position leaves
    uncovered: [(d + l + r - w) mod s] in [unsigned int] arithmetic. *)
Definition uncovered (d l r w s : Z) : Z := (u32 (d + l + r) - w) mod s.

(** ** Degrees of a connection matrix *)

(** Entry [k] of the row-major matrix; [false] outside it. *)
Definition entry (m : list bool) (k : nat) : bool := default false (m !! k).

(** The number of [i] in [[from, from + n)] for which [p i] holds. *)
Fixpoint count_range (p : nat -> bool) (from n : nat) : nat :=
  match n with
  | O => O
  | S n' => ((if p from then 1 else 0) + count_range p (S from) n')%nat
  end.

(** The sum of [f i] for [i] in [[from, from + n)]. *)
Fixpoint sum_range (f : nat -> nat) (from n : nat) : nat :=
  match n with
  | O => O
  | S n' => (f from + sum_range f (S from) n')%nat
  end.

(** The number of inputs connected to output [o]. *)
Definition output_degree (m : list bool) (ic o : nat) : nat :=
  count_range (fun i => entry m (o * ic + i)) 0 ic.

(** The number of outputs connected to input [i]. *)
Definition input_degree (m : list bool) (oc ic i : nat) : nat :=
  count_range (fun o => entry m (o * ic + i)) 0 oc.

(** The number of [true] entries. *)
Definition true_entries (m : list bool) : nat := count_range (entry m) 0 (length m).

(** The ids in [[0, n)] whose degree is below [cap], as the code lists them. *)
Definition ids_below (degree : nat -> nat) (n : nat) (cap : Z) : list Z :=
  map Z.of_nat (filter (fun i => Z.of_nat (degree i) < cap) (seq 0 n)).

(** What holds of the local variables of a pass after [placed] edges were
    added to a matrix with [oc] rows and [ic] columns. *)
Record attempt_inv (oc ic : nat) (c : caps) (placed : nat) (a : attempt) : Prop := {
  inv_length : length (local_connection_matrix a) = (oc * ic)%nat;
  inv_placed : true_entries (local_connection_matrix a) = placed;
  inv_output_counts :
    output_feature_map_connection_count_list a
    = map (fun o => Z.of_nat (output_degree (local_connection_matrix a) ic o)) (seq 0 oc);
  inv_input_counts :
    input_feature_map_connection_count_list a
    = map (fun i => Z.of_nat (input_degree (local_connection_matrix a) oc ic i)) (seq 0 ic);
  inv_output_available :
    NoDup (output_feature_map_id_available_list a)
    /\ forall x, x ∈ output_feature_map_id_available_list a
         <-> exists o, x = Z.of_nat o /\ (o < oc)%nat
               /\ Z.of_nat (output_degree (local_connection_matrix a) ic o)
                    < max_connections_for_output_feature_map c;
  inv_output_available_overflow :
    NoDup (output_feature_map_id_available_overflow_list a)
    /\ forall x, x ∈ output_feature_map_id_available_overflow_list a
         <-> exists o, x = Z.of_nat o /\ (o < oc)%nat
               /\ Z.of_nat (output_degree (local_connection_matrix a) ic o)
                    < max_connections_for_output_feature_map_overflow c;
  inv_input_available :
    NoDup (input_feature_map_id_available_list a)
    /\ forall x, x ∈ input_feature_map_id_available_list a
         <-> exists i, x = Z.of_nat i /\ (i < ic)%nat
               /\ Z.of_nat (input_degree (local_connection_matrix a) oc ic i)
                    < max_connections_for_input_feature_map c;
  inv_input_available_overflow :
    NoDup (input_feature_map_id_available_overflow_list a)
    /\ forall x, x ∈ input_feature_map_id_available_overflow_list a
         <-> exists i, x = Z.of_nat i /\ (i < ic)%nat
               /\ Z.of_nat (input_degree (local_connection_matrix a) oc ic i)
                    < max_connections_for_input_feature_map_overflow c;
  inv_output_sum :
    sum_range (output_degree (local_connection_matrix a) ic) 0 oc = placed;
  inv_input_sum :
    sum_range (input_degree (local_connection_matrix a) oc ic) 0 ic = placed;
  inv_output_degree :
    forall o, (o < oc)%nat ->
      Z.of_nat (output_degree (local_connection_matrix a) ic o)
        <= max_connections_for_output_feature_map_overflow c;
  inv_input_degree :
    forall i, (i < ic)%nat ->
      Z.of_nat (input_degree (local_connection_matrix a) oc ic i)
        <= max_connections_for_input_feature_map_overflow c;
  inv_cursor :
    0 <= current_output_feature_map_index a
    /\ (explore_strict a = true ->
        output_feature_map_id_available_list a <> []
        /\ input_feature_map_id_available_list a <> []
        /\ current_output_feature_map_index a
             < Z.of_nat (length (output_feature_map_id_available_list a)))
}.

(** The caps of a pass did not wrap around: each overflow cap is above
    its cap, and the caps allow for all the edges. *)
Record caps_ok (oc ic ec : Z) (c : caps) : Prop := {
  caps_output_lt :
    max_connections_for_output_feature_map c
      < max_connections_for_output_feature_map_overflow c;
  caps_input_lt :
    max_connections_for_input_feature_map c
      < max_connections_for_input_feature_map_overflow c;
  caps_output_room : ec <= oc * max_connections_for_output_feature_map c;
  caps_input_room : ec <= ic * max_connections_for_input_feature_map c
}.

(** [x] is the id of one of [n] feature maps. *)
Definition is_id (n : nat) (x : Z) : Prop := exists k, x = Z.of_nat k /\ (k < n)%nat.

(** The pair [(o, i)] names a cell of the matrix that is not connected
    yet, between an output and an input that are both below their overflow
    caps. *)
Definition placeable (oc ic : nat) (c : caps) (m : list bool) (o i : Z) : Prop :=
  exists on inn,
    o = Z.of_nat on /\ i = Z.of_nat inn /\ (on < oc)%nat /\ (inn < ic)%nat
    /\ entry m (on * ic + inn) = false
    /\ Z.of_nat (output_degree m ic on) < max_connections_for_output_feature_map_overflow c
    /\ Z.of_nat (input_degree m oc ic inn) < max_connections_for_input_feature_map_overflow c.

(** What a committed matrix looks like: [oc] rows of [ic] cells, exactly
    [ec] of them [true], and every degree within the overflow cap of the
    pass that produced it. *)
Definition generated (oc ic : nat) (ec : Z) (c : caps) (m : list bool) : Prop :=
  length m = (oc * ic)%nat
  /\ Z.of_nat (true_entries m) = ec
  /\ (forall o, (o < oc)%nat ->
        Z.of_nat (output_degree m ic o) <= max_connections_for_output_feature_map_overflow c)
  /\ (forall i, (i < ic)%nat ->
        Z.of_nat (input_degree m oc ic i) <= max_connections_for_input_feature_map_overflow c).

(** The matrix [randomize_custom_data] starts from. *)
Definition all_false (oc ic : Z) : list bool := replicate (Z.to_nat (oc * ic)) false.

(** ** A run of the generator that retries for ever

    Two outputs, two inputs, three edges. The script [[0; 1]] makes the
    first pass connect (0, 0) and (1, 1); every later draw is 0. *)
Definition stuck_script : script := [0; 1].

(** The local variables of a later pass: at its start, after the edge
    (0, 0), and after the edge (1, 0). No id leaves a list, the caps being
    above every degree. *)
Definition stuck_start : attempt :=
  {| local_connection_matrix := [false; false; false; false];
     output_feature_map_connection_count_list := [0; 0];
     output_feature_map_id_available_list := [0; 1];
     output_feature_map_id_available_overflow_list := [0; 1];
     input_feature_map_connection_count_list := [0; 0];
     input_feature_map_id_available_list := [0; 1];
     input_feature_map_id_available_overflow_list := [0; 1];
     explore_strict := true;
     current_output_feature_map_index := 0 |}.

Definition stuck_after_one : attempt :=
  {| local_connection_matrix := [true; false; false; false];
     output_feature_map_connection_count_list := [1; 0];
     output_feature_map_id_available_list := [0; 1];
     output_feature_map_id_available_overflow_list := [0; 1];
     input_feature_map_connection_count_list := [1; 0];
     input_feature_map_id_available_list := [0; 1];
     input_feature_map_id_available_overflow_list := [0; 1];
     explore_strict := true;
     current_output_feature_map_index := 1 |}.

Definition stuck_after_two : attempt :=
  {| local_connection_matrix := [true; false; true; false];
     output_feature_map_connection_count_list := [1; 1];
     output_feature_map_id_available_list := [0; 1];
     output_feature_map_id_available_overflow_list := [0; 1];
     input_feature_map_connection_count_list := [2; 0];
     input_feature_map_id_available_list := [0; 1];
     input_feature_map_id_available_overflow_list := [0; 1];
     explore_strict := true;
     current_output_feature_map_index := 0 |}.

(** A margin at which [1.01F] times the cap no longer fits an
    [unsigned int]. *)
Definition last_margin : Z := 2 ^ 32 - 10.

(** ** A run that ends above the cap

    Three outputs, three inputs, six edges, cap 2 on both sides. The
    script connects (0,0), (1,1), (2,2), (0,1), (1,0); the strict lists are
    then down to output 2 and input 2, which are connected already, so the
    20 + 100 strict tries fail and the overflow tier connects (2, 0). *)
Definition overflow_script : script := [0; 1; 2; 1; 0] ++ replicate 220 0 ++ [2; 0].

(** ** The compressed-row representation *)

(** The inputs below [n] that output [o] is connected to, in increasing
    order. *)
Definition row_inputs (m : list bool) (ic o n : nat) : list Z :=
  map Z.of_nat (filter (fun i => entry m (o * ic + i) = true) (seq 0 n)).

(** The connected inputs of the rows before [o], row after row. *)
Definition flat_inputs (m : list bool) (ic o : nat) : list Z :=
  concat (map (fun k => row_inputs m ic k ic) (seq 0 o)).

(** The offsets of the rows before [n]. *)
Definition row_offsets (m : list bool) (ic n : nat) : list Z :=
  map (fun k => Z.of_nat (length (flat_inputs m ic k))) (seq 0 n).

(** [cols[lo .. hi)] *)
Definition segment (cols : list Z) (lo hi : Z) : list Z :=
  take (Z.to_nat (hi - lo)) (drop (Z.to_nat lo) cols).

(** The column indices [cols] and the offset table [rows] represent the
    matrix [m] of [oc] rows and [ic] columns. *)
Record csr_consistent (oc ic : nat) (m : list bool) (cols rows : list Z) : Prop := {
  csr_rows_length : length rows = S oc;
  csr_first : rows !! O = Some 0;
  csr_monotone :
    forall o lo hi, rows !! o = Some lo -> rows !! S o = Some hi -> lo <= hi;
  csr_last : rows !! oc = Some (Z.of_nat (true_entries m));
  csr_row :
    forall o lo hi, (o < oc)%nat -> rows !! o = Some lo -> rows !! S o = Some hi ->
      (forall i, Z.of_nat i ∈ segment cols lo hi
                 <-> (i < ic)%nat /\ entry m (o * ic + i) = true)
      /\ (forall x, x ∈ segment cols lo hi -> 0 <= x < Z.of_nat ic)
      /\ StronglySorted Z.lt (segment cols lo hi)
}.

(** Three input and three output feature maps, six connections. *)
Definition example_sparse_layer : sparse_convolution_layer :=
  {| window_sizes := [3; 3];
     left_zero_padding := [0; 0];
     right_zero_padding := [0; 0];
     strides := [1; 1];
     input_feature_map_count := 3;
     output_feature_map_count := 3;
     feature_map_connection_sparsity_ratio := F_minus_1_0;
     feature_map_connection_count := 6;
     bias := true |}.

(** ** Weight initialisation *)

(** The product of the window sizes as [randomize_weights] computes it. *)
Definition window_volume (this : sparse_convolution_layer) : Z :=
  fold_left (fun weight_count x => u32 (weight_count * x)) (window_sizes this) 1.

(** [sqrt(1 / (sqrt(k * output_feature_map_count) * window_volume))] in
    binary32, for an output with [k] connected inputs. *)
Definition weight_standard_deviation (this : sparse_convolution_layer) (k : Z) : float :=
  sqrtf (fdiv F_1_0
           (fmul (sqrtf (fmul (float_of_uint k)
                              (float_of_uint (output_feature_map_count this))))
                 (float_of_uint (window_volume this)))).

(** [val] is a draw from the normal distribution with mean 0 and the given
    standard deviation, the test [fabs(val) > max_abs_value] of the
    rejection loop is false for it, and so its magnitude is at most 100
    standard deviations (when neither is a NaN, which compares with
    nothing). *)
Definition accepted_draw {G : Type} `{random_generator G}
    (standard_deviation : float) (val : float) : Prop :=
  (exists g : G, val = fst (normal_distribution F_0_0 standard_deviation g))
  /\ fgt (fabs val) (fmul F_100_0 standard_deviation) = false
  /\ (fabs val <> S754_nan -> fmul F_100_0 standard_deviation <> S754_nan ->
      fle (fabs val) (fmul F_100_0 standard_deviation) = true).

(** The weights written for output [o], whose in-degree is read from the
    offset table [rows]. *)
Definition weights_of_output {G : Type} `{random_generator G}
    (this : sparse_convolution_layer) (rows : list Z) (o : nat) (block : list float) : Prop :=
  exists lo hi,
    rows !! o = Some lo /\ rows !! S o = Some hi
    /\ let k := u32 (hi - lo) in
       length block = (if 0 <? k then Z.to_nat (u32 (window_volume this * k)) else O)
       /\ Forall (accepted_draw (G := G) (weight_standard_deviation this k)) block.

(** A draw script for the weights of [example_sparse_layer]: the first
    draw is 200 standard deviations out and is rejected. *)
Definition weight_script : script := 200 :: replicate 54 1.

Definition example_data_custom : list (list Z) := [[0; 1; 0; 1; 0; 2]; [0; 2; 4; 6]].

Definition example_data : list (list float) := [replicate 54 F_1_0; replicate 3 F_1_0].


(** * The remaining member functions *)

From stdpp Require Import gmap pretty.

Local Open Scope Z_scope.

(** ** Serialisation of the sparse convolution layer *)

(** Modelled from the spec: the protobuf messages are generated code that
    is not part of the sources. A message holds every optional field as an
    option, [None] until its setter is called ("write only non-default
    fields (omission implies a documented default ...)"). *)
Record dimension_param_message := {
  msg_kernel_size : option Z;
  msg_left_padding : option Z;
  msg_right_padding : option Z;
  msg_stride : option Z
}.

Record sparse_convolution_param_message := {
  msg_output_feature_map_count : option Z;
  msg_input_feature_map_count : option Z;
  msg_bias : option bool;
  msg_feature_map_connection_sparsity_ratio : option float;
  msg_feature_map_connection_count : option Z;
  msg_dimension_param : list dimension_param_message
}.

(** Lines 209-216: the message added for dimension [i]. *)
Definition write_dimension_param (this : sparse_convolution_layer) (i : nat)
  : outcome dimension_param_message :=
  w ← at_ (window_sizes this) i;
  l ← at_ (left_zero_padding this) i;
  r ← at_ (right_zero_padding this) i;
  s ← at_ (strides this) i;
  Ret {| msg_kernel_size := Some w;
         msg_left_padding := if 0 <? l then Some l else None;
         msg_right_padding := if 0 <? r then Some r else None;
         msg_stride := if 1 <? s then Some s else None |}.

(** [sparse_convolution_layer::write_proto], on a fresh message. *)
Definition write_proto (this : sparse_convolution_layer)
  : outcome sparse_convolution_param_message :=
  let by_ratio := fge (feature_map_connection_sparsity_ratio this) F_0_0 in
  dims ←
    for_ (length (window_sizes this)) 0%nat (fun i dims =>
      dim_param ← write_dimension_param this i;
      Ret (dims ++ [dim_param])) [];
  Ret {| msg_output_feature_map_count := Some (output_feature_map_count this);
         msg_input_feature_map_count := Some (input_feature_map_count this);
         msg_bias := if negb (bias this) then Some false else None;
         msg_feature_map_connection_sparsity_ratio :=
           if by_ratio then Some (feature_map_connection_sparsity_ratio this) else None;
         msg_feature_map_connection_count :=
           if by_ratio then None else Some (feature_map_connection_count this);
         msg_dimension_param := dims |}.

(** Modelled from the spec: the schema, which is not part of the sources,
    fixes the value an accessor returns for a field that was never set. *)
Record schema_defaults := {
  default_output_feature_map_count : Z;
  default_input_feature_map_count : Z;
  default_bias : bool;
  default_kernel_size : Z;
  default_left_padding : Z;
  default_right_padding : Z;
  default_stride : Z
}.

(** What the accessors of a message return under the defaults [d]: the
    record [read_proto] reads. *)
Definition accessors (d : schema_defaults) (m : sparse_convolution_param_message)
  : SparseConvolutionalParam :=
  {| param_input_feature_map_count :=
       default (default_input_feature_map_count d) (msg_input_feature_map_count m);
     param_output_feature_map_count :=
       default (default_output_feature_map_count d) (msg_output_feature_map_count m);
     param_bias := default (default_bias d) (msg_bias m);
     dimension_param :=
       map (fun dm =>
              {| kernel_size := default (default_kernel_size d) (msg_kernel_size dm);
                 left_padding := default (default_left_padding d) (msg_left_padding dm);
                 right_padding := default (default_right_padding d) (msg_right_padding dm);
                 stride := default (default_stride d) (msg_stride dm) |})
           (msg_dimension_param m);
     param_feature_map_connection_count := msg_feature_map_connection_count m;
     param_feature_map_connection_sparsity_ratio :=
       msg_feature_map_connection_sparsity_ratio m |}.

(** The defaults under which [write_proto] leaves fields out: bias on, no
    padding, stride 1. *)
Definition omitted_defaults (d : schema_defaults) : Prop :=
  default_bias d = true /\ default_left_padding d = 0
  /\ default_right_padding d = 0 /\ default_stride d = 1.

Definition example_schema : schema_defaults :=
  {| default_output_feature_map_count := 0;
     default_input_feature_map_count := 0;
     default_bias := true;
     default_kernel_size := 0;
     default_left_padding := 0;
     default_right_padding := 0;
     default_stride := 1 |}.

(** The class invariant: one padding and one stride per window dimension,
    every field an [unsigned int], and nothing for [check] to reject. *)
Record well_formed (this : sparse_convolution_layer) : Prop := {
  wf_left : length (left_zero_padding this) = length (window_sizes this);
  wf_right : length (right_zero_padding this) = length (window_sizes this);
  wf_strides : length (strides this) = length (window_sizes this);
  wf_window_u32 : Forall is_u32 (window_sizes this);
  wf_left_u32 : Forall is_u32 (left_zero_padding this);
  wf_right_u32 : Forall is_u32 (right_zero_padding this);
  wf_strides_u32 : Forall is_u32 (strides this);
  wf_check : accepted_by_check this
}.

(** ** Layout of the learnable data *)

(** Modelled from the spec: [layer_data_configuration] is declared in a
    header that is not part of the sources; the code builds it from an input
    feature map count, an output feature map count and a list of dimension
    sizes. *)
Record layer_data_configuration := {
  data_input_feature_map_count : Z;
  data_output_feature_map_count : Z;
  data_dimension_sizes : list Z
}.

(** [sparse_convolution_layer::get_layer_data_configuration_list] *)
Definition get_layer_data_configuration_list (this : sparse_convolution_layer)
  : list layer_data_configuration :=
  let res :=
    [] ++ [{| data_input_feature_map_count := 1;
              data_output_feature_map_count := feature_map_connection_count this;
              data_dimension_sizes := window_sizes this |}] in
  if bias this then
    res ++ [{| data_input_feature_map_count := 1;
               data_output_feature_map_count := output_feature_map_count this;
               data_dimension_sizes := [] |}]
  else res.

(** [sparse_convolution_layer::get_weight_decay_part_id_set] *)
Definition get_weight_decay_part_id_set (this : sparse_convolution_layer) : gset Z :=
  {[ 0 ]} ∪ ∅.

(** The number of values a data configuration stands for. *)
Definition data_configuration_size (c : layer_data_configuration) : Z :=
  data_input_feature_map_count c * data_output_feature_map_count c
  * product (data_dimension_sizes c).

Section RandomizeData.
Context {G : Type} `{random_generator G}.

(** [sparse_convolution_layer::randomize_data]; [fuel] bounds the passes
  of the connectivity generator and the draws for one weight. *)
Definition randomize_data (fuel : nat) (this : sparse_convolution_layer)
  (data : list (list float)) (data_custom : list (list Z)) (g : G)
: outcome (list (list float) * list (list Z) * G) :=
'(data_custom, g) ← randomize_custom_data fuel this data_custom g;
'(data, g) ← randomize_weights fuel this data data_custom g;
Ret (data, data_custom, g).
End RandomizeData.

(** ** The parameter summary *)

(** [ss << x] for an [unsigned int]. *)
Definition put_uint (ss : string) (x : Z) : string := ss +:+ pretty x.

(** Lines 567-572: [ss << window_sizes[0] << "x" << window_sizes[1] ...],
    the same loop as at lines 611-616 for the strides. *)
Definition put_sizes (ss : string) (sizes : list Z) : outcome string :=
  for_ (length sizes) 0%nat (fun i ss =>
    x ← at_ sizes i;
    let ss := if negb (i =? 0)%nat then ss +:+ "x" else ss in
    Ret (put_uint ss x)) ss.

(** Lines 576-584: the scan that ends at the first dimension with a
    padding; [n] dimensions are left to look at, from [i] on. *)
Fixpoint scan_empty_padding (this : sparse_convolution_layer) (n i : nat) : outcome bool :=
  match n with
  | O => Ret true
  | S n' =>
      l ← at_ (left_zero_padding this) i;
      if negb (l =? 0) then Ret false
      else
        r ← at_ (right_zero_padding this) i;
        if negb (r =? 0) then Ret false
        else scan_empty_padding this n' (S i)
  end.

(** Lines 588-596. *)
Definition put_padding (ss : string) (this : sparse_convolution_layer) : outcome string :=
  for_ (length (left_zero_padding this)) 0%nat (fun i ss =>
    let ss := if negb (i =? 0)%nat then ss +:+ "x" else ss in
    l ← at_ (left_zero_padding this) i;
    r ← at_ (right_zero_padding this) i;
    if l =? r then Ret (put_uint ss l)
    else Ret (put_uint (put_uint ss l +:+ "_") r)) ss.

(** Lines 599-607: the scan that ends at the first stride other than 1. *)
Fixpoint scan_empty_stride (this : sparse_convolution_layer) (n i : nat) : outcome bool :=
  match n with
  | O => Ret true
  | S n' =>
      s ← at_ (strides this) i;
      if negb (s =? 1) then Ret false
      else scan_empty_stride this n' (S i)
  end.

Section ParameterStrings.
(** [(boost::format("%|1$.5f|") % x).str()]: the decimal rendering of a
  [float] belongs to the library. *)
Variable format_5f : float -> string.

(** [sparse_convolution_layer::get_parameter_strings] *)
Definition get_parameter_strings (this : sparse_convolution_layer) : outcome (list string) :=
let res := [] in
let ss := "" in
ss ← (if bool_decide (window_sizes this = []) then Ret (ss +:+ "fc")
      else put_sizes ss (window_sizes this));
let ss :=
  put_uint (put_uint (ss +:+ ", fm ") (input_feature_map_count this) +:+ "x")
    (output_feature_map_count this) in
empty_padding ← scan_empty_padding this (length (left_zero_padding this)) 0;
ss ← (if negb empty_padding then put_padding (ss +:+ ", pad ") this else Ret ss);
empty_stride ← scan_empty_stride this (length (strides this)) 0;
ss ← (if negb empty_stride then put_sizes (ss +:+ ", stride ") (strides this)
      else Ret ss);
let ss := if negb (bias this) then ss +:+ ", w/out bias" else ss in
let res := res ++ [ss] in
let ss := "" in
let ss :=
  if fge (feature_map_connection_sparsity_ratio this) F_0_0
  then ss +:+ ("sparsity ratio " +:+ format_5f (feature_map_connection_sparsity_ratio this))
  else put_uint (ss +:+ "connections ") (feature_map_connection_count this) in
Ret (res ++ [ss]).
End ParameterStrings.

(** ** Serialisation of the negative log likelihood layer *)

(** The constructor. *)
Definition negative_log_likelihood_layer_scale (scale_ : float)
  : negative_log_likelihood_layer := {| scale := scale_ |}.

(** Modelled from the spec: the generated message of the layer, with its
    one optional field. *)
Record negative_log_likelihood_param_message := { msg_scale : option float }.

(** [negative_log_likelihood_layer::write_proto], on a fresh layer message:
    the parameter message is created only when there is a scale to store. *)
Definition nll_write_proto (this : negative_log_likelihood_layer)
  : option negative_log_likelihood_param_message :=
  if fne (scale this) F_1_0 then Some {| msg_scale := Some (scale this) |} else None.

(** [negative_log_likelihood_layer::read_proto]; [default_scale] is what
    the accessor returns for a message without the field. *)
Definition nll_read_proto (default_scale : float)
    (negative_log_likelihood_param : option negative_log_likelihood_param_message)
  : negative_log_likelihood_layer :=
  match negative_log_likelihood_param with
  | None => {| scale := F_1_0 |}
  | Some param => {| scale := default default_scale (msg_scale param) |}
  end.

Section NllParameterStrings.
(** [ss << x] for a [float]: the rendering belongs to the library. *)
Variable put_float : string -> float -> string.

(** [negative_log_likelihood_layer::get_parameter_strings] *)
Definition nll_get_parameter_strings (this : negative_log_likelihood_layer) : list string :=
let res := [] in
let ss := "" in
let ss := if fne (scale this) F_1_0 then put_float (ss +:+ "scale ") (scale this) else ss in
res ++ [ss].
End NllParameterStrings.

(** [get_type_name] of the two layers. *)
Definition sparse_convolution_layer_type_name : string := "SparseConvolution".
Definition negative_log_likelihood_layer_type_name : string := "NegativeLogLikelihood".

(** The sparsity fields agree: the object records a ratio of at least
    zero together with the connection count computed from it, or the
    ratio [-1.0F] that stands for "count given". *)
Definition sparsity_recorded (this : sparse_convolution_layer) : Prop :=
  (fge (feature_map_connection_sparsity_ratio this) F_0_0 = true
   /\ connection_count_of_ratio (input_feature_map_count this) (output_feature_map_count this)
        (feature_map_connection_sparsity_ratio this)
      = Ret (feature_map_connection_count this))
  \/ feature_map_connection_sparsity_ratio this = F_minus_1_0.

(** A parameter message that stores both a connection count and a ratio. *)
Definition example_param_both : SparseConvolutionalParam :=
  {| param_input_feature_map_count := 4;
     param_output_feature_map_count := 6;
     param_bias := true;
     dimension_param := [];
     param_feature_map_connection_count := Some 24;
     param_feature_map_connection_sparsity_ratio := Some F_0_5 |}.

(** ** Shape inference *)

(** Dimension [i] of the input, with its padding, is smaller than the
    window (the test at line 164). *)
Definition too_small (this : sparse_convolution_layer)
    (input0 : layer_configuration_specific) (i : nat) : Prop :=
  exists d l r w,
    dimension_sizes input0 !! i = Some d /\ left_zero_padding this !! i = Some l
    /\ right_zero_padding this !! i = Some r /\ window_sizes this !! i = Some w
    /\ u32 (u32 (d + l) + r) < w.

(** Window 3x3 with padding 1 on both sides and stride 2. *)
Definition example_padded_layer : sparse_convolution_layer :=
  {| window_sizes := [3; 3];
     left_zero_padding := [1; 1];
     right_zero_padding := [1; 1];
     strides := [2; 2];
     input_feature_map_count := 4;
     output_feature_map_count := 6;
     feature_map_connection_sparsity_ratio := F_minus_1_0;
     feature_map_connection_count := 12;
     bias := false |}.

(** ** Matrices the generator starts from *)

(** A 2x2 matrix with the connection (0, 0) made, and one with two. *)
Definition example_started : list bool := [true; false; false; false].
Definition example_complete : list bool := [true; false; false; true].

(** [m'] has the cells of [m], and every connection of [m]. *)
Definition extends (m m' : list bool) : Prop :=
  length m' = length m /\ forall k, entry m k = true -> entry m' k = true.

(** A script for [randomize_data] on [example_sparse_layer]: the draws of
    the connectivity generator, then those of the weights. *)
Definition example_data_script : script := overflow_script ++ weight_script.

(** ** What the parameter summary says *)

(** ["x" p1 "x" p2 ...] *)
Fixpoint prefixed_x (parts : list string) : string :=
  match parts with
  | [] => ""
  | p :: rest => "x" +:+ p +:+ prefixed_x rest
  end.

(** The entries of [parts] with an "x" between any two of them. *)
Definition join_x (parts : list string) : string :=
  match parts with
  | [] => ""
  | p :: rest => p +:+ prefixed_x rest
  end.

(** One padding: a single number when both sides agree. *)
Definition padding_text (l r : Z) : string :=
  if l =? r then pretty l else pretty l +:+ "_" +:+ pretty r.

(** The first summary line: the window (or "fc"), the feature map counts,
    and then only what differs from the defaults: a padding other than 0,
    a stride other than 1, a missing bias. *)
Definition geometry_text (this : sparse_convolution_layer) : string :=
  (if bool_decide (window_sizes this = []) then "fc"
   else join_x (map pretty (window_sizes this)))
  +:+ ", fm " +:+ pretty (input_feature_map_count this)
  +:+ "x" +:+ pretty (output_feature_map_count this)
  +:+ (if forallb (fun p => (fst p =? 0) && (snd p =? 0))
            (zip (left_zero_padding this) (right_zero_padding this))
       then ""
       else ", pad " +:+ join_x (zip_with padding_text (left_zero_padding this)
                                   (right_zero_padding this)))
  +:+ (if forallb (fun s => s =? 1) (strides this) then ""
       else ", stride " +:+ join_x (map pretty (strides this)))
  +:+ (if bias this then "" else ", w/out bias").

(** A negative log likelihood layer with scale 0.5. *)
Definition example_scaled_nll : negative_log_likelihood_layer :=
  negative_log_likelihood_layer_scale F_0_5.

(** A scaling input with two feature maps. *)
Definition example_bad_scaling : layer_configuration_specific :=
  {| feature_map_count := 2; dimension_sizes := [1] |}.

(** * The statistics writer: [nnforge/stat_data_bunch_writer.cpp]

    - [double] is IEEE-754 binary64 (precision 53, emax 1024).
    - the two [std::map] members are finite maps from layer names; the maps
      handed in by callers are given as the sequence of their entries, in
      the order in which the iterator visits them.
    - a [const float *] is the list of the values from the pointer on;
      reading past its end is undefined behaviour.
    - the lock only orders concurrent calls and has no place in this
      sequential model. *)

Definition double := spec_float.

Definition prec64 : Z := 53.
Definition emax64 : Z := 1024.

Definition dadd : double -> double -> double := SFadd prec64 emax64.
Definition dsub : double -> double -> double := SFsub prec64 emax64.
Definition dmul : double -> double -> double := SFmul prec64 emax64.
Definition ddiv : double -> double -> double := SFdiv prec64 emax64.

(** [static_cast<double>(f)] for a [float] [f]: exact. *)
Definition double_of_float (f : float) : double :=
  match f with
  | S754_finite s m e => binary_normalize prec64 emax64 (if s then Z.neg m else Z.pos m) e s
  | _ => f
  end.

(** [static_cast<float>(d)] for a [double] [d]: rounded to nearest. *)
Definition float_of_double (d : double) : float :=
  match d with
  | S754_finite s m e => binary_normalize prec32 emax32 (if s then Z.neg m else Z.pos m) e s
  | _ => d
  end.

(** [(double)x] for an [unsigned int] [x]. *)
Definition double_of_uint (x : Z) : double := binary_normalize prec64 emax64 x 0 false.

Definition D_1_0 : double := binary_normalize prec64 emax64 1 0 false.

(** [std::min(a, b)] is [(b < a) ? b : a]. *)
Definition std_min (a b : float) : float := if SFltb b a then b else a.

(** [std::max(a, b)] is [(a < b) ? b : a]. *)
Definition std_max (a b : float) : float := if SFltb a b then b else a.

(** [running_stat] and [feature_map_data_stat] are declared in headers
    that are not part of the sources; these are the fields the code uses. *)
Record running_stat := {
  min_val : float;
  max_val : float;
  sum : double;
  sum_squared : double
}.

Record feature_map_data_stat := {
  stat_min : float;
  stat_max : float;
  stat_average : float;
  stat_std_dev : float
}.

Record stat_data_bunch_writer := {
  entry_count : Z;
  layer_name_to_running_stat_list_map : gmap string (list running_stat);
  layer_name_to_neuron_count_per_feature_map_map : gmap string Z
}.

(** [m.insert(std::make_pair(k, v))]: a key that is present keeps its
    value. *)
Definition map_insert_pair {V} (m : gmap string V) (k : string) (v : V) : gmap string V :=
  match m !! k with
  | Some _ => m
  | None => <[k := v]> m
  end.

(** [for (it = m.begin(); it != m.end(); ++it) body(it)] over the
    entries of a map, threading a state. *)
Fixpoint for_each {A S} (entries : list A) (body : A -> S -> outcome S) (s : S) : outcome S :=
  match entries with
  | [] => Ret s
  | x :: entries' => s' ← body x s; for_each entries' body s'
  end.

(** The constructor. *)
Definition stat_data_bunch_writer_new : stat_data_bunch_writer :=
  {| entry_count := 0;
     layer_name_to_running_stat_list_map := ∅;
     layer_name_to_neuron_count_per_feature_map_map := ∅ |}.

Section StatDataBunchWriter.
(** What the default constructor of [running_stat] builds: it is defined
  in the missing header. *)
Variable running_stat_default : running_stat.

(** [stat_data_bunch_writer::set_config_map] *)
Definition set_config_map (this : stat_data_bunch_writer)
  (config_map : list (string * layer_configuration_specific)) : stat_data_bunch_writer :=
let this :=
  {| entry_count := entry_count this;
     layer_name_to_running_stat_list_map := ∅;
     layer_name_to_neuron_count_per_feature_map_map :=
       layer_name_to_neuron_count_per_feature_map_map this |} in
foldl (fun this it =>
         {| entry_count := entry_count this;
            layer_name_to_running_stat_list_map :=
              map_insert_pair (layer_name_to_running_stat_list_map this) it.1
                (replicate (Z.to_nat (feature_map_count it.2)) running_stat_default);
            layer_name_to_neuron_count_per_feature_map_map :=
              map_insert_pair (layer_name_to_neuron_count_per_feature_map_map this) it.1
                (get_neuron_count_per_feature_map it.2) |})
      this config_map.

(** Lines 59-65: one value read through [data] and added to the
  statistics of the feature map. *)
Definition add_value (current_running_stat : running_stat) (val : float) : running_stat :=
{| min_val := std_min (min_val current_running_stat) val;
   max_val := std_max (max_val current_running_stat) val;
   sum := dadd (sum current_running_stat) (double_of_float val);
   sum_squared := dadd (sum_squared current_running_stat) (double_of_float (fmul val val)) |}.

(** Lines 57-66: [n] values read through [data]; the result is the
  statistics and the advanced pointer. *)
Fixpoint read_values (n : nat) (data : list float) (current_running_stat : running_stat)
: outcome (running_stat * list float) :=
match n with
| O => Ret (current_running_stat, data)
| S n' =>
    match data with
    | [] => Undefined
    | val :: data' => read_values n' data' (add_value current_running_stat val)
    end
end.

(** Lines 68-74: the statistics of one entry merged into the running
  ones. *)
Definition merge_stat (old current_running_stat : running_stat) : running_stat :=
{| min_val := std_min (min_val old) (min_val current_running_stat);
   max_val := std_max (max_val old) (max_val current_running_stat);
   sum := dadd (sum old) (sum current_running_stat);
   sum_squared := dadd (sum_squared old) (sum_squared current_running_stat) |}.

(** Lines 54-75: one pass of the loop over the feature maps. *)
Definition write_feature_map (neuron_count_per_feature_map : Z) (feature_map_id : nat)
  (s : list running_stat * list float) : outcome (list running_stat * list float) :=
let '(running_stats, data) := s in
'(current_running_stat, data) ←
  read_values (Z.to_nat neuron_count_per_feature_map) data running_stat_default;
old ← at_ running_stats feature_map_id;
running_stats ← set_at running_stats feature_map_id (merge_stat old current_running_stat);
Ret (running_stats, data).

(** Lines 47-76: one pass of the loop over [data_map]. [find] on a name
  that is not there gives [end()], which the code dereferences;
  [operator[]] on the other map adds a missing name with the value 0. *)
Definition write_layer (it : string * list float) (this : stat_data_bunch_writer)
: outcome stat_data_bunch_writer :=
let layer_name := it.1 in
let data := it.2 in
match layer_name_to_running_stat_list_map this !! layer_name with
| None => Undefined
| Some running_stats =>
    let '(neuron_count_per_feature_map, neuron_count_map) :=
      match layer_name_to_neuron_count_per_feature_map_map this !! layer_name with
      | Some n => (n, layer_name_to_neuron_count_per_feature_map_map this)
      | None => (0, <[layer_name := 0]> (layer_name_to_neuron_count_per_feature_map_map this))
      end in
    let feature_map_count := u32 (Z.of_nat (length running_stats)) in
    '(running_stats, _) ←
      for_ (Z.to_nat feature_map_count) 0%nat
        (write_feature_map neuron_count_per_feature_map) (running_stats, data);
    Ret {| entry_count := entry_count this;
           layer_name_to_running_stat_list_map :=
             <[layer_name := running_stats]> (layer_name_to_running_stat_list_map this);
           layer_name_to_neuron_count_per_feature_map_map := neuron_count_map |}
end.

(** [stat_data_bunch_writer::write(data_map)] *)
Definition write (this : stat_data_bunch_writer) (data_map : list (string * list float))
: outcome stat_data_bunch_writer :=
this ← for_each data_map write_layer this;
Ret {| entry_count := u32 (entry_count this + 1);
       layer_name_to_running_stat_list_map := layer_name_to_running_stat_list_map this;
       layer_name_to_neuron_count_per_feature_map_map :=
         layer_name_to_neuron_count_per_feature_map_map this |}.

(** [stat_data_bunch_writer::write(entry_id, data_map)] *)
Definition write_entry (this : stat_data_bunch_writer) (entry_id : Z)
  (data_map : list (string * list float)) : outcome stat_data_bunch_writer :=
write this data_map.
End StatDataBunchWriter.

(** Lines 102-112: the statistics reported for one feature map. *)
Definition new_stat (mult : double) (current_running_stat : running_stat)
  : feature_map_data_stat :=
  let avg := dmul (sum current_running_stat) mult in
  let avg_sq := dmul (sum_squared current_running_stat) mult in
  {| stat_min := min_val current_running_stat;
     stat_max := max_val current_running_stat;
     stat_average := float_of_double avg;
     stat_std_dev := sqrtf (float_of_double (dsub avg_sq (dmul avg avg))) |}.

(** Lines 92-116: one pass of the loop over the running statistics. *)
Definition get_stat_layer (this : stat_data_bunch_writer) (it : string * list running_stat)
    (res : gmap string (list feature_map_data_stat))
  : outcome (gmap string (list feature_map_data_stat)) :=
  let layer_name := it.1 in
  let running_stats := it.2 in
  match layer_name_to_neuron_count_per_feature_map_map this !! layer_name with
  | None => Undefined
  | Some neuron_count_per_feature_map =>
      let mult :=
        ddiv D_1_0 (dmul (double_of_uint (entry_count this))
                         (double_of_uint neuron_count_per_feature_map)) in
      let new_stat_list := map (new_stat mult) running_stats in
      Ret (map_insert_pair res layer_name new_stat_list)
  end.

(** [stat_data_bunch_writer::get_stat]; the entries of the member map are
    visited in the order [map_to_list] lists them. *)
Definition get_stat (this : stat_data_bunch_writer)
  : outcome (gmap string (list feature_map_data_stat)) :=
  for_each (map_to_list (layer_name_to_running_stat_list_map this)) (get_stat_layer this) ∅.

(** ** Vocabulary for the statistics writer *)

(** Every layer with running statistics has a neuron count, and fewer
    than 2^32 feature maps. *)
Definition writer_ok (this : stat_data_bunch_writer) : Prop :=
  forall layer_name running_stats,
    layer_name_to_running_stat_list_map this !! layer_name = Some running_stats ->
    Z.of_nat (length running_stats) < 2 ^ 32
    /\ exists n, layer_name_to_neuron_count_per_feature_map_map this !! layer_name = Some n.

(** The writers that calls of [set_config_map] and [write] lead to from a
    new one, for configurations whose feature map counts are
    [unsigned int]s and data maps that name a layer once. *)
Inductive reachable (running_stat_default : running_stat) : stat_data_bunch_writer -> Prop :=
| reachable_new : reachable running_stat_default stat_data_bunch_writer_new
| reachable_set_config_map this config_map :
    reachable running_stat_default this ->
    Forall (fun it => is_u32 (feature_map_count it.2)) config_map ->
    reachable running_stat_default (set_config_map running_stat_default this config_map)
| reachable_write this data_map this' :
    reachable running_stat_default this ->
    NoDup data_map.*1 ->
    write running_stat_default this data_map = Ret this' ->
    reachable running_stat_default this'.

(** A default for [running_stat], and a configuration with two layers. *)
Definition example_running_stat : running_stat :=
  {| min_val := F_100_0; max_val := F_minus_1_0; sum := F_0_0; sum_squared := F_0_0 |}.

Definition example_config_map : list (string * layer_configuration_specific) :=
  [("conv", {| feature_map_count := 2; dimension_sizes := [2] |});
   ("loss", {| feature_map_count := 1; dimension_sizes := [1] |})].

Definition example_writer : stat_data_bunch_writer :=
  set_config_map example_running_stat stat_data_bunch_writer_new example_config_map.

Definition example_data_map : list (string * list float) :=
  [("conv", [F_0_5; F_1_0; F_0_0; F_0_5]); ("loss", [F_1_0])].

(** The statistics of the values that one call of [write] reads for
    feature map [k] of a layer with [n] neurons per feature map. *)
Definition entry_stat (running_stat_default : running_stat) (n : nat) (data : list float)
    (k : nat) : running_stat :=
  foldl add_value running_stat_default (take n (drop (k * n) data)).

(** The running statistics of a layer after such a call. *)
Definition merged_stats (running_stat_default : running_stat) (n : nat) (data : list float)
    (running_stats : list running_stat) : list running_stat :=
  imap (fun k old => merge_stat old (entry_stat running_stat_default n data k)) running_stats.

(** The factor by which [get_stat] scales the sums of a layer with [n]
    neurons per feature map. *)
Definition stat_mult (this : stat_data_bunch_writer) (n : Z) : double :=
  ddiv D_1_0 (dmul (double_of_uint (entry_count this)) (double_of_uint n)).

(** * Further vocabulary *)

(** ** Edge counts derived from a ratio *)

(** Truncation towards zero, the way a cast to an integer type rounds. *)
Definition truncate (q : Q) : Z := Z.quot (Qnum q) (Z.pos (Qden q)).

(** The binary32 expression whose truncation is the edge count:
    [input_feature_map_count * output_feature_map_count * ratio + 0.5F],
    the product of the two counts being formed in [unsigned int]. *)
Definition ratio_expression (input_feature_map_count_ output_feature_map_count_ : Z)
    (ratio : float) : float :=
  fadd (fmul (float_of_uint (u32 (input_feature_map_count_ * output_feature_map_count_)))
             ratio)
       F_0_5.

(** [0.8F]: the binary32 number nearest to 0.8 is 13421773 * 2^-24. *)
Definition F_0_8 : float := float_lit 13421773 (-24).

(** The binary32 number nearest to 5/12, 13981013 * 2^-25. *)
Definition F_5_12 : float := float_lit 13981013 (-25).

(** A stored ratio of 0.8 with 4096 input and 4096 output feature maps. *)
Definition example_param_0_8 : SparseConvolutionalParam :=
  {| param_input_feature_map_count := 4096;
     param_output_feature_map_count := 4096;
     param_bias := true;
     dimension_param :=
       [ {| kernel_size := 3; left_padding := 0; right_padding := 0; stride := 1 |};
         {| kernel_size := 3; left_padding := 0; right_padding := 0; stride := 1 |} ];
     param_feature_map_connection_count := None;
     param_feature_map_connection_sparsity_ratio := Some F_0_8 |}.

(** ** What construction rejects *)

(** The conditions under which [check] rejects the parameters, the dense
    bound being the product of the two counts as the code forms it, in
    [unsigned int]. *)
Definition rejected_in_unsigned (window_sizes_ : list Z)
    (input_feature_map_count_ output_feature_map_count_ feature_map_connection_count_ : Z)
    (left_zero_padding_ right_zero_padding_ strides_ : list Z) : Prop :=
  Exists (fun w => w = 0) window_sizes_
  \/ feature_map_connection_count_ < Z.max input_feature_map_count_ output_feature_map_count_
  \/ u32 (input_feature_map_count_ * output_feature_map_count_) < feature_map_connection_count_
  \/ padding_too_large left_zero_padding_ window_sizes_
  \/ padding_too_large right_zero_padding_ window_sizes_
  \/ Exists (fun s => s = 0) strides_.

(** The message of the dense bound. *)
Definition larger_than_dense : exception :=
  neural_network_exception
    (boost_format "feature_map_connection_count may not be larger than in dense case" []).

(** ** The cost of a sparse convolution *)

(** [per_item_flops] of [get_flops_per_entry]: two operations per
    connection and window cell, less one when there is no bias, in
    [unsigned int]. *)
Definition per_item_flops (this : sparse_convolution_layer) : Z :=
  u32 (feature_map_connection_count this * 2 * product (window_sizes this)
       - (if bias this then 0 else 1)).

(** ** The weights [randomize_weights] needs room for *)

(** [current_input_feature_map_count] of output [o]: the difference of
    its two offsets in the table [rows], in [unsigned int]. *)
Definition connected_inputs (rows : list Z) (o : nat) : Z :=
  u32 (default 0 (rows !! S o) - default 0 (rows !! o)).

(** The number of weights written for output [o]. *)
Definition block_size (this : sparse_convolution_layer) (rows : list Z) (o : nat) : nat :=
  if 0 <? connected_inputs rows o
  then Z.to_nat (u32 (window_volume this * connected_inputs rows o))
  else O.

(** Generator states of the script generator from which every rejection
    loop of the example ends within two draws: all draws but the next one
    are one standard deviation out. *)
Definition one_deviation_after_next (g : script) : Prop := Forall (fun r => r = 1) (tail g).

(** ** Relaxed caps *)

(** The caps of a pass have reached dense connectivity: a row or a column
    that still has a free cell is below its cap. *)
Definition dense_caps (oc ic : nat) (c : caps) : Prop :=
  Z.of_nat ic <= max_connections_for_output_feature_map c
  /\ Z.of_nat oc <= max_connections_for_input_feature_map c.


(** * Properties *)

(** ** Machine integers *)

Lemma u32_range x : 0 <= u32 x < 2 ^ 32.
Proof. unfold u32. apply Z.mod_pos_bound. lia. Qed.

Lemma u32_small x : 0 <= x < 2 ^ 32 -> u32 x = x.
Proof. unfold u32. intros. apply Z.mod_small. lia. Qed.

Lemma u32_idem x : u32 (u32 x) = u32 x.
Proof. apply u32_small, u32_range. Qed.

Lemma u32_mul_l x y : u32 (u32 x * y) = u32 (x * y).
Proof. unfold u32. apply Z.mul_mod_idemp_l. lia. Qed.

Lemma u32_add_l x y : u32 (u32 x + y) = u32 (x + y).
Proof. unfold u32. apply Z.add_mod_idemp_l. lia. Qed.

Lemma u32_add_r x y : u32 (x + u32 y) = u32 (x + y).
Proof. unfold u32. apply Z.add_mod_idemp_r. lia. Qed.

Lemma u32_sub_l x y : u32 (u32 x - y) = u32 (x - y).
Proof. unfold u32. apply Zminus_mod_idemp_l. Qed.

Lemma to_int_small x : 0 <= x < 2 ^ 31 -> to_int x = x.
Proof. unfold to_int. intros. destruct (Z.ltb_spec x (2 ^ 31)); lia. Qed.

(** ** Outcomes *)

Lemma bind_Ret {A B} (m : outcome A) (f : A -> outcome B) b :
  m ≫= f = Ret b -> exists a, m = Ret a /\ f a = Ret b.
Proof. destruct m; simpl; intros; try discriminate. eauto. Qed.

Lemma bind_Ret_l {A B} (a : A) (f : A -> outcome B) : Ret a ≫= f = f a.
Proof. reflexivity. Qed.

Lemma throw_if_Ret c e u : throw_if c e = Ret u -> c = false \/ e = Ret u.
Proof. destruct c; simpl; auto. Qed.

Lemma at_Ret {A} (v : list A) i x : at_ v i = Ret x <-> v !! i = Some x.
Proof. unfold at_. destruct (v !! i); split; congruence. Qed.

Lemma set_at_Ret {A} (v : list A) i x v' :
  set_at v i x = Ret v' <-> (i < length v)%nat /\ v' = <[i := x]> v.
Proof. unfold set_at. case_decide; split; intros; destruct_and?; try congruence; try lia.
  split; congruence. Qed.

(** Repeatedly split a hypothesis [x ← m; k = Ret r]. *)
Ltac bind_inv H :=
  let a := fresh "a" in
  let E := fresh "E" in
  apply bind_Ret in H; destruct H as (a & E & H).


Lemma fold_mul_u32 l a :
  u32 (fold_left (fun acc x => u32 (acc * x)) l a) = u32 (a * product l).
Proof.
  revert a. induction l as [|x l IH]; intros a; simpl.
  - f_equal. lia.
  - rewrite IH, u32_mul_l. f_equal. lia.
Qed.

Lemma fold_mul_u32_range l a :
  0 <= a < 2 ^ 32 -> 0 <= fold_left (fun acc x => u32 (acc * x)) l a < 2 ^ 32.
Proof.
  revert a. induction l as [|x l IH]; intros a Ha; simpl; [lia|].
  apply IH, u32_range.
Qed.

Lemma fold_mul_u32_eq l a :
  0 <= a < 2 ^ 32 ->
  fold_left (fun acc x => u32 (acc * x)) l a = u32 (a * product l).
Proof.
  intros Ha. rewrite <- fold_mul_u32. symmetry. apply u32_small, fold_mul_u32_range, Ha.
Qed.

(** ** C6: the sizes reported by [get_data_config] *)

(** C6. For every sparse convolution configuration whose edge count is an
    [unsigned int], [get_data_config] reports first the weight group, of
    size edge_count times the product of the window sizes (reduced modulo
    2^32 by the [unsigned int] multiplications, hence exactly that product
    when it fits), then the bias group of size output_feature_map_count when
    bias is enabled, and nothing more when it is disabled. *)
Theorem get_data_config_groups (this : sparse_convolution_layer) :
  is_u32 (feature_map_connection_count this) ->
  get_data_config this =
    u32 (feature_map_connection_count this * product (window_sizes this))
    :: (if bias this then [output_feature_map_count this] else [])
  /\ (0 <= feature_map_connection_count this * product (window_sizes this) < 2 ^ 32 ->
      get_data_config this =
        feature_map_connection_count this * product (window_sizes this)
        :: (if bias this then [output_feature_map_count this] else [])).
Proof.
  intros Hec. unfold get_data_config.
  rewrite (fold_mul_u32_eq _ _ Hec).
  split; [destruct (bias this); reflexivity|].
  intros Hfit. rewrite (u32_small _ Hfit). destruct (bias this); reflexivity.
Qed.

Lemma get_data_config_groups_witness :
  is_u32 (feature_map_connection_count example_layer)
  /\ 0 <= feature_map_connection_count example_layer * product (window_sizes example_layer)
       < 2 ^ 32
  /\ get_data_config example_layer = [108; 6].
Proof.
  assert (H1 : is_u32 (feature_map_connection_count example_layer))
    by (unfold is_u32; simpl; lia).
  assert (H2 : 0 <= feature_map_connection_count example_layer
                      * product (window_sizes example_layer) < 2 ^ 32)
    by (simpl; lia).
  split; [exact H1|]. split; [exact H2|].
  exact (proj2 (get_data_config_groups example_layer H1) H2).
Defined.

(** ** C7: the output shape of the negative log likelihood layer *)

(** The path on which every comparison of the shape inference succeeds. *)
Lemma nll_output_Ret (this : negative_log_likelihood_layer)
    (input0 input1 : layer_configuration_specific)
    (rest : list layer_configuration_specific) :
  feature_map_count input0 = feature_map_count input1 ->
  get_neuron_count_per_feature_map input0 = get_neuron_count_per_feature_map input1 ->
  scaling_input_ok input0 rest ->
  nll_get_output_layer_configuration_specific this (input0 :: input1 :: rest)
  = Ret {| feature_map_count := 1; dimension_sizes := dimension_sizes input0 |}.
Proof.
  unfold nll_get_output_layer_configuration_specific.
  intros Hfm Hn Hrest. simpl.
  rewrite Hfm, Z.eqb_refl. simpl.
  rewrite Hn, Z.eqb_refl. simpl.
  destruct rest as [|input2 rest]; simpl; [reflexivity|].
  destruct Hrest as [H1 H2].
  rewrite H1, H2, Hn, Z.eqb_refl. reflexivity.
Qed.

(** C7. With two inputs that share the feature-map count and the neuron
    count per feature map (and, when there is a third input, one that has
    exactly one feature map and the first input's neuron count per feature
    map), the output shape has feature-map count 1 and the first input's
    spatial sizes; when the feature-map counts of the first two inputs
    differ, a [neural_network_exception] is thrown whose message carries
    both counts. *)
Theorem nll_output_configuration (this : negative_log_likelihood_layer)
    (input0 input1 : layer_configuration_specific)
    (rest : list layer_configuration_specific) :
  (feature_map_count input0 = feature_map_count input1 ->
   get_neuron_count_per_feature_map input0 = get_neuron_count_per_feature_map input1 ->
   scaling_input_ok input0 rest ->
   nll_get_output_layer_configuration_specific this (input0 :: input1 :: rest)
   = Ret {| feature_map_count := 1; dimension_sizes := dimension_sizes input0 |})
  /\ (feature_map_count input0 <> feature_map_count input1 ->
      nll_get_output_layer_configuration_specific this (input0 :: input1 :: rest)
      = Throw (neural_network_exception
          (boost_format
             "Feature map counts in 2 input layers for negative_log_likelihood_layer don't match: %1% and %2%"
             [feature_map_count input0; feature_map_count input1]))).
Proof.
  split.
  - apply nll_output_Ret.
  - intros Hne. unfold nll_get_output_layer_configuration_specific. simpl.
    apply Z.eqb_neq in Hne. rewrite Hne. reflexivity.
Qed.

Lemma nll_output_configuration_witness :
  nll_get_output_layer_configuration_specific example_nll
    [example_nll_input; example_nll_input]
  = Ret {| feature_map_count := 1; dimension_sizes := [1] |}
  /\ nll_get_output_layer_configuration_specific example_nll
       [example_nll_input; example_nll_input_5]
     = Throw (neural_network_exception
         (boost_format
            "Feature map counts in 2 input layers for negative_log_likelihood_layer don't match: %1% and %2%"
            [10; 5])).
Proof.
  split.
  - apply (proj1 (nll_output_configuration example_nll example_nll_input example_nll_input []));
      [reflexivity | reflexivity | exact I].
  - apply (proj2 (nll_output_configuration example_nll example_nll_input example_nll_input_5 [])).
    simpl. lia.
Defined.


(** ** Loops that only check *)

Lemma for_unit_cases n from (body : nat -> outcome unit) :
  (for_ n from (fun i _ => body i) tt = Ret tt
   /\ forall i, (from <= i < from + n)%nat -> body i = Ret tt)
  \/ (exists i, (from <= i < from + n)%nat /\ body i <> Ret tt
        /\ for_ n from (fun i _ => body i) tt = body i).
Proof.
  revert from. induction n as [|n IH]; intros from; simpl.
  - left. split; [reflexivity|]. intros; lia.
  - destruct (body from) as [[]| | |] eqn:E; simpl.
    + destruct (IH (S from)) as [[H1 H2]|(i & Hi & Hb & Hf)].
      * left. split; [exact H1|]. intros i Hi.
        destruct (decide (i = from)) as [->|]; [exact E|]. apply H2. lia.
      * right. exists i. split; [lia|]. split; [exact Hb|]. exact Hf.
    + right. exists from. rewrite E. split; [lia|]. split; [discriminate|]. reflexivity.
    + right. exists from. rewrite E. split; [lia|]. split; [discriminate|]. reflexivity.
    + right. exists from. rewrite E. split; [lia|]. split; [discriminate|]. reflexivity.
Qed.

Lemma for_check_cases n (body : nat -> outcome unit) :
  (for_check n body = Ret tt /\ forall i, (i < n)%nat -> body i = Ret tt)
  \/ (exists i, (i < n)%nat /\ body i <> Ret tt /\ for_check n body = body i).
Proof.
  unfold for_check. destruct (for_unit_cases n 0 body) as [[H1 H2]|(i & Hi & Hb & Hf)].
  - left. split; [exact H1|]. intros; apply H2; lia.
  - right. exists i. split; [lia|]. auto.
Qed.

Lemma throw_if_cases c e : (c = false /\ throw_if c e = Ret tt) \/ (c = true /\ throw_if c e = e).
Proof. destruct c; auto. Qed.

(** ** What [check] decides *)

Lemma check_cases (this : sparse_convolution_layer) :
  length (left_zero_padding this) = length (window_sizes this) ->
  length (right_zero_padding this) = length (window_sizes this) ->
  (check this = Ret tt /\ accepted_by_check this)
  \/ (exists e, check this = Throw (neural_network_exception e)
        /\ names_failing_field e this).
Proof.
  intros Hl Hr. unfold check, accepted_by_check, names_failing_field.
  (* window sizes *)
  match goal with |- context [for_check ?n ?b ≫= _] =>
    destruct (for_check_cases n b) as [[-> Hw]|(i & Hi & Hb & ->)] end; cycle 1.
  { destruct (lookup_lt_is_Some_2 _ _ Hi) as [w Hw].
    unfold at_ in *. rewrite Hw in *. simpl in *.
    destruct (Z.eqb_spec w 0) as [E0|E0]; simpl in *; [subst w|exfalso; apply Hb; reflexivity].
    right. eexists. split; [reflexivity|]. left. eauto. }
  assert (Hws : forall i w, window_sizes this !! i = Some w -> w <> 0).
  { intros i w Hi. specialize (Hw i (lookup_lt_Some _ _ _ Hi)).
    unfold at_ in Hw. rewrite Hi in Hw. simpl in Hw.
    destruct (Z.eqb_spec w 0); simpl in Hw; [discriminate Hw|assumption]. }
  clear Hw. simpl.
  (* connection count *)
  destruct (Z.ltb_spec (feature_map_connection_count this) (input_feature_map_count this));
    simpl.
  { right. eexists. split; [reflexivity|]. right. left. auto. }
  destruct (Z.ltb_spec (feature_map_connection_count this) (output_feature_map_count this));
    simpl.
  { right. eexists. split; [reflexivity|]. do 2 right. left. auto. }
  destruct (Z.ltb_spec
              (u32 (input_feature_map_count this * output_feature_map_count this))
              (feature_map_connection_count this)); simpl.
  { right. eexists. split; [reflexivity|]. do 3 right. left. auto. }
  (* left padding *)
  match goal with |- context [for_check ?n ?b ≫= _] =>
    destruct (for_check_cases n b) as [[-> Hp]|(i & Hi & Hb & ->)] end; cycle 1.
  { destruct (lookup_lt_is_Some_2 _ _ Hi) as [w Hw].
    destruct (lookup_lt_is_Some_2 (left_zero_padding this) i ltac:(lia)) as [p Hp].
    unfold at_ in *. rewrite Hw, Hp in *. simpl in *.
    destruct (Z.leb_spec w p); simpl in *; [|exfalso; apply Hb; reflexivity].
    right. eexists. split; [reflexivity|]. do 4 right. left.
    exists i, p, w. auto. }
  assert (Hlp : forall i p w, left_zero_padding this !! i = Some p ->
                              window_sizes this !! i = Some w -> p < w).
  { intros i p w Hi Hwi. specialize (Hp i (lookup_lt_Some _ _ _ Hwi)).
    unfold at_ in Hp. rewrite Hi, Hwi in Hp. simpl in Hp.
    destruct (Z.leb_spec w p); simpl in Hp; [discriminate Hp|lia]. }
  clear Hp. simpl.
  (* right padding *)
  match goal with |- context [for_check ?n ?b ≫= _] =>
    destruct (for_check_cases n b) as [[-> Hp]|(i & Hi & Hb & ->)] end; cycle 1.
  { destruct (lookup_lt_is_Some_2 _ _ Hi) as [w Hw].
    destruct (lookup_lt_is_Some_2 (right_zero_padding this) i ltac:(lia)) as [p Hp].
    unfold at_ in *. rewrite Hw, Hp in *. simpl in *.
    destruct (Z.leb_spec w p); simpl in *; [|exfalso; apply Hb; reflexivity].
    right. eexists. split; [reflexivity|]. do 5 right. left.
    exists i, p, w. auto. }
  assert (Hrp : forall i p w, right_zero_padding this !! i = Some p ->
                              window_sizes this !! i = Some w -> p < w).
  { intros i p w Hi Hwi. specialize (Hp i (lookup_lt_Some _ _ _ Hwi)).
    unfold at_ in Hp. rewrite Hi, Hwi in Hp. simpl in Hp.
    destruct (Z.leb_spec w p); simpl in Hp; [discriminate Hp|lia]. }
  clear Hp. simpl.
  (* strides *)
  match goal with |- context [for_check ?n ?b] =>
    destruct (for_check_cases n b) as [[-> Hp]|(i & Hi & Hb & ->)] end; cycle 1.
  { destruct (lookup_lt_is_Some_2 _ _ Hi) as [s Hs].
    unfold at_ in *. rewrite Hs in *. simpl in *.
    destruct (Z.eqb_spec s 0) as [E0|E0]; simpl in *; [subst s|exfalso; apply Hb; reflexivity].
    right. eexists. split; [reflexivity|]. do 6 right. eauto. }
  left. split; [reflexivity|]. repeat split; try assumption; try lia.
  intros i s Hi. specialize (Hp i (lookup_lt_Some _ _ _ Hi)).
  unfold at_ in Hp. rewrite Hi in Hp. simpl in Hp.
  destruct (Z.eqb_spec s 0); simpl in Hp; [discriminate Hp|assumption].
Qed.

(** ** The constructors *)

Lemma dimension_count_test (given ws : list Z) :
  (negb (length given =? 0)%nat && negb (length given =? length ws)%nat = false
   /\ dimension_count_ok given ws)
  \/ (negb (length given =? 0)%nat && negb (length given =? length ws)%nat = true
      /\ ~ dimension_count_ok given ws).
Proof.
  unfold dimension_count_ok.
  destruct (Nat.eqb_spec (length given) 0) as [E|E]; simpl.
  - left. split; [reflexivity|]. left. destruct given; [reflexivity|discriminate].
  - destruct (Nat.eqb_spec (length given) (length ws)); simpl.
    + left. auto.
    + right. split; [reflexivity|]. intros [->|]; [apply E; reflexivity|lia].
Qed.

Lemma constructor_body_ok (this : sparse_convolution_layer) (lp rp st : list Z) :
  dimension_count_ok lp (window_sizes this) ->
  dimension_count_ok rp (window_sizes this) ->
  dimension_count_ok st (window_sizes this) ->
  let D := constructed (window_sizes this) (input_feature_map_count this)
             (output_feature_map_count this) (feature_map_connection_sparsity_ratio this)
             (feature_map_connection_count this) lp rp st (bias this) in
  constructor_body this lp rp st = (check D;; Ret D).
Proof.
  intros Hl Hr Hs D. unfold constructor_body.
  destruct (dimension_count_test lp (window_sizes this)) as [[-> _]|[_ N]]; [|tauto].
  destruct (dimension_count_test rp (window_sizes this)) as [[-> _]|[_ N]]; [|tauto].
  destruct (dimension_count_test st (window_sizes this)) as [[-> _]|[_ N]]; [|tauto].
  reflexivity.
Qed.

Lemma constructor_body_mismatch (this : sparse_convolution_layer) (lp rp st : list Z) :
  (~ dimension_count_ok lp (window_sizes this) ->
   constructor_body this lp rp st
   = Throw (invalid_dimension_count "left zero padding" (length lp)))
  /\ (dimension_count_ok lp (window_sizes this) ->
      ~ dimension_count_ok rp (window_sizes this) ->
      constructor_body this lp rp st
      = Throw (invalid_dimension_count "right zero padding" (length rp)))
  /\ (dimension_count_ok lp (window_sizes this) ->
      dimension_count_ok rp (window_sizes this) ->
      ~ dimension_count_ok st (window_sizes this) ->
      constructor_body this lp rp st
      = Throw (invalid_dimension_count "strides" (length st))).
Proof.
  unfold constructor_body.
  destruct (dimension_count_test lp (window_sizes this)) as [[-> Hl]|[-> Hl]];
    [|split; [reflexivity|split; tauto]].
  split; [tauto|].
  destruct (dimension_count_test rp (window_sizes this)) as [[-> Hr]|[-> Hr]];
    [|split; [reflexivity|tauto]].
  split; [tauto|].
  destruct (dimension_count_test st (window_sizes this)) as [[-> Hs]|[-> Hs]];
    [tauto|reflexivity].
Qed.

Lemma length_resize_or_copy given (ws : list Z) d :
  dimension_count_ok given ws -> length (resize_or_copy given (length ws) d) = length ws.
Proof.
  intros [->|H]; simpl; [apply length_replicate|].
  destruct given; [apply length_replicate|exact H].
Qed.

Lemma lookup_resize_or_copy given n d i x :
  resize_or_copy given n d !! i = Some x ->
  (given = [] /\ x = d) \/ (given <> [] /\ given !! i = Some x).
Proof.
  destruct given as [|y given]; simpl.
  - intros H. apply lookup_replicate in H. left. tauto.
  - intros H. right. split; [discriminate|exact H].
Qed.

Lemma count_constructor_checks (ws : list Z) (ic oc ec : Z)
    (lp rp st : list Z) (b : bool) :
  dimension_count_ok lp ws -> dimension_count_ok rp ws -> dimension_count_ok st ws ->
  let D := constructed ws ic oc F_minus_1_0 ec lp rp st b in
  sparse_convolution_layer_count ws ic oc ec lp rp st b = (check D;; Ret D).
Proof.
  intros Hl Hr Hs D.
  unfold sparse_convolution_layer_count. rewrite constructor_body_ok by assumption.
  reflexivity.
Qed.

(** ** C10: dimension counts and defaults in the two constructors *)

(** C10. Both constructors take padding and stride lists that are empty or
    have one entry per window dimension: the object then handed to [check]
    has the given lists, an empty one replaced by its default of that
    length (paddings all 0, strides all 1). A non-empty list of any other
    length makes the constructor throw [std::runtime_error] "Invalid
    dimension count ..." for the first such list (left padding, right
    padding, strides), whatever the other parameters are, so before [check]
    runs; it is not the [neural_network_exception] thrown by [check]. *)
Theorem constructors_dimension_counts (ws : list Z) (ic oc ec : Z) (ratio : float)
    (lp rp st : list Z) (b : bool) :
  (dimension_count_ok lp ws -> dimension_count_ok rp ws -> dimension_count_ok st ws ->
   let D := fun r c => constructed ws ic oc r c lp rp st b in
   sparse_convolution_layer_count ws ic oc ec lp rp st b
     = (check (D F_minus_1_0 ec);; Ret (D F_minus_1_0 ec))
   /\ (forall c, connection_count_of_ratio ic oc ratio = Ret c ->
       sparse_convolution_layer_ratio ws ic oc ratio lp rp st b
         = (check (D ratio c);; Ret (D ratio c)))
   /\ (lp = [] -> left_zero_padding (D ratio ec) = replicate (length ws) 0)
   /\ (rp = [] -> right_zero_padding (D ratio ec) = replicate (length ws) 0)
   /\ (st = [] -> strides (D ratio ec) = replicate (length ws) 1))
  /\ (forall e,
        (~ dimension_count_ok lp ws
         /\ e = invalid_dimension_count "left zero padding" (length lp))
        \/ (dimension_count_ok lp ws /\ ~ dimension_count_ok rp ws
            /\ e = invalid_dimension_count "right zero padding" (length rp))
        \/ (dimension_count_ok lp ws /\ dimension_count_ok rp ws
            /\ ~ dimension_count_ok st ws
            /\ e = invalid_dimension_count "strides" (length st)) ->
        sparse_convolution_layer_count ws ic oc ec lp rp st b = Throw e
        /\ (forall c, connection_count_of_ratio ic oc ratio = Ret c ->
            sparse_convolution_layer_ratio ws ic oc ratio lp rp st b = Throw e)
        /\ forall m, e <> neural_network_exception m).
Proof.
  split.
  - intros Hl Hr Hs D. repeat split.
    + unfold sparse_convolution_layer_count.
      rewrite constructor_body_ok by assumption. reflexivity.
    + intros c Hc. unfold sparse_convolution_layer_ratio. rewrite Hc. simpl.
      rewrite constructor_body_ok by assumption. reflexivity.
    + intros ->. reflexivity.
    + intros ->. reflexivity.
    + intros ->. reflexivity.
  - intros e He.
    assert (Hbody : forall this, window_sizes this = ws ->
              constructor_body this lp rp st = Throw e).
    { intros this <-.
      destruct (constructor_body_mismatch this lp rp st) as (H1 & H2 & H3).
      destruct He as [[N ->]|[(Hl & N & ->)|(Hl & Hr & N & ->)]]; auto. }
    repeat split.
    + apply Hbody. reflexivity.
    + intros c Hc. unfold sparse_convolution_layer_ratio. rewrite Hc. simpl.
      apply Hbody. reflexivity.
    + intros m. destruct He as [[_ ->]|[(_ & _ & ->)|(_ & _ & _ & ->)]]; discriminate.
Qed.

Lemma constructors_dimension_counts_witness :
  sparse_convolution_layer_count [3; 3] 4 6 12 [] [] [] true
  = Ret (constructed [3; 3] 4 6 F_minus_1_0 12 [0; 0] [0; 0] [1; 1] true)
  /\ sparse_convolution_layer_count [0; 3] 4 6 12 [1] [] [] true
     = Throw (invalid_dimension_count "left zero padding" 1).
Proof.
  split.
  - destruct (constructors_dimension_counts [3; 3] 4 6 12 F_0_5 [] [] [] true) as [H _].
    destruct H as (H & _); [left; reflexivity ..|].
    rewrite H. reflexivity.
  - destruct (constructors_dimension_counts [0; 3] 4 6 12 F_0_5 [1] [] [] true) as [_ H].
    apply (H (invalid_dimension_count "left zero padding" 1)).
    left. split; [|reflexivity].
    intros [E|E]; [discriminate E|simpl in E; lia].
Defined.

(** ** C4: what construction rejects *)

Lemma rejected_in_unsigned_iff (ws : list Z) (ic oc ec : Z) (r : float)
    (lp rp st : list Z) (b : bool) :
  Forall (fun w => 0 <= w) ws ->
  let D := constructed ws ic oc r ec lp rp st b in
  (accepted_by_check D -> ~ rejected_in_unsigned ws ic oc ec lp rp st)
  /\ (forall e, names_failing_field e D -> rejected_in_unsigned ws ic oc ec lp rp st).
Proof.
  intros Hws D. rewrite Forall_lookup in Hws. split.
  - intros (A1 & A2 & A3 & A4 & A5 & A6 & A7) R. simpl in *.
    destruct R as [R|[R|[R|[R|[R|R]]]]].
    + apply Exists_exists in R. destruct R as (w & Hin & ->).
      rewrite list_elem_of_lookup in Hin. destruct Hin as [i Hi].
      exact (A1 i 0 Hi eq_refl).
    + lia.
    + lia.
    + destruct R as (i & p & w & Hp & Hw & Hle).
      assert (lp <> []) by (intros ->; discriminate Hp).
      destruct lp; [congruence|]. specialize (A5 i p w Hp Hw). lia.
    + destruct R as (i & p & w & Hp & Hw & Hle).
      destruct rp; [discriminate Hp|]. specialize (A6 i p w Hp Hw). lia.
    + apply Exists_exists in R. destruct R as (s & Hin & ->).
      rewrite list_elem_of_lookup in Hin. destruct Hin as [i Hi].
      destruct st; [discriminate Hi|]. exact (A7 i 0 Hi eq_refl).
  - intros e N. unfold names_failing_field in N. simpl in N.
    assert (Hzero : forall i, ws !! i = Some 0 -> Exists (fun w => w = 0) ws).
    { intros i Hi. apply Exists_exists. exists 0. split; [|reflexivity].
      rewrite list_elem_of_lookup. eauto. }
    unfold rejected_in_unsigned.
    destruct N as [[_ [i Hi]]|[[_ N]|[[_ N]|[[_ N]|[N|[N|N]]]]]].
    + left. eauto.
    + right. left. lia.
    + right. left. lia.
    + right. right. left. exact N.
    + destruct N as (i & p & w & _ & Hp & Hw & Hle).
      apply lookup_resize_or_copy in Hp. destruct Hp as [[_ ->]|[_ Hp]].
      * left. apply (Hzero i). pose proof (Hws i w Hw). simpl in *.
        replace w with 0 in Hw by lia. exact Hw.
      * do 3 right. left. exists i, p, w. auto.
    + destruct N as (i & p & w & _ & Hp & Hw & Hle).
      apply lookup_resize_or_copy in Hp. destruct Hp as [[_ ->]|[_ Hp]].
      * left. apply (Hzero i). pose proof (Hws i w Hw). simpl in *.
        replace w with 0 in Hw by lia. exact Hw.
      * do 4 right. left. exists i, p, w. auto.
    + destruct N as (i & _ & Hs).
      apply lookup_resize_or_copy in Hs. destruct Hs as [[_ Hs]|[_ Hs]]; [discriminate Hs|].
      do 5 right. apply Exists_exists. exists 0. split; [|reflexivity].
      rewrite list_elem_of_lookup. eauto.
Qed.

(** What [check] decides about the object a constructor hands to it. *)
Lemma check_decides (ws : list Z) (ic oc ec : Z) (r : float)
    (lp rp st : list Z) (b : bool) :
  dimension_count_ok lp ws -> dimension_count_ok rp ws -> dimension_count_ok st ws ->
  Forall (fun w => 0 <= w) ws ->
  let D := constructed ws ic oc r ec lp rp st b in
  ((exists e, (check D;; Ret D) = Throw (neural_network_exception e))
   <-> rejected_in_unsigned ws ic oc ec lp rp st)
  /\ (forall e, (check D;; Ret D) = Throw e ->
        exists m, e = neural_network_exception m /\ names_failing_field m D)
  /\ (~ rejected_in_unsigned ws ic oc ec lp rp st -> (check D;; Ret D) = Ret D).
Proof.
  intros Hl Hr Hs Hws D.
  destruct (rejected_in_unsigned_iff ws ic oc ec r lp rp st b Hws) as [Hacc Hrej].
  fold D in Hacc, Hrej.
  assert (HlD : length (left_zero_padding D) = length (window_sizes D))
    by apply length_resize_or_copy, Hl.
  assert (HrD : length (right_zero_padding D) = length (window_sizes D))
    by apply length_resize_or_copy, Hr.
  destruct (check_cases D HlD HrD) as [[Hc Ha]|(e & Hc & Hn)].
  - rewrite Hc. simpl. repeat split.
    + intros [e He]. discriminate He.
    + intros R. exfalso. exact (Hacc Ha R).
    + intros e He. discriminate He.
  - rewrite Hc. simpl. repeat split.
    + intros _. exact (Hrej e Hn).
    + intros _. eauto.
    + intros e' He'. injection He' as <-. eauto.
    + intros R. exfalso. exact (R (Hrej e Hn)).
Qed.

Lemma ratio_constructor_checks (ws : list Z) (ic oc : Z) (ratio : float) (c : Z)
    (lp rp st : list Z) (b : bool) :
  dimension_count_ok lp ws -> dimension_count_ok rp ws -> dimension_count_ok st ws ->
  connection_count_of_ratio ic oc ratio = Ret c ->
  let D := constructed ws ic oc ratio c lp rp st b in
  sparse_convolution_layer_ratio ws ic oc ratio lp rp st b = (check D;; Ret D).
Proof.
  intros Hl Hr Hs Hc D.
  unfold sparse_convolution_layer_ratio. rewrite Hc. simpl.
  rewrite constructor_body_ok by assumption. reflexivity.
Qed.

(** C4, at three inputs.
    - a window of size 3 with two left paddings for its one dimension, one
      input and one output feature map and one connection: no window size
      is 0, the edge count is within its bounds, both paddings are below
      the window size and no stride is 0, and yet construction does not
      succeed: the dimension-count test, which runs before [check], throws
      a [runtime_error].
    - the same with a window of size 0: a window size is 0, and what is
      thrown is that [runtime_error], no [neural_network_exception].
    - 65536 input and 65536 output feature maps with 65536 connections and
      a window of size 1: the edge count is not below max(65536, 65536) and
      not above 65536 * 65536, and yet construction throws "may not be
      larger than in dense case": line 124 forms the product of the two
      counts in [unsigned int], where it is 0. *)
Lemma construction_rejects_within_dense_bound :
  (~ rejected [3] 1 1 1 [0; 0] [] []
   /\ sparse_convolution_layer_count [3] 1 1 1 [0; 0] [] [] true
      = Throw (invalid_dimension_count "left zero padding" 2))
  /\ (rejected [0] 1 1 1 [0; 0] [] []
      /\ sparse_convolution_layer_count [0] 1 1 1 [0; 0] [] [] true
         = Throw (invalid_dimension_count "left zero padding" 2))
  /\ (~ rejected [1] 65536 65536 65536 [] [] []
      /\ sparse_convolution_layer_count [1] 65536 65536 65536 [] [] [] true
         = Throw larger_than_dense).
Proof.
  split; [|split]; split.
  - intros [R|[R|[R|[R|[R|R]]]]].
    + apply Exists_exists in R. destruct R as (w & Hin & ->).
      apply elem_of_cons in Hin as [Hin|Hin]; [discriminate Hin|].
      apply elem_of_nil in Hin. exact Hin.
    + lia.
    + lia.
    + destruct R as (i & p & w & Hp & Hw & Hle).
      destruct i as [|i]; [|destruct i; discriminate Hw].
      injection Hp as <-. injection Hw as <-. lia.
    + destruct R as (i & p & w & Hp & _). discriminate Hp.
    + apply Exists_exists in R. destruct R as (s & Hin & _).
      apply elem_of_nil in Hin. exact Hin.
  - vm_compute. reflexivity.
  - left. constructor. reflexivity.
  - vm_compute. reflexivity.
  - intros [R|[R|[R|[R|[R|R]]]]].
    + apply Exists_exists in R. destruct R as (w & Hin & ->).
      apply elem_of_cons in Hin as [Hin|Hin]; [discriminate Hin|].
      apply elem_of_nil in Hin. exact Hin.
    + lia.
    + lia.
    + destruct R as (i & p & w & Hp & _). discriminate Hp.
    + destruct R as (i & p & w & Hp & _). discriminate Hp.
    + apply Exists_exists in R. destruct R as (s & Hin & _).
      apply elem_of_nil in Hin. exact Hin.
  - vm_compute. reflexivity.
Qed.

(** C4, amended. Take constructor arguments whose padding and stride lists
    are empty or have one entry per window dimension, with window sizes
    that are [unsigned int] values. Construction by the edge-count
    constructor throws a [neural_network_exception] if and only if some
    window size is 0, or the edge count is smaller than
    max(input_feature_map_count, output_feature_map_count), or larger than
    the product of the two counts as line 124 forms it, or some left or
    right padding is greater than or equal to its window size, or some
    stride is 0; the message thrown names a field that really fails; and
    otherwise construction returns the object with the fields as given
    (an empty list replaced by its default). The same holds of the ratio
    constructor, for the edge count it derives from the ratio. The product
    of line 124 is input_feature_map_count * output_feature_map_count
    whenever that fits an [unsigned int], and the conditions are then the
    ones listed with the plain product; beyond, it is that product modulo
    2^32. *)
Theorem construction_rejects_iff (ws : list Z) (ic oc ec : Z)
    (lp rp st : list Z) (b : bool) :
  dimension_count_ok lp ws -> dimension_count_ok rp ws -> dimension_count_ok st ws ->
  Forall (fun w => 0 <= w) ws ->
  (let D := constructed ws ic oc F_minus_1_0 ec lp rp st b in
   ((exists e, sparse_convolution_layer_count ws ic oc ec lp rp st b
               = Throw (neural_network_exception e))
    <-> rejected_in_unsigned ws ic oc ec lp rp st)
   /\ (forall e, sparse_convolution_layer_count ws ic oc ec lp rp st b = Throw e ->
         exists m, e = neural_network_exception m /\ names_failing_field m D)
   /\ (~ rejected_in_unsigned ws ic oc ec lp rp st ->
       sparse_convolution_layer_count ws ic oc ec lp rp st b = Ret D))
  /\ (forall ratio,
        connection_count_of_ratio ic oc ratio = Ret ec ->
        let D := constructed ws ic oc ratio ec lp rp st b in
        ((exists e, sparse_convolution_layer_ratio ws ic oc ratio lp rp st b
                    = Throw (neural_network_exception e))
         <-> rejected_in_unsigned ws ic oc ec lp rp st)
        /\ (forall e, sparse_convolution_layer_ratio ws ic oc ratio lp rp st b = Throw e ->
              exists m, e = neural_network_exception m /\ names_failing_field m D)
        /\ (~ rejected_in_unsigned ws ic oc ec lp rp st ->
            sparse_convolution_layer_ratio ws ic oc ratio lp rp st b = Ret D))
  /\ (0 <= ic * oc < 2 ^ 32 ->
      (rejected_in_unsigned ws ic oc ec lp rp st <-> rejected ws ic oc ec lp rp st)).
Proof.
  intros Hl Hr Hs Hws. split; [|split].
  - rewrite (count_constructor_checks ws ic oc ec lp rp st b Hl Hr Hs).
    exact (check_decides ws ic oc ec F_minus_1_0 lp rp st b Hl Hr Hs Hws).
  - intros ratio Hc.
    rewrite (ratio_constructor_checks ws ic oc ratio ec lp rp st b Hl Hr Hs Hc).
    exact (check_decides ws ic oc ec ratio lp rp st b Hl Hr Hs Hws).
  - intros Hfit. unfold rejected_in_unsigned, rejected.
    rewrite (u32_small _ Hfit). reflexivity.
Qed.

Lemma construction_rejects_iff_witness :
  (exists e, sparse_convolution_layer_count [3; 3] 4 6 3 [] [] [] true
             = Throw (neural_network_exception e))
  /\ sparse_convolution_layer_ratio [3; 3] 4 6 F_0_5 [] [] [] true
     = Ret (constructed [3; 3] 4 6 F_0_5 12 [] [] [] true).
Proof.
  split.
  - apply (proj1 (proj1 (construction_rejects_iff [3; 3] 4 6 3 [] [] [] true
                           (or_introl eq_refl) (or_introl eq_refl) (or_introl eq_refl)
                           ltac:(repeat constructor; lia)))).
    right. left. simpl. lia.
  - apply (proj2 (proj2 (proj1 (proj2 (construction_rejects_iff [3; 3] 4 6 12 [] [] [] true
                           (or_introl eq_refl) (or_introl eq_refl) (or_introl eq_refl)
                           ltac:(repeat constructor; lia)))
                          F_0_5 ltac:(vm_compute; reflexivity)))).
    intros [R|[R|[R|[R|[R|R]]]]].
    + apply Exists_exists in R. destruct R as (w & Hin & ->).
      repeat (apply elem_of_cons in Hin as [Hin|Hin]; [discriminate Hin|]).
      apply elem_of_nil in Hin. exact Hin.
    + simpl in R. lia.
    + vm_compute in R. discriminate R.
    + destruct R as (i & p & w & Hp & _). discriminate Hp.
    + destruct R as (i & p & w & Hp & _). discriminate Hp.
    + apply Exists_exists in R. destruct R as (s & Hin & _).
      apply elem_of_nil in Hin. exact Hin.
Defined.

(** ** C3: the cost reported for each phase *)

(** C3, at one configuration: the sparse convolution layer with window 3x3
    and 12 connections, on a 10x10 input, reports 64 * 216 operations for
    the forward phase, and the very same value for backward-data and
    backward-weights: the three values are not pairwise distinct. *)
Lemma sparse_flops_not_distinct :
  let cost := fun t => get_flops_per_entry example_layer [example_input] (action t 0) in
  cost forward = Ret (float_of_uint (64 * 216))
  /\ ~ (cost forward <> cost backward_data
        /\ cost forward <> cost backward_weights
        /\ cost backward_data <> cost backward_weights).
Proof.
  split; [vm_compute; reflexivity|].
  intros (H & _). apply H. vm_compute. reflexivity.
Qed.

Lemma get_flops_per_entry_value (this : sparse_convolution_layer)
    (inputs : list layer_configuration_specific) (a : layer_action) :
  get_flops_per_entry this inputs a
  = (out ← get_output_layer_configuration_specific this inputs;
     Ret (fmul (float_of_uint (get_neuron_count_per_feature_map out))
               (float_of_uint (per_item_flops this)))).
Proof.
  assert (Hitem :
            (if negb (bias this)
             then u32 (fold_left (fun per_item_flops x => u32 (per_item_flops * x))
                         (window_sizes this) (u32 (feature_map_connection_count this * 2)) - 1)
             else fold_left (fun per_item_flops x => u32 (per_item_flops * x))
                    (window_sizes this) (u32 (feature_map_connection_count this * 2)))
            = per_item_flops this).
  { rewrite fold_mul_u32_eq by apply u32_range. rewrite u32_mul_l.
    unfold per_item_flops. destruct (bias this); simpl.
    - f_equal. lia.
    - rewrite u32_sub_l. reflexivity. }
  unfold get_flops_per_entry.
  destruct (get_output_layer_configuration_specific this inputs) as [out|e| |];
    destruct (get_action_type a); simpl; try reflexivity;
    cbv zeta; rewrite Hitem; reflexivity.
Qed.

(** C3, amended. The sparse convolution layer reports one and the same
    value for forward, backward-data and backward-weights, whatever the
    configuration and the inputs: for an input shape list that forward
    shape inference accepts it is float(neurons per feature map of the
    output shape) * float(per_item_flops), with per_item_flops =
    2 * edge_count * product(window_sizes), less 1 when bias is disabled,
    in [unsigned int]; a list that shape inference rejects is rejected with
    the same exception. The negative log likelihood layer reports 0 for
    backward-weights; for well-formed inputs its forward value is
    float(neurons per feature map) * float(3 * feature maps) and its
    backward-data value is float(neuron count of the chosen input) *
    float(2), which differ on two inputs of 10 feature maps and sizes [1]
    (30 against 20). *)
Theorem flops_per_phase :
  (forall this inputs a a',
     get_flops_per_entry this inputs a = get_flops_per_entry this inputs a')
  /\ (forall this inputs a out,
        get_output_layer_configuration_specific this inputs = Ret out ->
        get_flops_per_entry this inputs a
        = Ret (fmul (float_of_uint (get_neuron_count_per_feature_map out))
                    (float_of_uint (per_item_flops this))))
  /\ (forall this inputs a e,
        get_output_layer_configuration_specific this inputs = Throw e ->
        get_flops_per_entry this inputs a = Throw e)
  /\ (forall this inputs i,
        nll_get_flops_per_entry this inputs (action backward_weights i) = Ret F_0_0)
  /\ (forall this input0 input1 rest i,
        feature_map_count input0 = feature_map_count input1 ->
        get_neuron_count_per_feature_map input0 = get_neuron_count_per_feature_map input1 ->
        scaling_input_ok input0 rest ->
        nll_get_flops_per_entry this (input0 :: input1 :: rest) (action forward i)
        = Ret (fmul (float_of_uint (u32 (1 * get_neuron_count_per_feature_map input0)))
                    (float_of_uint (u32 (feature_map_count input0 * 3)))))
  /\ (forall this inputs i input,
        inputs !! i = Some input ->
        nll_get_flops_per_entry this inputs (action backward_data i)
        = Ret (fmul (float_of_uint (get_neuron_count input)) (float_of_uint 2)))
  /\ (nll_get_flops_per_entry example_nll [example_nll_input; example_nll_input]
        (action forward 0) = Ret (float_of_uint 30)
      /\ nll_get_flops_per_entry example_nll [example_nll_input; example_nll_input]
           (action backward_data 0) = Ret (float_of_uint 20)
      /\ float_of_uint 30 <> float_of_uint 20).
Proof.
  split; [|split; [|split; [|split; [|split; [|split]]]]].
  - intros this inputs [[] i] [[] i']; reflexivity.
  - intros this inputs a out H. rewrite get_flops_per_entry_value, H. reflexivity.
  - intros this inputs a e H. rewrite get_flops_per_entry_value, H. reflexivity.
  - reflexivity.
  - intros this input0 input1 rest i Hfm Hn Hrest.
    unfold nll_get_flops_per_entry. simpl get_action_type. cbv iota.
    rewrite (nll_output_Ret this input0 input1 rest Hfm Hn Hrest).
    reflexivity.
  - intros this inputs i input Hi. unfold nll_get_flops_per_entry. simpl.
    unfold at_. rewrite Hi. reflexivity.
  - split; [vm_compute; reflexivity|]. split; [vm_compute; reflexivity|].
    vm_compute. discriminate.
Qed.

Lemma flops_per_phase_witness :
  nll_get_flops_per_entry example_nll [example_nll_input; example_nll_input]
    (action forward 0)
  = Ret (fmul (float_of_uint (u32 (1 * get_neuron_count_per_feature_map example_nll_input)))
              (float_of_uint (u32 (feature_map_count example_nll_input * 3))))
  /\ get_flops_per_entry example_layer [example_input] (action backward_weights 0)
     = Ret (fmul (float_of_uint 64) (float_of_uint (per_item_flops example_layer))).
Proof.
  destruct flops_per_phase as (_ & Hs & _ & _ & H & _). split.
  - apply (H example_nll example_nll_input example_nll_input [] 0%nat);
      [reflexivity | reflexivity | exact I].
  - apply (Hs example_layer [example_input] (action backward_weights 0)
             {| feature_map_count := 6; dimension_sizes := [8; 8] |}).
    vm_compute. reflexivity.
Defined.


(** ** C8: the edge count derived from a sparsity ratio *)

(** The cast to [unsigned int] is the floor of a non-negative value. *)
Lemma uint_of_float_floor (f : float) (q : Q) (c : Z) :
  float_value f = Some q -> (0 <= q)%Q -> uint_of_float f = Ret c -> c = Qfloor q.
Proof.
  destruct f as [s|s| |s m e]; simpl; try discriminate.
  - intros [= <-] _ [= <-]. reflexivity.
  - intros [= <-] Hq.
    destruct s.
    { exfalso. destruct (Z.leb_spec 0 e).
      - unfold Qle, inject_Z in Hq. simpl in Hq.
        assert (0 < 2 ^ e) by (apply Z.pow_pos_nonneg; lia). nia.
      - unfold Qle in Hq. simpl in Hq. lia. }
    destruct (Z.leb_spec 0 e).
    + destruct (Z.ltb_spec (Z.pos m * 2 ^ e) (2 ^ 32)); [|discriminate].
      intros [= <-]. unfold inject_Z, Qfloor. rewrite Z.div_1_r. reflexivity.
    + destruct (Z.ltb_spec (Z.pos m / 2 ^ (- e)) (2 ^ 32)); [|discriminate].
      intros [= <-]. unfold Qfloor. f_equal.
      rewrite Pos2Z.inj_pow, Z2Pos.id by lia. reflexivity.
Qed.

Lemma connection_count_of_ratio_round (ic oc : Z) (ratio : float) (q v : Q) (c : Z) :
  0 <= ic * oc < 2 ^ 32 ->
  float_value ratio = Some q -> (0 <= q)%Q ->
  float_value (fadd (fmul (float_of_uint (ic * oc)) ratio) F_0_5) = Some v ->
  (v == inject_Z (ic * oc) * q + (1 # 2))%Q ->
  connection_count_of_ratio ic oc ratio = Ret c ->
  c = round_half_up (inject_Z (ic * oc) * q).
Proof.
  intros Hfit Hq Hq0 Hv Hexact Hc. unfold connection_count_of_ratio in Hc.
  rewrite (u32_small _ Hfit) in Hc.
  assert (Hv0 : (0 <= v)%Q).
  { rewrite Hexact.
    assert (0 <= inject_Z (ic * oc) * q)%Q.
    { apply Qmult_le_0_compat; [|exact Hq0]. unfold Qle, inject_Z. simpl. lia. }
    assert (0 <= 1 # 2)%Q by (unfold Qle; simpl; lia).
    replace 0%Q with (0 + 0)%Q by reflexivity. apply Qplus_le_compat; assumption. }
  rewrite (uint_of_float_floor _ _ _ Hv Hv0 Hc).
  unfold round_half_up. apply Qfloor_comp. exact Hexact.
Qed.

Lemma uint_of_float_truncate (f : float) (c : Z) :
  uint_of_float f = Ret c ->
  exists v, float_value f = Some v /\ c = truncate v.
Proof.
  destruct f as [s|s| |s m e]; simpl; try discriminate.
  - intros [= <-]. exists 0%Q. split; reflexivity.
  - intros H. eexists. split; [reflexivity|].
    unfold truncate.
    destruct (Z.leb_spec 0 e) as [He|He].
    + simpl. rewrite Z.quot_1_r.
      assert (0 < 2 ^ e) by (apply Z.pow_pos_nonneg; lia).
      destruct s.
      * destruct (Z.eqb_spec (Z.pos m * 2 ^ e) 0); [nia|discriminate H].
      * destruct (Z.ltb_spec (Z.pos m * 2 ^ e) (2 ^ 32)); [|discriminate H].
        injection H as <-. reflexivity.
    + simpl.
      assert (Hp : Z.pos (2 ^ Z.to_pos (- e)) = 2 ^ (- e))
        by (rewrite Pos2Z.inj_pow, Z2Pos.id by lia; reflexivity).
      rewrite Hp.
      assert (0 < 2 ^ (- e)) by (apply Z.pow_pos_nonneg; lia).
      destruct s.
      * destruct (Z.eqb_spec (Z.pos m / 2 ^ (- e)) 0) as [E|E]; [|discriminate H].
        injection H as <-.
        change (Z.neg m) with (- Z.pos m). rewrite Z.quot_opp_l by lia.
        rewrite Z.quot_div_nonneg by lia. lia.
      * destruct (Z.ltb_spec (Z.pos m / 2 ^ (- e)) (2 ^ 32)); [|discriminate H].
        injection H as <-. rewrite Z.quot_div_nonneg by lia. reflexivity.
Qed.

(** C8, at two inputs. With 4096 input and 4096 output feature maps and
    the ratio 0.8F, which stands for 13421773 / 2^24, the product
    4096 * 4096 * 0.8F is the integer 13421773, and so is its rounding;
    the binary32 sum 13421773 + 0.5F is a tie that rounds to the even
    neighbour 13421774, and that is the edge count the ratio constructor
    and [read_proto] store. With 2 input and 3 output feature maps and the
    binary32 number nearest to 5/12, the product 6 * ratio lies below 2.5
    and rounds to 2, while the binary32 product is 2.5 and the edge count
    stored is 3. *)
Lemma ratio_edge_count_not_rounded :
  (float_value F_0_8 = Some (13421773 # 16777216)
   /\ round_half_up (inject_Z (4096 * 4096) * (13421773 # 16777216)) = 13421773
   /\ (exists this,
         sparse_convolution_layer_ratio [3; 3] 4096 4096 F_0_8 [] [] [] true = Ret this
         /\ feature_map_connection_count this = 13421774)
   /\ (exists this,
         read_proto (Some example_param_0_8) = Ret this
         /\ feature_map_connection_count this = 13421774))
  /\ (float_value F_5_12 = Some (13981013 # 33554432)
      /\ round_half_up (inject_Z (2 * 3) * (13981013 # 33554432)) = 2
      /\ exists this,
           sparse_convolution_layer_ratio [3; 3] 2 3 F_5_12 [] [] [] true = Ret this
           /\ feature_map_connection_count this = 3).
Proof.
  split; [split; [|split; [|split]]|split; [|split]].
  - vm_compute. reflexivity.
  - vm_compute. reflexivity.
  - eexists. split; [vm_compute; reflexivity|reflexivity].
  - eexists. split; [vm_compute; reflexivity|reflexivity].
  - vm_compute. reflexivity.
  - vm_compute. reflexivity.
  - eexists. split; [vm_compute; reflexivity|reflexivity].
Qed.

(** C8, amended. An object built by the ratio constructor, and an object
    read by [read_proto] from a record that stores a ratio and no count,
    keeps the ratio, and its edge_count is the binary32 value of
    [input_feature_map_count * output_feature_map_count * ratio + 0.5F]
    (the product of the counts formed in [unsigned int]) truncated towards
    zero. When the product of the counts fits an [unsigned int], the ratio
    stands for the non-negative rational [q] and that binary32 computation
    is exact, the edge_count is round(input_feature_map_count *
    output_feature_map_count * q). In particular ratio 0.5 with 4 input and
    6 output feature maps gives edge_count 12, from the constructor and
    from [read_proto]. *)
Theorem ratio_gives_rounded_edge_count (ic oc : Z) (ratio : float) :
  (forall ws lp rp st b this,
     sparse_convolution_layer_ratio ws ic oc ratio lp rp st b = Ret this ->
     feature_map_connection_sparsity_ratio this = ratio
     /\ exists v, float_value (ratio_expression ic oc ratio) = Some v
                  /\ feature_map_connection_count this = truncate v)
  /\ (forall param this,
        param_input_feature_map_count param = ic ->
        param_output_feature_map_count param = oc ->
        param_feature_map_connection_count param = None ->
        param_feature_map_connection_sparsity_ratio param = Some ratio ->
        read_proto (Some param) = Ret this ->
        feature_map_connection_sparsity_ratio this = ratio
        /\ exists v, float_value (ratio_expression ic oc ratio) = Some v
                     /\ feature_map_connection_count this = truncate v)
  /\ (forall q v,
        0 <= ic * oc < 2 ^ 32 ->
        float_value ratio = Some q -> (0 <= q)%Q ->
        float_value (fadd (fmul (float_of_uint (ic * oc)) ratio) F_0_5) = Some v ->
        (v == inject_Z (ic * oc) * q + (1 # 2))%Q ->
        (forall ws lp rp st b this,
           sparse_convolution_layer_ratio ws ic oc ratio lp rp st b = Ret this ->
           feature_map_connection_count this = round_half_up (inject_Z (ic * oc) * q)
           /\ feature_map_connection_sparsity_ratio this = ratio)
        /\ (forall param this,
              param_input_feature_map_count param = ic ->
              param_output_feature_map_count param = oc ->
              param_feature_map_connection_count param = None ->
              param_feature_map_connection_sparsity_ratio param = Some ratio ->
              read_proto (Some param) = Ret this ->
              feature_map_connection_count this = round_half_up (inject_Z (ic * oc) * q)
              /\ feature_map_connection_sparsity_ratio this = ratio))
  /\ (forall this,
        sparse_convolution_layer_ratio [3; 3] 4 6 F_0_5 [] [] [] true = Ret this ->
        feature_map_connection_count this = 12)
  /\ (forall this,
        read_proto (Some example_param) = Ret this ->
        feature_map_connection_count this = 12).
Proof.
  assert (Hctor : forall ws lp rp st b this,
            sparse_convolution_layer_ratio ws ic oc ratio lp rp st b = Ret this ->
            feature_map_connection_sparsity_ratio this = ratio
            /\ connection_count_of_ratio ic oc ratio
               = Ret (feature_map_connection_count this)).
  { intros ws lp rp st b this H. unfold sparse_convolution_layer_ratio in H.
    bind_inv H. rewrite E.
    unfold constructor_body in H. repeat bind_inv H. injection H as <-. simpl.
    split; reflexivity. }
  assert (Hread : forall param this,
            param_input_feature_map_count param = ic ->
            param_output_feature_map_count param = oc ->
            param_feature_map_connection_count param = None ->
            param_feature_map_connection_sparsity_ratio param = Some ratio ->
            read_proto (Some param) = Ret this ->
            feature_map_connection_sparsity_ratio this = ratio
            /\ connection_count_of_ratio ic oc ratio
               = Ret (feature_map_connection_count this)).
  { intros param this Hic Hoc Hcount Hratio H. unfold read_proto in H.
    rewrite Hcount, Hratio, Hic, Hoc in H. bind_inv H.
    bind_inv E. rewrite E0.
    injection E as <-. simpl in H. bind_inv H. injection H as <-. simpl.
    split; reflexivity. }
  split; [|split; [|split; [|split]]].
  - intros ws lp rp st b this H.
    destruct (Hctor ws lp rp st b this H) as [Hr Hc]. split; [exact Hr|].
    apply uint_of_float_truncate. exact Hc.
  - intros param this Hic Hoc Hcount Hratio H.
    destruct (Hread param this Hic Hoc Hcount Hratio H) as [Hr Hc]. split; [exact Hr|].
    apply uint_of_float_truncate. exact Hc.
  - intros q v Hfit Hq Hq0 Hv Hexact. split.
    + intros ws lp rp st b this H.
      destruct (Hctor ws lp rp st b this H) as [Hr Hc]. split; [|exact Hr].
      exact (connection_count_of_ratio_round _ _ _ _ _ _ Hfit Hq Hq0 Hv Hexact Hc).
    + intros param this Hic Hoc Hcount Hratio H.
      destruct (Hread param this Hic Hoc Hcount Hratio H) as [Hr Hc]. split; [|exact Hr].
      exact (connection_count_of_ratio_round _ _ _ _ _ _ Hfit Hq Hq0 Hv Hexact Hc).
  - intros this H. vm_compute in H. injection H as <-. reflexivity.
  - intros this H. vm_compute in H. injection H as <-. reflexivity.
Qed.

Lemma ratio_gives_rounded_edge_count_witness :
  exists this,
    sparse_convolution_layer_ratio [3; 3] 4 6 F_0_5 [] [] [] true = Ret this
    /\ feature_map_connection_count this = 12
    /\ exists v, float_value (ratio_expression 4 6 F_0_5) = Some v
                 /\ feature_map_connection_count this = truncate v.
Proof.
  eexists. split; [vm_compute; reflexivity|]. split.
  - etransitivity.
    + refine (proj1 (proj1 (proj1 (proj2 (proj2 (ratio_gives_rounded_edge_count 4 6 F_0_5)))
                       _ _ _ _ _ _ _) [3; 3] [] [] [] true _ _)).
      * lia.
      * vm_compute. reflexivity.
      * unfold Qle. simpl. lia.
      * vm_compute. reflexivity.
      * vm_compute. reflexivity.
      * vm_compute. reflexivity.
    + vm_compute. reflexivity.
  - apply (proj1 (ratio_gives_rounded_edge_count 4 6 F_0_5) [3; 3] [] [] [] true).
    vm_compute. reflexivity.
Defined.


(** ** Loops that push one value per index *)

Lemma for_push {A} (f : nat -> outcome A) n from (acc r : list A) :
  for_ n from (fun i res => x ← f i; Ret (res ++ [x])) acc = Ret r ->
  exists l, r = acc ++ l /\ length l = n
            /\ forall k x, l !! k = Some x -> f (from + k)%nat = Ret x.
Proof.
  revert from acc. induction n as [|n IH]; intros from acc H; simpl in H.
  - injection H as <-. exists []. rewrite app_nil_r. split; [reflexivity|].
    split; [reflexivity|]. intros k x Hk. discriminate Hk.
  - bind_inv H. bind_inv E. injection E as <-.
    destruct (IH _ _ H) as (l & -> & Hlen & Hl).
    exists (a0 :: l). rewrite <- app_assoc. split; [reflexivity|].
    split; [simpl; lia|].
    intros [|k] x Hk; simpl in Hk.
    + injection Hk as <-. rewrite Nat.add_0_r. exact E0.
    + rewrite <- Nat.add_succ_comm. apply Hl, Hk.
Qed.

Lemma for_push_total {A} (f : nat -> outcome A) n from (acc : list A) (l : list A) :
  length l = n ->
  (forall k x, l !! k = Some x -> f (from + k)%nat = Ret x) ->
  for_ n from (fun i res => x ← f i; Ret (res ++ [x])) acc = Ret (acc ++ l).
Proof.
  revert from acc l. induction n as [|n IH]; intros from acc l Hlen Hl; simpl.
  - destruct l; [|discriminate]. rewrite app_nil_r. reflexivity.
  - destruct l as [|x l]; [discriminate|].
    pose proof (Hl 0%nat x eq_refl) as H0. rewrite Nat.add_0_r in H0. rewrite H0. simpl.
    rewrite (IH (S from) (acc ++ [x]) l).
    + rewrite <- app_assoc. reflexivity.
    + simpl in Hlen. lia.
    + intros k y Hk. rewrite Nat.add_succ_comm. apply Hl. exact Hk.
Qed.

(** ** C2: forward then backward shape inference *)

(** C2, at one configuration: window 3, stride 2, no padding, input size
    10. Forward inference gives size 4 and backward inference gives back
    size 9: it reports "supported" but the input size is not recovered. *)
Lemma shape_round_trip_fails_with_stride :
  get_output_layer_configuration_specific example_strided_layer [example_strided_input]
  = Ret {| feature_map_count := 1; dimension_sizes := [4] |}
  /\ get_input_layer_configuration_specific example_strided_layer
       {| feature_map_count := 1; dimension_sizes := [4] |} 0
     = Ret (true, {| feature_map_count := 1; dimension_sizes := [9] |})
  /\ ~ (exists out,
          get_output_layer_configuration_specific example_strided_layer
            [example_strided_input] = Ret out
          /\ get_input_layer_configuration_specific example_strided_layer out 0
             = Ret (true, example_strided_input)).
Proof.
  split; [reflexivity|]. split; [reflexivity|].
  intros (out & H1 & H2). vm_compute in H1. injection H1 as <-.
  vm_compute in H2. discriminate H2.
Qed.

Lemma input_dimension_of_output (d l r w s q : Z) :
  0 <= w <= u32 (d + l + r) ->
  s <> 0 ->
  q = u32 (u32 (d + l + r) - w) / s ->
  u32 (u32 (u32 (u32 (u32 (u32 (q + 1) - 1) * s) + w) - l) - r)
  = u32 (d - uncovered d l r w s).
Proof.
  intros Hw Hs ->. unfold uncovered.
  pose proof (u32_range (d + l + r)) as HT.
  set (T := u32 (d + l + r)) in *.
  rewrite (u32_small (T - w)) by lia.
  set (q := (T - w) / s).
  rewrite (u32_sub_l (q + 1) 1). replace (q + 1 - 1) with q by lia.
  rewrite (u32_mul_l q s), (u32_add_l (q * s) w), (u32_sub_l (q * s + w) l),
    (u32_sub_l (q * s + w - l) r).
  pose proof (Z.div_mod (T - w) s Hs) as Hdm. fold q in Hdm.
  replace (q * s + w - l - r) with (T + (- ((T - w) mod s) - l - r)) by lia.
  unfold T. rewrite u32_add_l. f_equal. lia.
Qed.

(** C2, amended. Take a sparse convolution layer whose padding and stride
    lists have one entry per window dimension and whose window sizes are
    not negative, and an input shape that forward shape inference accepts.
    Then backward shape inference on the resulting output shape returns
    supported (true) with as many spatial sizes as the input, and in every
    dimension the size it returns is the input size minus the part left
    uncovered by the last window position, (d + l + r - w) mod s; so the
    spatial sizes of the input are recovered exactly when every stride
    divides d + l + r - w, in particular when every stride is 1. Nothing is
    said about the feature-map count of the recovered shape. *)
Theorem shape_round_trip (this : sparse_convolution_layer)
    (input0 : layer_configuration_specific) (rest : list layer_configuration_specific)
    (out : layer_configuration_specific) (input_layer_id : nat) :
  length (left_zero_padding this) = length (window_sizes this) ->
  length (right_zero_padding this) = length (window_sizes this) ->
  length (strides this) = length (window_sizes this) ->
  Forall (fun w => 0 <= w) (window_sizes this) ->
  Forall is_u32 (dimension_sizes input0) ->
  get_output_layer_configuration_specific this (input0 :: rest) = Ret out ->
  exists back,
    get_input_layer_configuration_specific this out input_layer_id = Ret (true, back)
    /\ length (dimension_sizes back) = length (dimension_sizes input0)
    /\ (forall i d l r w s,
          dimension_sizes input0 !! i = Some d ->
          left_zero_padding this !! i = Some l ->
          right_zero_padding this !! i = Some r ->
          window_sizes this !! i = Some w ->
          strides this !! i = Some s ->
          dimension_sizes back !! i = Some (u32 (d - uncovered d l r w s)))
    /\ ((forall i d l r w s,
           dimension_sizes input0 !! i = Some d ->
           left_zero_padding this !! i = Some l ->
           right_zero_padding this !! i = Some r ->
           window_sizes this !! i = Some w ->
           strides this !! i = Some s ->
           uncovered d l r w s = 0) ->
        dimension_sizes back = dimension_sizes input0).
Proof.
  intros Hl Hr Hs Hws Hin Hout.
  unfold get_output_layer_configuration_specific in Hout. simpl in Hout.
  bind_inv Hout. apply throw_if_Ret in E as [E|E]; [|discriminate E].
  bind_inv Hout. apply throw_if_Ret in E0 as [E0|E0]; [|discriminate E0].
  apply negb_false_iff, Nat.eqb_eq in E0. unfold get_dimension_count in E0.
  bind_inv Hout. injection Hout as <-.
  apply for_push in E1. destruct E1 as (odims & -> & Holen & Hodims). simpl in *.
  (* what forward inference computed in dimension [k] *)
  assert (Hfwd : forall k x, odims !! k = Some x ->
            exists d l r w s,
              dimension_sizes input0 !! k = Some d
              /\ left_zero_padding this !! k = Some l
              /\ right_zero_padding this !! k = Some r
              /\ window_sizes this !! k = Some w
              /\ strides this !! k = Some s
              /\ 0 <= w <= u32 (d + l + r) /\ s <> 0
              /\ x = u32 (u32 (u32 (d + l + r) - w) / s + 1)).
  { intros k x Hk. specialize (Hodims k x Hk). simpl in Hodims.
    unfold output_dimension_size in Hodims.
    bind_inv Hodims. bind_inv Hodims. bind_inv Hodims. bind_inv Hodims.
    bind_inv Hodims. bind_inv Hodims. bind_inv Hodims. injection Hodims as <-.
    apply at_Ret in E1, E2, E3, E4, E6.
    rewrite u32_add_l in E5, E7.
    apply throw_if_Ret in E5 as [E5|E5]; [|discriminate E5].
    apply Z.ltb_ge in E5.
    unfold udiv in E7. destruct (Z.eqb_spec a6 0); [discriminate E7|].
    injection E7 as <-.
    exists a1, a2, a3, a4, a6. repeat split; try assumption.
    rewrite Forall_lookup in Hws. exact (Hws _ _ E4). }
  set (back_dims := map (fun '(d, (l, (r, (w, s)))) => u32 (d - uncovered d l r w s))
                      (zip (dimension_sizes input0)
                         (zip (left_zero_padding this)
                            (zip (right_zero_padding this)
                               (zip (window_sizes this) (strides this)))))).
  assert (Hblen : length back_dims = length (window_sizes this)).
  { unfold back_dims. rewrite length_map, !length_zip. lia. }
  assert (Hback : forall i d l r w s,
            dimension_sizes input0 !! i = Some d ->
            left_zero_padding this !! i = Some l ->
            right_zero_padding this !! i = Some r ->
            window_sizes this !! i = Some w ->
            strides this !! i = Some s ->
            back_dims !! i = Some (u32 (d - uncovered d l r w s))).
  { intros i d l r w s Hd Hl' Hr' Hw' Hs'. unfold back_dims.
    rewrite list_lookup_fmap.
    match goal with |- _ <$> ?z !! i = _ =>
      assert (Hz : z !! i = Some (d, (l, (r, (w, s))))); [|rewrite Hz; reflexivity] end.
    apply lookup_zip_with_Some.
    exists d, (l, (r, (w, s))). split; [reflexivity|]. split; [exact Hd|].
    apply lookup_zip_with_Some. exists l, (r, (w, s)). split; [reflexivity|].
    split; [exact Hl'|].
    apply lookup_zip_with_Some. exists r, (w, s). split; [reflexivity|].
    split; [exact Hr'|].
    apply lookup_zip_with_Some. exists w, s. auto. }
  exists {| feature_map_count := output_feature_map_count this;
            dimension_sizes := back_dims |}.
  split; [|split; [|split]].
  - unfold get_input_layer_configuration_specific. simpl.
    rewrite Z.eqb_refl. simpl. unfold get_dimension_count. simpl.
    rewrite Holen, Nat.eqb_refl. simpl.
    rewrite (for_push_total _ _ _ [] back_dims Hblen); [reflexivity|].
    intros k x Hk. simpl.
    destruct (lookup_lt_is_Some_2 odims k) as [o Ho].
    { apply lookup_lt_Some in Hk. lia. }
    destruct (Hfwd k o Ho) as (d & l & r & w & s & Hd & Hl' & Hr' & Hw' & Hs' & Hw & Hs0 & ->).
    rewrite (Hback k d l r w s Hd Hl' Hr' Hw' Hs') in Hk. injection Hk as <-.
    unfold input_dimension_size, at_. simpl. rewrite Ho, Hs', Hw', Hl', Hr'. simpl.
    f_equal. apply input_dimension_of_output; auto.
  - simpl. lia.
  - simpl. exact Hback.
  - simpl. intros Hdiv. apply list_eq. intros i.
    destruct (dimension_sizes input0 !! i) as [d|] eqn:Hd.
    + pose proof (lookup_lt_Some _ _ _ Hd) as Hi.
      destruct (lookup_lt_is_Some_2 (left_zero_padding this) i ltac:(lia)) as [l Hl'].
      destruct (lookup_lt_is_Some_2 (right_zero_padding this) i ltac:(lia)) as [r Hr'].
      destruct (lookup_lt_is_Some_2 (window_sizes this) i ltac:(lia)) as [w Hw'].
      destruct (lookup_lt_is_Some_2 (strides this) i ltac:(lia)) as [s Hs'].
      rewrite (Hback i d l r w s Hd Hl' Hr' Hw' Hs').
      rewrite (Hdiv i d l r w s Hd Hl' Hr' Hw' Hs'), Z.sub_0_r.
      rewrite Forall_lookup in Hin. rewrite u32_small; [reflexivity|].
      exact (Hin _ _ Hd).
    + apply lookup_ge_None. apply lookup_ge_None in Hd. lia.
Qed.

Lemma shape_round_trip_witness :
  exists back,
    get_input_layer_configuration_specific example_layer
      {| feature_map_count := 6; dimension_sizes := [8; 8] |} 0 = Ret (true, back)
    /\ dimension_sizes back = dimension_sizes example_input.
Proof.
  destruct (shape_round_trip example_layer example_input []
              {| feature_map_count := 6; dimension_sizes := [8; 8] |} 0%nat)
    as (back & H1 & _ & _ & H4).
  - reflexivity.
  - reflexivity.
  - reflexivity.
  - repeat constructor; lia.
  - repeat constructor; unfold is_u32; lia.
  - reflexivity.
  - exists back. split; [exact H1|]. apply H4.
    intros [|[|i]] d l r w s Hd Hl Hr Hw Hs; simpl in *; try discriminate;
      injection Hd as <-; injection Hl as <-; injection Hr as <-;
      injection Hw as <-; injection Hs as <-; reflexivity.
Defined.

(** For the record: the shape written by backward inference carries the
    layer's output feature-map count. *)
Lemma backward_inference_feature_map_count (this : sparse_convolution_layer)
    (out back : layer_configuration_specific) (input_layer_id : nat) (supported : bool) :
  get_input_layer_configuration_specific this out input_layer_id = Ret (supported, back) ->
  feature_map_count back = output_feature_map_count this.
Proof.
  unfold get_input_layer_configuration_specific. intros H.
  repeat bind_inv H. injection H as _ <-. reflexivity.
Qed.


(** ** Counting lemmas *)

Lemma count_range_ext p q from n :
  (forall i, (from <= i < from + n)%nat -> p i = q i) ->
  count_range p from n = count_range q from n.
Proof.
  revert from. induction n as [|n IH]; intros from H; simpl; [reflexivity|].
  rewrite (H from) by lia. f_equal. apply IH. intros; apply H; lia.
Qed.

Lemma count_range_false p from n :
  (forall i, (from <= i < from + n)%nat -> p i = false) -> count_range p from n = O.
Proof.
  revert from. induction n as [|n IH]; intros from H; simpl; [reflexivity|].
  rewrite (H from) by lia. rewrite IH; [reflexivity|]. intros; apply H; lia.
Qed.

Lemma count_range_le p from n : (count_range p from n <= n)%nat.
Proof.
  revert from. induction n as [|n IH]; intros from; simpl; [lia|].
  specialize (IH (S from)). destruct (p from); lia.
Qed.

(** Turning one [false] into [true] inside the range adds one. *)
Lemma count_range_set p q from n k :
  (from <= k < from + n)%nat -> p k = false -> q k = true ->
  (forall i, i <> k -> q i = p i) ->
  count_range q from n = S (count_range p from n).
Proof.
  revert from. induction n as [|n IH]; intros from Hk Hp Hq Hne; simpl; [lia|].
  destruct (decide (from = k)) as [->|Hfk].
  - rewrite Hp, Hq. simpl. f_equal. apply count_range_ext.
    intros i Hi. apply Hne. lia.
  - rewrite (Hne from Hfk). rewrite (IH (S from)); try assumption; lia.
Qed.

Lemma sum_range_ext f g from n :
  (forall i, (from <= i < from + n)%nat -> f i = g i) ->
  sum_range f from n = sum_range g from n.
Proof.
  revert from. induction n as [|n IH]; intros from H; simpl; [reflexivity|].
  rewrite (H from) by lia. f_equal. apply IH. intros; apply H; lia.
Qed.

Lemma sum_range_incr f g from n k :
  (from <= k < from + n)%nat -> g k = S (f k) ->
  (forall i, i <> k -> g i = f i) ->
  sum_range g from n = S (sum_range f from n).
Proof.
  revert from. induction n as [|n IH]; intros from Hk Hg Hne; simpl; [lia|].
  destruct (decide (from = k)) as [->|Hfk].
  - rewrite Hg. simpl. do 2 f_equal. apply sum_range_ext. intros i Hi. apply Hne. lia.
  - rewrite (Hne from Hfk). rewrite (IH (S from)); try assumption; lia.
Qed.

Lemma sum_range_ge f from n b :
  (forall i, (from <= i < from + n)%nat -> (b <= f i)%nat) ->
  (n * b <= sum_range f from n)%nat.
Proof.
  revert from. induction n as [|n IH]; intros from H; simpl; [lia|].
  specialize (IH (S from) ltac:(intros; apply H; lia)).
  specialize (H from ltac:(lia)). lia.
Qed.

Lemma sum_range_zero f from n :
  (forall i, (from <= i < from + n)%nat -> f i = O) -> sum_range f from n = O.
Proof.
  revert from. induction n as [|n IH]; intros from H; simpl; [reflexivity|].
  rewrite (H from) by lia. rewrite IH; [reflexivity|]. intros; apply H; lia.
Qed.

(** ** Entries of a matrix *)

Lemma entry_lookup m k b : m !! k = Some b -> entry m k = b.
Proof. unfold entry. intros ->. reflexivity. Qed.

Lemma entry_insert m k j :
  (k < length m)%nat ->
  entry (<[k := true]> m) j = if decide (j = k) then true else entry m j.
Proof.
  intros Hk. unfold entry. case_decide as E.
  - subst j. rewrite list_lookup_insert_eq by exact Hk. reflexivity.
  - rewrite list_lookup_insert_ne by congruence. reflexivity.
Qed.

Lemma entry_replicate n k : entry (replicate n false) k = false.
Proof.
  unfold entry. destruct (replicate n false !! k) as [b|] eqn:E; [|reflexivity].
  apply lookup_replicate in E. simpl. tauto.
Qed.

Lemma cell_unique (ic o i o' i' : nat) :
  (i < ic)%nat -> (i' < ic)%nat -> (o * ic + i = o' * ic + i')%nat -> o = o' /\ i = i'.
Proof.
  intros Hi Hi' H.
  assert (o = o').
  { destruct (Nat.lt_trichotomy o o') as [L|[E|L]]; [|exact E|]; exfalso; nia. }
  subst o'. split; [reflexivity|lia].
Qed.

Lemma cell_bound (oc ic o i : nat) :
  (o < oc)%nat -> (i < ic)%nat -> (o * ic + i < oc * ic)%nat.
Proof. intros. nia. Qed.

Section Marked.
(** The matrix after the cell [(o, i)], which was [false], is set. *)
Variables (oc ic o i : nat) (m : list bool).
Hypothesis Hlen : length m = (oc * ic)%nat.
Hypothesis Ho : (o < oc)%nat.
Hypothesis Hi : (i < ic)%nat.
Hypothesis Hfree : entry m (o * ic + i) = false.

Let m' := <[(o * ic + i)%nat := true]> m.

Lemma marked_length : length m' = (oc * ic)%nat.
Proof. unfold m'. rewrite length_insert. exact Hlen. Qed.

Lemma marked_entry j :
  entry m' j = if decide (j = (o * ic + i)%nat) then true else entry m j.
Proof. apply entry_insert. rewrite Hlen. apply cell_bound; assumption. Qed.

Lemma marked_true_entries : true_entries m' = S (true_entries m).
Proof.
  unfold true_entries. rewrite marked_length, Hlen.
  apply (count_range_set _ _ _ _ (o * ic + i)%nat).
  - pose proof (cell_bound oc ic o i Ho Hi). lia.
  - exact Hfree.
  - rewrite marked_entry. case_decide; congruence.
  - intros j Hj. rewrite marked_entry. case_decide; congruence.
Qed.

Lemma marked_output_degree o' :
  output_degree m' ic o' = if decide (o' = o) then S (output_degree m ic o)
                           else output_degree m ic o'.
Proof.
  unfold output_degree. case_decide as E.
  - subst o'. apply (count_range_set _ _ _ _ i).
    + lia.
    + exact Hfree.
    + rewrite marked_entry. case_decide; congruence.
    + intros j Hj. rewrite marked_entry. case_decide as E; [|reflexivity]. lia.
  - apply count_range_ext. intros j Hj. rewrite marked_entry.
    case_decide as E'; [|reflexivity].
    apply cell_unique in E'; [tauto|lia|lia].
Qed.

Lemma marked_input_degree i' :
  (i' < ic)%nat ->
  input_degree m' oc ic i' = if decide (i' = i) then S (input_degree m oc ic i)
                             else input_degree m oc ic i'.
Proof.
  intros Hi'. unfold input_degree. case_decide as E.
  - subst i'. apply (count_range_set _ _ _ _ o).
    + lia.
    + exact Hfree.
    + rewrite marked_entry. case_decide; congruence.
    + intros j Hj. rewrite marked_entry. case_decide as E; [|reflexivity].
      apply cell_unique in E; [tauto|lia|lia].
  - apply count_range_ext. intros j Hj. rewrite marked_entry.
    case_decide as E'; [|reflexivity].
    apply cell_unique in E'; [tauto|lia|lia].
Qed.
End Marked.


(** ** Loop rules *)

Lemma for_total {S} (I : nat -> S -> Prop) n from (body : nat -> S -> outcome S) s :
  I from s ->
  (forall i s, (from <= i < from + n)%nat -> I i s ->
     exists s', body i s = Ret s' /\ I (Datatypes.S i) s') ->
  exists s', for_ n from body s = Ret s' /\ I (from + n)%nat s'.
Proof.
  revert from s. induction n as [|n IH]; intros from s H0 Hstep; simpl.
  - exists s. rewrite Nat.add_0_r. auto.
  - destruct (Hstep from s ltac:(lia) H0) as (s1 & -> & H1). simpl.
    destruct (IH (Datatypes.S from) s1 H1) as (s' & Hs' & HI).
    + intros i s2 Hi. apply Hstep. lia.
    + exists s'. split; [exact Hs'|]. rewrite <- Nat.add_succ_comm. exact HI.
Qed.

Lemma for_partial {S} (I : nat -> S -> Prop) n from (body : nat -> S -> outcome S) s s' :
  I from s ->
  (forall i s s', (from <= i < from + n)%nat -> I i s -> body i s = Ret s' ->
     I (Datatypes.S i) s') ->
  for_ n from body s = Ret s' -> I (from + n)%nat s'.
Proof.
  revert from s. induction n as [|n IH]; intros from s H0 Hstep H; simpl in H.
  - injection H as <-. rewrite Nat.add_0_r. exact H0.
  - bind_inv H. rewrite <- Nat.add_succ_comm. apply (IH _ a); [|intros; eapply Hstep; eauto; lia|exact H].
    apply (Hstep from s a); [lia|exact H0|exact E].
Qed.

(** ** Vector accesses with [unsigned int] indices *)

Lemma at_u_Ret {A} (v : list A) (i : Z) x :
  at_u v i = Ret x <-> v !! Z.to_nat i = Some x.
Proof. apply at_Ret. Qed.

Lemma at_u_elem (v : list Z) (i : Z) x : at_u v i = Ret x -> x ∈ v.
Proof. intros H. apply at_u_Ret in H. eapply list_elem_of_lookup_2, H. Qed.

Lemma at_u_in_range {A} (v : list A) (i : Z) :
  0 <= i < Z.of_nat (length v) -> exists x, at_u v i = Ret x.
Proof.
  intros Hi. destruct (lookup_lt_is_Some_2 v (Z.to_nat i) ltac:(lia)) as [x Hx].
  exists x. apply at_u_Ret, Hx.
Qed.

(** ** Erasing an id from a list without duplicates *)

Lemma erase_find_Ret (l : list Z) (x : Z) :
  x ∈ l -> NoDup l ->
  exists l', erase_find l x = Ret l' /\ NoDup l' /\ forall y, y ∈ l' <-> y ∈ l /\ y <> x.
Proof.
  induction l as [|y l IH]; intros Hin Hnd.
  - apply elem_of_nil in Hin. contradiction.
  - apply NoDup_cons in Hnd as [Hy Hnd]. simpl.
    destruct (Z.eqb_spec y x) as [->|Hne].
    + exists l. split; [reflexivity|]. split; [exact Hnd|].
      intros z. rewrite elem_of_cons. split.
      * intros Hz. split; [auto|]. intros ->. contradiction.
      * intros [[->|Hz] Hzx]; [contradiction|exact Hz].
    + apply elem_of_cons in Hin as [->|Hin]; [contradiction|].
      destruct (IH Hin Hnd) as (l' & -> & Hnd' & Hl'). simpl.
      exists (y :: l'). split; [reflexivity|]. split.
      * apply NoDup_cons. split; [|exact Hnd']. rewrite Hl'. tauto.
      * intros z. rewrite !elem_of_cons, Hl'. split.
        -- intros [->|[Hz Hzx]]; auto.
        -- intros [[->|Hz] Hzx]; auto.
Qed.

Lemma erase_find_Ret_inv (l l' : list Z) (x : Z) :
  erase_find l x = Ret l' -> x ∈ l.
Proof.
  revert l'. induction l as [|y l IH]; intros l' H; simpl in H; [discriminate H|].
  destruct (Z.eqb_spec y x) as [->|Hne]; [apply elem_of_cons; auto|].
  bind_inv H. apply elem_of_cons. right. eapply IH, E.
Qed.

(** ** The lists of available ids *)

Lemma ids_below_spec (degree : nat -> nat) n cap x :
  x ∈ ids_below degree n cap
  <-> exists o, x = Z.of_nat o /\ (o < n)%nat /\ Z.of_nat (degree o) < cap.
Proof.
  unfold ids_below. rewrite list_elem_of_fmap. split.
  - intros (o & -> & Ho). apply list_elem_of_filter in Ho as [Hd Ho].
    apply elem_of_seq in Ho. exists o. split; [reflexivity|]. split; [lia|exact Hd].
  - intros (o & -> & Ho & Hd). exists o. split; [reflexivity|].
    apply list_elem_of_filter. split; [exact Hd|]. apply elem_of_seq. lia.
Qed.

Lemma ids_below_NoDup (degree : nat -> nat) n cap : NoDup (ids_below degree n cap).
Proof.
  unfold ids_below. apply NoDup_fmap_2; [intros a b; lia|].
  apply NoDup_filter, NoDup_seq.
Qed.

Lemma ids_below_S (degree : nat -> nat) n cap :
  ids_below degree (S n) cap
  = if Z.of_nat (degree n) <? cap then ids_below degree n cap ++ [Z.of_nat n]
    else ids_below degree n cap.
Proof.
  unfold ids_below. rewrite seq_S, filter_app, fmap_app. simpl.
  rewrite filter_cons, filter_nil.
  destruct (Z.ltb_spec (Z.of_nat (degree n)) cap); case_decide; try lia.
  - reflexivity.
  - simpl. rewrite app_nil_r. reflexivity.
Qed.

Lemma available_lists_Ret (degree : nat -> nat) (n : nat) (cap cap_overflow : Z) :
  available_lists (map (fun i => Z.of_nat (degree i)) (seq 0 n)) (Z.of_nat n) cap cap_overflow
  = Ret (ids_below degree n cap, ids_below degree n cap_overflow).
Proof.
  unfold available_lists. rewrite Nat2Z.id.
  set (counts := map (fun i => Z.of_nat (degree i)) (seq 0 n)).
  match goal with |- for_ _ _ ?b _ = _ => set (body := b) end.
  destruct (for_total
              (fun k s => (k <= n)%nat
                          /\ s = (ids_below degree k cap, ids_below degree k cap_overflow))
              n 0%nat body ([], [])) as (s' & Hs' & _ & ->).
  - split; [lia|reflexivity].
  - intros i s Hi [_ ->]. unfold body, at_, counts.
    rewrite list_lookup_fmap, lookup_seq_lt by lia. simpl.
    eexists. split; [reflexivity|]. split; [lia|].
    rewrite !ids_below_S. reflexivity.
  - exact Hs'.
Qed.


(** ** The bookkeeping a pass starts from *)

Lemma cell_index (oc ic o i : nat) :
  Z.of_nat (oc * ic) < 2 ^ 32 -> (o < oc)%nat -> (i < ic)%nat ->
  Z.to_nat (u32 (u32 (Z.of_nat o * Z.of_nat ic) + Z.of_nat i)) = (o * ic + i)%nat.
Proof.
  intros Hfit Ho Hi. pose proof (cell_bound oc ic o i Ho Hi) as Hb.
  rewrite u32_add_l, u32_small by lia. lia.
Qed.

Lemma accumulate_zeros n : accumulate (replicate n 0) = 0.
Proof. unfold accumulate. induction n as [|n IH]; simpl; [reflexivity|exact IH]. Qed.

Section Counting.
Variables (oc ic : nat) (m : list bool).
Hypothesis Hlen : length m = (oc * ic)%nat.
Hypothesis Hfit : Z.of_nat (oc * ic) < 2 ^ 32.

Lemma cell_read (o i : nat) :
  (o < oc)%nat -> (i < ic)%nat ->
  at_u m (u32 (u32 (Z.of_nat o * Z.of_nat ic) + Z.of_nat i)) = Ret (entry m (o * ic + i)).
Proof.
  intros Ho Hi. unfold at_u. rewrite (cell_index oc ic) by assumption.
  destruct (lookup_lt_is_Some_2 m (o * ic + i)) as [b Hb].
  { rewrite Hlen. apply cell_bound; assumption. }
  apply at_Ret. rewrite Hb. f_equal. symmetry. apply entry_lookup, Hb.
Qed.

(** Counting the [true] cells among [n] cells chosen by [cell]. *)
Lemma count_cells (cell : nat -> nat) (idx : nat -> Z) n from acc :
  (forall k, (from <= k < from + n)%nat -> at_u m (idx k) = Ret (entry m (cell k))) ->
  0 <= acc -> acc + Z.of_nat n < 2 ^ 32 ->
  for_ n from (fun k feature_map_count =>
      b ← at_u m (idx k);
      Ret (if b : bool then u32 (feature_map_count + 1) else feature_map_count)) acc
  = Ret (acc + Z.of_nat (count_range (fun k => entry m (cell k)) from n)).
Proof.
  revert from acc. induction n as [|n IH]; intros from acc Hread Hacc Hb; simpl.
  - f_equal. lia.
  - rewrite Hread by lia. simpl.
    destruct (entry m (cell from)).
    + rewrite u32_small by lia. rewrite IH; [f_equal; lia| |lia|lia].
      intros; apply Hread; lia.
    + rewrite IH; [f_equal; lia| |lia|lia]. intros; apply Hread; lia.
Qed.

Lemma fill_counts (f : nat -> outcome Z) (g : nat -> Z) n :
  (forall k, (k < n)%nat -> f k = Ret (g k)) ->
  for_ n 0%nat (fun k lst => c ← f k; set_at lst k c) (replicate n 0)
  = Ret (map g (seq 0 n)).
Proof.
  intros Hf.
  destruct (for_total
              (fun k lst => (k <= n)%nat /\ lst = map g (seq 0 k) ++ replicate (n - k) 0)
              n 0%nat (fun k lst => c ← f k; set_at lst k c) (replicate n 0))
    as (s' & Hs' & _ & ->).
  - split; [lia|]. rewrite Nat.sub_0_r. reflexivity.
  - intros k lst Hk [_ ->]. rewrite Hf by lia. rewrite bind_Ret_l.
    eexists. split.
    + apply set_at_Ret. split; [|reflexivity].
      rewrite length_app, length_map, length_seq, length_replicate. lia.
    + split; [lia|]. rewrite seq_S, map_app. simpl.
      replace (n - k)%nat with (S (n - S k)) by lia. simpl.
      rewrite <- app_assoc. simpl.
      replace k with (length (map g (seq 0 k)) + 0)%nat at 1
        by (rewrite length_map, length_seq; lia).
      rewrite insert_app_r. reflexivity.
  - rewrite Hs'. simpl. rewrite Nat.sub_diag, app_nil_r. reflexivity.
Qed.

Lemma count_output_connections_Ret :
  count_output_connections m (Z.of_nat oc) (Z.of_nat ic)
  = Ret (map (fun o => Z.of_nat (output_degree m ic o)) (seq 0 oc)).
Proof.
  unfold count_output_connections. rewrite !Nat2Z.id.
  apply fill_counts. intros o Ho.
  rewrite (count_cells (fun i => (o * ic + i)%nat)); [reflexivity| |lia|nia].
  intros i Hi. apply cell_read; [exact Ho|lia].
Qed.

Lemma count_input_connections_Ret :
  count_input_connections m (Z.of_nat oc) (Z.of_nat ic)
  = Ret (map (fun i => Z.of_nat (input_degree m oc ic i)) (seq 0 ic)).
Proof.
  unfold count_input_connections. rewrite !Nat2Z.id.
  apply fill_counts. intros i Hi.
  rewrite (count_cells (fun o => (o * ic + i)%nat)); [reflexivity| |lia|nia].
  intros o Ho. apply cell_read; [lia|exact Hi].
Qed.
End Counting.


(** ** Availability lists when one degree grows by one *)

Section Increment.
Variables (n : nat) (degree degree' : nat -> nat) (k : nat) (cap : Z) (l : list Z).
Hypothesis Hk : (k < n)%nat.
Hypothesis Hgrow : degree' k = S (degree k).
Hypothesis Hsame : forall j, j <> k -> degree' j = degree j.
Hypothesis Hnd : NoDup l.
Hypothesis Hl : forall x, x ∈ l <-> exists o, x = Z.of_nat o /\ (o < n)%nat
                                     /\ Z.of_nat (degree o) < cap.

Lemma available_reached :
  Z.of_nat (S (degree k)) = cap ->
  exists l', erase_find l (Z.of_nat k) = Ret l' /\ NoDup l'
    /\ forall x, x ∈ l' <-> exists o, x = Z.of_nat o /\ (o < n)%nat
                                 /\ Z.of_nat (degree' o) < cap.
Proof.
  intros Hcap.
  destruct (erase_find_Ret l (Z.of_nat k)) as (l' & He & Hnd' & Hl'); [|exact Hnd|].
  { apply Hl. exists k. split; [reflexivity|]. split; [exact Hk|]. lia. }
  exists l'. split; [exact He|]. split; [exact Hnd'|].
  intros x. rewrite Hl', Hl. split.
  - intros [(o & -> & Ho & Hd) Hne]. exists o. split; [reflexivity|]. split; [exact Ho|].
    rewrite Hsame; [exact Hd|]. intros ->. contradiction.
  - intros (o & -> & Ho & Hd).
    destruct (decide (o = k)) as [->|Hok]; [rewrite Hgrow in Hd; lia|].
    split; [|lia]. exists o. split; [reflexivity|]. split; [exact Ho|].
    rewrite <- (Hsame o Hok). exact Hd.
Qed.

Lemma available_kept :
  Z.of_nat (S (degree k)) <> cap ->
  forall x, x ∈ l <-> exists o, x = Z.of_nat o /\ (o < n)%nat
                             /\ Z.of_nat (degree' o) < cap.
Proof.
  intros Hcap x. rewrite Hl. split.
  - intros (o & -> & Ho & Hd). exists o. split; [reflexivity|]. split; [exact Ho|].
    destruct (decide (o = k)) as [->|Hok]; [rewrite Hgrow; lia|].
    rewrite (Hsame o Hok). exact Hd.
  - intros (o & -> & Ho & Hd). exists o. split; [reflexivity|]. split; [exact Ho|].
    destruct (decide (o = k)) as [->|Hok]; [rewrite Hgrow in Hd; lia|].
    rewrite <- (Hsame o Hok). exact Hd.
Qed.
End Increment.

Lemma counts_after_increment (n : nat) (degree degree' : nat -> nat) (k : nat) :
  (k < n)%nat -> degree' k = S (degree k) ->
  (forall j, j <> k -> degree' j = degree j) ->
  <[k := Z.of_nat (degree k) + 1]> (map (fun o => Z.of_nat (degree o)) (seq 0 n))
  = map (fun o => Z.of_nat (degree' o)) (seq 0 n).
Proof.
  intros Hk Hgrow Hsame. apply list_eq. intros j.
  destruct (decide (j = k)) as [->|Hjk].
  - rewrite list_lookup_insert_eq by (rewrite length_map, length_seq; exact Hk).
    rewrite list_lookup_fmap, lookup_seq_lt by exact Hk. simpl. rewrite Hgrow. f_equal. lia.
  - rewrite list_lookup_insert_ne by congruence.
    rewrite !list_lookup_fmap. destruct (seq 0 n !! j) as [x|] eqn:E; [|reflexivity].
    apply lookup_seq in E as [-> _]. simpl. rewrite Hsame by exact Hjk. reflexivity.
Qed.

Lemma ids_length (n : nat) (l : list Z) :
  NoDup l -> (forall x, x ∈ l -> is_id n x) -> (length l <= n)%nat.
Proof.
  intros Hnd Hl.
  assert (l ⊆+ map Z.of_nat (seq 0 n)) as Hsub.
  { apply NoDup_submseteq; [exact Hnd|]. intros x Hx.
    destruct (Hl x Hx) as (k & -> & Hk). apply list_elem_of_fmap. exists k.
    split; [reflexivity|]. apply elem_of_seq. lia. }
  apply submseteq_length in Hsub. rewrite length_map, length_seq in Hsub. exact Hsub.
Qed.


Lemma set_at_in_range {A} (v : list A) (k : nat) (x : A) :
  (k < length v)%nat -> set_at v k x = Ret (<[k := x]> v).
Proof. intros Hk. apply set_at_Ret. auto. Qed.

(** ** Marking a connection keeps the bookkeeping right *)

Section Mark.
Variables (oc ic : nat) (c : caps).
Hypothesis Hfit : Z.of_nat (oc * ic) < 2 ^ 31.
Hypothesis Hcap_o :
  max_connections_for_output_feature_map c < max_connections_for_output_feature_map_overflow c.
Hypothesis Hcap_i :
  max_connections_for_input_feature_map c < max_connections_for_input_feature_map_overflow c.

Variables (a : attempt) (placed : nat) (on inn : nat).
Hypothesis Hinv : attempt_inv oc ic c placed a.
Hypothesis Hon : (on < oc)%nat.
Hypothesis Hinn : (inn < ic)%nat.
Hypothesis Hfree : entry (local_connection_matrix a) (on * ic + inn) = false.
Hypothesis Hdo :
  Z.of_nat (output_degree (local_connection_matrix a) ic on)
    < max_connections_for_output_feature_map_overflow c.
Hypothesis Hdi :
  Z.of_nat (input_degree (local_connection_matrix a) oc ic inn)
    < max_connections_for_input_feature_map_overflow c.

Let m := local_connection_matrix a.
Let m' := <[(on * ic + inn)%nat := true]> m.

Lemma degree_small_o o : Z.of_nat (output_degree m ic o) + 1 < 2 ^ 32.
Proof.
  unfold output_degree.
  pose proof (count_range_le (fun i => entry m (o * ic + i)) 0 ic). nia.
Qed.

Lemma degree_small_i i : Z.of_nat (input_degree m oc ic i) + 1 < 2 ^ 32.
Proof.
  unfold input_degree.
  pose proof (count_range_le (fun o => entry m (o * ic + i)) 0 oc). nia.
Qed.

Lemma count_output_connection_Ret :
  exists oal oaol index,
    count_output_connection c a (Z.of_nat on)
    = Ret (map (fun o => Z.of_nat (output_degree m' ic o)) (seq 0 oc), oal, oaol, index)
    /\ NoDup oal
    /\ (forall x, x ∈ oal <-> exists o, x = Z.of_nat o /\ (o < oc)%nat
          /\ Z.of_nat (output_degree m' ic o) < max_connections_for_output_feature_map c)
    /\ NoDup oaol
    /\ (forall x, x ∈ oaol <-> exists o, x = Z.of_nat o /\ (o < oc)%nat
          /\ Z.of_nat (output_degree m' ic o)
               < max_connections_for_output_feature_map_overflow c)
    /\ 0 <= index.
Proof.
  destruct Hinv as [Hlen _ Hocl _ [Hnd1 Hl1] [Hnd2 Hl2] _ _ _ _ _ _ [Hcur _]].
  fold m in Hlen, Hocl, Hl1, Hl2.
  assert (Hgrow : output_degree m' ic on = S (output_degree m ic on)).
  { unfold m'. rewrite (marked_output_degree oc) by assumption. case_decide; congruence. }
  assert (Hsame : forall j, j <> on -> output_degree m' ic j = output_degree m ic j).
  { intros j Hj. unfold m'. rewrite (marked_output_degree oc) by assumption.
    case_decide; congruence. }
  unfold count_output_connection, at_u, set_at_u. rewrite Nat2Z.id.
  rewrite Hocl.
  replace (at_ _ on) with (Ret (A := Z) (Z.of_nat (output_degree m ic on))).
  2:{ symmetry. apply at_Ret. rewrite list_lookup_fmap, lookup_seq_lt by exact Hon.
      reflexivity. }
  rewrite bind_Ret_l.
  rewrite (u32_small (_ + 1)) by (pose proof (degree_small_o on); lia).
  rewrite set_at_in_range by (rewrite length_map, length_seq; exact Hon).
  rewrite bind_Ret_l.
  rewrite (counts_after_increment oc (output_degree m ic) (output_degree m' ic) on Hon Hgrow Hsame).
  replace (Z.of_nat (output_degree m ic on) + 1)
    with (Z.of_nat (S (output_degree m ic on))) by lia.
  destruct (Z.eqb_spec (Z.of_nat (S (output_degree m ic on)))
              (max_connections_for_output_feature_map c)) as [E|E].
  - destruct (available_reached oc (output_degree m ic) (output_degree m' ic) on _ _ Hon Hgrow Hsame Hnd1 Hl1 E)
      as (l' & -> & Hnd' & Hl').
    rewrite bind_Ret_l. do 3 eexists. split; [reflexivity|].
    split; [exact Hnd'|]. split; [exact Hl'|]. split; [exact Hnd2|].
    split; [|exact Hcur].
    apply (available_kept oc (output_degree m ic) (output_degree m' ic) on _ _ Hon Hgrow Hsame Hl2). lia.
  - destruct (Z.eqb_spec (Z.of_nat (S (output_degree m ic on)))
                (max_connections_for_output_feature_map_overflow c)) as [E'|E'].
    + destruct (available_reached oc (output_degree m ic) (output_degree m' ic) on _ _ Hon Hgrow Hsame Hnd2 Hl2 E')
        as (l' & -> & Hnd' & Hl').
      rewrite bind_Ret_l. do 3 eexists. split; [reflexivity|].
      split; [exact Hnd1|].
      split; [exact (available_kept oc (output_degree m ic) (output_degree m' ic) on _ _ Hon Hgrow Hsame Hl1 E)|].
      split; [exact Hnd'|]. split; [exact Hl'|]. apply u32_range.
    + do 3 eexists. split; [reflexivity|].
      split; [exact Hnd1|].
      split; [exact (available_kept oc (output_degree m ic) (output_degree m' ic) on _ _ Hon Hgrow Hsame Hl1 E)|].
      split; [exact Hnd2|].
      split; [exact (available_kept oc (output_degree m ic) (output_degree m' ic) on _ _ Hon Hgrow Hsame Hl2 E')|].
      apply u32_range.
Qed.

Lemma count_input_connection_Ret :
  exists ial iaol,
    count_input_connection c a (Z.of_nat inn)
    = Ret (map (fun i => Z.of_nat (input_degree m' oc ic i)) (seq 0 ic), ial, iaol)
    /\ NoDup ial
    /\ (forall x, x ∈ ial <-> exists i, x = Z.of_nat i /\ (i < ic)%nat
          /\ Z.of_nat (input_degree m' oc ic i) < max_connections_for_input_feature_map c)
    /\ NoDup iaol
    /\ (forall x, x ∈ iaol <-> exists i, x = Z.of_nat i /\ (i < ic)%nat
          /\ Z.of_nat (input_degree m' oc ic i)
               < max_connections_for_input_feature_map_overflow c).
Proof.
  destruct Hinv as [Hlen _ _ Hicl _ _ [Hnd1 Hl1] [Hnd2 Hl2] _ _ _ _ _].
  fold m in Hlen, Hicl, Hl1, Hl2.
  assert (Hgrow : input_degree m' oc ic inn = S (input_degree m oc ic inn)).
  { unfold m'. rewrite (marked_input_degree oc) by assumption. case_decide; congruence. }
  assert (Hsame : forall j, (j < ic)%nat -> j <> inn ->
                    input_degree m' oc ic j = input_degree m oc ic j).
  { intros j Hj Hne. unfold m'. rewrite (marked_input_degree oc) by assumption.
    case_decide; congruence. }
  (* outside the matrix the degree of a column is not used: make the
     equation total so that the increment lemmas apply *)
  set (d := input_degree m oc ic).
  set (d' := fun j => if decide (j < ic)%nat then input_degree m' oc ic j else d j).
  assert (Hgrow' : d' inn = S (d inn)) by (unfold d'; case_decide; [exact Hgrow|lia]).
  assert (Hsame' : forall j, j <> inn -> d' j = d j).
  { intros j Hj. unfold d'. case_decide; [apply Hsame; assumption|reflexivity]. }
  assert (Hmap : map (fun i => Z.of_nat (d' i)) (seq 0 ic)
                 = map (fun i => Z.of_nat (input_degree m' oc ic i)) (seq 0 ic)).
  { apply map_ext_in. intros j Hj. apply in_seq in Hj. unfold d'.
    case_decide; [reflexivity|lia]. }
  assert (Hiff : forall cap (l : list Z),
            (forall x, x ∈ l <-> exists i, x = Z.of_nat i /\ (i < ic)%nat
                                   /\ Z.of_nat (d' i) < cap) ->
            forall x, x ∈ l <-> exists i, x = Z.of_nat i /\ (i < ic)%nat
                                   /\ Z.of_nat (input_degree m' oc ic i) < cap).
  { intros cap l H x. rewrite H. unfold d'.
    split; intros (i & -> & Hi & Hd); exists i; (split; [reflexivity|]);
      (split; [exact Hi|]); case_decide; (exact Hd || lia). }
  unfold count_input_connection, at_u, set_at_u. rewrite Nat2Z.id.
  rewrite Hicl. fold d.
  replace (at_ _ inn) with (Ret (A := Z) (Z.of_nat (d inn))).
  2:{ symmetry. apply at_Ret. rewrite list_lookup_fmap, lookup_seq_lt by exact Hinn.
      reflexivity. }
  rewrite bind_Ret_l.
  rewrite (u32_small (_ + 1)) by (pose proof (degree_small_i inn); unfold d; lia).
  rewrite set_at_in_range by (rewrite length_map, length_seq; exact Hinn).
  rewrite bind_Ret_l.
  rewrite (counts_after_increment ic d d' inn Hinn Hgrow' Hsame'), Hmap.
  replace (Z.of_nat (d inn) + 1) with (Z.of_nat (S (d inn))) by lia.
  destruct (Z.eqb_spec (Z.of_nat (S (d inn)))
              (max_connections_for_input_feature_map c)) as [E|E].
  - destruct (available_reached ic d d' inn _ _ Hinn Hgrow' Hsame' Hnd1 Hl1 E)
      as (l' & -> & Hnd' & Hl').
    rewrite bind_Ret_l. do 2 eexists. split; [reflexivity|].
    split; [exact Hnd'|]. split; [exact (Hiff _ _ Hl')|]. split; [exact Hnd2|].
    apply Hiff. apply (available_kept ic d d' inn _ _ Hinn Hgrow' Hsame' Hl2). lia.
  - destruct (Z.eqb_spec (Z.of_nat (S (d inn)))
                (max_connections_for_input_feature_map_overflow c)) as [E'|E'].
    + destruct (available_reached ic d d' inn _ _ Hinn Hgrow' Hsame' Hnd2 Hl2 E')
        as (l' & -> & Hnd' & Hl').
      rewrite bind_Ret_l. do 2 eexists. split; [reflexivity|].
      split; [exact Hnd1|].
      split; [exact (Hiff _ _ (available_kept ic d d' inn _ _ Hinn Hgrow' Hsame' Hl1 E))|].
      split; [exact Hnd'|]. exact (Hiff _ _ Hl').
    + do 2 eexists. split; [reflexivity|].
      split; [exact Hnd1|].
      split; [exact (Hiff _ _ (available_kept ic d d' inn _ _ Hinn Hgrow' Hsame' Hl1 E))|].
      split; [exact Hnd2|].
      exact (Hiff _ _ (available_kept ic d d' inn _ _ Hinn Hgrow' Hsame' Hl2 E')).
Qed.

Lemma mark_connection_Ret (explore_strict_ : bool) :
  exists a',
    mark_connection c (Z.of_nat ic) a explore_strict_ (Z.of_nat on) (Z.of_nat inn) = Ret a'
    /\ attempt_inv oc ic c (S placed) a'.
Proof.
  destruct count_output_connection_Ret
    as (oal & oaol & index & Eo & Hnd1 & Hl1 & Hnd2 & Hl2 & Hindex).
  destruct count_input_connection_Ret as (ial & iaol & Ei & Hnd3 & Hl3 & Hnd4 & Hl4).
  pose proof Hinv as [Hlen Hplaced _ _ _ _ _ _ Hso Hsi Hdego Hdegi _].
  fold m in Hlen, Hplaced, Hso, Hsi, Hdego, Hdegi.
  unfold mark_connection, set_at_u.
  rewrite (cell_index oc ic) by (assumption || lia). fold m.
  rewrite set_at_in_range by (rewrite Hlen; apply cell_bound; assumption).
  rewrite bind_Ret_l. fold m'. rewrite Eo, bind_Ret_l. cbv beta iota.
  rewrite Ei, bind_Ret_l. cbv beta iota.
  eexists. split; [reflexivity|].
  constructor; cbn [local_connection_matrix output_feature_map_connection_count_list
    output_feature_map_id_available_list output_feature_map_id_available_overflow_list
    input_feature_map_connection_count_list input_feature_map_id_available_list
    input_feature_map_id_available_overflow_list explore_strict
    current_output_feature_map_index].
  - apply (marked_length oc); assumption.
  - unfold m'. rewrite (marked_true_entries oc) by assumption. congruence.
  - reflexivity.
  - reflexivity.
  - auto.
  - auto.
  - auto.
  - auto.
  - rewrite <- Hso. apply (sum_range_incr _ _ _ _ on); [lia| |].
    + unfold m'. rewrite (marked_output_degree oc) by assumption. case_decide; congruence.
    + intros j Hj. unfold m'. rewrite (marked_output_degree oc) by assumption.
      case_decide; congruence.
  - rewrite <- Hsi.
    transitivity (sum_range (fun j => if decide (j = inn)
                                      then S (input_degree m oc ic inn)
                                      else input_degree m oc ic j) 0 ic).
    + apply sum_range_ext. intros j Hj. unfold m'.
      apply (marked_input_degree oc); try assumption. lia.
    + apply (sum_range_incr _ _ _ _ inn); [lia| |].
      * case_decide; congruence.
      * intros j Hj. case_decide; congruence.
  - intros o Ho. unfold m'. rewrite (marked_output_degree oc) by assumption.
    case_decide as E; [subst o; fold m in Hdo; lia|]. apply Hdego, Ho.
  - intros i Hi. unfold m'. rewrite (marked_input_degree oc) by assumption.
    case_decide as E; [subst i; fold m in Hdi; lia|]. apply Hdegi, Hi.
  - assert (Hidx : 0 <= match oal with
                        | [] => index
                        | _ :: _ => u32 (index mod Z.of_nat (length oal))
                        end).
    { destruct oal; [exact Hindex|apply u32_range]. }
    split; [exact Hidx|].
    intros Hes. destruct explore_strict_; [|discriminate Hes].
    apply andb_true_iff in Hes as [H1 H2].
    apply negb_true_iff, bool_decide_eq_false in H1, H2.
    split; [exact H1|]. split; [exact H2|].
    destruct oal as [|x oal]; [contradiction|].
    assert (0 < Z.of_nat (length (x :: oal))) by (simpl; lia).
    pose proof (Z.mod_pos_bound index (Z.of_nat (length (x :: oal))) ltac:(lia)).
    rewrite u32_small; [lia|].
    pose proof (ids_length oc (x :: oal) Hnd1) as Hle.
    assert (length (x :: oal) <= oc)%nat.
    { apply Hle. intros y Hy. apply Hl1 in Hy as (o & -> & Ho & _). exists o. auto. }
    nia.
Qed.
End Mark.


(** ** One pass of the generator *)

Section Pass.
Context {G : Type} `{Hgen : random_generator G} {Hrange : uniform_in_range G}.
Variables (oc ic : nat) (ec : Z) (c : caps).
Hypothesis Hfit : Z.of_nat (oc * ic) < 2 ^ 31.
Hypothesis Hcaps : caps_ok (Z.of_nat oc) (Z.of_nat ic) ec c.

Lemma draw_in_list (l : list Z) (g : G) :
  l <> [] -> Z.of_nat (length l) < 2 ^ 32 ->
  exists k x g', uniform_int_distribution 0 (size_minus_1 l) g = (k, g')
                 /\ at_u l k = Ret x /\ x ∈ l.
Proof.
  intros Hne Hlen.
  assert (0 < Z.of_nat (length l)) by (destruct l; [contradiction|simpl; lia]).
  assert (Hs : size_minus_1 l = Z.of_nat (length l) - 1)
    by (unfold size_minus_1; apply u32_small; lia).
  pose proof (uniform_range 0 (size_minus_1 l) g ltac:(lia)) as Hk.
  destruct (uniform_int_distribution 0 (size_minus_1 l) g) as [k g'].
  simpl in Hk. destruct (at_u_in_range l k ltac:(lia)) as [x Hx].
  exists k, x, g'. split; [reflexivity|]. split; [exact Hx|].
  eapply at_u_elem, Hx.
Qed.

Lemma try_random_Ret (m : list bool) (outputs inputs : list Z) n (g : G) :
  length m = (oc * ic)%nat ->
  outputs <> [] -> inputs <> [] ->
  Z.of_nat (length outputs) < 2 ^ 32 -> Z.of_nat (length inputs) < 2 ^ 32 ->
  (forall x, x ∈ outputs -> is_id oc x) -> (forall x, x ∈ inputs -> is_id ic x) ->
  exists r g',
    try_random n (Z.of_nat ic) m outputs inputs g = Ret (r, g')
    /\ forall o i, r = Some (o, i) ->
         o ∈ outputs /\ i ∈ inputs
         /\ exists on inn, o = Z.of_nat on /\ i = Z.of_nat inn
              /\ (on < oc)%nat /\ (inn < ic)%nat /\ entry m (on * ic + inn) = false.
Proof.
  intros Hlen Ho Hi Hlo Hli Hido Hidi. revert g.
  induction n as [|n IH]; intros g; simpl.
  - do 2 eexists. split; [reflexivity|]. intros o i E. discriminate E.
  - destruct (draw_in_list outputs g Ho Hlo) as (k & o & g1 & -> & -> & Hino).
    rewrite bind_Ret_l.
    destruct (draw_in_list inputs g1 Hi Hli) as (k' & i & g2 & -> & -> & Hini).
    rewrite bind_Ret_l.
    destruct (Hido o Hino) as (on & -> & Hon). destruct (Hidi i Hini) as (inn & -> & Hinn).
    rewrite (cell_read oc ic m Hlen ltac:(lia) on inn Hon Hinn), bind_Ret_l.
    destruct (entry m (on * ic + inn)) eqn:E; simpl.
    + apply IH.
    + do 2 eexists. split; [reflexivity|]. intros o i [= <- <-].
      split; [exact Hino|]. split; [exact Hini|]. exists on, inn. auto.
Qed.

Section Step.
Variables (a : attempt) (placed : nat).
Hypothesis Hinv : attempt_inv oc ic c placed a.
Hypothesis Hleft : Z.of_nat placed < ec.

Lemma available_ids :
  (forall x, x ∈ output_feature_map_id_available_list a -> is_id oc x)
  /\ (forall x, x ∈ output_feature_map_id_available_overflow_list a -> is_id oc x)
  /\ (forall x, x ∈ input_feature_map_id_available_list a -> is_id ic x)
  /\ (forall x, x ∈ input_feature_map_id_available_overflow_list a -> is_id ic x).
Proof.
  destruct Hinv as [_ _ _ _ [_ H1] [_ H2] [_ H3] [_ H4] _ _ _ _ _].
  repeat split; intros x Hx;
    [apply H1 in Hx|apply H2 in Hx|apply H3 in Hx|apply H4 in Hx];
    destruct Hx as (k & -> & Hk & _); exists k; auto.
Qed.

Lemma available_lengths :
  Z.of_nat (length (output_feature_map_id_available_list a)) < 2 ^ 32
  /\ Z.of_nat (length (output_feature_map_id_available_overflow_list a)) < 2 ^ 32
  /\ Z.of_nat (length (input_feature_map_id_available_list a)) < 2 ^ 32
  /\ Z.of_nat (length (input_feature_map_id_available_overflow_list a)) < 2 ^ 32.
Proof.
  destruct available_ids as (I1 & I2 & I3 & I4).
  destruct Hinv as [_ _ _ _ [N1 _] [N2 _] [N3 _] [N4 _] _ _ _ _ _].
  pose proof (ids_length oc _ N1 I1). pose proof (ids_length oc _ N2 I2).
  pose proof (ids_length ic _ N3 I3). pose proof (ids_length ic _ N4 I4).
  assert (0 < oc /\ 0 < ic)%nat as [? ?].
  { destruct Hcaps as [_ _ R1 R2]. split; destruct oc, ic; lia. }
  repeat split; nia.
Qed.

(** While edges are missing, some output and some input are below
    their overflow caps. *)
Lemma overflow_available :
  output_feature_map_id_available_overflow_list a <> []
  /\ input_feature_map_id_available_overflow_list a <> [].
Proof.
  destruct Hinv as [_ _ _ _ _ [_ H2] _ [_ H4] Hso Hsi _ _ _].
  destruct Hcaps as [L1 L2 R1 R2].
  split.
  - intros Hnil.
    assert (Hall : forall o, (0 <= o < 0 + oc)%nat ->
              (Z.to_nat (max_connections_for_output_feature_map c) + 1
               <= output_degree (local_connection_matrix a) ic o)%nat).
    { intros o Ho.
      destruct (Z_lt_le_dec (Z.of_nat (output_degree (local_connection_matrix a) ic o))
                  (max_connections_for_output_feature_map_overflow c)) as [L|L]; [|lia].
      exfalso. assert (Z.of_nat o ∈ output_feature_map_id_available_overflow_list a).
      { apply H2. exists o. split; [reflexivity|]. split; [lia|exact L]. }
      rewrite Hnil in H. apply elem_of_nil in H. exact H. }
    apply sum_range_ge in Hall. rewrite Hso in Hall. nia.
  - intros Hnil.
    assert (Hall : forall i, (0 <= i < 0 + ic)%nat ->
              (Z.to_nat (max_connections_for_input_feature_map c) + 1
               <= input_degree (local_connection_matrix a) oc ic i)%nat).
    { intros i Hi.
      destruct (Z_lt_le_dec (Z.of_nat (input_degree (local_connection_matrix a) oc ic i))
                  (max_connections_for_input_feature_map_overflow c)) as [L|L]; [|lia].
      exfalso. assert (Z.of_nat i ∈ input_feature_map_id_available_overflow_list a).
      { apply H4. exists i. split; [reflexivity|]. split; [lia|exact L]. }
      rewrite Hnil in H. apply elem_of_nil in H. exact H. }
    apply sum_range_ge in Hall. rewrite Hsi in Hall. nia.
Qed.

Lemma try_cursor_Ret n (g : G) :
  explore_strict a = true ->
  exists r g',
    try_cursor n (Z.of_nat ic) a g = Ret (r, g')
    /\ forall o i, r = Some (o, i) ->
         o ∈ output_feature_map_id_available_list a
         /\ i ∈ input_feature_map_id_available_list a
         /\ exists on inn, o = Z.of_nat on /\ i = Z.of_nat inn
              /\ (on < oc)%nat /\ (inn < ic)%nat
              /\ entry (local_connection_matrix a) (on * ic + inn) = false.
Proof.
  intros Hes.
  destruct available_ids as (I1 & _ & I3 & _).
  destruct available_lengths as (L1 & _ & L3 & _).
  pose proof (inv_length _ _ _ _ _ Hinv) as Hlen.
  destruct (inv_cursor _ _ _ _ _ Hinv) as [Hc0 Hc]. destruct (Hc Hes) as (No & Ni & Hcur).
  revert g. induction n as [|n IH]; intros g; simpl.
  - do 2 eexists. split; [reflexivity|]. intros o i E. discriminate E.
  - destruct (at_u_in_range (output_feature_map_id_available_list a)
                (current_output_feature_map_index a) ltac:(lia)) as [o Ho].
    rewrite Ho, bind_Ret_l. apply at_u_elem in Ho.
    destruct (draw_in_list _ g Ni L3) as (k' & i & g2 & -> & -> & Hini).
    rewrite bind_Ret_l.
    destruct (I1 o Ho) as (on & -> & Hon). destruct (I3 i Hini) as (inn & -> & Hinn).
    rewrite (cell_read oc ic _ Hlen ltac:(lia) on inn Hon Hinn), bind_Ret_l.
    destruct (entry (local_connection_matrix a) (on * ic + inn)) eqn:E; simpl.
    + apply IH.
    + do 2 eexists. split; [reflexivity|]. intros o i [= <- <-].
      split; [exact Ho|]. split; [exact Hini|]. exists on, inn. auto.
Qed.

Lemma find_pair_Ret (g : G) :
  exists r e g',
    find_pair (Z.of_nat ic) a g = Ret (r, e, g')
    /\ forall o i, r = Some (o, i) -> placeable oc ic c (local_connection_matrix a) o i.
Proof.
  destruct available_ids as (I1 & I2 & I3 & I4).
  destruct available_lengths as (L1 & L2 & L3 & L4).
  destruct overflow_available as [No Ni].
  pose proof (inv_length _ _ _ _ _ Hinv) as Hlen.
  destruct (inv_output_available _ _ _ _ _ Hinv) as [_ A1].
  destruct (inv_output_available_overflow _ _ _ _ _ Hinv) as [_ A2].
  destruct (inv_input_available _ _ _ _ _ Hinv) as [_ A3].
  destruct (inv_input_available_overflow _ _ _ _ _ Hinv) as [_ A4].
  destruct Hcaps as [C1 C2 _ _].
  (* a pair drawn from the strict lists, or from the overflow lists *)
  assert (Hstrict : forall o i,
            o ∈ output_feature_map_id_available_list a ->
            i ∈ input_feature_map_id_available_list a ->
            (exists on inn, o = Z.of_nat on /\ i = Z.of_nat inn
               /\ (on < oc)%nat /\ (inn < ic)%nat
               /\ entry (local_connection_matrix a) (on * ic + inn) = false) ->
            placeable oc ic c (local_connection_matrix a) o i).
  { intros o i Ho Hi (on & inn & -> & -> & Hon & Hinn & Hfree).
    apply A1 in Ho as (on' & Eo & _ & Hdo). apply A3 in Hi as (inn' & Ei & _ & Hdi).
    apply Nat2Z.inj in Eo, Ei. subst on' inn'.
    exists on, inn. repeat split; try assumption; lia. }
  assert (Hover : forall o i,
            o ∈ output_feature_map_id_available_overflow_list a ->
            i ∈ input_feature_map_id_available_overflow_list a ->
            (exists on inn, o = Z.of_nat on /\ i = Z.of_nat inn
               /\ (on < oc)%nat /\ (inn < ic)%nat
               /\ entry (local_connection_matrix a) (on * ic + inn) = false) ->
            placeable oc ic c (local_connection_matrix a) o i).
  { intros o i Ho Hi (on & inn & -> & -> & Hon & Hinn & Hfree).
    apply A2 in Ho as (on' & Eo & _ & Hdo). apply A4 in Hi as (inn' & Ei & _ & Hdi).
    apply Nat2Z.inj in Eo, Ei. subst on' inn'.
    exists on, inn. repeat split; assumption. }
  unfold find_pair. destruct (explore_strict a) eqn:Hes.
  - destruct (inv_cursor _ _ _ _ _ Hinv) as [_ Hc]. destruct (Hc Hes) as (So & Si & _).
    destruct (try_cursor_Ret 20 g Hes) as (r1 & g1 & -> & Hr1).
    rewrite bind_Ret_l. cbv beta iota.
    destruct r1 as [[o i]|].
    + rewrite !bind_Ret_l. cbv beta iota.
      do 3 eexists. split; [reflexivity|].
      intros o' i' [= <- <-]. destruct (Hr1 o i eq_refl) as (Ho & Hi & Hc'). auto.
    + destruct (try_random_Ret (local_connection_matrix a) _ _ 100 g1 Hlen So Si L1 L3 I1 I3)
        as (r2 & g2 & -> & Hr2).
      rewrite !bind_Ret_l. cbv beta iota.
      destruct r2 as [[o i]|].
      * do 3 eexists. split; [reflexivity|].
        intros o' i' [= <- <-]. destruct (Hr2 o i eq_refl) as (Ho & Hi & Hc'). auto.
      * destruct (try_random_Ret (local_connection_matrix a) _ _ 100 g2 Hlen No Ni L2 L4
                    I2 I4) as (r & g' & -> & Hr).
        rewrite bind_Ret_l. cbv beta iota.
        do 3 eexists. split; [reflexivity|].
        intros o i E. destruct (Hr o i E) as (Ho & Hi & Hc'). auto.
  - rewrite bind_Ret_l. cbv beta iota.
    destruct (try_random_Ret (local_connection_matrix a) _ _ 100 g Hlen No Ni L2 L4
                I2 I4) as (r & g' & -> & Hr).
    rewrite bind_Ret_l. cbv beta iota.
    do 3 eexists. split; [reflexivity|].
    intros o i E. destruct (Hr o i E) as (Ho & Hi & Hc'). auto.
Qed.

Lemma place_edge_Ret (g : G) :
  exists r g',
    place_edge c (Z.of_nat ic) a g = Ret (r, g')
    /\ forall a', r = Some a' -> attempt_inv oc ic c (S placed) a'.
Proof.
  destruct (find_pair_Ret g) as (r & e & g' & E & Hr).
  unfold place_edge. rewrite E, bind_Ret_l. cbv beta iota.
  destruct r as [[o i]|].
  - destruct (Hr o i eq_refl) as (on & inn & -> & -> & Hon & Hinn & Hfree & Hdo & Hdi).
    destruct Hcaps as [C1 C2 _ _].
    destruct (mark_connection_Ret oc ic c Hfit C1 C2 a placed on inn Hinv Hon Hinn Hfree
                Hdo Hdi e) as (a' & -> & Ha').
    rewrite bind_Ret_l. do 2 eexists. split; [reflexivity|].
    intros a'' [= <-]. exact Ha'.
  - do 2 eexists. split; [reflexivity|]. intros a' E'. discriminate E'.
Qed.
End Step.

Lemma place_edges_Ret n (a : attempt) (placed : nat) (g : G) :
  attempt_inv oc ic c placed a ->
  Z.of_nat (placed + n) <= ec ->
  exists r g',
    place_edges n c (Z.of_nat ic) a g = Ret (r, g')
    /\ forall a', r = Some a' -> attempt_inv oc ic c (placed + n) a'.
Proof.
  revert a placed g. induction n as [|n IH]; intros a placed g Hinv Hle; simpl.
  - do 2 eexists. split; [reflexivity|]. intros a' [= <-]. rewrite Nat.add_0_r. exact Hinv.
  - destruct (place_edge_Ret a placed Hinv ltac:(lia) g) as (r & g1 & -> & Hr).
    rewrite bind_Ret_l. cbv beta iota.
    destruct r as [a1|].
    + destruct (IH a1 (S placed) g1 (Hr a1 eq_refl) ltac:(lia)) as (r' & g' & E & Hr').
      exists r', g'. split; [exact E|]. intros a' Ea'.
      replace (placed + S n)%nat with (S placed + n)%nat by lia. apply Hr', Ea'.
    + do 2 eexists. split; [reflexivity|]. intros a' E'. discriminate E'.
Qed.
End Pass.


Lemma accumulate_all_zero (l : list Z) : Forall (fun x => x = 0) l -> accumulate l = 0.
Proof.
  unfold accumulate. induction 1 as [|x l -> _ IH]; simpl; [reflexivity|exact IH].
Qed.

Lemma ceil_div_room (ec n : Z) : 1 <= n -> 0 <= ec -> ec <= n * ((ec + n - 1) / n).
Proof.
  intros Hn Hec. pose proof (Z.div_mod (ec + n - 1) n ltac:(lia)) as Hdm.
  pose proof (Z.mod_pos_bound (ec + n - 1) n ltac:(lia)). lia.
Qed.

Lemma ceil_div_le (ec n : Z) : 1 <= n -> 1 <= ec -> (ec + n - 1) / n <= ec.
Proof.
  intros Hn Hec. apply Z.div_le_upper_bound; [lia|]. nia.
Qed.

Lemma overflow_cap_gt (m t : Z) : 0 <= m -> m + 1 < 2 ^ 32 -> overflow_cap m = Ret t -> m < t.
Proof.
  intros H0 Hm H. unfold overflow_cap in H. bind_inv H. injection H as <-.
  rewrite u32_small by lia. lia.
Qed.

Lemma compute_caps_ok (oc ic : nat) (ec margin : Z) (c : caps) :
  (1 <= oc)%nat -> (1 <= ic)%nat ->
  1 <= ec < 2 ^ 31 -> Z.of_nat oc < 2 ^ 31 -> Z.of_nat ic < 2 ^ 31 ->
  0 <= margin -> ec + margin + 1 < 2 ^ 32 ->
  compute_caps (Z.of_nat oc) (Z.of_nat ic) ec margin = Ret c ->
  caps_ok (Z.of_nat oc) (Z.of_nat ic) ec c.
Proof.
  intros Hoc Hic Hec Hoc' Hic' Hm Hfit H. unfold compute_caps, udiv in H.
  destruct (Z.eqb_spec (Z.of_nat oc) 0); [lia|]. rewrite bind_Ret_l in H.
  destruct (Z.eqb_spec (Z.of_nat ic) 0); [lia|]. rewrite bind_Ret_l in H.
  rewrite !u32_sub_l in H.
  rewrite (u32_small (ec + Z.of_nat oc - 1)) in H by lia.
  rewrite (u32_small (ec + Z.of_nat ic - 1)) in H by lia.
  pose proof (ceil_div_le ec (Z.of_nat oc) ltac:(lia) ltac:(lia)).
  pose proof (ceil_div_le ec (Z.of_nat ic) ltac:(lia) ltac:(lia)).
  pose proof (ceil_div_room ec (Z.of_nat oc) ltac:(lia) ltac:(lia)).
  pose proof (ceil_div_room ec (Z.of_nat ic) ltac:(lia) ltac:(lia)).
  assert (0 <= (ec + Z.of_nat oc - 1) / Z.of_nat oc) by (apply Z.div_pos; lia).
  assert (0 <= (ec + Z.of_nat ic - 1) / Z.of_nat ic) by (apply Z.div_pos; lia).
  rewrite (u32_small (_ / Z.of_nat oc + margin)) in H by lia.
  rewrite (u32_small (_ / Z.of_nat ic + margin)) in H by lia.
  bind_inv H. bind_inv H. injection H as <-.
  apply overflow_cap_gt in E, E0; try lia.
  constructor; simpl; try assumption; nia.
Qed.

Section Start.
Context {G : Type} `{Hgen : random_generator G} {Hrange : uniform_in_range G}.
Variables (oc ic : nat) (ec : Z).
Hypothesis Hoc : (1 <= oc)%nat.
Hypothesis Hic : (1 <= ic)%nat.
Hypothesis Hec : 1 <= ec.
Hypothesis Hfit : Z.of_nat (oc * ic) < 2 ^ 31.
Hypothesis Hdense : ec <= Z.of_nat (oc * ic).

Let m0 := replicate (oc * ic) false.

Lemma start_output_degree o : output_degree m0 ic o = O.
Proof. apply count_range_false. intros. apply entry_replicate. Qed.

Lemma start_input_degree i : input_degree m0 oc ic i = O.
Proof. apply count_range_false. intros. apply entry_replicate. Qed.

Lemma start_true_entries : true_entries m0 = O.
Proof. apply count_range_false. intros. apply entry_replicate. Qed.

Lemma ids_below_nonempty (degree : nat -> nat) n cap :
  (1 <= n)%nat -> Z.of_nat (degree O) < cap ->
  ids_below degree n cap <> [] /\ 0 < Z.of_nat (length (ids_below degree n cap)).
Proof.
  intros Hn Hd.
  assert (Z.of_nat 0 ∈ ids_below degree n cap) as Hin.
  { apply ids_below_spec. exists O. split; [reflexivity|]. split; [lia|exact Hd]. }
  destruct (ids_below degree n cap); [apply elem_of_nil in Hin; contradiction|].
  split; [discriminate|simpl; lia].
Qed.

Lemma start_attempt_Ret (margin : Z) (c : caps) :
  compute_caps (Z.of_nat oc) (Z.of_nat ic) ec margin = Ret c ->
  caps_ok (Z.of_nat oc) (Z.of_nat ic) ec c ->
  exists a,
    start_attempt m0 (Z.of_nat oc) (Z.of_nat ic) ec margin = Ret (c, a)
    /\ attempt_inv oc ic c O a
    /\ accumulate (output_feature_map_connection_count_list a) = 0.
Proof.
  intros Hc [C1 C2 R1 R2].
  assert (Hlen : length m0 = (oc * ic)%nat) by apply length_replicate.
  assert (0 < max_connections_for_output_feature_map c) by nia.
  assert (0 < max_connections_for_input_feature_map c) by nia.
  unfold start_attempt. rewrite Hc, bind_Ret_l.
  rewrite (count_output_connections_Ret oc ic m0 Hlen ltac:(lia)), bind_Ret_l.
  rewrite available_lists_Ret, bind_Ret_l. cbv beta iota.
  rewrite (count_input_connections_Ret oc ic m0 Hlen ltac:(lia)), bind_Ret_l.
  rewrite available_lists_Ret, bind_Ret_l. cbv beta iota.
  eexists. split; [reflexivity|]. split.
  - constructor; cbn [local_connection_matrix output_feature_map_connection_count_list
      output_feature_map_id_available_list output_feature_map_id_available_overflow_list
      input_feature_map_connection_count_list input_feature_map_id_available_list
      input_feature_map_id_available_overflow_list explore_strict
      current_output_feature_map_index].
    + exact Hlen.
    + apply start_true_entries.
    + reflexivity.
    + reflexivity.
    + split; [apply ids_below_NoDup|apply ids_below_spec].
    + split; [apply ids_below_NoDup|apply ids_below_spec].
    + split; [apply ids_below_NoDup|apply ids_below_spec].
    + split; [apply ids_below_NoDup|apply ids_below_spec].
    + apply sum_range_zero. intros. apply start_output_degree.
    + apply sum_range_zero. intros. apply start_input_degree.
    + intros o _. rewrite start_output_degree. lia.
    + intros i _. rewrite start_input_degree. lia.
    + split; [lia|]. intros _.
      destruct (ids_below_nonempty (output_degree m0 ic) oc
                  (max_connections_for_output_feature_map c) Hoc) as [N1 L1].
      { rewrite start_output_degree. simpl. lia. }
      destruct (ids_below_nonempty (input_degree m0 oc ic) ic
                  (max_connections_for_input_feature_map c) Hic) as [N2 _].
      { rewrite start_input_degree. simpl. lia. }
      auto.
  - cbn [output_feature_map_connection_count_list].
    apply accumulate_all_zero, Forall_forall. intros x Hx.
    apply list_elem_of_fmap in Hx as (o & -> & _). rewrite start_output_degree. reflexivity.
Qed.

(** A pass whose caps did not wrap around ends, with a matrix to commit
    or with a request to retry. *)
Lemma generation_attempt_Ret (margin : Z) (c : caps) (g : G) :
  ec < 2 ^ 31 ->
  compute_caps (Z.of_nat oc) (Z.of_nat ic) ec margin = Ret c ->
  caps_ok (Z.of_nat oc) (Z.of_nat ic) ec c ->
  exists r g',
    generation_attempt m0 (Z.of_nat oc) (Z.of_nat ic) ec margin g = Ret (r, g')
    /\ forall m, r = Some m -> generated oc ic ec c m.
Proof.
  intros Hec' Hc Hok.
  destruct (start_attempt_Ret margin c Hc Hok) as (a & Ea & Hinv & Hacc).
  unfold generation_attempt. rewrite Ea, bind_Ret_l. cbv beta iota zeta.
  rewrite Hacc, to_int_small, Z.sub_0_r by lia.
  destruct (place_edges_Ret oc ic ec c Hfit Hok (Z.to_nat ec) a O g Hinv ltac:(lia))
    as (r & g' & -> & Hr).
  rewrite bind_Ret_l. cbv beta iota.
  do 2 eexists. split; [reflexivity|].
  intros m Hm. destruct r as [a'|]; [|discriminate Hm]. injection Hm as <-.
  destruct (Hr a' eq_refl) as [I1 I2 _ _ _ _ _ _ _ _ I3 I4 _].
  split; [exact I1|]. split; [rewrite I2; lia|]. split; [exact I3|exact I4].
Qed.

Lemma fill_connection_matrix_from_Ret (fuel : nat) (margin : Z) (g : G)
    (m : list bool) (final_margin : Z) (g' : G) :
  ec < 2 ^ 31 ->
  0 <= margin -> margin + Z.of_nat fuel + ec < 2 ^ 32 ->
  fill_connection_matrix_from fuel margin m0 g (Z.of_nat oc) (Z.of_nat ic) ec
  = Ret (m, final_margin, g') ->
  margin <= final_margin < margin + Z.of_nat fuel
  /\ exists c, compute_caps (Z.of_nat oc) (Z.of_nat ic) ec final_margin = Ret c
               /\ generated oc ic ec c m.
Proof.
  intros Hec'. revert margin g. induction fuel as [|fuel IH]; intros margin g Hm Hf H.
  - discriminate H.
  - simpl in H. bind_inv H. destruct a as [r g1].
    assert (Hcaps : exists c, compute_caps (Z.of_nat oc) (Z.of_nat ic) ec margin = Ret c).
    { unfold generation_attempt, start_attempt in E.
      destruct (compute_caps (Z.of_nat oc) (Z.of_nat ic) ec margin) as [c| | |];
        try discriminate E. eauto. }
    destruct Hcaps as [c Hc].
    assert (Hok : caps_ok (Z.of_nat oc) (Z.of_nat ic) ec c).
    { apply (compute_caps_ok oc ic ec margin); try assumption; try lia; nia. }
    destruct (generation_attempt_Ret margin c g Hec' Hc Hok) as (r' & g'' & E' & Hr).
    rewrite E in E'. injection E' as <- <-.
    destruct r as [m1|].
    + injection H as <- <- <-. split; [lia|]. exists c. split; [exact Hc|].
      apply Hr. reflexivity.
    + rewrite u32_small in H by lia.
      destruct (IH (margin + 1) g1 ltac:(lia) ltac:(lia) H) as [Hmargin Hgenerated].
      split; [lia|exact Hgenerated].
Qed.
End Start.


(** ** The scripted generator *)

#[global] Instance script_in_range : uniform_in_range script.
Proof.
  intros a b g Hab. destruct g as [|r g]; simpl; [lia|].
  pose proof (Z.mod_pos_bound r (b - a + 1) ltac:(lia)). lia.
Qed.

(** ** C1: what the connectivity generator returns *)

(** Every later pass of the stuck run: with caps above 2 the pass
    connects (0, 0) and (1, 0) and then finds no free pair. *)
Local Opaque Z.eqb.

Lemma stuck_pass (c : caps) :
  2 < max_connections_for_output_feature_map c ->
  2 < max_connections_for_input_feature_map c ->
  2 < max_connections_for_output_feature_map_overflow c ->
  2 < max_connections_for_input_feature_map_overflow c ->
  place_edges 3 c 2 stuck_start ([] : script) = Ret (None, []).
Proof.
  intros H1 H2 H3 H4.
  assert (E1 : forall x, x = 1 \/ x = 2 ->
            (x =? max_connections_for_output_feature_map c) = false) by (intros; lia).
  assert (E2 : forall x, x = 1 \/ x = 2 ->
            (x =? max_connections_for_input_feature_map c) = false) by (intros; lia).
  assert (E3 : forall x, x = 1 \/ x = 2 ->
            (x =? max_connections_for_output_feature_map_overflow c) = false)
    by (intros; lia).
  assert (E4 : forall x, x = 1 \/ x = 2 ->
            (x =? max_connections_for_input_feature_map_overflow c) = false)
    by (intros; lia).
  assert (M1 : mark_connection c 2 stuck_start true 0 0 = Ret stuck_after_one).
  { unfold mark_connection, count_output_connection, count_input_connection.
    simpl. change (u32 (0 + 1)) with 1.
    rewrite (E1 1), (E3 1), (E2 1), (E4 1) by auto. reflexivity. }
  assert (M2 : mark_connection c 2 stuck_after_one true 1 0 = Ret stuck_after_two).
  { unfold mark_connection, count_output_connection, count_input_connection.
    simpl. change (u32 (0 + 1)) with 1. change (u32 (1 + 1)) with 2.
    rewrite (E1 1), (E3 1), (E2 2), (E4 2) by auto. reflexivity. }
  assert (F1 : find_pair 2 stuck_start ([] : script) = Ret (Some (0, 0), true, []))
    by (vm_compute; reflexivity).
  assert (F2 : find_pair 2 stuck_after_one ([] : script) = Ret (Some (1, 0), true, []))
    by (vm_compute; reflexivity).
  assert (F3 : find_pair 2 stuck_after_two ([] : script) = Ret (None, false, []))
    by (vm_compute; reflexivity).
  unfold place_edges, place_edge.
  rewrite F1, bind_Ret_l. cbv beta iota. rewrite M1, !bind_Ret_l. cbv beta iota.
  rewrite F2, bind_Ret_l. cbv beta iota. rewrite M2, !bind_Ret_l. cbv beta iota.
  rewrite F3, bind_Ret_l. cbv beta iota. reflexivity.
Qed.

Local Transparent Z.eqb.

Lemma stuck_caps (margin : Z) (c : caps) :
  1 <= margin < last_margin ->
  compute_caps 2 2 3 margin = Ret c ->
  2 < max_connections_for_output_feature_map c
  /\ 2 < max_connections_for_input_feature_map c
  /\ 2 < max_connections_for_output_feature_map_overflow c
  /\ 2 < max_connections_for_input_feature_map_overflow c.
Proof.
  unfold last_margin. intros Hm H. unfold compute_caps in H.
  change (udiv (u32 (u32 (3 + 2) - 1)) 2) with (Ret (A := Z) 2) in H.
  rewrite !bind_Ret_l in H. rewrite (u32_small (2 + margin)) in H by lia.
  bind_inv H. bind_inv H. injection H as <-. simpl.
  apply overflow_cap_gt in E, E0; lia.
Qed.

Lemma stuck_later_passes (fuel : nat) (margin : Z) :
  1 <= margin <= last_margin ->
  forall r, fill_connection_matrix_from fuel margin (all_false 2 2) ([] : script) 2 2 3
            <> Ret r.
Proof.
  revert margin. induction fuel as [|fuel IH]; intros margin Hm r; [discriminate|].
  simpl. intros H. bind_inv H. destruct a as [found g].
  unfold generation_attempt, start_attempt in E.
  destruct (compute_caps 2 2 3 margin) as [c| | |] eqn:Hc; try discriminate E.
  destruct (Z.eq_dec margin last_margin) as [->|Hne].
  { vm_compute in Hc. discriminate Hc. }
  destruct (stuck_caps margin c ltac:(lia) Hc) as (H1 & H2 & H3 & H4).
  rewrite bind_Ret_l in E.
  change (count_output_connections (all_false 2 2) 2 2) with (Ret [0; 0]) in E.
  change (count_input_connections (all_false 2 2) 2 2) with (Ret [0; 0]) in E.
  assert (Hav : forall cap cap', 2 < cap -> 2 < cap' ->
            available_lists [0; 0] 2 cap cap' = Ret ([0; 1], [0; 1])).
  { intros cap cap' L L'. unfold available_lists. simpl.
    destruct (Z.ltb_spec 0 cap); [|lia]. destruct (Z.ltb_spec 0 cap'); [|lia].
    reflexivity. }
  repeat first [ rewrite bind_Ret_l in E
               | rewrite (Hav _ _ H1 H3) in E
               | rewrite (Hav _ _ H2 H4) in E
               | progress cbv beta iota zeta in E ].
  cbn [output_feature_map_connection_count_list] in E.
  change (Z.to_nat (to_int 3 - accumulate [0; 0])) with 3%nat in E.
  change (all_false 2 2) with [false; false; false; false] in E.
  fold stuck_start in E. rewrite (stuck_pass c H1 H2 H3 H4) in E.
  rewrite bind_Ret_l in E. cbv beta iota in E. injection E as <- <-.
  unfold last_margin in *. rewrite u32_small in H by lia.
  exact (IH (margin + 1) ltac:(lia) r H).
Qed.


(** ** From [Z] parameters to the matrix dimensions *)

Section Dimensions.
Context {G : Type} `{R : random_generator G} {Hrange : uniform_in_range G}.
Variables (oc ic ec : Z).
Hypothesis Hoc : 1 <= oc.
Hypothesis Hmax : Z.max oc ic <= ec.
Hypothesis Hdense : ec <= oc * ic.
Hypothesis Hfit : oc * ic < 2 ^ 31.

Lemma all_false_replicate :
  all_false oc ic = replicate (Z.to_nat oc * Z.to_nat ic) false.
Proof. unfold all_false. rewrite Z2Nat.inj_mul by nia. reflexivity. Qed.

Lemma pass_ends (margin : Z) (c : caps) (g : G) :
  0 <= margin -> ec + margin + 1 < 2 ^ 32 ->
  compute_caps oc ic ec margin = Ret c ->
  exists r g',
    generation_attempt (all_false oc ic) oc ic ec margin g = Ret (r, g')
    /\ forall m, r = Some m -> generated (Z.to_nat oc) (Z.to_nat ic) ec c m.
Proof.
  assert (Hic : 1 <= ic) by nia.
  assert (Hfit' : Z.of_nat (Z.to_nat oc * Z.to_nat ic) < 2 ^ 31)
    by (rewrite Nat2Z.inj_mul, !Z2Nat.id by lia; exact Hfit).
  assert (Hdense' : ec <= Z.of_nat (Z.to_nat oc * Z.to_nat ic))
    by (rewrite Nat2Z.inj_mul, !Z2Nat.id by lia; exact Hdense).
  assert (Hocn : (1 <= Z.to_nat oc)%nat) by lia.
  assert (Hicn : (1 <= Z.to_nat ic)%nat) by lia.
  rewrite all_false_replicate. rewrite <- (Z2Nat.id oc), <- (Z2Nat.id ic) by lia.
  rewrite !Nat2Z.id.
  intros Hmargin Hwrap Hc.
  apply (generation_attempt_Ret _ _ ec Hocn Hicn ltac:(lia) Hfit' Hdense' margin c g
           ltac:(lia) Hc).
  apply (compute_caps_ok _ _ ec margin); try assumption; nia.
Qed.

Lemma returned_matrix (fuel : nat) (g : G) (m : list bool) (margin : Z) (g' : G) :
  Z.of_nat fuel + ec < 2 ^ 32 ->
  fill_connection_matrix_from fuel 0 (all_false oc ic) g oc ic ec = Ret (m, margin, g') ->
  0 <= margin < Z.of_nat fuel
  /\ exists c, compute_caps oc ic ec margin = Ret c
               /\ generated (Z.to_nat oc) (Z.to_nat ic) ec c m.
Proof.
  assert (Hic : 1 <= ic) by nia.
  assert (Hfit' : Z.of_nat (Z.to_nat oc * Z.to_nat ic) < 2 ^ 31)
    by (rewrite Nat2Z.inj_mul, !Z2Nat.id by lia; exact Hfit).
  assert (Hdense' : ec <= Z.of_nat (Z.to_nat oc * Z.to_nat ic))
    by (rewrite Nat2Z.inj_mul, !Z2Nat.id by lia; exact Hdense).
  assert (Hocn : (1 <= Z.to_nat oc)%nat) by lia.
  assert (Hicn : (1 <= Z.to_nat ic)%nat) by lia.
  rewrite all_false_replicate. rewrite <- (Z2Nat.id oc), <- (Z2Nat.id ic) by lia.
  rewrite !Nat2Z.id.
  intros Hfuel H.
  destruct (fill_connection_matrix_from_Ret _ _ ec Hocn Hicn ltac:(lia) Hfit' Hdense' fuel 0
              g m margin g' ltac:(lia) ltac:(lia) ltac:(lia) H) as [Hm Hg].
  split; [lia|exact Hg].
Qed.

Lemma fill_connection_matrix_Ret_inv (fuel : nat) (g : G) (m : list bool) (g' : G) :
  fill_connection_matrix fuel (all_false oc ic) g oc ic ec = Ret (m, g') ->
  exists margin,
    fill_connection_matrix_from fuel 0 (all_false oc ic) g oc ic ec = Ret (m, margin, g').
Proof.
  unfold fill_connection_matrix. intros H. bind_inv H. destruct a as [[m1 margin] g1].
  injection H as <- <-. eauto.
Qed.
End Dimensions.


(** ** Draws with which a pass succeeds

    The draws of the scripted generator are chosen one search at a time:
    when a tier of the search can find a free pair, the draws name one;
    when it cannot, the draws are zeros and the tier uses up its tries. *)

Lemma count_range_lt_exists p from n :
  (count_range p from n < n)%nat -> exists i, (from <= i < from + n)%nat /\ p i = false.
Proof.
  revert from. induction n as [|n IH]; intros from H; simpl in H; [lia|].
  destruct (p from) eqn:E.
  - destruct (IH (S from)) as (i & Hi & Hp); [lia|]. exists i. split; [lia|exact Hp].
  - exists from. split; [lia|exact E].
Qed.

Lemma count_range_lt p from n i :
  (from <= i < from + n)%nat -> p i = false -> (count_range p from n < n)%nat.
Proof.
  revert from. induction n as [|n IH]; intros from Hi Hp; [lia|]. simpl.
  destruct (decide (i = from)) as [->|Hne].
  - rewrite Hp. pose proof (count_range_le p (S from) n). lia.
  - specialize (IH (S from) ltac:(lia) Hp). destruct (p from); lia.
Qed.

Section Scripted.
Variables (oc ic : nat) (ec : Z) (c : caps).
Hypothesis Hfit : Z.of_nat (oc * ic) < 2 ^ 31.
Hypothesis Hcaps : caps_ok (Z.of_nat oc) (Z.of_nat ic) ec c.
Hypothesis Hdense : ec <= Z.of_nat (oc * ic).

Lemma script_draw (l : list Z) (k : nat) (rest : script) :
  (k < length l)%nat -> Z.of_nat (length l) < 2 ^ 32 ->
  uniform_int_distribution 0 (size_minus_1 l) (Z.of_nat k :: rest) = (Z.of_nat k, rest).
Proof.
  intros Hk Hlen.
  assert (Hs : size_minus_1 l = Z.of_nat (length l) - 1)
    by (unfold size_minus_1; apply u32_small; lia).
  cbn [uniform_int_distribution script_generator]. rewrite Hs. f_equal.
  replace (Z.of_nat (length l) - 1 - 0 + 1) with (Z.of_nat (length l)) by lia.
  rewrite Z.mod_small by lia. lia.
Qed.

(** Either some pair of the two lists names a free cell, or every pair
    names a connected one. *)
Lemma free_pair_dec (m : list bool) (outputs inputs : list Z) :
  (forall x, x ∈ outputs -> is_id oc x) -> (forall x, x ∈ inputs -> is_id ic x) ->
  (exists ko ki on inn,
      outputs !! ko = Some (Z.of_nat on) /\ inputs !! ki = Some (Z.of_nat inn)
      /\ (on < oc)%nat /\ (inn < ic)%nat /\ entry m (on * ic + inn) = false)
  \/ (forall on inn, Z.of_nat on ∈ outputs -> Z.of_nat inn ∈ inputs ->
        entry m (on * ic + inn) = true).
Proof.
  intros Hido Hidi.
  destruct (decide (Exists (fun o => Exists (fun i =>
              entry m (Z.to_nat o * ic + Z.to_nat i) = false) inputs) outputs)) as [E|E].
  - left. apply Exists_exists in E as (o & Ho & E).
    apply Exists_exists in E as (i & Hi & E).
    destruct (Hido o Ho) as (on & -> & Hon). destruct (Hidi i Hi) as (inn & -> & Hinn).
    rewrite !Nat2Z.id in E.
    apply list_elem_of_lookup in Ho as [ko Hko]. apply list_elem_of_lookup in Hi as [ki Hki].
    exists ko, ki, on, inn. auto.
  - right. intros on inn Ho Hi.
    destruct (entry m (on * ic + inn)) eqn:Ee; [reflexivity|].
    exfalso. apply E. apply Exists_exists. exists (Z.of_nat on). split; [exact Ho|].
    apply Exists_exists. exists (Z.of_nat inn). split; [exact Hi|].
    rewrite !Nat2Z.id. exact Ee.
Qed.

Section Lists.
Variables (m : list bool) (outputs inputs : list Z).
Hypothesis Hlen : length m = (oc * ic)%nat.
Hypothesis Hlo : Z.of_nat (length outputs) < 2 ^ 32.
Hypothesis Hli : Z.of_nat (length inputs) < 2 ^ 32.

Lemma try_random_hit (ko ki on inn : nat) n (rest : script) :
  outputs !! ko = Some (Z.of_nat on) -> inputs !! ki = Some (Z.of_nat inn) ->
  (on < oc)%nat -> (inn < ic)%nat -> entry m (on * ic + inn) = false ->
  try_random (S n) (Z.of_nat ic) m outputs inputs (Z.of_nat ko :: Z.of_nat ki :: rest)
  = Ret (Some (Z.of_nat on, Z.of_nat inn), rest).
Proof.
  intros Hko Hki Hon Hinn Hfree. cbn [try_random].
  rewrite script_draw by (try apply (lookup_lt_Some _ _ _ Hko); exact Hlo).
  assert (Eo : at_u outputs (Z.of_nat ko) = Ret (Z.of_nat on))
    by (apply at_u_Ret; rewrite Nat2Z.id; exact Hko).
  rewrite Eo, bind_Ret_l.
  rewrite script_draw by (try apply (lookup_lt_Some _ _ _ Hki); exact Hli).
  assert (Ei : at_u inputs (Z.of_nat ki) = Ret (Z.of_nat inn))
    by (apply at_u_Ret; rewrite Nat2Z.id; exact Hki).
  rewrite Ei, bind_Ret_l.
  rewrite (cell_read oc ic m Hlen ltac:(lia) on inn Hon Hinn), bind_Ret_l.
  rewrite Hfree. reflexivity.
Qed.

Lemma try_random_miss n (rest : script) :
  (forall x, x ∈ outputs -> is_id oc x) -> (forall x, x ∈ inputs -> is_id ic x) ->
  outputs <> [] -> inputs <> [] ->
  (forall on inn, Z.of_nat on ∈ outputs -> Z.of_nat inn ∈ inputs ->
     entry m (on * ic + inn) = true) ->
  try_random n (Z.of_nat ic) m outputs inputs (replicate (2 * n) 0 ++ rest)
  = Ret (None, rest).
Proof.
  intros Hido Hidi Ho Hi Hall.
  destruct outputs as [|o outputs'] eqn:Eo; [contradiction|].
  destruct inputs as [|i inputs'] eqn:Ei; [contradiction|].
  rewrite <- Eo, <- Ei in *.
  assert (Ho0 : outputs !! O = Some o) by (rewrite Eo; reflexivity).
  assert (Hi0 : inputs !! O = Some i) by (rewrite Ei; reflexivity).
  destruct (Hido o) as (on & -> & Hon); [eapply list_elem_of_lookup_2, Ho0|].
  destruct (Hidi i) as (inn & -> & Hinn); [eapply list_elem_of_lookup_2, Hi0|].
  assert (Hconn : entry m (on * ic + inn) = true).
  { apply Hall; eapply list_elem_of_lookup_2; eassumption. }
  induction n as [|n IH]; [reflexivity|].
  replace (2 * S n)%nat with (S (S (2 * n))) by lia.
  cbn [replicate app try_random].
  change 0 with (Z.of_nat 0).
  rewrite script_draw by (try apply (lookup_lt_Some _ _ _ Ho0); exact Hlo).
  assert (Eo' : at_u outputs (Z.of_nat 0) = Ret (Z.of_nat on))
    by (apply at_u_Ret; exact Ho0).
  rewrite Eo', bind_Ret_l.
  rewrite script_draw by (try apply (lookup_lt_Some _ _ _ Hi0); exact Hli).
  assert (Ei' : at_u inputs (Z.of_nat 0) = Ret (Z.of_nat inn))
    by (apply at_u_Ret; exact Hi0).
  rewrite Ei', bind_Ret_l.
  rewrite (cell_read oc ic m Hlen ltac:(lia) on inn Hon Hinn), bind_Ret_l.
  rewrite Hconn. cbn [negb]. exact IH.
Qed.
End Lists.

Section Search.
Variables (a : attempt) (placed : nat).
Hypothesis Hinv : attempt_inv oc ic c placed a.
Hypothesis Hleft : Z.of_nat placed < ec.

Let m := local_connection_matrix a.

Lemma try_cursor_hit (on ki inn : nat) n (rest : script) :
  explore_strict a = true ->
  output_feature_map_id_available_list a
    !! Z.to_nat (current_output_feature_map_index a) = Some (Z.of_nat on) ->
  input_feature_map_id_available_list a !! ki = Some (Z.of_nat inn) ->
  (on < oc)%nat -> (inn < ic)%nat -> entry m (on * ic + inn) = false ->
  try_cursor (S n) (Z.of_nat ic) a (Z.of_nat ki :: rest)
  = Ret (Some (Z.of_nat on, Z.of_nat inn), rest).
Proof.
  intros Hes Hcur Hki Hon Hinn Hfree.
  destruct (available_lengths oc ic ec c Hfit Hcaps a placed Hinv Hleft) as (_ & _ & L3 & _).
  pose proof (inv_length _ _ _ _ _ Hinv) as Hlen.
  cbn [try_cursor].
  assert (Eo : at_u (output_feature_map_id_available_list a)
                 (current_output_feature_map_index a) = Ret (Z.of_nat on))
    by (apply at_u_Ret; exact Hcur).
  rewrite Eo, bind_Ret_l.
  rewrite script_draw by (try apply (lookup_lt_Some _ _ _ Hki); exact L3).
  assert (Ei : at_u (input_feature_map_id_available_list a) (Z.of_nat ki)
               = Ret (Z.of_nat inn))
    by (apply at_u_Ret; rewrite Nat2Z.id; exact Hki).
  rewrite Ei, bind_Ret_l.
  rewrite (cell_read oc ic _ Hlen ltac:(lia) on inn Hon Hinn), bind_Ret_l.
  fold m. rewrite Hfree. reflexivity.
Qed.

Lemma try_cursor_miss (on : nat) n (rest : script) :
  explore_strict a = true ->
  output_feature_map_id_available_list a
    !! Z.to_nat (current_output_feature_map_index a) = Some (Z.of_nat on) ->
  (on < oc)%nat ->
  (forall inn, Z.of_nat inn ∈ input_feature_map_id_available_list a ->
     entry m (on * ic + inn) = true) ->
  try_cursor n (Z.of_nat ic) a (replicate n 0 ++ rest) = Ret (None, rest).
Proof.
  intros Hes Hcur Hon Hall.
  destruct (available_ids oc ic c a placed Hinv) as (_ & _ & I3 & _).
  destruct (available_lengths oc ic ec c Hfit Hcaps a placed Hinv Hleft) as (_ & _ & L3 & _).
  pose proof (inv_length _ _ _ _ _ Hinv) as Hlen.
  destruct (inv_cursor _ _ _ _ _ Hinv) as [_ Hc]. destruct (Hc Hes) as (_ & Ni & _).
  destruct (input_feature_map_id_available_list a) as [|i inputs'] eqn:Ei;
    [contradiction|].
  rewrite <- Ei in *.
  assert (Hi0 : input_feature_map_id_available_list a !! O = Some i)
    by (rewrite Ei; reflexivity).
  destruct (I3 i) as (inn & -> & Hinn); [eapply list_elem_of_lookup_2, Hi0|].
  assert (Hconn : entry m (on * ic + inn) = true).
  { apply Hall. eapply list_elem_of_lookup_2, Hi0. }
  assert (Eo : at_u (output_feature_map_id_available_list a)
                 (current_output_feature_map_index a) = Ret (Z.of_nat on))
    by (apply at_u_Ret; exact Hcur).
  induction n as [|n IH]; [reflexivity|].
  cbn [replicate app try_cursor].
  rewrite Eo, bind_Ret_l.
  change 0 with (Z.of_nat 0).
  rewrite script_draw by (try apply (lookup_lt_Some _ _ _ Hi0); exact L3).
  assert (Ei' : at_u (input_feature_map_id_available_list a) (Z.of_nat 0)
                = Ret (Z.of_nat inn))
    by (apply at_u_Ret; exact Hi0).
  rewrite Ei', bind_Ret_l.
  rewrite (cell_read oc ic _ Hlen ltac:(lia) on inn Hon Hinn), bind_Ret_l.
  fold m. rewrite Hconn. cbn [negb]. exact IH.
Qed.

(** A free cell, and the lists it belongs to once the caps are dense. *)
Lemma free_cell_exists :
  exists on inn, (on < oc)%nat /\ (inn < ic)%nat /\ entry m (on * ic + inn) = false
    /\ (dense_caps oc ic c ->
        Z.of_nat on ∈ output_feature_map_id_available_list a
        /\ Z.of_nat on ∈ output_feature_map_id_available_overflow_list a
        /\ Z.of_nat inn ∈ input_feature_map_id_available_list a
        /\ Z.of_nat inn ∈ input_feature_map_id_available_overflow_list a).
Proof.
  pose proof (inv_length _ _ _ _ _ Hinv) as Hlen.
  pose proof (inv_placed _ _ _ _ _ Hinv) as Hplaced.
  fold m in Hlen, Hplaced.
  destruct (count_range_lt_exists (entry m) 0 (length m)) as (k & Hk & Hfree).
  { unfold true_entries in Hplaced. rewrite Hplaced, Hlen. lia. }
  assert (Hic : (0 < ic)%nat) by (destruct ic; [lia|lia]).
  pose proof (Nat.div_mod_eq k ic) as Hdm.
  pose proof (Nat.mod_upper_bound k ic ltac:(lia)) as Hmod.
  assert (Hdiv : (k / ic < oc)%nat).
  { apply Nat.Div0.div_lt_upper_bound. rewrite Nat.mul_comm. lia. }
  assert (Ek : k = (k / ic * ic + k mod ic)%nat) by lia.
  exists (k / ic)%nat, (k mod ic)%nat.
  split; [exact Hdiv|]. split; [exact Hmod|]. split; [rewrite <- Ek; exact Hfree|].
  intros [D1 D2].
  assert (Hdo : (output_degree m ic (k / ic) < ic)%nat).
  { unfold output_degree.
    apply (count_range_lt _ 0 ic (k mod ic)); [lia|]. rewrite <- Ek. exact Hfree. }
  assert (Hdi : (input_degree m oc ic (k mod ic) < oc)%nat).
  { unfold input_degree.
    apply (count_range_lt _ 0 oc (k / ic)); [lia|]. rewrite <- Ek. exact Hfree. }
  destruct Hcaps as [C1 C2 _ _].
  destruct (inv_output_available _ _ _ _ _ Hinv) as [_ A1].
  destruct (inv_output_available_overflow _ _ _ _ _ Hinv) as [_ A2].
  destruct (inv_input_available _ _ _ _ _ Hinv) as [_ A3].
  destruct (inv_input_available_overflow _ _ _ _ _ Hinv) as [_ A4].
  fold m in A1, A2, A3, A4.
  split; [|split; [|split]].
  - apply A1. exists (k / ic)%nat. split; [reflexivity|]. split; [exact Hdiv|lia].
  - apply A2. exists (k / ic)%nat. split; [reflexivity|]. split; [exact Hdiv|lia].
  - apply A3. exists (k mod ic)%nat. split; [reflexivity|]. split; [exact Hmod|lia].
  - apply A4. exists (k mod ic)%nat. split; [reflexivity|]. split; [exact Hmod|lia].
Qed.

Lemma strict_placeable (on inn : nat) :
  Z.of_nat on ∈ output_feature_map_id_available_list a ->
  Z.of_nat inn ∈ input_feature_map_id_available_list a ->
  entry m (on * ic + inn) = false ->
  placeable oc ic c m (Z.of_nat on) (Z.of_nat inn).
Proof.
  intros Ho Hi Hfree.
  destruct (inv_output_available _ _ _ _ _ Hinv) as [_ A1].
  destruct (inv_input_available _ _ _ _ _ Hinv) as [_ A3].
  destruct Hcaps as [C1 C2 _ _].
  apply A1 in Ho as (on' & Eo & Hon & Hdo). apply A3 in Hi as (inn' & Ei & Hinn & Hdi).
  apply Nat2Z.inj in Eo, Ei. subst on' inn'. fold m in Hdo, Hdi.
  exists on, inn. repeat split; try assumption; lia.
Qed.

Lemma overflow_placeable (on inn : nat) :
  Z.of_nat on ∈ output_feature_map_id_available_overflow_list a ->
  Z.of_nat inn ∈ input_feature_map_id_available_overflow_list a ->
  entry m (on * ic + inn) = false ->
  placeable oc ic c m (Z.of_nat on) (Z.of_nat inn).
Proof.
  intros Ho Hi Hfree.
  destruct (inv_output_available_overflow _ _ _ _ _ Hinv) as [_ A2].
  destruct (inv_input_available_overflow _ _ _ _ _ Hinv) as [_ A4].
  apply A2 in Ho as (on' & Eo & Hon & Hdo). apply A4 in Hi as (inn' & Ei & Hinn & Hdi).
  apply Nat2Z.inj in Eo, Ei. subst on' inn'. fold m in Hdo, Hdi.
  exists on, inn. repeat split; assumption.
Qed.

(** The search through the overflow lists. *)
Lemma overflow_search_script :
  exists prefix r,
    (forall rest,
       try_random 100 (Z.of_nat ic) m
         (output_feature_map_id_available_overflow_list a)
         (input_feature_map_id_available_overflow_list a) (prefix ++ rest)
       = Ret (r, rest))
    /\ (forall o i, r = Some (o, i) -> placeable oc ic c m o i)
    /\ (dense_caps oc ic c -> is_Some r).
Proof.
  destruct (available_ids oc ic c a placed Hinv) as (_ & I2 & _ & I4).
  destruct (available_lengths oc ic ec c Hfit Hcaps a placed Hinv Hleft) as (_ & L2 & _ & L4).
  destruct (overflow_available oc ic ec c Hfit Hcaps a placed Hinv Hleft) as [No Ni].
  pose proof (inv_length _ _ _ _ _ Hinv) as Hlen. fold m in Hlen.
  destruct (free_pair_dec m _ _ I2 I4)
    as [(ko & ki & on & inn & Hko & Hki & Hon & Hinn & Hfree)|Hall].
  - exists [Z.of_nat ko; Z.of_nat ki], (Some (Z.of_nat on, Z.of_nat inn)).
    split; [|split].
    + intros rest. apply (try_random_hit m _ _ Hlen L2 L4 ko ki on inn); assumption.
    + intros o i [= <- <-].
      apply overflow_placeable; [eapply list_elem_of_lookup_2, Hko
                                |eapply list_elem_of_lookup_2, Hki|exact Hfree].
    + intros _. eauto.
  - exists (replicate (2 * 100) 0), None. split; [|split].
    + intros rest. apply (try_random_miss m _ _ Hlen L2 L4); assumption.
    + intros o i E. discriminate E.
    + intros Hd. exfalso.
      destruct free_cell_exists as (on & inn & _ & _ & Hfree & Hin).
      destruct (Hin Hd) as (_ & Ho & _ & Hi).
      rewrite (Hall on inn Ho Hi) in Hfree. discriminate Hfree.
Qed.

Lemma find_pair_script :
  exists prefix r e,
    (forall rest, find_pair (Z.of_nat ic) a (prefix ++ rest) = Ret (r, e, rest))
    /\ (forall o i, r = Some (o, i) -> placeable oc ic c m o i)
    /\ (dense_caps oc ic c -> is_Some r).
Proof.
  destruct (available_ids oc ic c a placed Hinv) as (I1 & _ & I3 & _).
  destruct (available_lengths oc ic ec c Hfit Hcaps a placed Hinv Hleft) as (L1 & _ & L3 & _).
  pose proof (inv_length _ _ _ _ _ Hinv) as Hlen. fold m in Hlen.
  destruct overflow_search_script as (p3 & r3 & E3 & Hr3 & Hd3).
  unfold find_pair. fold m. destruct (explore_strict a) eqn:Hes.
  - destruct (inv_cursor _ _ _ _ _ Hinv) as [Hc0 Hc].
    destruct (Hc Hes) as (So & Si & Hcur).
    destruct (lookup_lt_is_Some_2 (output_feature_map_id_available_list a)
                (Z.to_nat (current_output_feature_map_index a)) ltac:(lia)) as [o Ho].
    destruct (I1 o) as (on & -> & Hon); [eapply list_elem_of_lookup_2, Ho|].
    (* the cursor tier *)
    destruct (free_pair_dec m [Z.of_nat on] (input_feature_map_id_available_list a))
      as [(ko & ki & on' & inn & Hko & Hki & Hon' & Hinn & Hfree)|Hall1].
    { intros x Hx. apply elem_of_cons in Hx as [->|Hx]; [exists on; auto|].
      apply elem_of_nil in Hx. contradiction. }
    { exact I3. }
    + assert (on' = on) as ->.
      { destruct ko as [|ko]; [|destruct ko; discriminate Hko].
        injection Hko as Hko. lia. }
      exists [Z.of_nat ki], (Some (Z.of_nat on, Z.of_nat inn)), true.
      split; [|split].
      * intros rest. cbn [app].
        rewrite (try_cursor_hit on ki inn 19 rest Hes Ho Hki Hon Hinn Hfree).
        repeat (rewrite bind_Ret_l; cbv beta iota).
        reflexivity.
      * intros o i [= <- <-].
        apply strict_placeable; [eapply list_elem_of_lookup_2, Ho
                                |eapply list_elem_of_lookup_2, Hki|exact Hfree].
      * intros _. eauto.
    + assert (Hmiss1 : forall rest,
                try_cursor 20 (Z.of_nat ic) a (replicate 20 0 ++ rest) = Ret (None, rest)).
      { intros rest. apply (try_cursor_miss on 20 rest Hes Ho Hon).
        intros inn Hi. apply Hall1; [apply elem_of_cons; left; reflexivity|exact Hi]. }
      (* the strict random tier *)
      destruct (free_pair_dec m _ _ I1 I3)
        as [(ko & ki & on2 & inn & Hko & Hki & Hon2 & Hinn & Hfree)|Hall2].
      * exists (replicate 20 0 ++ [Z.of_nat ko; Z.of_nat ki]),
          (Some (Z.of_nat on2, Z.of_nat inn)), true.
        split; [|split].
        -- intros rest. rewrite <- app_assoc. rewrite Hmiss1.
           repeat (rewrite bind_Ret_l; cbv beta iota). cbn [app].
           rewrite (try_random_hit m _ _ Hlen L1 L3 ko ki on2 inn 99 rest Hko Hki Hon2
                      Hinn Hfree).
           repeat (rewrite bind_Ret_l; cbv beta iota). reflexivity.
        -- intros o' i [= <- <-].
           apply strict_placeable; [eapply list_elem_of_lookup_2, Hko
                                   |eapply list_elem_of_lookup_2, Hki|exact Hfree].
        -- intros _. eauto.
      * exists (replicate 20 0 ++ replicate (2 * 100) 0 ++ p3), r3, false.
        split; [|split].
        -- intros rest. rewrite <- !app_assoc. rewrite Hmiss1.
           repeat (rewrite bind_Ret_l; cbv beta iota).
           rewrite (try_random_miss m _ _ Hlen L1 L3 100 (p3 ++ rest) I1 I3 So Si Hall2).
           repeat (rewrite bind_Ret_l; cbv beta iota). rewrite E3.
           repeat (rewrite bind_Ret_l; cbv beta iota). reflexivity.
        -- exact Hr3.
        -- exact Hd3.
  - exists p3, r3, false. split; [|split].
    + intros rest. repeat (rewrite bind_Ret_l; cbv beta iota). rewrite E3.
      repeat (rewrite bind_Ret_l; cbv beta iota). reflexivity.
    + exact Hr3.
    + exact Hd3.
Qed.

Lemma place_edge_script :
  exists prefix r,
    (forall rest, place_edge c (Z.of_nat ic) a (prefix ++ rest) = Ret (r, rest))
    /\ (forall a', r = Some a' -> attempt_inv oc ic c (S placed) a')
    /\ (dense_caps oc ic c -> is_Some r).
Proof.
  destruct find_pair_script as (prefix & r & e & E & Hr & Hd).
  destruct r as [[o i]|].
  - destruct (Hr o i eq_refl) as (on & inn & -> & -> & Hon & Hinn & Hfree & Hdo & Hdi).
    destruct Hcaps as [C1 C2 _ _].
    destruct (mark_connection_Ret oc ic c Hfit C1 C2 a placed on inn Hinv Hon Hinn Hfree
                Hdo Hdi e) as (a' & Ea' & Ha').
    exists prefix, (Some a'). split; [|split].
    + intros rest. unfold place_edge. rewrite E, bind_Ret_l. cbv beta iota.
      rewrite Ea', bind_Ret_l. reflexivity.
    + intros a'' [= <-]. exact Ha'.
    + intros _. eauto.
  - exists prefix, None. split; [|split].
    + intros rest. unfold place_edge. rewrite E, bind_Ret_l. reflexivity.
    + intros a' E'. discriminate E'.
    + intros D. destruct (Hd D) as [x Hx]. discriminate Hx.
Qed.
End Search.

Lemma place_edges_script n (a : attempt) (placed : nat) :
  attempt_inv oc ic c placed a ->
  Z.of_nat (placed + n) <= ec ->
  exists prefix r,
    (forall rest, place_edges n c (Z.of_nat ic) a (prefix ++ rest) = Ret (r, rest))
    /\ (forall a', r = Some a' -> attempt_inv oc ic c (placed + n) a')
    /\ (dense_caps oc ic c -> is_Some r).
Proof.
  revert a placed. induction n as [|n IH]; intros a placed Hinv Hle.
  - exists [], (Some a). split; [|split].
    + intros rest. reflexivity.
    + intros a' [= <-]. rewrite Nat.add_0_r. exact Hinv.
    + intros _. eauto.
  - destruct (place_edge_script a placed Hinv ltac:(lia)) as (p1 & r1 & E1 & Hr1 & Hd1).
    destruct r1 as [a1|].
    + destruct (IH a1 (S placed) (Hr1 a1 eq_refl) ltac:(lia)) as (p2 & r2 & E2 & Hr2 & Hd2).
      exists (p1 ++ p2), r2. split; [|split].
      * intros rest. rewrite <- app_assoc. cbn [place_edges].
        rewrite E1, bind_Ret_l. cbv beta iota. apply E2.
      * intros a' Ea'. replace (placed + S n)%nat with (S placed + n)%nat by lia.
        apply Hr2, Ea'.
      * exact Hd2.
    + exists p1, None. split; [|split].
      * intros rest. cbn [place_edges]. rewrite E1, bind_Ret_l. reflexivity.
      * intros a' E'. discriminate E'.
      * exact Hd1.
Qed.
End Scripted.

(** ** Draws with which the loop returns *)

Lemma compute_caps_dense (oc ic : nat) (ec margin : Z) (c : caps) :
  (1 <= oc)%nat -> (1 <= ic)%nat ->
  1 <= ec < 2 ^ 31 -> Z.of_nat oc < 2 ^ 31 -> Z.of_nat ic < 2 ^ 31 ->
  Z.max (Z.of_nat oc) (Z.of_nat ic) <= margin -> ec + margin + 1 < 2 ^ 32 ->
  compute_caps (Z.of_nat oc) (Z.of_nat ic) ec margin = Ret c ->
  dense_caps oc ic c.
Proof.
  intros Hoc Hic Hec Hoc' Hic' Hm Hfit H. unfold compute_caps, udiv in H.
  destruct (Z.eqb_spec (Z.of_nat oc) 0); [lia|]. rewrite bind_Ret_l in H.
  destruct (Z.eqb_spec (Z.of_nat ic) 0); [lia|]. rewrite bind_Ret_l in H.
  rewrite !u32_sub_l in H.
  rewrite (u32_small (ec + Z.of_nat oc - 1)) in H by lia.
  rewrite (u32_small (ec + Z.of_nat ic - 1)) in H by lia.
  pose proof (ceil_div_le ec (Z.of_nat oc) ltac:(lia) ltac:(lia)).
  pose proof (ceil_div_le ec (Z.of_nat ic) ltac:(lia) ltac:(lia)).
  assert (0 <= (ec + Z.of_nat oc - 1) / Z.of_nat oc) by (apply Z.div_pos; lia).
  assert (0 <= (ec + Z.of_nat ic - 1) / Z.of_nat ic) by (apply Z.div_pos; lia).
  rewrite (u32_small (_ / Z.of_nat oc + margin)) in H by lia.
  rewrite (u32_small (_ / Z.of_nat ic + margin)) in H by lia.
  bind_inv H. bind_inv H. injection H as <-.
  split; simpl; lia.
Qed.

(** A retry raises both caps by one. *)
Lemma relaxation_increases_caps (oc ic ec margin : Z) (c c' : caps) :
  1 <= oc -> 1 <= ic -> 1 <= ec < 2 ^ 31 -> oc <= ec -> ic <= ec ->
  0 <= margin -> ec + margin + 2 < 2 ^ 32 ->
  compute_caps oc ic ec margin = Ret c ->
  compute_caps oc ic ec (u32 (margin + 1)) = Ret c' ->
  max_connections_for_output_feature_map c'
  = max_connections_for_output_feature_map c + 1
  /\ max_connections_for_input_feature_map c'
     = max_connections_for_input_feature_map c + 1.
Proof.
  intros Hoc Hic Hec Hoe Hie Hm Hfit H H'. unfold compute_caps, udiv in H, H'.
  destruct (Z.eqb_spec oc 0); [lia|]. rewrite bind_Ret_l in H, H'.
  destruct (Z.eqb_spec ic 0); [lia|]. rewrite bind_Ret_l in H, H'.
  rewrite !u32_sub_l in H, H'.
  rewrite (u32_small (ec + oc - 1)) in H, H' by lia.
  rewrite (u32_small (ec + ic - 1)) in H, H' by lia.
  pose proof (ceil_div_le ec oc ltac:(lia) ltac:(lia)).
  pose proof (ceil_div_le ec ic ltac:(lia) ltac:(lia)).
  assert (0 <= (ec + oc - 1) / oc) by (apply Z.div_pos; lia).
  assert (0 <= (ec + ic - 1) / ic) by (apply Z.div_pos; lia).
  rewrite (u32_small (margin + 1)) in H' by lia.
  rewrite (u32_small (_ / oc + margin)) in H by lia.
  rewrite (u32_small (_ / ic + margin)) in H by lia.
  rewrite (u32_small (_ / oc + (margin + 1))) in H' by lia.
  rewrite (u32_small (_ / ic + (margin + 1))) in H' by lia.
  bind_inv H. bind_inv H. injection H as <-.
  bind_inv H'. bind_inv H'. injection H' as <-.
  simpl. lia.
Qed.

Section Returning.
Variables (oc ic : nat) (ec : Z).
Hypothesis Hoc : (1 <= oc)%nat.
Hypothesis Hic : (1 <= ic)%nat.
Hypothesis Hec : 1 <= ec < 2 ^ 31.
Hypothesis Hfit : Z.of_nat (oc * ic) < 2 ^ 31.
Hypothesis Hdense : ec <= Z.of_nat (oc * ic).

Let m0 := replicate (oc * ic) false.

Lemma generation_attempt_script (margin : Z) (c : caps) :
  compute_caps (Z.of_nat oc) (Z.of_nat ic) ec margin = Ret c ->
  caps_ok (Z.of_nat oc) (Z.of_nat ic) ec c ->
  exists prefix r,
    (forall rest : script,
       generation_attempt m0 (Z.of_nat oc) (Z.of_nat ic) ec margin (prefix ++ rest)
       = Ret (r, rest))
    /\ (forall m, r = Some m -> generated oc ic ec c m)
    /\ (dense_caps oc ic c -> is_Some r).
Proof.
  intros Hc Hok.
  destruct (start_attempt_Ret oc ic ec Hoc Hic ltac:(lia) Hfit Hdense margin c Hc Hok)
    as (a & Ea & Hinv & Hacc).
  destruct (place_edges_script oc ic ec c Hfit Hok Hdense (Z.to_nat ec) a O Hinv
              ltac:(lia)) as (prefix & r & E & Hr & Hd).
  exists prefix, (option_map local_connection_matrix r). split; [|split].
  - intros rest. unfold generation_attempt. fold m0 in Ea.
    rewrite Ea, bind_Ret_l. cbv beta iota zeta.
    rewrite Hacc, to_int_small, Z.sub_0_r by lia.
    rewrite E, bind_Ret_l. reflexivity.
  - intros m Hm. destruct r as [a'|]; [|discriminate Hm]. injection Hm as <-.
    destruct (Hr a' eq_refl) as [I1 I2 _ _ _ _ _ _ _ _ I3 I4 _].
    split; [exact I1|]. split; [rewrite I2; lia|]. split; [exact I3|exact I4].
  - intros D. destruct (Hd D) as [a' ->]. eexists. reflexivity.
Qed.

(** When the caps are computed at every margin from [k0] up to [K], and
    [K] is at least the two feature map counts, some draws make the loop
    that has reached a margin [k] between [k0] and [K] return within
    [K - k + 1] passes. *)
Lemma fill_connection_matrix_from_script (k0 K : nat) :
  Z.max (Z.of_nat oc) (Z.of_nat ic) <= Z.of_nat K ->
  ec + Z.of_nat K + 1 < 2 ^ 32 ->
  (forall margin, Z.of_nat k0 <= margin <= Z.of_nat K ->
     exists c, compute_caps (Z.of_nat oc) (Z.of_nat ic) ec margin = Ret c) ->
  forall n k, (k + n = K)%nat -> (k0 <= k)%nat ->
    exists (g : script) m final g',
      fill_connection_matrix_from (S n) (Z.of_nat k) m0 g (Z.of_nat oc) (Z.of_nat ic) ec
      = Ret (m, final, g').
Proof.
  intros HK Hwrap Hcaps.
  assert (Hoc' : Z.of_nat oc < 2 ^ 31) by nia.
  assert (Hic' : Z.of_nat ic < 2 ^ 31) by nia.
  induction n as [|n IH]; intros k Hk Hk0.
  - destruct (Hcaps (Z.of_nat k) ltac:(lia)) as [c Hc].
    pose proof (compute_caps_ok oc ic ec (Z.of_nat k) c Hoc Hic Hec Hoc' Hic' ltac:(lia)
                  ltac:(lia) Hc) as Hok.
    destruct (generation_attempt_script (Z.of_nat k) c Hc Hok) as (p & r & E & _ & Hd).
    destruct (Hd (compute_caps_dense oc ic ec (Z.of_nat k) c Hoc Hic Hec Hoc' Hic'
                    ltac:(lia) ltac:(lia) Hc)) as [m ->].
    exists (p ++ []), m, (Z.of_nat k), []. cbn [fill_connection_matrix_from].
    rewrite E, bind_Ret_l. reflexivity.
  - destruct (Hcaps (Z.of_nat k) ltac:(lia)) as [c Hc].
    pose proof (compute_caps_ok oc ic ec (Z.of_nat k) c Hoc Hic Hec Hoc' Hic' ltac:(lia)
                  ltac:(lia) Hc) as Hok.
    destruct (generation_attempt_script (Z.of_nat k) c Hc Hok) as (p & r & E & _ & _).
    destruct r as [m|].
    + exists (p ++ []), m, (Z.of_nat k), [].
      change (fill_connection_matrix_from (S (S n)) ?mg ?m1 ?g ?a ?b ?e)
        with ('(r, g1) ← generation_attempt m1 a b e mg g;
              match r with
              | Some local_connection_matrix_ => Ret (local_connection_matrix_, mg, g1)
              | None => fill_connection_matrix_from (S n) (u32 (mg + 1)) m1 g1 a b e
              end).
      rewrite E, bind_Ret_l. reflexivity.
    + destruct (IH (S k) ltac:(lia) ltac:(lia)) as (g & m & final & g' & Eg).
      exists (p ++ g), m, final, g'.
      change (fill_connection_matrix_from (S (S n)) ?mg ?m1 ?g ?a ?b ?e)
        with ('(r, g1) ← generation_attempt m1 a b e mg g;
              match r with
              | Some local_connection_matrix_ => Ret (local_connection_matrix_, mg, g1)
              | None => fill_connection_matrix_from (S n) (u32 (mg + 1)) m1 g1 a b e
              end).
      rewrite E, bind_Ret_l. cbv beta iota.
      rewrite u32_small by lia.
      replace (Z.of_nat k + 1) with (Z.of_nat (S k)) by lia. exact Eg.
Qed.
End Returning.

(** ** An edge count that is not an [int] *)

Lemma start_attempt_all_false (oc ic : nat) (ec margin : Z) (c : caps) :
  Z.of_nat (oc * ic) < 2 ^ 32 ->
  compute_caps (Z.of_nat oc) (Z.of_nat ic) ec margin = Ret c ->
  exists a,
    start_attempt (replicate (oc * ic) false) (Z.of_nat oc) (Z.of_nat ic) ec margin
    = Ret (c, a)
    /\ local_connection_matrix a = replicate (oc * ic) false
    /\ accumulate (output_feature_map_connection_count_list a) = 0.
Proof.
  intros Hfit Hc.
  assert (Hlen : length (replicate (oc * ic) false) = (oc * ic)%nat)
    by apply length_replicate.
  unfold start_attempt. rewrite Hc, bind_Ret_l.
  rewrite (count_output_connections_Ret oc ic _ Hlen Hfit), bind_Ret_l.
  rewrite available_lists_Ret, bind_Ret_l. cbv beta iota.
  rewrite (count_input_connections_Ret oc ic _ Hlen Hfit), bind_Ret_l.
  rewrite available_lists_Ret, bind_Ret_l. cbv beta iota.
  eexists. split; [reflexivity|]. split; [reflexivity|].
  cbn [output_feature_map_connection_count_list].
  apply accumulate_all_zero, Forall_forall. intros x Hx.
  apply list_elem_of_fmap in Hx as (o & -> & _).
  unfold output_degree. rewrite count_range_false; [reflexivity|].
  intros. apply entry_replicate.
Qed.

(** When the edge count, read as an [int], is not positive, the loop over
    the edges is not entered and the first pass commits the matrix as it
    was. *)
Lemma no_edge_placed {G : Type} `{random_generator G}
    (oc ic : nat) (ec : Z) (c : caps) (g : G) (fuel : nat) :
  Z.of_nat (oc * ic) < 2 ^ 32 -> to_int ec <= 0 ->
  compute_caps (Z.of_nat oc) (Z.of_nat ic) ec 0 = Ret c ->
  fill_connection_matrix (S fuel) (replicate (oc * ic) false) g (Z.of_nat oc) (Z.of_nat ic) ec
  = Ret (replicate (oc * ic) false, g).
Proof.
  intros Hfit Hec Hc.
  destruct (start_attempt_all_false oc ic ec 0 c Hfit Hc) as (a & Ea & Hm & Hacc).
  unfold fill_connection_matrix. cbn [fill_connection_matrix_from].
  unfold generation_attempt. rewrite Ea, bind_Ret_l. cbv beta iota zeta.
  rewrite Hacc, Z.sub_0_r.
  replace (Z.to_nat (to_int ec)) with O by lia.
  cbn [place_edges]. rewrite !bind_Ret_l. cbv beta iota.
  cbn [option_map]. rewrite !bind_Ret_l. cbv beta iota. rewrite Hm. reflexivity.
Qed.


(** ** C1: what the connectivity generator returns *)

Lemma some_draws_return (oc ic ec margin : Z) :
  1 <= oc -> Z.max oc ic <= ec -> ec <= oc * ic -> oc * ic < 2 ^ 31 ->
  0 <= margin -> ec + Z.max margin (Z.max oc ic) + 1 < 2 ^ 32 ->
  (forall margin', margin <= margin' <= Z.max margin (Z.max oc ic) ->
     exists c, compute_caps oc ic ec margin' = Ret c) ->
  exists (g : script) m final g',
    fill_connection_matrix_from (S (Z.to_nat (Z.max oc ic - margin))) margin
      (all_false oc ic) g oc ic ec
    = Ret (m, final, g').
Proof.
  intros Hoc Hmax Hdense Hfit Hmargin Hwrap Hcaps.
  assert (Hic : 1 <= ic) by nia.
  assert (Hfit' : Z.of_nat (Z.to_nat oc * Z.to_nat ic) < 2 ^ 31)
    by (rewrite Nat2Z.inj_mul, !Z2Nat.id by lia; exact Hfit).
  assert (Hdense' : ec <= Z.of_nat (Z.to_nat oc * Z.to_nat ic))
    by (rewrite Nat2Z.inj_mul, !Z2Nat.id by lia; exact Hdense).
  assert (Hec : 1 <= ec < 2 ^ 31) by nia.
  destruct (fill_connection_matrix_from_script (Z.to_nat oc) (Z.to_nat ic) ec
              ltac:(lia) ltac:(lia) Hec Hfit' Hdense'
              (Z.to_nat margin) (Z.to_nat (Z.max margin (Z.max oc ic))))
    with (n := Z.to_nat (Z.max oc ic - margin)) (k := Z.to_nat margin)
    as (g & m & final & g' & E).
  - rewrite !Z2Nat.id by lia. lia.
  - rewrite Z2Nat.id by lia. lia.
  - intros margin' Hm. rewrite !Z2Nat.id by lia. apply Hcaps.
    rewrite !Z2Nat.id in Hm by lia. exact Hm.
  - lia.
  - lia.
  - exists g, m, final, g'. unfold all_false.
    rewrite Z2Nat.inj_mul by lia.
    rewrite !Z2Nat.id in E by lia. exact E.
Qed.





(** ** C9: the compressed-row representation *)

Lemma count_range_app p from a b :
  count_range p from (a + b) = (count_range p from a + count_range p (from + a) b)%nat.
Proof.
  revert from. induction a as [|a IH]; intros from; simpl.
  - rewrite Nat.add_0_r. reflexivity.
  - rewrite IH, <- Nat.add_succ_comm. lia.
Qed.

Lemma count_range_shift p s from n :
  count_range (fun i => p (s + i)%nat) from n = count_range p (s + from) n.
Proof.
  revert from. induction n as [|n IH]; intros from; simpl; [reflexivity|].
  rewrite IH, Nat.add_succ_r. reflexivity.
Qed.

Lemma row_inputs_length m ic o n :
  length (row_inputs m ic o n) = count_range (fun i => entry m (o * ic + i)) 0 n.
Proof.
  unfold row_inputs. rewrite length_map. generalize 0%nat.
  induction n as [|n IH]; intros from; simpl; [reflexivity|].
  rewrite filter_cons. destruct (entry m (o * ic + from)); case_decide; try congruence;
    simpl; rewrite IH; reflexivity.
Qed.

Lemma row_inputs_S m ic o n :
  row_inputs m ic o (S n)
  = if entry m (o * ic + n) then row_inputs m ic o n ++ [Z.of_nat n] else row_inputs m ic o n.
Proof.
  unfold row_inputs. rewrite seq_S, filter_app, fmap_app. simpl.
  rewrite filter_cons, filter_nil.
  destruct (entry m (o * ic + n)); case_decide; try congruence.
  - reflexivity.
  - simpl. rewrite app_nil_r. reflexivity.
Qed.

Lemma flat_inputs_S m ic o :
  flat_inputs m ic (S o) = flat_inputs m ic o ++ row_inputs m ic o ic.
Proof.
  unfold flat_inputs. rewrite seq_S, map_app, concat_app. simpl.
  rewrite app_nil_r. reflexivity.
Qed.

Lemma flat_inputs_length m ic o :
  length (flat_inputs m ic o) = count_range (entry m) 0 (o * ic).
Proof.
  induction o as [|o IH]; [reflexivity|].
  rewrite flat_inputs_S, length_app, IH, row_inputs_length.
  replace (S o * ic)%nat with (o * ic + ic)%nat by lia.
  rewrite count_range_app, count_range_shift. simpl. rewrite Nat.add_0_r. reflexivity.
Qed.

Lemma flat_inputs_le m ic o o' :
  (o <= o')%nat -> (length (flat_inputs m ic o) <= length (flat_inputs m ic o'))%nat.
Proof.
  induction 1 as [|o' _ IH]; [lia|]. rewrite flat_inputs_S, length_app. lia.
Qed.

Lemma row_inputs_spec m ic o n x :
  x ∈ row_inputs m ic o n
  <-> exists i, x = Z.of_nat i /\ (i < n)%nat /\ entry m (o * ic + i) = true.
Proof.
  unfold row_inputs. rewrite list_elem_of_fmap. split.
  - intros (i & -> & Hi). apply list_elem_of_filter in Hi as [He Hi].
    apply elem_of_seq in Hi. exists i. split; [reflexivity|]. split; [lia|exact He].
  - intros (i & -> & Hi & He). exists i. split; [reflexivity|].
    apply list_elem_of_filter. split; [exact He|]. apply elem_of_seq. lia.
Qed.

Lemma row_inputs_sorted m ic o n : StronglySorted Z.lt (row_inputs m ic o n).
Proof.
  induction n as [|n IH]; [constructor|].
  rewrite row_inputs_S. destruct (entry m (o * ic + n)); [|exact IH].
  assert (Hlt : Forall (fun x => x < Z.of_nat n) (row_inputs m ic o n)).
  { apply Forall_forall. intros x Hx. apply row_inputs_spec in Hx as (i & -> & Hi & _). lia. }
  revert IH Hlt. generalize (row_inputs m ic o n). intros l.
  induction l as [|y l IHl]; intros Hs Hlt; simpl.
  - repeat constructor.
  - apply StronglySorted_inv in Hs as [Hs Hy]. apply Forall_cons in Hlt as [Hyn Hlt].
    constructor; [apply IHl; assumption|].
    apply Forall_app. split; [exact Hy|]. repeat constructor. exact Hyn.
Qed.

Lemma set_at2_pair (cols rows : list Z) (k : nat) (x : Z) :
  (k < length rows)%nat ->
  set_at2 [cols; rows] 1 (Z.of_nat k) x = Ret [cols; <[k := x]> rows].
Proof.
  intros Hk. unfold set_at2, set_at_u. rewrite Nat2Z.id. simpl.
  rewrite set_at_in_range by exact Hk. reflexivity.
Qed.

Lemma set_at2_cols (cols rows : list Z) (k : nat) (x : Z) :
  (k < length cols)%nat ->
  set_at2 [cols; rows] 0 (Z.of_nat k) x = Ret [<[k := x]> cols; rows].
Proof.
  intros Hk. unfold set_at2, set_at_u. rewrite Nat2Z.id. simpl.
  rewrite set_at_in_range by exact Hk. reflexivity.
Qed.

(** Overwriting the first untouched cell extends the written prefix. *)
Lemma insert_after_prefix (written cols0 : list Z) (x : Z) :
  (length written < length cols0)%nat ->
  <[length written := x]> (written ++ drop (length written) cols0)
  = (written ++ [x]) ++ drop (length (written ++ [x])) cols0.
Proof.
  intros Hlt.
  replace (length written) with (length written + 0)%nat at 1 by lia.
  rewrite insert_app_r.
  destruct (drop (length written) cols0) as [|y rest] eqn:E.
  { apply (f_equal length) in E. rewrite length_drop in E. simpl in E. lia. }
  simpl. rewrite <- app_assoc. simpl. do 2 f_equal.
  rewrite length_app. simpl.
  replace (length written + 1)%nat with (S (length written)) by lia.
  change (S (length written)) with (1 + length written)%nat.
  rewrite Nat.add_comm, <- drop_drop, E. reflexivity.
Qed.

Lemma set_at2_next (written cols0 rows : list Z) (x : Z) :
  (length written < length cols0)%nat ->
  set_at2 [written ++ drop (length written) cols0; rows] 0 (Z.of_nat (length written)) x
  = Ret [(written ++ [x]) ++ drop (length (written ++ [x])) cols0; rows].
Proof.
  intros Hlt. rewrite set_at2_cols by (rewrite length_app, length_drop; lia).
  rewrite insert_after_prefix by exact Hlt. reflexivity.
Qed.

Section Csr.
Variables (oc ic : nat) (m : list bool) (cols0 rows0 : list Z).
Hypothesis Hlen : length m = (oc * ic)%nat.
Hypothesis Hfit : Z.of_nat (oc * ic) < 2 ^ 31.
Hypothesis Hocfit : Z.of_nat oc < 2 ^ 31.
Hypothesis Hicfit : Z.of_nat ic < 2 ^ 31.
Hypothesis Hcols : (true_entries m <= length cols0)%nat.
Hypothesis Hrows : length rows0 = S oc.

Lemma flat_inputs_total : length (flat_inputs m ic oc) = true_entries m.
Proof. rewrite flat_inputs_length. unfold true_entries. rewrite Hlen. reflexivity. Qed.

Lemma fill_row (o : nat) (rows : list Z) :
  (o < oc)%nat ->
  for_ (Z.to_nat (to_int (Z.of_nat ic))) 0%nat
    (fun input_feature_map_id '(data_custom, current_column_offset) =>
       b ← at_u m (u32 (u32 (Z.of_nat o * Z.of_nat ic) + Z.of_nat input_feature_map_id));
       if b : bool then
         data_custom ← set_at2 data_custom 0 current_column_offset
                         (Z.of_nat input_feature_map_id);
         current_column_offset ← int_incr current_column_offset;
         Ret (data_custom, current_column_offset)
       else Ret (data_custom, current_column_offset))
    ([flat_inputs m ic o ++ drop (length (flat_inputs m ic o)) cols0; rows],
     Z.of_nat (length (flat_inputs m ic o)))
  = Ret ([flat_inputs m ic (S o) ++ drop (length (flat_inputs m ic (S o))) cols0; rows],
         Z.of_nat (length (flat_inputs m ic (S o)))).
Proof.
  intros Ho.
  rewrite to_int_small, Nat2Z.id by lia.
  match goal with |- for_ _ _ ?b _ = _ => set (body := b) end.
  destruct (for_total
              (fun i s => (i <= ic)%nat /\
                 let written := flat_inputs m ic o ++ row_inputs m ic o i in
                 s = ([written ++ drop (length written) cols0; rows],
                      Z.of_nat (length written)))
              ic 0%nat body
              ([flat_inputs m ic o ++ drop (length (flat_inputs m ic o)) cols0; rows],
               Z.of_nat (length (flat_inputs m ic o))))
    as (s' & Hs' & _ & ->).
  - split; [lia|]. unfold row_inputs. simpl. rewrite app_nil_r. reflexivity.
  - intros i s Hi [_ ->]. unfold body.
    rewrite (cell_read oc ic m Hlen ltac:(lia) o i Ho ltac:(lia)), bind_Ret_l.
    rewrite row_inputs_S.
    destruct (entry m (o * ic + i)) eqn:E.
    + (* one more column index is written *)
      assert (Hroom : (length (flat_inputs m ic o ++ row_inputs m ic o i)
                       < true_entries m)%nat).
      { rewrite <- flat_inputs_total.
        pose proof (flat_inputs_le m ic (S o) oc ltac:(lia)) as Hle.
        rewrite flat_inputs_S, length_app in Hle.
        rewrite length_app, !row_inputs_length in *.
        replace ic with (i + (1 + (ic - i - 1)))%nat in Hle at 2 by lia.
        rewrite !count_range_app in Hle. simpl in Hle. rewrite Nat.add_0_r, E in Hle.
        lia. }
      pose proof (count_range_le (entry m) 0 (length m)) as Hte.
      fold (true_entries m) in Hte. rewrite Hlen in Hte.
      rewrite set_at2_next by lia.
      rewrite bind_Ret_l. unfold int_incr.
      destruct (Z.ltb_spec (Z.of_nat (length (flat_inputs m ic o ++ row_inputs m ic o i)) + 1)
                  (2 ^ 31)); [|lia].
      rewrite bind_Ret_l. eexists. split; [reflexivity|]. split; [lia|].
      cbv zeta. rewrite <- !app_assoc. f_equal. rewrite !length_app. simpl. lia.
    + eexists. split; [reflexivity|]. split; [lia|]. reflexivity.
  - rewrite Hs'. cbv zeta. rewrite <- flat_inputs_S. reflexivity.
Qed.

Lemma fill_data_custom_Ret :
  fill_data_custom [cols0; rows0] m (Z.of_nat oc) (Z.of_nat ic)
  = Ret [flat_inputs m ic oc ++ drop (length (flat_inputs m ic oc)) cols0;
         row_offsets m ic (S oc)].
Proof.
  unfold fill_data_custom.
  rewrite to_int_small, Nat2Z.id by lia.
  match goal with |- for_ _ _ ?b _ ≫= _ = _ => set (body := b) end.
  destruct (for_total
              (fun o s => (o <= oc)%nat /\
                 s = ([flat_inputs m ic o ++ drop (length (flat_inputs m ic o)) cols0;
                       row_offsets m ic o ++ drop o rows0],
                      Z.of_nat (length (flat_inputs m ic o))))
              oc 0%nat body ([cols0; rows0], 0))
    as (s' & Hs' & _ & ->).
  - split; [lia|]. reflexivity.
  - intros o s Ho [_ ->]. unfold body.
    rewrite set_at2_pair
      by (rewrite length_app, length_drop; unfold row_offsets;
          rewrite length_map, length_seq; lia).
    rewrite bind_Ret_l, fill_row by lia.
    eexists. split; [reflexivity|]. split; [lia|]. do 3 f_equal.
    unfold row_offsets. rewrite seq_S, map_app. simpl.
    replace o with (length (map (fun k => Z.of_nat (length (flat_inputs m ic k))) (seq 0 o)) + 0)%nat
      at 1 by (rewrite length_map, length_seq; lia).
    rewrite insert_app_r.
    destruct (drop o rows0) as [|y rest] eqn:E.
    { apply (f_equal length) in E. rewrite length_drop in E. simpl in E. lia. }
    simpl. rewrite <- app_assoc. simpl. do 2 f_equal.
    change (S o) with (1 + o)%nat. rewrite Nat.add_comm, <- drop_drop, E. reflexivity.
  - rewrite Hs', bind_Ret_l. cbv beta iota.
    rewrite set_at2_pair
      by (rewrite length_app, length_drop; unfold row_offsets;
          rewrite length_map, length_seq; lia).
    do 3 f_equal. unfold row_offsets. rewrite (seq_S oc), map_app. simpl.
    replace oc with (length (map (fun k => Z.of_nat (length (flat_inputs m ic k))) (seq 0 oc)) + 0)%nat
      at 1 by (rewrite length_map, length_seq; lia).
    rewrite insert_app_r.
    destruct (drop oc rows0) as [|y rest] eqn:E.
    { apply (f_equal length) in E. rewrite length_drop in E. simpl in E. lia. }
    assert (rest = []).
    { apply (f_equal length) in E. rewrite length_drop in E. simpl in E.
      destruct rest; [reflexivity|simpl in E; lia]. }
    subst rest. reflexivity.
Qed.
End Csr.

Lemma flat_inputs_split m ic o oc :
  (o < oc)%nat ->
  exists tail, flat_inputs m ic oc = flat_inputs m ic o ++ row_inputs m ic o ic ++ tail.
Proof.
  intros Ho. induction oc as [|oc IH]; [lia|].
  destruct (decide (o = oc)) as [->|Hne].
  - exists []. rewrite app_nil_r. apply flat_inputs_S.
  - destruct (IH ltac:(lia)) as [tail Ht].
    exists (tail ++ row_inputs m ic oc ic). rewrite flat_inputs_S, Ht, <- !app_assoc.
    reflexivity.
Qed.

Lemma row_offsets_lookup m ic n o x :
  row_offsets m ic n !! o = Some x -> x = Z.of_nat (length (flat_inputs m ic o)).
Proof.
  unfold row_offsets. rewrite list_lookup_fmap. intros H.
  destruct (seq 0 n !! o) as [k|] eqn:E; [|discriminate H].
  apply lookup_seq in E as [-> _]. injection H as <-. reflexivity.
Qed.

Lemma fill_data_custom_consistent (oc ic : nat) (m : list bool) (rest : list Z) :
  length m = (oc * ic)%nat ->
  csr_consistent oc ic m (flat_inputs m ic oc ++ rest) (row_offsets m ic (S oc)).
Proof.
  intros Hlen. constructor.
  - unfold row_offsets. rewrite length_map, length_seq. reflexivity.
  - reflexivity.
  - intros o lo hi Hlo Hhi. apply row_offsets_lookup in Hlo, Hhi. subst.
    pose proof (flat_inputs_le m ic o (S o) ltac:(lia)). lia.
  - unfold row_offsets. rewrite list_lookup_fmap, lookup_seq_lt by lia. simpl.
    rewrite flat_inputs_length. unfold true_entries. rewrite Hlen. reflexivity.
  - intros o lo hi Ho Hlo Hhi. apply row_offsets_lookup in Hlo, Hhi. subst.
    assert (Hseg : segment (flat_inputs m ic oc ++ rest)
                     (Z.of_nat (length (flat_inputs m ic o)))
                     (Z.of_nat (length (flat_inputs m ic (S o))))
                   = row_inputs m ic o ic).
    { unfold segment. destruct (flat_inputs_split m ic o oc Ho) as [tail ->].
      rewrite flat_inputs_S, length_app, Nat2Z.id.
      replace (Z.to_nat _) with (length (row_inputs m ic o ic)) by lia.
      rewrite <- !app_assoc, drop_app_length, take_app_length. reflexivity. }
    rewrite Hseg. split; [|split].
    + intros i. rewrite row_inputs_spec. split.
      * intros (i' & E & Hi' & He). apply Nat2Z.inj in E. subst i'. auto.
      * intros [Hi He]. exists i. auto.
    + intros x Hx. apply row_inputs_spec in Hx as (i & -> & Hi & _). lia.
    + apply row_inputs_sorted.
Qed.




(** ** C5: weight initialisation *)

Lemma SFcompare_antisym (a b : float) c :
  SFcompare b a = Some c -> SFcompare a b = Some (CompOpp c).
Proof.
  destruct a as [sa|sa| |sa ma ea], b as [sb|sb| |sb mb eb]; simpl;
    try discriminate; intros [= <-]; try (destruct sa; reflexivity);
    try (destruct sb; reflexivity); try (destruct sa, sb; reflexivity).
  destruct sa, sb; try reflexivity; f_equal;
    rewrite (Z.compare_antisym eb ea);
    destruct (eb ?= ea) eqn:E; simpl; try reflexivity;
    rewrite (Pos.compare_cont_antisym mb ma Eq); simpl;
    try rewrite CompOpp_involutive; reflexivity.
Qed.

Lemma not_greater_is_at_most (a b : float) :
  a <> S754_nan -> b <> S754_nan -> fgt a b = false -> SFleb a b = true.
Proof.
  intros Ha Hb H. unfold fgt, SFltb in H. unfold SFleb.
  destruct (SFcompare b a) as [c|] eqn:E.
  - rewrite (SFcompare_antisym a b c E). destruct c; try reflexivity. discriminate H.
  - destruct a, b; simpl in E; try discriminate E; congruence.
Qed.

Section Weights.
Context {G : Type} `{R : random_generator G}.

Lemma draw_weight_Ret (fuel : nat) (sd mx : float) (g : G) (val : float) (g' : G) :
  draw_weight fuel sd mx g = Ret (val, g') ->
  (exists g0 : G, val = fst (normal_distribution F_0_0 sd g0))
  /\ fgt (fabs val) mx = false.
Proof.
  revert g. induction fuel as [|fuel IH]; intros g H; [discriminate H|].
  cbn [draw_weight] in H. destruct (normal_distribution F_0_0 sd g) as [v g1] eqn:E.
  destruct (fgt (fabs v) mx) eqn:Hv.
  - apply (IH g1 H).
  - injection H as <- <-. split; [|exact Hv]. exists g. rewrite E. reflexivity.
Qed.

Lemma draw_weight_accepted (fuel : nat) (sd : float) (g : G) (val : float) (g' : G) :
  draw_weight fuel sd (fmul F_100_0 sd) g = Ret (val, g') -> accepted_draw (G := G) sd val.
Proof.
  intros H. apply draw_weight_Ret in H as [Hdraw Hle].
  split; [exact Hdraw|]. split; [exact Hle|].
  intros N1 N2. apply not_greater_is_at_most; assumption.
Qed.

Variables (this : sparse_convolution_layer) (fuel : nat).
Variables (data_custom : list (list Z)) (rows : list Z).
Hypothesis Hrows : data_custom !! 1%nat = Some rows.
Hypothesis Hoc : is_u32 (output_feature_map_count this).

Variables (data0 : list (list float)) (w0 : list float).
Hypothesis Hw0 : data0 !! O = Some w0.
Hypothesis Hsmall : Z.of_nat (length w0) < 2 ^ 32.

(** The state of the loops: the weights written so far are [written],
    in front of the untouched part of [data[0]]; the other vectors of
    [data] are as they were. *)
Let state_ok (written : list float) (s : list (list float) * Z * G) : Prop :=
  let '(data, current_weight_index, _) := s in
  current_weight_index = Z.of_nat (length written)
  /\ length data = length data0
  /\ (forall j, j <> O -> data !! j = data0 !! j)
  /\ data !! O = Some (written ++ drop (length written) w0)
  /\ (length written <= length w0)%nat.

Lemma write_weight (written : list float)
    (data : list (list float)) (index : Z) (g g1 : G) (val : float)
    (data' : list (list float)) :
  state_ok written (data, index, g) ->
  set_at2 data 0 index val = Ret data' ->
  state_ok (written ++ [val]) (data', u32 (index + 1), g1).
Proof.
  intros (-> & Hlen & Hother & Hw & Hle) H.
  unfold set_at2, set_at_u, at_ in H. rewrite Hw in H. rewrite bind_Ret_l in H.
  rewrite Nat2Z.id in H. bind_inv H. apply set_at_Ret in E as [Hlt ->].
  apply set_at_Ret in H as [Hlt0 ->].
  rewrite length_app, length_drop in Hlt.
  assert (Hroom : (length written < length w0)%nat) by lia.
  unfold state_ok. split; [|split; [|split; [|split]]].
  - rewrite length_app. simpl. rewrite u32_small; lia.
  - rewrite length_insert. exact Hlen.
  - intros j Hj. rewrite list_lookup_insert_ne by congruence. apply Hother, Hj.
  - rewrite list_lookup_insert_eq by exact Hlt0. f_equal.
    replace (length written) with (length written + 0)%nat at 1 by lia.
    rewrite insert_app_r.
    destruct (drop (length written) w0) as [|y rest] eqn:E.
    { apply (f_equal length) in E. rewrite length_drop in E. simpl in E. lia. }
    simpl. rewrite <- app_assoc. simpl. do 2 f_equal.
    rewrite length_app. simpl.
    replace (length written + 1)%nat with (1 + length written)%nat by lia.
    rewrite Nat.add_comm, <- drop_drop, E. reflexivity.
  - rewrite length_app. simpl. lia.
Qed.

Lemma randomize_weights_blocks (g : G) (data' : list (list float)) (g' : G) :
  randomize_weights fuel this data0 data_custom g = Ret (data', g') ->
  exists blocks,
    data' !! O = Some (concat blocks ++ drop (length (concat blocks)) w0)
    /\ length blocks = Z.to_nat (output_feature_map_count this)
    /\ (forall o block, blocks !! o = Some block ->
          weights_of_output (G := G) this rows o block)
    /\ (bias this = true ->
        exists b0, data0 !! 1%nat = Some b0
                   /\ data' !! 1%nat = Some (replicate (length b0) F_0_0))
    /\ (bias this = false -> forall j, j <> O -> data' !! j = data0 !! j).
Proof.
  intros H. unfold randomize_weights in H. fold (window_volume this) in H.
  bind_inv H. destruct a as [[data index] g1].
  (* the outer loop *)
  assert (Hloop : exists blocks,
            length blocks = Z.to_nat (output_feature_map_count this)
            /\ (forall o block, blocks !! o = Some block ->
                  weights_of_output (G := G) this rows o block)
            /\ state_ok (concat blocks) (data, index, g1)).
  { eapply (for_partial
              (fun o s => exists blocks,
                   length blocks = o
                   /\ (forall o' block, blocks !! o' = Some block ->
                         weights_of_output (G := G) this rows o' block)
                   /\ state_ok (concat blocks) s)) in E.
    - exact E.
    - exists []. split; [reflexivity|]. split.
      + intros o block Hl. discriminate Hl.
      + simpl. repeat split; try reflexivity; [rewrite drop_0; exact Hw0|lia].
    - intros o [[d idx] g0] s' Ho (blocks & Hb1 & Hb2 & Hb3) Hbody.
      bind_inv Hbody. bind_inv Hbody.
      unfold at2, at_ in E0, E1. rewrite Hrows in E0, E1. rewrite bind_Ret_l in E0, E1.
      apply at_u_Ret in E0, E1. rewrite Nat2Z.id in E1.
      unfold is_u32 in Hoc.
      rewrite u32_small in E0 by lia.
      replace (Z.to_nat (Z.of_nat o + 1)) with (S o) in E0 by lia.
      destruct (Z.ltb_spec 0 (u32 (a - a0))) as [Hk|Hk].
      + (* the inner loop *)
        fold (weight_standard_deviation this (u32 (a - a0))) in Hbody.
        set (sd := weight_standard_deviation this (u32 (a - a0))) in *.
        eapply (for_partial
                  (fun i s => exists block,
                     length block = i
                     /\ Forall (accepted_draw (G := G) sd) block
                     /\ state_ok (concat blocks ++ block) s)) in Hbody.
        * destruct Hbody as (block & Hl & Hacc & Hst).
          exists (blocks ++ [block]). split; [rewrite length_app; simpl; lia|].
          split.
          -- intros o' blk Hlk. apply lookup_app_Some in Hlk as [Hlk|[Hge Hlk]].
             ++ apply Hb2, Hlk.
             ++ rewrite Hb1 in Hlk.
                destruct (o' - o)%nat as [|n] eqn:En; [|destruct n; discriminate Hlk].
                injection Hlk as <-. assert (o' = o) as -> by lia.
                exists a0, a. split; [exact E1|]. split; [exact E0|]. cbv zeta.
                destruct (Z.ltb_spec 0 (u32 (a - a0))); [|lia].
                split; [lia|exact Hacc].
          -- rewrite concat_app. simpl. rewrite app_nil_r. exact Hst.
        * exists []. rewrite app_nil_r. auto.
        * intros i [[d1 idx1] g2] s1 Hi (block & Hl & Hacc & Hst) Hstep.
          bind_inv Hstep. destruct a1 as [val g3]. bind_inv Hstep.
          injection Hstep as <-.
          exists (block ++ [val]). split; [rewrite length_app; simpl; lia|].
          split.
          -- apply Forall_app. split; [exact Hacc|]. constructor; [|constructor].
             eapply draw_weight_accepted, E2.
          -- rewrite app_assoc. eapply write_weight; eauto.
      + injection Hbody as <-.
        exists (blocks ++ [[]]). split; [rewrite length_app; simpl; lia|].
        split.
        * intros o' blk Hlk. apply lookup_app_Some in Hlk as [Hlk|[Hge Hlk]].
          -- apply Hb2, Hlk.
          -- rewrite Hb1 in Hlk.
             destruct (o' - o)%nat as [|n] eqn:En; [|destruct n; discriminate Hlk].
             injection Hlk as <-. assert (o' = o) as -> by lia.
             exists a0, a. split; [exact E1|]. split; [exact E0|]. cbv zeta.
             destruct (Z.ltb_spec 0 (u32 (a - a0))); [lia|].
             split; [reflexivity|constructor].
        * rewrite concat_app. simpl. rewrite !app_nil_r. exact Hb3. }
  destruct Hloop as (blocks & Hb1 & Hb2 & (_ & Hlen & Hother & Hw & _)).
  cbv beta iota in H.
  destruct (bias this) eqn:Hbias.
  - bind_inv H. bind_inv H. injection H as <- <-.
    apply at_Ret in E0. apply set_at_Ret in E1 as [Hlt ->].
    exists blocks. split.
    + rewrite list_lookup_insert_ne by lia. exact Hw.
    + split; [exact Hb1|]. split; [exact Hb2|]. split.
      * intros _. exists a. split; [rewrite <- (Hother 1%nat) by lia; exact E0|].
        apply list_lookup_insert_eq. exact Hlt.
      * intros Hf. discriminate Hf.
  - injection H as <- <-.
    exists blocks. split; [exact Hw|].
    split; [exact Hb1|]. split; [exact Hb2|]. split.
    + intros Hf. discriminate Hf.
    + intros _. exact Hother.
Qed.
Lemma write_weight_total (written : list float)
    (data : list (list float)) (index : Z) (g : G) (val : float) :
  state_ok written (data, index, g) ->
  (length written < length w0)%nat ->
  exists data', set_at2 data 0 index val = Ret data'.
Proof.
  intros (-> & Hlen & Hother & Hw & Hle) Hroom.
  unfold set_at2, set_at_u, at_. rewrite Hw. rewrite bind_Ret_l.
  rewrite Nat2Z.id. unfold set_at.
  rewrite decide_True by (rewrite length_app, length_drop; lia).
  rewrite bind_Ret_l.
  rewrite decide_True by (apply lookup_lt_Some in Hw; exact Hw).
  eauto.
Qed.

Lemma sum_range_snoc (f : nat -> nat) from n :
  sum_range f from (S n) = (sum_range f from n + f (from + n))%nat.
Proof.
  revert from. induction n as [|n IH]; intros from.
  - simpl. rewrite !Nat.add_0_r. reflexivity.
  - change (sum_range f from (S (S n)))
      with (f from + sum_range f (S from) (S n))%nat.
    rewrite IH. simpl. rewrite Nat.add_succ_r. lia.
Qed.

Lemma sum_range_snoc_0 (f : nat -> nat) n :
  sum_range f 0 (S n) = (sum_range f 0 n + f n)%nat.
Proof. apply sum_range_snoc. Qed.

Lemma sum_range_prefix (f : nat -> nat) n k :
  (k <= n)%nat -> (sum_range f 0 k <= sum_range f 0 n)%nat.
Proof.
  induction 1 as [|n Hle IH]; [lia|]. rewrite sum_range_snoc_0. lia.
Qed.

(** The rejection loops end within [fuel] draws from every generator
    state that satisfies [accepting], and leave such a state. *)
Let draws_accepted (accepting : G -> Prop) : Prop :=
  forall o g0,
    (o < Z.to_nat (output_feature_map_count this))%nat ->
    0 < connected_inputs rows o -> accepting g0 ->
    exists val g1,
      draw_weight fuel (weight_standard_deviation this (connected_inputs rows o))
        (fmul F_100_0 (weight_standard_deviation this (connected_inputs rows o))) g0
      = Ret (val, g1)
      /\ accepting g1.

Lemma randomize_weights_returns (accepting : G -> Prop) (g : G) :
  (Z.to_nat (output_feature_map_count this) < length rows)%nat ->
  (sum_range (block_size this rows) 0 (Z.to_nat (output_feature_map_count this))
   <= length w0)%nat ->
  (bias this = true -> exists b0, data0 !! 1%nat = Some b0) ->
  accepting g ->
  draws_accepted accepting ->
  exists data' g', randomize_weights fuel this data0 data_custom g = Ret (data', g').
Proof.
  intros Hrowlen Hroom Hbias Hg Hdraw.
  unfold randomize_weights. fold (window_volume this).
  match goal with |- context [for_ ?n0 0%nat ?b0 ?s0] =>
    destruct (for_total
                (fun o s => exists written,
                     state_ok written s
                     /\ length written = sum_range (block_size this rows) 0 o
                     /\ accepting (snd s))
                n0 0%nat b0 s0) as (s' & Hs' & (written & Hst & Hlen & Hacc))
  end.
  - exists []. split; [|split; [reflexivity|exact Hg]].
    simpl. repeat split; try reflexivity; [rewrite drop_0; exact Hw0|lia].
  - intros o [[d idx] g0] Ho (written & Hst & Hlen & Hacc). simpl in Hacc.
    unfold is_u32 in Hoc.
    destruct (lookup_lt_is_Some_2 rows (S o) ltac:(lia)) as [hi Hhi].
    destruct (lookup_lt_is_Some_2 rows o ltac:(lia)) as [lo Hlo].
    assert (Ek : connected_inputs rows o = u32 (hi - lo))
      by (unfold connected_inputs; rewrite Hhi, Hlo; reflexivity).
    assert (Ehi : at2 data_custom 1 (u32 (Z.of_nat o + 1)) = Ret hi).
    { unfold at2, at_. rewrite Hrows, bind_Ret_l. apply at_u_Ret.
      rewrite u32_small by lia.
      replace (Z.to_nat (Z.of_nat o + 1)) with (S o) by lia. exact Hhi. }
    assert (Elo : at2 data_custom 1 (Z.of_nat o) = Ret lo).
    { unfold at2, at_. rewrite Hrows, bind_Ret_l. apply at_u_Ret.
      rewrite Nat2Z.id. exact Hlo. }
    cbv beta iota. rewrite Ehi, bind_Ret_l, Elo, bind_Ret_l. rewrite <- Ek.
    assert (Hblock : (sum_range (block_size this rows) 0 o + block_size this rows o
                      <= length w0)%nat).
    { rewrite <- sum_range_snoc_0. etransitivity; [|exact Hroom].
      apply sum_range_prefix. lia. }
    destruct (Z.ltb_spec 0 (connected_inputs rows o)) as [Hk|Hk].
    + fold (weight_standard_deviation this (connected_inputs rows o)).
      set (sd := weight_standard_deviation this (connected_inputs rows o)) in *.
      assert (Hbs : block_size this rows o
                    = Z.to_nat (u32 (window_volume this * connected_inputs rows o))).
      { unfold block_size. destruct (Z.ltb_spec 0 (connected_inputs rows o)); [reflexivity|lia]. }
      match goal with |- context [for_ ?n0 0%nat ?b0 ?s0] =>
        destruct (for_total
                    (fun i s => exists written',
                         state_ok written' s
                         /\ length written'
                            = (sum_range (block_size this rows) 0 o + i)%nat
                         /\ accepting (snd s))
                    n0 0%nat b0 s0) as (s1 & Hs1 & (written' & Hst' & Hlen' & Hacc'))
      end.
      * exists written. split; [exact Hst|]. split; [lia|exact Hacc].
      * intros i [[d1 idx1] g1] Hi (written' & Hst' & Hlen' & Hacc'). simpl in Hacc'.
        destruct (Hdraw o g1 ltac:(lia) Hk Hacc') as (val & g2 & Hval & Hacc2).
        fold sd in Hval. cbv beta iota. rewrite Hval, bind_Ret_l. cbv beta iota.
        destruct (write_weight_total written' d1 idx1 g1 val Hst' ltac:(lia))
          as (d2 & Hd2).
        rewrite Hd2, bind_Ret_l.
        eexists. split; [reflexivity|].
        exists (written' ++ [val]). split; [|split].
        -- eapply write_weight; eauto.
        -- rewrite length_app. simpl. lia.
        -- exact Hacc2.
      * exists s1. split; [exact Hs1|]. exists written'. split; [exact Hst'|].
        split; [|exact Hacc']. rewrite sum_range_snoc_0, Hbs. lia.
    + eexists. split; [reflexivity|].
      exists written. split; [exact Hst|]. split; [|exact Hacc].
      assert (Hbs : block_size this rows o = O).
      { unfold block_size.
        destruct (Z.ltb_spec 0 (connected_inputs rows o)); [lia|reflexivity]. }
      rewrite sum_range_snoc_0, Hbs. lia.
  - rewrite Hs'. destruct s' as [[data idx] g1]. rewrite bind_Ret_l. cbv beta iota.
    destruct Hst as (_ & Hlen1 & Hother & _ & _).
    destruct (bias this) eqn:Eb.
    + destruct (Hbias eq_refl) as [b0 Hb0].
      unfold at_. rewrite (Hother 1%nat) by lia. rewrite Hb0, bind_Ret_l.
      unfold set_at. rewrite decide_True
        by (rewrite Hlen1; apply lookup_lt_Some in Hb0; exact Hb0).
      rewrite bind_Ret_l. eauto.
    + eauto.
Qed.
End Weights.

(** The rejection loops of the example: from a script whose draws after
    the next one are all one standard deviation out, two draws are enough. *)
Lemma example_draws_accepted (o : nat) (g0 : script) :
  (o < 3)%nat -> one_deviation_after_next g0 ->
  exists val g1,
    draw_weight 2
      (weight_standard_deviation example_sparse_layer (connected_inputs [0; 2; 4; 6] o))
      (fmul F_100_0
         (weight_standard_deviation example_sparse_layer (connected_inputs [0; 2; 4; 6] o)))
      g0
    = Ret (val, g1)
    /\ one_deviation_after_next g1.
Proof.
  intros Ho Hg.
  assert (Ek : connected_inputs [0; 2; 4; 6] o = 2)
    by (destruct o as [|[|[|o]]]; [reflexivity..|lia]).
  rewrite Ek.
  assert (Esd : weight_standard_deviation example_sparse_layer 2
                = S754_finite false 14292915 (-26)) by (vm_compute; reflexivity).
  rewrite Esd.
  assert (Emax : fmul F_100_0 (S754_finite false 14292915 (-26))
                 = S754_finite false 11166340 (-19)) by (vm_compute; reflexivity).
  rewrite Emax.
  assert (Hzero : fgt (fabs F_0_0) (S754_finite false 11166340 (-19)) = false)
    by (vm_compute; reflexivity).
  assert (Hone : fgt (fabs (fadd F_0_0 (fmul (S754_finite false 14292915 (-26))
                                          (binary_normalize prec32 emax32 1 0 false))))
                   (S754_finite false 11166340 (-19)) = false)
    by (vm_compute; reflexivity).
  assert (Hsecond : forall t : script, Forall (fun r => r = 1) t ->
            exists val g1,
              draw_weight 1 (S754_finite false 14292915 (-26))
                (S754_finite false 11166340 (-19)) t = Ret (val, g1)
              /\ one_deviation_after_next g1).
  { intros [|r t] Ht.
    - cbn [draw_weight normal_distribution script_generator]. rewrite Hzero.
      do 2 eexists. split; [reflexivity|constructor].
    - apply Forall_cons in Ht as [-> Ht].
      cbn [draw_weight normal_distribution script_generator]. rewrite Hone.
      do 2 eexists. split; [reflexivity|].
      unfold one_deviation_after_next. destruct t as [|r' t]; [constructor|].
      apply Forall_cons in Ht as [_ Ht]. exact Ht. }
  destruct g0 as [|r t].
  - cbn [draw_weight normal_distribution script_generator]. rewrite Hzero.
    do 2 eexists. split; [reflexivity|constructor].
  - unfold one_deviation_after_next in Hg. simpl in Hg.
    change (draw_weight 2 ?sd ?mx (r :: t))
      with (let '(val, g) := normal_distribution F_0_0 sd (r :: t) in
            if fgt (fabs val) mx then draw_weight 1 sd mx g else Ret (val, g)).
    cbn [normal_distribution script_generator].
    match goal with |- context [if ?c then _ else _] => destruct c end.
    + apply Hsecond, Hg.
    + do 2 eexists. split; [reflexivity|].
      unfold one_deviation_after_next. destruct t as [|r' t]; [constructor|].
      apply Forall_cons in Hg as [_ Hg]. exact Hg.
Qed.

(** C5. Let output_feature_map_count be an [unsigned int], let
    [data_custom[1]] be the offset table [rows] and [data[0]] a weight
    vector of fewer than 2^32 entries.

    When [randomize_weights] returns, [data[0]] starts with one block of
    weights per output feature map, in order, followed by what was there
    before. For the output with offsets lo and hi, k = hi - lo: when k = 0
    the block is empty; when k > 0 the block has window_volume * k weights,
    each of them a draw from the normal distribution with mean 0 and
    standard deviation sqrt(1 / (sqrt(k * output_feature_map_count) *
    window_volume)) (in binary32) that passed the rejection test, so that
    its magnitude is at most 100 times that standard deviation. When bias
    is enabled, every entry of [data[1]] is 0.

    And [randomize_weights] does return when the offset table has an entry
    beyond the last output, [data[0]] has room for all the blocks,
    [data[1]] exists if bias is enabled, and every rejection loop ends
    within [fuel] draws: from each generator state the run can be in
    ([accepting]), [fuel] draws for an output with k > 0 include one within
    100 standard deviations and lead to such a state again. *)
Theorem randomize_weights_initialises {G : Type} `{R : random_generator G}
    (fuel : nat) (this : sparse_convolution_layer)
    (data : list (list float)) (weights : list float)
    (data_custom : list (list Z)) (rows : list Z) :
  is_u32 (output_feature_map_count this) ->
  data_custom !! 1%nat = Some rows ->
  data !! O = Some weights ->
  Z.of_nat (length weights) < 2 ^ 32 ->
  (forall (g : G) (data' : list (list float)) (g' : G),
     randomize_weights fuel this data data_custom g = Ret (data', g') ->
     exists blocks,
       data' !! O = Some (concat blocks ++ drop (length (concat blocks)) weights)
       /\ length blocks = Z.to_nat (output_feature_map_count this)
       /\ (forall o block, blocks !! o = Some block ->
             weights_of_output (G := G) this rows o block)
       /\ (bias this = true ->
           exists bias_values,
             data !! 1%nat = Some bias_values
             /\ data' !! 1%nat = Some (replicate (length bias_values) F_0_0)))
  /\ (forall (accepting : G -> Prop) (g : G),
        (Z.to_nat (output_feature_map_count this) < length rows)%nat ->
        (sum_range (block_size this rows) 0 (Z.to_nat (output_feature_map_count this))
         <= length weights)%nat ->
        (bias this = true -> exists bias_values, data !! 1%nat = Some bias_values) ->
        accepting g ->
        (forall o g0,
           (o < Z.to_nat (output_feature_map_count this))%nat ->
           0 < connected_inputs rows o -> accepting g0 ->
           exists val g1,
             draw_weight fuel (weight_standard_deviation this (connected_inputs rows o))
               (fmul F_100_0 (weight_standard_deviation this (connected_inputs rows o))) g0
             = Ret (val, g1)
             /\ accepting g1) ->
        exists data' g', randomize_weights fuel this data data_custom g = Ret (data', g')).
Proof.
  intros Hoc Hrows Hw Hsmall. split.
  - intros g data' g' H.
    destruct (randomize_weights_blocks this fuel data_custom rows Hrows Hoc data weights Hw
                Hsmall g data' g' H) as (blocks & H1 & H2 & H3 & H4 & _).
    exists blocks. auto.
  - intros accepting g Hlen Hroom Hbias Hg Hdraw.
    exact (randomize_weights_returns this fuel data_custom rows Hrows Hoc data weights Hw
             Hsmall accepting g Hlen Hroom Hbias Hg Hdraw).
Qed.

Lemma randomize_weights_initialises_witness :
  exists data' g' blocks,
    randomize_weights 2 example_sparse_layer example_data example_data_custom weight_script
    = Ret (data', g')
    /\ data' !! O = Some (concat blocks ++ drop (length (concat blocks)) (replicate 54 F_1_0))
    /\ length blocks = 3%nat
    /\ data' !! 1%nat = Some (replicate 3 F_0_0).
Proof.
  destruct (randomize_weights_initialises (G := script) 2 example_sparse_layer example_data
              (replicate 54 F_1_0) example_data_custom [0; 2; 4; 6]
              ltac:(unfold is_u32; simpl; lia) eq_refl eq_refl ltac:(simpl; lia))
    as [Hblocks Hreturns].
  destruct (Hreturns one_deviation_after_next weight_script
              ltac:(simpl; lia) ltac:(vm_compute; lia)
              ltac:(intros _; eexists; reflexivity)
              ltac:(apply Forall_replicate; reflexivity)
              ltac:(intros o g0 Ho _ Hg0; exact (example_draws_accepted o g0 Ho Hg0)))
    as (data' & g' & E).
  destruct (Hblocks weight_script data' g' E) as (blocks & H1 & H2 & _ & H4).
  destruct (H4 eq_refl) as (b & Hb & Hb').
  injection Hb as <-.
  exists data', g', blocks. auto.
Defined.


(** * Further properties of the two layers *)

(** ** The class invariant *)

Lemma Forall_resize_or_copy (P : Z -> Prop) given n d :
  Forall P given -> P d -> Forall P (resize_or_copy given n d).
Proof.
  intros Hg Hd. destruct given; simpl; [|exact Hg].
  apply Forall_replicate. exact Hd.
Qed.

Lemma dimension_count_ok_dec given (ws : list Z) :
  dimension_count_ok given ws \/ ~ dimension_count_ok given ws.
Proof. destruct (dimension_count_test given ws) as [[_ H]|[_ H]]; auto. Qed.

(** A constructor body that returns went through [check] on the object
    with the defaults filled in. *)
Lemma constructor_body_Ret (this0 this : sparse_convolution_layer) (lp rp st : list Z) :
  constructor_body this0 lp rp st = Ret this ->
  dimension_count_ok lp (window_sizes this0)
  /\ dimension_count_ok rp (window_sizes this0)
  /\ dimension_count_ok st (window_sizes this0)
  /\ this = constructed (window_sizes this0) (input_feature_map_count this0)
              (output_feature_map_count this0) (feature_map_connection_sparsity_ratio this0)
              (feature_map_connection_count this0) lp rp st (bias this0)
  /\ check this = Ret tt.
Proof.
  intros H.
  destruct (constructor_body_mismatch this0 lp rp st) as (M1 & M2 & M3).
  destruct (dimension_count_ok_dec lp (window_sizes this0)) as [Hl|Hl];
    [|rewrite (M1 Hl) in H; discriminate H].
  destruct (dimension_count_ok_dec rp (window_sizes this0)) as [Hr|Hr];
    [|rewrite (M2 Hl Hr) in H; discriminate H].
  destruct (dimension_count_ok_dec st (window_sizes this0)) as [Hs|Hs];
    [|rewrite (M3 Hl Hr Hs) in H; discriminate H].
  rewrite (constructor_body_ok this0 lp rp st Hl Hr Hs) in H. cbv zeta in H.
  bind_inv H. injection H as <-. destruct a. auto.
Qed.

Lemma constructed_well_formed (ws : list Z) (ic oc : Z) (r : float) (ec : Z)
    (lp rp st : list Z) (b : bool) :
  dimension_count_ok lp ws -> dimension_count_ok rp ws -> dimension_count_ok st ws ->
  Forall is_u32 ws -> Forall is_u32 lp -> Forall is_u32 rp -> Forall is_u32 st ->
  check (constructed ws ic oc r ec lp rp st b) = Ret tt ->
  well_formed (constructed ws ic oc r ec lp rp st b).
Proof.
  intros Hl Hr Hs Uw Ul Ur Us Hc.
  assert (Hz : is_u32 0) by (unfold is_u32; lia).
  assert (Ho : is_u32 1) by (unfold is_u32; lia).
  split; simpl; try (apply length_resize_or_copy; assumption);
    try assumption; try (apply Forall_resize_or_copy; assumption).
  destruct (check_cases (constructed ws ic oc r ec lp rp st b)) as [[_ H]|(e & H & _)];
    simpl; try (apply length_resize_or_copy; assumption); [exact H|].
  rewrite Hc in H. discriminate H.
Qed.

Lemma connection_count_of_ratio_u32 ic oc r c :
  connection_count_of_ratio ic oc r = Ret c -> is_u32 c.
Proof.
  unfold connection_count_of_ratio, uint_of_float.
  destruct (fadd _ _) as [s|s| |s m e]; try discriminate.
  - intros [= <-]. unfold is_u32. lia.
  - destruct s.
    + destruct (_ =? 0); [|discriminate]. intros [= <-]. unfold is_u32. lia.
    + destruct (Z.ltb_spec (if 0 <=? e then Z.pos m * 2 ^ e else Z.pos m / 2 ^ (- e)) (2 ^ 32));
        [|discriminate].
      intros [= <-]. split; [|assumption].
      destruct (0 <=? e) eqn:E.
      * apply Z.leb_le in E. assert (0 < 2 ^ e) by (apply Z.pow_pos_nonneg; lia). nia.
      * apply Z.div_pos; [lia|]. apply Z.pow_pos_nonneg; lia.
Qed.

Lemma read_proto_Ret (param : SparseConvolutionalParam) (this : sparse_convolution_layer) :
  read_proto (Some param) = Ret this ->
  exists r c,
    this = {| window_sizes := map kernel_size (dimension_param param);
              left_zero_padding := map left_padding (dimension_param param);
              right_zero_padding := map right_padding (dimension_param param);
              strides := map stride (dimension_param param);
              input_feature_map_count := param_input_feature_map_count param;
              output_feature_map_count := param_output_feature_map_count param;
              feature_map_connection_sparsity_ratio := r;
              feature_map_connection_count := c;
              bias := param_bias param |}
    /\ check this = Ret tt
    /\ ((param_feature_map_connection_count param = Some c /\ r = F_minus_1_0)
        \/ (param_feature_map_connection_count param = None
            /\ param_feature_map_connection_sparsity_ratio param = Some r
            /\ connection_count_of_ratio (param_input_feature_map_count param)
                 (param_output_feature_map_count param) r = Ret c)).
Proof.
  unfold read_proto. intros H. bind_inv H. destruct a as [r c]. cbv zeta in H.
  bind_inv H. injection H as <-. destruct a.
  exists r, c. split; [reflexivity|]. split; [exact E0|].
  destruct (param_feature_map_connection_count param) as [c'|].
  - injection E as <- <-. left. auto.
  - destruct (param_feature_map_connection_sparsity_ratio param) as [r'|]; [|discriminate E].
    bind_inv E. injection E as <- <-. right. auto.
Qed.

(** X1. Every object a constructor or [read_proto] returns satisfies the
    class invariant, when the values handed in are [unsigned int]s: it has
    one left padding, one right padding and one stride per window
    dimension, and it passes every test of [check] (no zero window, the
    connection count between max(in, out) and in * out, every padding below
    its window size, no zero stride). *)
Theorem returned_objects_well_formed (this : sparse_convolution_layer) :
  (forall ws ic oc ec lp rp st b,
     Forall is_u32 ws -> Forall is_u32 lp -> Forall is_u32 rp -> Forall is_u32 st ->
     sparse_convolution_layer_count ws ic oc ec lp rp st b = Ret this ->
     well_formed this)
  /\ (forall ws ic oc ratio lp rp st b,
        Forall is_u32 ws -> Forall is_u32 lp -> Forall is_u32 rp -> Forall is_u32 st ->
        sparse_convolution_layer_ratio ws ic oc ratio lp rp st b = Ret this ->
        well_formed this)
  /\ (forall param,
        Forall (fun dm => is_u32 (kernel_size dm) /\ is_u32 (left_padding dm)
                          /\ is_u32 (right_padding dm) /\ is_u32 (stride dm))
          (dimension_param param) ->
        read_proto (Some param) = Ret this ->
        well_formed this).
Proof.
  split; [|split].
  - intros ws ic oc ec lp rp st b Uw Ul Ur Us H.
    unfold sparse_convolution_layer_count in H.
    apply constructor_body_Ret in H as (Hl & Hr & Hs & -> & Hc). simpl in *.
    apply constructed_well_formed; assumption.
  - intros ws ic oc ratio lp rp st b Uw Ul Ur Us H.
    unfold sparse_convolution_layer_ratio in H. bind_inv H.
    apply constructor_body_Ret in H as (Hl & Hr & Hs & -> & Hc). simpl in *.
    apply constructed_well_formed; assumption.
  - intros param Hp H.
    apply read_proto_Ret in H as (r & c & -> & Hc & _).
    split; simpl; rewrite ?length_map; try reflexivity.
    1-4: apply Forall_map; eapply Forall_impl; [exact Hp|]; simpl; intros dm; tauto.
    match goal with
    | |- accepted_by_check ?t =>
        destruct (check_cases t) as [[_ H]|(e & H & _)];
          [simpl; rewrite !length_map; reflexivity ..|exact H|]
    end.
    rewrite Hc in H. discriminate H.
Qed.

Lemma returned_objects_well_formed_witness :
  well_formed (constructed [3; 3] 4 6 F_minus_1_0 12 [] [] [] true).
Proof.
  apply (proj1 (returned_objects_well_formed
                  (constructed [3; 3] 4 6 F_minus_1_0 12 [] [] [] true))
           [3; 3] 4 6 12 [] [] [] true);
    try (repeat constructor; unfold is_u32; lia).
Defined.


(** ** Writing and reading back *)

Lemma for_push_exists {A} (f : nat -> outcome A) n from (acc : list A) :
  (forall k, (k < n)%nat -> exists x, f (from + k)%nat = Ret x) ->
  exists l, for_ n from (fun i res => x ← f i; Ret (res ++ [x])) acc = Ret (acc ++ l)
            /\ length l = n
            /\ forall k x, l !! k = Some x -> f (from + k)%nat = Ret x.
Proof.
  revert from acc. induction n as [|n IH]; intros from acc Hf.
  - exists []. simpl. rewrite app_nil_r. split; [reflexivity|]. split; [reflexivity|].
    intros k x H. discriminate H.
  - destruct (Hf O ltac:(lia)) as (x0 & Hx0). rewrite Nat.add_0_r in Hx0.
    destruct (IH (S from) (acc ++ [x0])) as (l & Hl & Hlen & Hk).
    { intros k Hlt. destruct (Hf (S k) ltac:(lia)) as (x & Hx).
      exists x. rewrite <- Hx. f_equal. lia. }
    exists (x0 :: l). simpl. rewrite Hx0, bind_Ret_l, bind_Ret_l, Hl, <- app_assoc.
    split; [reflexivity|]. split; [simpl; lia|].
    intros [|k] x H; simpl in H.
    + injection H as <-. rewrite Nat.add_0_r. exact Hx0.
    + rewrite <- (Hk k x H). f_equal. lia.
Qed.

(** What [check] accepts it returns from. *)
Lemma accepted_check_Ret (this : sparse_convolution_layer) :
  length (left_zero_padding this) = length (window_sizes this) ->
  length (right_zero_padding this) = length (window_sizes this) ->
  accepted_by_check this -> check this = Ret tt.
Proof.
  intros Hl Hr (A1 & A2 & A3 & A4 & A5 & A6 & A7).
  destruct (check_cases this Hl Hr) as [[H _]|(e & _ & N)]; [exact H|]. exfalso.
  destruct N as [(_ & i & N)|[(_ & N)|[(_ & N)|[(_ & N)|[N|[N|N]]]]]].
  - apply (A1 i 0 N). reflexivity.
  - lia.
  - lia.
  - lia.
  - destruct N as (i & p & w & _ & Hp & Hw & N). specialize (A5 i p w Hp Hw). lia.
  - destruct N as (i & p & w & _ & Hp & Hw & N). specialize (A6 i p w Hp Hw). lia.
  - destruct N as (i & _ & N). apply (A7 i 0 N). reflexivity.
Qed.

Lemma write_dimension_param_Ret (this : sparse_convolution_layer) (i : nat) dm :
  write_dimension_param this i = Ret dm ->
  exists w l r s,
    window_sizes this !! i = Some w /\ left_zero_padding this !! i = Some l
    /\ right_zero_padding this !! i = Some r /\ strides this !! i = Some s
    /\ dm = {| msg_kernel_size := Some w;
               msg_left_padding := if 0 <? l then Some l else None;
               msg_right_padding := if 0 <? r then Some r else None;
               msg_stride := if 1 <? s then Some s else None |}.
Proof.
  unfold write_dimension_param. intros H. repeat bind_inv H. injection H as <-.
  apply at_Ret in E, E0, E1, E2. eauto 10.
Qed.

Lemma write_dimension_param_total (this : sparse_convolution_layer) (i : nat) :
  well_formed this -> (i < length (window_sizes this))%nat ->
  exists dm, write_dimension_param this i = Ret dm.
Proof.
  intros W Hi. unfold write_dimension_param.
  destruct (lookup_lt_is_Some_2 (window_sizes this) i Hi) as (w & Hw).
  destruct (lookup_lt_is_Some_2 (left_zero_padding this) i
              ltac:(rewrite (wf_left _ W); exact Hi)) as (l & Hl).
  destruct (lookup_lt_is_Some_2 (right_zero_padding this) i
              ltac:(rewrite (wf_right _ W); exact Hi)) as (r & Hr).
  destruct (lookup_lt_is_Some_2 (strides this) i
              ltac:(rewrite (wf_strides _ W); exact Hi)) as (s & Hs).
  apply at_Ret in Hw, Hl, Hr, Hs. rewrite Hw, Hl, Hr, Hs.
  rewrite !bind_Ret_l. eauto.
Qed.

(** The lists read back from the dimension messages are the lists of the
    object. *)
Lemma dimension_messages_read_back (d : schema_defaults) (this : sparse_convolution_layer)
    (dims : list dimension_param_message) :
  omitted_defaults d -> well_formed this ->
  length dims = length (window_sizes this) ->
  (forall k dm, dims !! k = Some dm -> write_dimension_param this k = Ret dm) ->
  let read := fun get =>
    map get (map (fun dm =>
      {| kernel_size := default (default_kernel_size d) (msg_kernel_size dm);
         left_padding := default (default_left_padding d) (msg_left_padding dm);
         right_padding := default (default_right_padding d) (msg_right_padding dm);
         stride := default (default_stride d) (msg_stride dm) |}) dims) in
  read kernel_size = window_sizes this
  /\ read left_padding = left_zero_padding this
  /\ read right_padding = right_zero_padding this
  /\ read stride = strides this.
Proof.
  intros (_ & Dl & Dr & Ds) W Hlen Hdims read.
  assert (Hread : forall (get : SparseConvolutionalDimensionParam -> Z) (field : list Z),
            length field = length (window_sizes this) ->
            (forall k dm x, dims !! k = Some dm -> field !! k = Some x ->
               get {| kernel_size := default (default_kernel_size d) (msg_kernel_size dm);
                      left_padding := default (default_left_padding d) (msg_left_padding dm);
                      right_padding := default (default_right_padding d)
                                         (msg_right_padding dm);
                      stride := default (default_stride d) (msg_stride dm) |} = x) ->
            read get = field).
  { intros get field Hf Hget. unfold read. rewrite map_map.
    apply list_eq. intros k. rewrite list_lookup_fmap.
    destruct (dims !! k) as [dm|] eqn:Ek; simpl.
    - destruct (lookup_lt_is_Some_2 field k) as (x & Hx).
      { rewrite Hf, <- Hlen. apply lookup_lt_is_Some_1. eauto. }
      rewrite Hx. f_equal. eapply Hget; eassumption.
    - symmetry. apply lookup_ge_None. apply lookup_ge_None in Ek. lia. }
  pose proof (wf_check _ W) as (_ & _ & _ & _ & _ & _ & Hstride).
  repeat split; apply Hread;
    rewrite ?(wf_left _ W), ?(wf_right _ W), ?(wf_strides _ W); try reflexivity;
    intros k dm x Hk Hx; simpl;
    apply Hdims, write_dimension_param_Ret in Hk
      as (w & l & r & s & Hw & Hl & Hr & Hs & ->); simpl.
  - congruence.
  - assert (x = l) as -> by congruence.
    pose proof (proj1 (Forall_lookup _ _) (wf_left_u32 _ W) k l Hl) as U. unfold is_u32 in U.
    destruct (Z.ltb_spec 0 l); simpl; lia.
  - assert (x = r) as -> by congruence.
    pose proof (proj1 (Forall_lookup _ _) (wf_right_u32 _ W) k r Hr) as U. unfold is_u32 in U.
    destruct (Z.ltb_spec 0 r); simpl; lia.
  - assert (x = s) as -> by congruence.
    pose proof (proj1 (Forall_lookup _ _) (wf_strides_u32 _ W) k s Hs) as U.
    unfold is_u32 in U. specialize (Hstride k s Hs).
    destruct (Z.ltb_spec 1 s); simpl; lia.
Qed.

Lemma F_minus_1_0_negative : fge F_minus_1_0 F_0_0 = false.
Proof. reflexivity. Qed.

(** X2. Let the schema defaults be bias = true, padding = 0 and stride = 1.
    For every object that satisfies the class invariant and whose
    sparsity fields agree (a ratio >= 0 with the count computed from it, or
    ratio -1 with any count), [write_proto] returns a message and
    [read_proto] on that message returns the very same object. Objects
    returned by the count constructor, and by the ratio constructor for a
    ratio >= 0, have such sparsity fields. *)
Theorem write_then_read_proto (d : schema_defaults) (this : sparse_convolution_layer) :
  omitted_defaults d ->
  (well_formed this -> sparsity_recorded this ->
   exists m, write_proto this = Ret m /\ read_proto (Some (accessors d m)) = Ret this)
  /\ (forall ws ic oc ec lp rp st b,
        sparse_convolution_layer_count ws ic oc ec lp rp st b = Ret this ->
        sparsity_recorded this)
  /\ (forall ws ic oc ratio lp rp st b,
        fge ratio F_0_0 = true ->
        sparse_convolution_layer_ratio ws ic oc ratio lp rp st b = Ret this ->
        sparsity_recorded this).
Proof.
  intros D. split; [|split].
  - intros W S.
    destruct (for_push_exists (write_dimension_param this) (length (window_sizes this)) 0 [])
      as (dims & Hfor & Hlen & Hdims).
    { intros k Hk. apply write_dimension_param_total; assumption. }
    unfold write_proto. rewrite Hfor, bind_Ret_l. simpl app.
    eexists. split; [reflexivity|].
    destruct (dimension_messages_read_back d this dims D W Hlen Hdims)
      as (Rw & Rl & Rr & Rs).
    pose proof (accepted_check_Ret this (wf_left _ W) (wf_right _ W) (wf_check _ W)) as Hc.
    assert (Hb : default (default_bias d) (if negb (bias this) then Some false else None)
                 = bias this).
    { destruct D as (-> & _). destruct (bias this); reflexivity. }
    unfold read_proto, accessors. cbn [param_feature_map_connection_count
      param_feature_map_connection_sparsity_ratio param_input_feature_map_count
      param_output_feature_map_count param_bias dimension_param
      msg_output_feature_map_count msg_input_feature_map_count msg_bias
      msg_feature_map_connection_sparsity_ratio msg_feature_map_connection_count
      msg_dimension_param default].
    rewrite Rw, Rl, Rr, Rs, Hb.
    destruct this as [ws lp rp st ic oc r ec b]. simpl in *.
    destruct S as [(Hge & Hcount)|Hminus]; simpl in *.
    + rewrite Hge, Hcount, !bind_Ret_l. cbv beta iota zeta.
      rewrite Hc. reflexivity.
    + subst r. rewrite F_minus_1_0_negative, bind_Ret_l. cbv beta iota zeta.
      rewrite Hc. reflexivity.
  - intros ws ic oc ec lp rp st b H. unfold sparse_convolution_layer_count in H.
    apply constructor_body_Ret in H as (_ & _ & _ & -> & _). right. reflexivity.
  - intros ws ic oc ratio lp rp st b Hge H. unfold sparse_convolution_layer_ratio in H.
    bind_inv H. apply constructor_body_Ret in H as (_ & _ & _ & -> & _).
    left. simpl. auto.
Qed.

Lemma example_layer_well_formed : well_formed example_layer.
Proof.
  apply (constructed_well_formed [3; 3] 4 6 F_minus_1_0 12 [] [] [] true);
    try (left; reflexivity); try reflexivity;
    repeat constructor; unfold is_u32; lia.
Qed.

Lemma write_then_read_proto_witness :
  exists m, write_proto example_layer = Ret m
            /\ read_proto (Some (accessors example_schema m)) = Ret example_layer.
Proof.
  apply (proj1 (write_then_read_proto example_schema example_layer
                  ltac:(repeat split))).
  - exact example_layer_well_formed.
  - right. reflexivity.
Defined.


(** ** What [read_proto] reports *)

(** The object [read_proto] assembles from a message before it runs
    [check]. *)
Lemma read_proto_assembles (param : SparseConvolutionalParam) (r : float) (c : Z) :
  (param_feature_map_connection_count param = Some c /\ r = F_minus_1_0)
  \/ (param_feature_map_connection_count param = None
      /\ param_feature_map_connection_sparsity_ratio param = Some r
      /\ connection_count_of_ratio (param_input_feature_map_count param)
           (param_output_feature_map_count param) r = Ret c) ->
  let this := {| window_sizes := map kernel_size (dimension_param param);
                 left_zero_padding := map left_padding (dimension_param param);
                 right_zero_padding := map right_padding (dimension_param param);
                 strides := map stride (dimension_param param);
                 input_feature_map_count := param_input_feature_map_count param;
                 output_feature_map_count := param_output_feature_map_count param;
                 feature_map_connection_sparsity_ratio := r;
                 feature_map_connection_count := c;
                 bias := param_bias param |} in
  read_proto (Some param) = (check this;; Ret this).
Proof.
  intros [(Hc & ->)|(Hc & Hr & Hcount)] this; unfold read_proto.
  - rewrite Hc, bind_Ret_l. reflexivity.
  - rewrite Hc, Hr, Hcount, !bind_Ret_l. reflexivity.
Qed.

(** X3. [read_proto] throws nothing but [neural_network_exception]: on a
    layer message without the sparse convolution parameter; on a parameter
    with neither a connection count nor a sparsity ratio (reported before
    any validation); and otherwise only with a message of [check] that
    names a failing field of the object described by the parameter. A
    parameter that stores both a count and a ratio is read as a count: the
    ratio is dropped and recorded as -1. *)
Theorem read_proto_reports (param : SparseConvolutionalParam) :
  (exists m, read_proto None = Throw (neural_network_exception m))
  /\ (param_feature_map_connection_count param = None ->
      param_feature_map_connection_sparsity_ratio param = None ->
      read_proto (Some param)
      = Throw (neural_network_exception
          (boost_format
             "No sparsity pattern defined in sparse_convolution_param specified for layer %1% of type %2%"
             [])))
  /\ (forall e, read_proto (Some param) = Throw e ->
        exists m, e = neural_network_exception m
          /\ ((param_feature_map_connection_count param = None
               /\ param_feature_map_connection_sparsity_ratio param = None)
              \/ exists r c, names_failing_field m
                   {| window_sizes := map kernel_size (dimension_param param);
                      left_zero_padding := map left_padding (dimension_param param);
                      right_zero_padding := map right_padding (dimension_param param);
                      strides := map stride (dimension_param param);
                      input_feature_map_count := param_input_feature_map_count param;
                      output_feature_map_count := param_output_feature_map_count param;
                      feature_map_connection_sparsity_ratio := r;
                      feature_map_connection_count := c;
                      bias := param_bias param |}))
  /\ (forall c r this,
        param_feature_map_connection_count param = Some c ->
        param_feature_map_connection_sparsity_ratio param = Some r ->
        read_proto (Some param) = Ret this ->
        feature_map_connection_count this = c
        /\ feature_map_connection_sparsity_ratio this = F_minus_1_0).
Proof.
  split; [|split; [|split]].
  - eexists. reflexivity.
  - intros Hc Hr. unfold read_proto. rewrite Hc, Hr. reflexivity.
  - intros e H.
    destruct (param_feature_map_connection_count param) as [c|] eqn:Hc.
    + rewrite (read_proto_assembles param F_minus_1_0 c) in H by (left; auto).
      cbv zeta in H.
      match type of H with
      | check ?t ≫= _ = _ =>
          destruct (check_cases t) as [[Hk _]|(m & Hk & N)];
            [simpl; rewrite !length_map; reflexivity ..| |]; rewrite Hk in H
      end.
      * discriminate H.
      * injection H as <-. exists m. split; [reflexivity|]. right. eauto.
    + destruct (param_feature_map_connection_sparsity_ratio param) as [r|] eqn:Hr.
      * destruct (connection_count_of_ratio (param_input_feature_map_count param)
                    (param_output_feature_map_count param) r) as [c| | |] eqn:Hcount.
        -- rewrite (read_proto_assembles param r c) in H by (right; auto).
           cbv zeta in H.
           match type of H with
           | check ?t ≫= _ = _ =>
               destruct (check_cases t) as [[Hk _]|(m & Hk & N)];
                 [simpl; rewrite !length_map; reflexivity ..| |]; rewrite Hk in H
           end.
           ++ discriminate H.
           ++ injection H as <-. exists m. split; [reflexivity|]. right. eauto.
        -- exfalso. unfold connection_count_of_ratio, uint_of_float in Hcount.
           repeat match type of Hcount with
                  | context [match ?x with _ => _ end] => destruct x
                  end; discriminate Hcount.
        -- unfold read_proto in H. rewrite Hc, Hr, Hcount in H. discriminate H.
        -- unfold read_proto in H. rewrite Hc, Hr, Hcount in H. discriminate H.
      * unfold read_proto in H. rewrite Hc, Hr in H. injection H as <-.
        eexists. split; [reflexivity|]. left. auto.
  - intros c r this Hc Hr H.
    rewrite (read_proto_assembles param F_minus_1_0 c) in H by (left; auto).
    cbv zeta in H. bind_inv H. injection H as <-. split; reflexivity.
Qed.

Lemma read_proto_reports_witness :
  exists this,
    read_proto (Some example_param_both) = Ret this
    /\ feature_map_connection_count this = 24
    /\ feature_map_connection_sparsity_ratio this = F_minus_1_0.
Proof.
  eexists. split; [reflexivity|].
  apply (proj2 (proj2 (proj2 (read_proto_reports example_param_both))) 24 F_0_5);
    reflexivity.
Defined.


(** ** Forward shape inference *)

Lemma for_first_failure {S} n from (body : nat -> S -> outcome S) s i e :
  (from <= i < from + n)%nat ->
  (forall j s, (from <= j < i)%nat -> exists s', body j s = Ret s') ->
  (forall s, body i s = Throw e) ->
  for_ n from body s = Throw e.
Proof.
  revert from s. induction n as [|n IH]; intros from s Hi Hok Hbad; [lia|].
  simpl. destruct (decide (from = i)) as [->|Hne].
  - rewrite Hbad. reflexivity.
  - destruct (Hok from s ltac:(lia)) as (s' & ->). rewrite bind_Ret_l.
    apply IH; [lia| |exact Hbad]. intros j s0 Hj. apply Hok. lia.
Qed.

Section Forward.
Variable this : sparse_convolution_layer.
Variable input0 : layer_configuration_specific.
Hypothesis W : well_formed this.
Hypothesis Hdims : get_dimension_count input0 = length (window_sizes this).

Lemma dimension_lookups (i : nat) :
  (i < length (window_sizes this))%nat ->
  exists d l r w s,
    dimension_sizes input0 !! i = Some d /\ left_zero_padding this !! i = Some l
    /\ right_zero_padding this !! i = Some r /\ window_sizes this !! i = Some w
    /\ strides this !! i = Some s /\ s <> 0 /\ 0 < w.
Proof.
  intros Hi. unfold get_dimension_count in Hdims.
  destruct (lookup_lt_is_Some_2 (dimension_sizes input0) i ltac:(lia)) as (d & Hd).
  destruct (lookup_lt_is_Some_2 (window_sizes this) i Hi) as (w & Hw).
  destruct (lookup_lt_is_Some_2 (left_zero_padding this) i
              ltac:(rewrite (wf_left _ W); exact Hi)) as (l & Hl).
  destruct (lookup_lt_is_Some_2 (right_zero_padding this) i
              ltac:(rewrite (wf_right _ W); exact Hi)) as (r & Hr).
  destruct (lookup_lt_is_Some_2 (strides this) i
              ltac:(rewrite (wf_strides _ W); exact Hi)) as (s & Hs).
  exists d, l, r, w, s. repeat split; try assumption.
  - destruct (wf_check _ W) as (_ & _ & _ & _ & _ & _ & H). exact (H i s Hs).
  - destruct (wf_check _ W) as (H & _).
    pose proof (proj1 (Forall_lookup _ _) (wf_window_u32 _ W) i w Hw) as U.
    specialize (H i w Hw). unfold is_u32 in U. lia.
Qed.

Lemma output_dimension_size_cases (i : nat) :
  (i < length (window_sizes this))%nat ->
  (exists d l r w s,
     dimension_sizes input0 !! i = Some d /\ left_zero_padding this !! i = Some l
     /\ right_zero_padding this !! i = Some r /\ window_sizes this !! i = Some w
     /\ strides this !! i = Some s /\ s <> 0 /\ 0 < w
     /\ w <= u32 (u32 (d + l) + r)
     /\ output_dimension_size this input0 i
        = Ret (u32 (u32 (u32 (u32 (d + l) + r) - w) / s + 1)))
  \/ (exists d l r w,
        dimension_sizes input0 !! i = Some d /\ left_zero_padding this !! i = Some l
        /\ right_zero_padding this !! i = Some r /\ window_sizes this !! i = Some w
        /\ u32 (u32 (d + l) + r) < w
        /\ output_dimension_size this input0 i
           = Throw (neural_network_exception (boost_format
               "Too small total dimension size (with padding) (%1%) of dimension (%2%) is smaller than layer window size (%3%)"
               [u32 (u32 (d + l) + r); Z.of_nat i; w]))).
Proof.
  intros Hi.
  destruct (dimension_lookups i Hi) as (d & l & r & w & s & Hd & Hl & Hr & Hw & Hs & Hs0 & Hw0).
  unfold output_dimension_size.
  rewrite (proj2 (at_Ret _ _ _) Hd), (proj2 (at_Ret _ _ _) Hl), (proj2 (at_Ret _ _ _) Hr),
    (proj2 (at_Ret _ _ _) Hw), !bind_Ret_l.
  destruct (Z.ltb_spec (u32 (u32 (d + l) + r)) w) as [Hlt|Hge].
  - right. exists d, l, r, w. simpl. auto 10.
  - left. exists d, l, r, w, s. simpl.
    rewrite (proj2 (at_Ret _ _ _) Hs), bind_Ret_l. unfold udiv.
    destruct (Z.eqb_spec s 0) as [E|_]; [contradiction|].
    rewrite bind_Ret_l. auto 12.
Qed.
End Forward.

(** X4. Forward shape inference of a layer that satisfies the class
    invariant, on a non-empty input list, either returns or throws
    [neural_network_exception], by the first test that fails, in this
    order: the feature map count of the first input differs from
    input_feature_map_count; its dimension count differs from the number of
    window sizes; for the first dimension whose padded size is below the
    window size, the message carries that padded size, the dimension and
    the window size. When every test passes it returns a shape with
    output_feature_map_count feature maps and one size per window
    dimension. On an empty input list the behaviour is undefined. *)
Theorem forward_inference_outcome (this : sparse_convolution_layer)
    (input0 : layer_configuration_specific) (rest : list layer_configuration_specific) :
  well_formed this ->
  get_output_layer_configuration_specific this [] = Undefined
  /\ (feature_map_count input0 <> input_feature_map_count this ->
      get_output_layer_configuration_specific this (input0 :: rest)
      = Throw (neural_network_exception (boost_format
          "Feature map count in layer (%1%) and input configuration (%2%) don't match"
          [input_feature_map_count this; feature_map_count input0])))
  /\ (feature_map_count input0 = input_feature_map_count this ->
      get_dimension_count input0 <> length (window_sizes this) ->
      get_output_layer_configuration_specific this (input0 :: rest)
      = Throw (neural_network_exception (boost_format
          "Dimension count in layer (%1%) and input configuration (%2%) don't match"
          [Z.of_nat (length (window_sizes this)); Z.of_nat (get_dimension_count input0)])))
  /\ (feature_map_count input0 = input_feature_map_count this ->
      get_dimension_count input0 = length (window_sizes this) ->
      forall i d l r w,
        dimension_sizes input0 !! i = Some d -> left_zero_padding this !! i = Some l ->
        right_zero_padding this !! i = Some r -> window_sizes this !! i = Some w ->
        u32 (u32 (d + l) + r) < w ->
        (forall j, (j < i)%nat -> ~ too_small this input0 j) ->
        get_output_layer_configuration_specific this (input0 :: rest)
        = Throw (neural_network_exception (boost_format
            "Too small total dimension size (with padding) (%1%) of dimension (%2%) is smaller than layer window size (%3%)"
            [u32 (u32 (d + l) + r); Z.of_nat i; w])))
  /\ (feature_map_count input0 = input_feature_map_count this ->
      get_dimension_count input0 = length (window_sizes this) ->
      (forall j, ~ too_small this input0 j) ->
      exists out,
        get_output_layer_configuration_specific this (input0 :: rest) = Ret out
        /\ feature_map_count out = output_feature_map_count this
        /\ length (dimension_sizes out) = length (window_sizes this)).
Proof.
  intros W. split; [reflexivity|].
  unfold get_output_layer_configuration_specific.
  change (at_ (input0 :: rest) 0) with (Ret input0). rewrite !bind_Ret_l.
  split; [|split; [|split]].
  - intros Hne. apply Z.eqb_neq in Hne. rewrite Hne. reflexivity.
  - intros -> Hne. rewrite Z.eqb_refl. simpl.
    apply Nat.eqb_neq in Hne. rewrite Hne. reflexivity.
  - intros -> Hd i d l r w Ed El Er Ew Hsmall Hfirst.
    rewrite Z.eqb_refl, Hd, Nat.eqb_refl. simpl.
    assert (Hi : (i < length (window_sizes this))%nat)
      by (apply lookup_lt_is_Some_1; eauto).
    rewrite (for_first_failure _ _ _ _ i
               (neural_network_exception (boost_format
                  "Too small total dimension size (with padding) (%1%) of dimension (%2%) is smaller than layer window size (%3%)"
                  [u32 (u32 (d + l) + r); Z.of_nat i; w]))); [reflexivity|lia| |].
    + intros j s Hj.
      destruct (output_dimension_size_cases this input0 W Hd j ltac:(lia))
        as [(d' & l' & r' & w' & s' & _ & _ & _ & _ & _ & _ & _ & _ & ->)
           |(d' & l' & r' & w' & H1 & H2 & H3 & H4 & H5 & _)].
      * rewrite bind_Ret_l. eauto.
      * exfalso. apply (Hfirst j ltac:(lia)). exists d', l', r', w'. auto.
    + intros s.
      destruct (output_dimension_size_cases this input0 W Hd i Hi)
        as [(d' & l' & r' & w' & s' & H1 & H2 & H3 & H4 & _ & _ & _ & H5 & _)
           |(d' & l' & r' & w' & H1 & H2 & H3 & H4 & _ & ->)].
      * exfalso. rewrite Ed in H1. rewrite El in H2. rewrite Er in H3. rewrite Ew in H4.
        injection H1 as <-. injection H2 as <-. injection H3 as <-. injection H4 as <-. lia.
      * rewrite Ed in H1. rewrite El in H2. rewrite Er in H3. rewrite Ew in H4.
        injection H1 as <-. injection H2 as <-. injection H3 as <-. injection H4 as <-.
        reflexivity.
  - intros -> Hd Hnone. rewrite Z.eqb_refl, Hd, Nat.eqb_refl. simpl.
    destruct (for_push_exists (output_dimension_size this input0)
                (length (window_sizes this)) 0 []) as (dims & -> & Hlen & _).
    { intros k Hk. change (0 + k)%nat with k.
      destruct (output_dimension_size_cases this input0 W Hd k Hk)
        as [(d' & l' & r' & w' & s' & _ & _ & _ & _ & _ & _ & _ & _ & ->)
           |(d' & l' & r' & w' & H1 & H2 & H3 & H4 & H5 & _)]; [eauto|].
      exfalso. apply (Hnone k). exists d', l', r', w'. auto. }
    rewrite bind_Ret_l. eexists. split; [reflexivity|]. simpl. auto.
Qed.

Lemma forward_inference_outcome_witness :
  get_output_layer_configuration_specific example_layer
    [{| feature_map_count := 4; dimension_sizes := [10; 2] |}]
  = Throw (neural_network_exception (boost_format
      "Too small total dimension size (with padding) (%1%) of dimension (%2%) is smaller than layer window size (%3%)"
      [2; 1; 3])).
Proof.
  apply (proj1 (proj2 (proj2 (proj2 (forward_inference_outcome example_layer
           {| feature_map_count := 4; dimension_sizes := [10; 2] |} []
           example_layer_well_formed)))) eq_refl eq_refl 1%nat 2 0 0 3);
    try reflexivity.
  intros j Hj (d & l & r & w & Hd & Hl & Hr & Hw & Hlt).
  assert (j = O) as -> by lia. simpl in *.
  injection Hd as <-. injection Hl as <-. injection Hr as <-. injection Hw as <-.
  vm_compute in Hlt. discriminate Hlt.
Defined.


(** X5. When forward shape inference of a layer that satisfies the class
    invariant returns, every output size [x] counts exactly the window
    positions that fit: for an input dimension [d] with paddings [l], [r],
    window [w] and stride [s], where d + l + r is an [unsigned int], the
    size is at least 1, the last of the [x] windows ends within the padded
    input, and one more stride would push a window past its end. *)
Theorem output_windows_fit (this : sparse_convolution_layer)
    (input0 : layer_configuration_specific) (rest : list layer_configuration_specific)
    (out : layer_configuration_specific) :
  well_formed this ->
  get_output_layer_configuration_specific this (input0 :: rest) = Ret out ->
  forall i d l r w s x,
    dimension_sizes input0 !! i = Some d -> left_zero_padding this !! i = Some l ->
    right_zero_padding this !! i = Some r -> window_sizes this !! i = Some w ->
    strides this !! i = Some s -> dimension_sizes out !! i = Some x ->
    0 <= d -> d + l + r < 2 ^ 32 ->
    1 <= x /\ (x - 1) * s + w <= d + l + r < x * s + w.
Proof.
  intros W H i d l r w s x Hd Hl Hr Hw Hs Hx Hd0 Hfit.
  unfold get_output_layer_configuration_specific in H.
  change (at_ (input0 :: rest) 0) with (Ret input0) in H. rewrite bind_Ret_l in H.
  bind_inv H. bind_inv H. bind_inv H. injection H as <-. simpl in Hx.
  apply for_push in E1 as (dims & -> & Hlen & Hdims). simpl in Hx.
  specialize (Hdims i x Hx). change (0 + i)%nat with i in Hdims.
  unfold output_dimension_size in Hdims.
  rewrite (proj2 (at_Ret _ _ _) Hd), (proj2 (at_Ret _ _ _) Hl), (proj2 (at_Ret _ _ _) Hr),
    (proj2 (at_Ret _ _ _) Hw), !bind_Ret_l in Hdims.
  pose proof (proj1 (Forall_lookup _ _) (wf_left_u32 _ W) i l Hl) as Ul.
  pose proof (proj1 (Forall_lookup _ _) (wf_right_u32 _ W) i r Hr) as Ur.
  pose proof (proj1 (Forall_lookup _ _) (wf_window_u32 _ W) i w Hw) as Uw.
  pose proof (proj1 (Forall_lookup _ _) (wf_strides_u32 _ W) i s Hs) as Us.
  unfold is_u32 in *.
  destruct (wf_check _ W) as (Hw0 & _ & _ & _ & _ & _ & Hs0).
  specialize (Hw0 i w Hw). specialize (Hs0 i s Hs).
  rewrite (u32_small (d + l)), (u32_small (d + l + r)) in Hdims by lia.
  bind_inv Hdims. apply throw_if_Ret in E1 as [E1|E1]; [|discriminate E1].
  apply Z.ltb_ge in E1.
  rewrite (proj2 (at_Ret _ _ _) Hs), bind_Ret_l in Hdims.
  unfold udiv in Hdims. destruct (Z.eqb_spec s 0) as [|_]; [contradiction|].
  rewrite bind_Ret_l in Hdims. injection Hdims as <-.
  rewrite (u32_small (d + l + r - w)) by lia.
  assert (Hq : 0 <= (d + l + r - w) / s <= d + l + r - w).
  { split; [apply Z.div_pos; lia|]. apply Z.div_le_upper_bound; nia. }
  rewrite (u32_small ((d + l + r - w) / s + 1)) by lia.
  pose proof (Z.mul_div_le (d + l + r - w) s ltac:(lia)).
  pose proof (Z.mul_succ_div_gt (d + l + r - w) s ltac:(lia)).
  nia.
Qed.

Lemma example_padded_layer_well_formed : well_formed example_padded_layer.
Proof.
  apply (constructed_well_formed [3; 3] 4 6 F_minus_1_0 12 [1; 1] [1; 1] [2; 2] false);
    try (right; reflexivity); try reflexivity;
    repeat constructor; unfold is_u32; lia.
Qed.

Lemma output_windows_fit_witness :
  exists out,
    get_output_layer_configuration_specific example_padded_layer [example_input] = Ret out
    /\ dimension_sizes out = [5; 5]
    /\ (5 - 1) * 2 + 3 <= 10 + 1 + 1 < 5 * 2 + 3.
Proof.
  eexists. split; [reflexivity|]. split; [reflexivity|].
  apply (output_windows_fit example_padded_layer example_input []
           {| feature_map_count := 6; dimension_sizes := [5; 5] |}
           example_padded_layer_well_formed eq_refl 0%nat 10 1 1 3 2 5);
    try reflexivity; lia.
Defined.


(** ** Backward shape inference *)

Lemma input_dimension_size_Ret (this : sparse_convolution_layer)
    (out : layer_configuration_specific) (i : nat) (o s w l r : Z) :
  dimension_sizes out !! i = Some o -> strides this !! i = Some s ->
  window_sizes this !! i = Some w -> left_zero_padding this !! i = Some l ->
  right_zero_padding this !! i = Some r ->
  input_dimension_size this out i
  = Ret (u32 (u32 (u32 (u32 (u32 (o - 1) * s) + w) - l) - r)).
Proof.
  intros Ho Hs Hw Hl Hr. unfold input_dimension_size.
  rewrite (proj2 (at_Ret _ _ _) Ho), (proj2 (at_Ret _ _ _) Hs), (proj2 (at_Ret _ _ _) Hw),
    (proj2 (at_Ret _ _ _) Hl), (proj2 (at_Ret _ _ _) Hr), !bind_Ret_l.
  reflexivity.
Qed.

(** Taking the padding off and adding it again, in [unsigned int]. *)
Lemma padding_added_back (a l r : Z) :
  u32 (u32 (u32 (u32 (u32 a - l) - r) + l) + r) = u32 a.
Proof.
  rewrite (u32_add_l (u32 (u32 (u32 a - l) - r) + l) r).
  replace (u32 (u32 (u32 a - l) - r) + l + r)
    with (u32 (u32 (u32 a - l) - r) + (l + r)) by lia.
  rewrite (u32_add_l (u32 (u32 a - l) - r) (l + r)).
  replace (u32 (u32 a - l) - r + (l + r)) with (u32 (u32 a - l) + l) by lia.
  rewrite (u32_add_l (u32 a - l) l).
  replace (u32 a - l + l) with (u32 a) by lia.
  apply u32_idem.
Qed.

Lemma backward_inference_Ret (this : sparse_convolution_layer)
    (out : layer_configuration_specific) (input_layer_id : nat) :
  well_formed this ->
  feature_map_count out = output_feature_map_count this ->
  get_dimension_count out = length (window_sizes this) ->
  exists dims,
    get_input_layer_configuration_specific this out input_layer_id
    = Ret (true, {| feature_map_count := output_feature_map_count this;
                    dimension_sizes := dims |})
    /\ length dims = length (window_sizes this)
    /\ forall k x, dims !! k = Some x -> input_dimension_size this out k = Ret x.
Proof.
  intros W Hfm Hd. unfold get_input_layer_configuration_specific.
  rewrite Hfm, Z.eqb_refl, Hd, Nat.eqb_refl. simpl.
  destruct (for_push_exists (input_dimension_size this out)
              (length (window_sizes this)) 0 []) as (dims & -> & Hlen & Hdims).
  { intros k Hk. change (0 + k)%nat with k.
    destruct (dimension_lookups this out W Hd k Hk)
      as (o & l & r & w & s & Ho & Hl & Hr & Hw & Hs & _).
    rewrite (input_dimension_size_Ret this out k o s w l r); eauto. }
  rewrite bind_Ret_l. exists dims. simpl. auto.
Qed.

(** X6. Backward shape inference of a layer that satisfies the class
    invariant throws [neural_network_exception] when the feature map count
    of the output shape differs from output_feature_map_count, and
    otherwise when its dimension count differs from the number of window
    sizes; in every other case it returns [true] with one size per window
    dimension, whatever the input layer id. It never returns [false]. *)
Theorem backward_inference_outcome (this : sparse_convolution_layer)
    (out : layer_configuration_specific) (input_layer_id : nat) :
  well_formed this ->
  (feature_map_count out <> output_feature_map_count this ->
   get_input_layer_configuration_specific this out input_layer_id
   = Throw (neural_network_exception (boost_format
       "Feature map count in layer (%1%) and output configuration (%2%) don't match"
       [output_feature_map_count this; feature_map_count out])))
  /\ (feature_map_count out = output_feature_map_count this ->
      get_dimension_count out <> length (window_sizes this) ->
      get_input_layer_configuration_specific this out input_layer_id
      = Throw (neural_network_exception (boost_format
          "Dimension count in layer (%1%) and input configuration (%2%) don't match"
          [Z.of_nat (length (window_sizes this)); Z.of_nat (get_dimension_count out)])))
  /\ (feature_map_count out = output_feature_map_count this ->
      get_dimension_count out = length (window_sizes this) ->
      exists back,
        (forall id, get_input_layer_configuration_specific this out id = Ret (true, back))
        /\ length (dimension_sizes back) = length (window_sizes this))
  /\ (forall back,
        get_input_layer_configuration_specific this out input_layer_id <> Ret (false, back)).
Proof.
  intros W. split; [|split; [|split]].
  - intros Hne. unfold get_input_layer_configuration_specific.
    apply Z.eqb_neq in Hne. rewrite Hne. reflexivity.
  - intros Hfm Hne. unfold get_input_layer_configuration_specific.
    rewrite Hfm, Z.eqb_refl. apply Nat.eqb_neq in Hne. rewrite Hne. reflexivity.
  - intros Hfm Hd.
    destruct (backward_inference_Ret this out 0 W Hfm Hd) as (dims & H & Hlen & _).
    eexists. split; [intros id; exact H|]. exact Hlen.
  - intros back H. unfold get_input_layer_configuration_specific in H.
    repeat bind_inv H. discriminate H.
Qed.

Lemma backward_inference_outcome_witness :
  get_input_layer_configuration_specific example_layer
    {| feature_map_count := 4; dimension_sizes := [8; 8] |} 0
  = Throw (neural_network_exception (boost_format
      "Feature map count in layer (%1%) and output configuration (%2%) don't match" [6; 4])).
Proof.
  apply (proj1 (backward_inference_outcome example_layer
                  {| feature_map_count := 4; dimension_sizes := [8; 8] |} 0
                  example_layer_well_formed)).
  simpl. lia.
Defined.

(** X7. The sizes recovered by backward shape inference are sizes from
    which forward shape inference gives the output shape back: for a layer
    that satisfies the class invariant and an output shape with
    output_feature_map_count feature maps, one size per window dimension,
    every size o at least 1 and (o - 1) * stride + window an
    [unsigned int], forward inference on the recovered sizes (with
    input_feature_map_count feature maps) returns that output shape. *)
Theorem backward_then_forward (this : sparse_convolution_layer)
    (out back : layer_configuration_specific) (supported : bool) (input_layer_id : nat) :
  well_formed this ->
  feature_map_count out = output_feature_map_count this ->
  (forall i o s w,
     dimension_sizes out !! i = Some o -> strides this !! i = Some s ->
     window_sizes this !! i = Some w ->
     1 <= o /\ (o - 1) * s + w < 2 ^ 32) ->
  get_input_layer_configuration_specific this out input_layer_id = Ret (supported, back) ->
  get_output_layer_configuration_specific this
    [{| feature_map_count := input_feature_map_count this;
        dimension_sizes := dimension_sizes back |}]
  = Ret out.
Proof.
  intros W Hfm Hsizes H.
  assert (Hd : get_dimension_count out = length (window_sizes this)).
  { unfold get_input_layer_configuration_specific in H. bind_inv H. bind_inv H.
    apply throw_if_Ret in E0 as [E0|E0]; [|discriminate E0].
    apply negb_false_iff, Nat.eqb_eq in E0. exact E0. }
  destruct (backward_inference_Ret this out input_layer_id W Hfm Hd)
    as (dims & H' & Hlen & Hdims).
  rewrite H' in H. injection H as _ <-. simpl.
  unfold get_output_layer_configuration_specific.
  match goal with |- context [at_ [?x] 0] => change (at_ [x] 0) with (Ret x) end.
  rewrite bind_Ret_l. simpl feature_map_count. rewrite Z.eqb_refl.
  unfold get_dimension_count at 1. simpl dimension_sizes at 1.
  rewrite Hlen, Nat.eqb_refl. simpl throw_if. rewrite !bind_Ret_l.
  rewrite (for_push_total _ _ 0 [] (dimension_sizes out)).
  - rewrite bind_Ret_l. simpl. destruct out as [fm ds]. simpl in *. rewrite Hfm. reflexivity.
  - exact Hd.
  - intros k o Ho. change (0 + k)%nat with k.
    assert (Hk : (k < length (window_sizes this))%nat).
    { rewrite <- Hd. apply lookup_lt_is_Some_1. eauto. }
    destruct (dimension_lookups this out W Hd k Hk)
      as (o' & l & r & w & s & Ho' & Hl & Hr & Hw & Hs & Hs0 & Hw0).
    rewrite Ho in Ho'. injection Ho' as <-.
    destruct (Hsizes k o s w Ho Hs Hw) as (Ho1 & Hfit).
    destruct (lookup_lt_is_Some_2 dims k ltac:(lia)) as (x & Hx).
    pose proof (Hdims k x Hx) as Hin.
    rewrite (input_dimension_size_Ret this out k o s w l r Ho Hs Hw Hl Hr) in Hin.
    injection Hin as Hin.
    pose proof (proj1 (Forall_lookup _ _) (wf_strides_u32 _ W) k s Hs) as Us.
    unfold is_u32 in Us.
    unfold output_dimension_size. simpl dimension_sizes.
    rewrite (proj2 (at_Ret _ _ _) Hx), (proj2 (at_Ret _ _ _) Hl), (proj2 (at_Ret _ _ _) Hr),
      (proj2 (at_Ret _ _ _) Hw), !bind_Ret_l.
    assert (Htotal : u32 (u32 (x + l) + r) = (o - 1) * s + w).
    { rewrite <- Hin, padding_added_back, u32_add_l.
      rewrite <- (u32_add_l (u32 (o - 1) * s) w), u32_mul_l, u32_add_l.
      apply u32_small. nia. }
    rewrite Htotal.
    assert (Hlt : ((o - 1) * s + w <? w) = false) by (apply Z.ltb_ge; nia).
    rewrite Hlt. simpl throw_if. rewrite bind_Ret_l.
    rewrite (proj2 (at_Ret _ _ _) Hs), bind_Ret_l. unfold udiv.
    destruct (Z.eqb_spec s 0) as [|_]; [contradiction|]. rewrite bind_Ret_l.
    replace ((o - 1) * s + w - w) with ((o - 1) * s) by lia.
    rewrite (u32_small ((o - 1) * s)) by nia.
    rewrite Z.div_mul by assumption.
    replace (o - 1 + 1) with o by lia. rewrite u32_small; [reflexivity|]. nia.
Qed.

Lemma backward_then_forward_witness :
  exists back,
    get_input_layer_configuration_specific example_padded_layer
      {| feature_map_count := 6; dimension_sizes := [5; 5] |} 0 = Ret (true, back)
    /\ dimension_sizes back = [9; 9]
    /\ get_output_layer_configuration_specific example_padded_layer
         [{| feature_map_count := 4; dimension_sizes := [9; 9] |}]
       = Ret {| feature_map_count := 6; dimension_sizes := [5; 5] |}.
Proof.
  eexists. split; [reflexivity|]. split; [reflexivity|].
  apply (backward_then_forward example_padded_layer
           {| feature_map_count := 6; dimension_sizes := [5; 5] |}
           {| feature_map_count := 6; dimension_sizes := [9; 9] |} true 0
           example_padded_layer_well_formed eq_refl).
  - intros [|[|i]] o s w Ho Hs Hw; simpl in *; try discriminate Ho;
      injection Ho as <-; injection Hs as <-; injection Hw as <-; lia.
  - reflexivity.
Defined.


(** ** Layout of the learnable data *)

(** X8. The parts of the learnable data are described consistently: the
    list of data configurations has one entry per size reported by
    [get_data_config]; each size is the product of the numbers of its
    configuration, in [unsigned int] arithmetic (1 x connection count x
    window sizes for the weights, 1 x output_feature_map_count for the
    bias); and weight decay applies to part 0 only, the weights, never to
    the bias part. *)
Theorem data_parts_agree (this : sparse_convolution_layer) :
  is_u32 (feature_map_connection_count this) ->
  is_u32 (output_feature_map_count this) ->
  length (get_layer_data_configuration_list this) = length (get_data_config this)
  /\ (forall k c n,
        get_layer_data_configuration_list this !! k = Some c ->
        get_data_config this !! k = Some n ->
        n = u32 (data_configuration_size c))
  /\ (forall id, id ∈ get_weight_decay_part_id_set this <-> id = 0)
  /\ (exists c, get_layer_data_configuration_list this !! O = Some c
                /\ data_dimension_sizes c = window_sizes this
                /\ data_output_feature_map_count c = feature_map_connection_count this).
Proof.
  intros Uec Uoc.
  unfold get_layer_data_configuration_list, get_data_config, get_weight_decay_part_id_set.
  rewrite (fold_mul_u32_eq _ _ Uec).
  split; [|split; [|split]].
  - destruct (bias this); reflexivity.
  - intros k c n Hc Hn. unfold data_configuration_size.
    destruct (bias this); destruct k as [|[|k]]; simpl in Hc, Hn;
      try discriminate Hc; apply (inj Some) in Hc, Hn; subst c n; simpl.
    + f_equal. lia.
    + rewrite u32_small; [lia|]. unfold is_u32 in Uoc. lia.
    + f_equal. lia.
  - intros id. rewrite elem_of_union, elem_of_singleton, elem_of_empty. tauto.
  - destruct (bias this); eexists; simpl; auto.
Qed.

Lemma data_parts_agree_witness :
  get_data_config example_layer = [108; 6]
  /\ map data_configuration_size (get_layer_data_configuration_list example_layer) = [108; 6].
Proof.
  split; [reflexivity|].
  pose proof (data_parts_agree example_layer ltac:(unfold is_u32; simpl; lia)
                ltac:(unfold is_u32; simpl; lia)) as (_ & H & _).
  rewrite (H 0%nat _ 108 eq_refl eq_refl) at 1.
  rewrite (H 1%nat _ 6 eq_refl eq_refl) at 1.
  reflexivity.
Defined.


(** ** The connectivity generator on a matrix that is not empty *)

Section Keeps.
Context {G : Type} `{R : random_generator G}.

Lemma extends_refl m : extends m m.
Proof. split; auto. Qed.

Lemma extends_trans m1 m2 m3 : extends m1 m2 -> extends m2 m3 -> extends m1 m3.
Proof. intros [L1 H1] [L2 H2]. split; [congruence|auto]. Qed.

Lemma mark_connection_extends (c : caps) (ic : Z) (a : attempt) (e : bool) (o i : Z)
    (a' : attempt) :
  mark_connection c ic a e o i = Ret a' ->
  extends (local_connection_matrix a) (local_connection_matrix a').
Proof.
  unfold mark_connection. intros H. bind_inv H.
  unfold set_at_u in E. apply set_at_Ret in E as [Hlt ->].
  bind_inv H. destruct a0 as [[[ocl oal] oaol] index].
  bind_inv H. destruct a0 as [[icl ial] iaol].
  injection H as <-. simpl. split.
  - apply length_insert.
  - intros k Hk. rewrite entry_insert by exact Hlt.
    destruct (decide _); [reflexivity|exact Hk].
Qed.

Lemma place_edge_extends (c : caps) (ic : Z) (a : attempt) (g : G) (a' : attempt) (g' : G) :
  place_edge c ic a g = Ret (Some a', g') ->
  extends (local_connection_matrix a) (local_connection_matrix a').
Proof.
  unfold place_edge. intros H. bind_inv H. destruct a0 as [[found e] g0].
  destruct found as [[o i]|]; [|discriminate H].
  bind_inv H. injection H as <- <-. eapply mark_connection_extends; eassumption.
Qed.

Lemma place_edges_extends n (c : caps) (ic : Z) (a : attempt) (g : G)
    (a' : attempt) (g' : G) :
  place_edges n c ic a g = Ret (Some a', g') ->
  extends (local_connection_matrix a) (local_connection_matrix a').
Proof.
  revert a g. induction n as [|n IH]; intros a g H; simpl in H.
  - injection H as <- <-. apply extends_refl.
  - bind_inv H. destruct a0 as [[a1|] g1]; [|discriminate H].
    eapply extends_trans; [eapply place_edge_extends; eassumption|].
    eapply IH; eassumption.
Qed.

Lemma start_attempt_matrix (m : list bool) (oc ic ec margin : Z) (c : caps) (a : attempt) :
  start_attempt m oc ic ec margin = Ret (c, a) -> local_connection_matrix a = m.
Proof.
  unfold start_attempt. intros H. bind_inv H. bind_inv H. bind_inv H.
  destruct a2 as [oal oaol]. bind_inv H. bind_inv H. destruct a3 as [ial iaol].
  injection H as <- <-. reflexivity.
Qed.

Lemma generation_attempt_extends (m : list bool) (oc ic ec margin : Z) (g : G)
    (m' : list bool) (g' : G) :
  generation_attempt m oc ic ec margin g = Ret (Some m', g') -> extends m m'.
Proof.
  unfold generation_attempt. intros H. bind_inv H. destruct a as [c a].
  bind_inv H. destruct a0 as [r g0]. injection H as Hr <-.
  destruct r as [a'|]; [|discriminate Hr]. injection Hr as <-.
  rewrite <- (start_attempt_matrix _ _ _ _ _ _ _ E).
  eapply place_edges_extends; eassumption.
Qed.

Lemma fill_connection_matrix_from_extends fuel (margin : Z) (m : list bool) (g : G)
    (oc ic ec : Z) (m' : list bool) (margin' : Z) (g' : G) :
  fill_connection_matrix_from fuel margin m g oc ic ec = Ret (m', margin', g') ->
  extends m m'.
Proof.
  revert margin g. induction fuel as [|fuel IH]; intros margin g H; [discriminate H|].
  cbn [fill_connection_matrix_from] in H. bind_inv H. destruct a as [[m1|] g1].
  - injection H as <- _ _. eapply generation_attempt_extends; eassumption.
  - eapply IH; eassumption.
Qed.
End Keeps.

(** X9. [fill_connection_matrix] only ever adds connections: whatever
    the generator and the matrix it starts from, the matrix it returns has
    the same number of cells, and every connection of the starting matrix
    is still there. *)
Theorem fill_connection_matrix_keeps {G : Type} `{R : random_generator G}
    (fuel : nat) (m : list bool) (g : G) (oc ic ec : Z) (m' : list bool) (g' : G) :
  fill_connection_matrix fuel m g oc ic ec = Ret (m', g') ->
  length m' = length m /\ forall k, entry m k = true -> entry m' k = true.
Proof.
  unfold fill_connection_matrix. intros H. bind_inv H. destruct a as [[m1 margin] g1].
  injection H as <- <-. eapply fill_connection_matrix_from_extends; eassumption.
Qed.

Lemma fill_connection_matrix_keeps_witness :
  fill_connection_matrix 1 example_started ([] : script) 2 2 2
  = Ret ([true; false; false; true], [])
  /\ entry [true; false; false; true] 0 = true.
Proof.
  assert (E : fill_connection_matrix 1 example_started ([] : script) 2 2 2
              = Ret ([true; false; false; true], [])) by reflexivity.
  split; [exact E|].
  apply (proj2 (fill_connection_matrix_keeps 1 example_started ([] : script) 2 2 2
                  [true; false; false; true] [] E)).
  reflexivity.
Defined.

(** The degrees of the rows add up to the number of connections. *)
Lemma sum_output_degrees (m : list bool) (ic from n : nat) :
  sum_range (output_degree m ic) from n = count_range (entry m) (from * ic) (n * ic).
Proof.
  revert from. induction n as [|n IH]; intros from; [reflexivity|].
  cbn [sum_range]. rewrite IH.
  change (S n * ic)%nat with (ic + n * ic)%nat. rewrite count_range_app.
  f_equal.
  - unfold output_degree. rewrite (count_range_shift (entry m) (from * ic) 0 ic).
    f_equal. lia.
  - f_equal. simpl. lia.
Qed.

Lemma accumulate_counts (degree : nat -> nat) (from n : nat) (acc : Z) :
  0 <= acc -> acc + Z.of_nat (sum_range degree from n) < 2 ^ 31 ->
  fold_left (fun acc x => to_int (u32 (acc + x)))
    (map (fun o => Z.of_nat (degree o)) (seq from n)) acc
  = acc + Z.of_nat (sum_range degree from n).
Proof.
  revert from acc. induction n as [|n IH]; intros from acc H0 Hfit; simpl.
  - lia.
  - simpl in Hfit. rewrite u32_small, to_int_small by lia.
    rewrite IH by lia. lia.
Qed.

Section Complete.
Context {G : Type} `{R : random_generator G}.
Variables (oc ic : nat) (ec : Z) (m : list bool).
Hypothesis Hlen : length m = (oc * ic)%nat.
Hypothesis Hfit : Z.of_nat (oc * ic) < 2 ^ 31.

Lemma start_attempt_counts (margin : Z) (c : caps) :
  compute_caps (Z.of_nat oc) (Z.of_nat ic) ec margin = Ret c ->
  exists a,
    start_attempt m (Z.of_nat oc) (Z.of_nat ic) ec margin = Ret (c, a)
    /\ local_connection_matrix a = m
    /\ accumulate (output_feature_map_connection_count_list a)
       = Z.of_nat (true_entries m).
Proof.
  intros Hc. unfold start_attempt.
  rewrite Hc, bind_Ret_l.
  rewrite (count_output_connections_Ret oc ic m Hlen ltac:(lia)), bind_Ret_l.
  rewrite (available_lists_Ret (output_degree m ic) oc), bind_Ret_l.
  rewrite (count_input_connections_Ret oc ic m Hlen ltac:(lia)), bind_Ret_l.
  rewrite (available_lists_Ret (input_degree m oc ic) ic), bind_Ret_l.
  eexists. split; [reflexivity|]. split; [reflexivity|]. simpl.
  assert (Hsum : sum_range (output_degree m ic) 0 oc = true_entries m).
  { rewrite sum_output_degrees. unfold true_entries. rewrite Hlen. reflexivity. }
  unfold accumulate. rewrite accumulate_counts; rewrite ?Hsum; try lia.
  pose proof (count_range_le (entry m) 0 (length m)) as Hle.
  unfold true_entries. lia.
Qed.
End Complete.

(** X10. A matrix that holds feature_map_connection_count connections
    already (or more) is returned as it is by the first pass, and nothing
    is drawn from the generator: for a matrix of output_count x
    input_count cells, fewer than 2^31 of them, and caps that are
    computed. *)
Theorem complete_matrix_unchanged {G : Type} `{R : random_generator G}
    (fuel : nat) (oc ic : nat) (ec : Z) (m : list bool) (g : G) (c : caps) :
  length m = (oc * ic)%nat -> Z.of_nat (oc * ic) < 2 ^ 31 ->
  0 <= ec <= Z.of_nat (true_entries m) ->
  compute_caps (Z.of_nat oc) (Z.of_nat ic) ec 0 = Ret c ->
  fill_connection_matrix (S fuel) m g (Z.of_nat oc) (Z.of_nat ic) ec = Ret (m, g).
Proof.
  intros Hlen Hfit Hec Hc.
  destruct (start_attempt_counts oc ic ec m Hlen Hfit 0 c Hc) as (a & Ha & Hm & Hacc).
  unfold fill_connection_matrix. cbn [fill_connection_matrix_from].
  unfold generation_attempt. rewrite Ha, bind_Ret_l. cbv beta iota zeta.
  rewrite Hacc.
  pose proof (count_range_le (entry m) 0 (length m)) as Hle. fold (true_entries m) in Hle.
  rewrite to_int_small by lia.
  replace (Z.to_nat (ec - Z.of_nat (true_entries m))) with O by lia.
  simpl. rewrite Hm. reflexivity.
Qed.

Lemma complete_matrix_unchanged_witness :
  fill_connection_matrix 1 example_complete ([5] : script) 2 2 2
  = Ret (example_complete, [5]).
Proof.
  apply (complete_matrix_unchanged 0 2 2 2 example_complete ([5] : script)
           {| max_connections_for_output_feature_map := 1;
              max_connections_for_input_feature_map := 1;
              max_connections_for_output_feature_map_overflow := 2;
              max_connections_for_input_feature_map_overflow := 2 |});
    try reflexivity; vm_compute; split; discriminate.
Defined.


(** ** The buffers of the compressed-row representation *)

Section CustomData.
Context {G : Type} `{R : random_generator G} {Hrange : uniform_in_range G}.
Variables (fuel : nat) (this : sparse_convolution_layer).
Let oc := output_feature_map_count this.
Let ic := input_feature_map_count this.
Let ec := feature_map_connection_count this.
Hypothesis Hoc : 1 <= oc.
Hypothesis Hmax : Z.max oc ic <= ec.
Hypothesis Hdense : ec <= oc * ic.
Hypothesis Hfit : oc * ic < 2 ^ 31.
Hypothesis Hfuel : Z.of_nat fuel + ec < 2 ^ 32.
Variables (cols0 rows0 : list Z).
Hypothesis Hsize :
  map (fun v => Z.of_nat (length v)) [cols0; rows0] = get_data_custom_config this.

Lemma custom_buffer_sizes : Z.of_nat (length cols0) = ec /\ Z.of_nat (length rows0) = oc + 1.
Proof.
  unfold get_data_custom_config in Hsize. fold oc ec in Hsize.
  rewrite (u32_small (oc + 1)) in Hsize by nia.
  injection Hsize as Hcols Hrows. auto.
Qed.

(** What the generator returns is written out in full. *)
Lemma randomize_custom_data_written (g : G) (m : list bool) (g' : G) :
  fill_connection_matrix fuel (all_false oc ic) g oc ic ec = Ret (m, g') ->
  length m = (Z.to_nat oc * Z.to_nat ic)%nat
  /\ Z.of_nat (true_entries m) = ec
  /\ randomize_custom_data fuel this [cols0; rows0] g
     = Ret ([flat_inputs m (Z.to_nat ic) (Z.to_nat oc);
             row_offsets m (Z.to_nat ic) (S (Z.to_nat oc))], g').
Proof.
  intros E. destruct custom_buffer_sizes as [Hcols Hrows].
  assert (Hic : 1 <= ic) by nia.
  destruct (fill_connection_matrix_Ret_inv oc ic ec fuel g m g' E) as [margin Hfrom].
  destruct (returned_matrix oc ic ec Hoc Hmax Hdense Hfit fuel g m margin g' Hfuel Hfrom)
    as (_ & c & _ & Hlen & Hcount & _).
  split; [exact Hlen|]. split; [exact Hcount|].
  unfold randomize_custom_data. fold oc ic ec.
  rewrite (u32_small (oc * ic)) by nia. fold (all_false oc ic).
  rewrite E, bind_Ret_l. cbv beta iota.
  rewrite <- (Z2Nat.id oc), <- (Z2Nat.id ic) by lia.
  rewrite (fill_data_custom_Ret (Z.to_nat oc) (Z.to_nat ic) m cols0 rows0);
    try assumption; try lia; try nia.
  rewrite bind_Ret_l, !Z2Nat.id by lia.
  rewrite drop_ge, app_nil_r; [reflexivity|].
  rewrite (flat_inputs_total (Z.to_nat oc) (Z.to_nat ic) m Hlen). lia.
Qed.

Lemma randomize_custom_data_Ret_inv (g : G) (data_custom' : list (list Z)) (g' : G) :
  randomize_custom_data fuel this [cols0; rows0] g = Ret (data_custom', g') ->
  exists m, fill_connection_matrix fuel (all_false oc ic) g oc ic ec = Ret (m, g').
Proof.
  intros H. unfold randomize_custom_data in H. fold oc ic ec in H.
  rewrite (u32_small (oc * ic)) in H by nia. fold (all_false oc ic) in H.
  bind_inv H. destruct a as [m g1]. bind_inv H. injection H as _ <-. eauto.
Qed.
End CustomData.

(** X11. Let the counts be as [check] accepts them (with at least one
    output and fewer than 2^31 cells), and let the two buffers of
    [data_custom] have the sizes [get_data_custom_config] reports. Then
    [randomize_custom_data] returns whenever the connectivity generator
    does - no index leaves a buffer - and what it returns has the same
    two sizes and does not depend on what the buffers held before: every
    entry is overwritten. *)
Theorem randomize_custom_data_overwrites {G : Type} `{R : random_generator G}
    {Hrange : uniform_in_range G} (fuel : nat) (this : sparse_convolution_layer)
    (cols0 rows0 : list Z) (g : G) :
  let oc := output_feature_map_count this in
  let ic := input_feature_map_count this in
  let ec := feature_map_connection_count this in
  1 <= oc -> Z.max oc ic <= ec -> ec <= oc * ic -> oc * ic < 2 ^ 31 ->
  Z.of_nat fuel + ec < 2 ^ 32 ->
  map (fun v => Z.of_nat (length v)) [cols0; rows0] = get_data_custom_config this ->
  (forall m g',
     fill_connection_matrix fuel (all_false oc ic) g oc ic ec = Ret (m, g') ->
     exists data_custom',
       randomize_custom_data fuel this [cols0; rows0] g = Ret (data_custom', g'))
  /\ (forall data_custom' g',
        randomize_custom_data fuel this [cols0; rows0] g = Ret (data_custom', g') ->
        map (fun v => Z.of_nat (length v)) data_custom' = get_data_custom_config this
        /\ forall cols1 rows1,
             map (fun v => Z.of_nat (length v)) [cols1; rows1] = get_data_custom_config this ->
             randomize_custom_data fuel this [cols1; rows1] g = Ret (data_custom', g')).
Proof.
  intros oc ic ec Hoc Hmax Hdense Hfit Hfuel Hsize. split.
  - intros m g' E.
    destruct (randomize_custom_data_written fuel this Hoc Hmax Hdense Hfit Hfuel
                cols0 rows0 Hsize g m g' E) as (_ & _ & H).
    eauto.
  - intros data_custom' g' H.
    destruct (randomize_custom_data_Ret_inv fuel this Hoc Hmax Hdense Hfit
                cols0 rows0 g data_custom' g' H) as (m & E).
    destruct (randomize_custom_data_written fuel this Hoc Hmax Hdense Hfit Hfuel
                cols0 rows0 Hsize g m g' E) as (Hlen & Hcount & H0).
    fold oc ic ec in H0. rewrite H0 in H. injection H as <-. split.
    + unfold get_data_custom_config. fold oc ec. rewrite (u32_small (oc + 1)) by nia.
      simpl. rewrite (flat_inputs_total (Z.to_nat oc) (Z.to_nat ic) m Hlen), Hcount.
      unfold row_offsets. rewrite length_map, length_seq.
      do 2 f_equal. lia.
    + intros cols1 rows1 Hsize1.
      destruct (randomize_custom_data_written fuel this Hoc Hmax Hdense Hfit Hfuel
                  cols1 rows1 Hsize1 g m g' E) as (_ & _ & H1).
      exact H1.
Qed.

Lemma randomize_custom_data_overwrites_witness :
  exists g',
    randomize_custom_data 1 example_sparse_layer [replicate 6 0; replicate 4 0]
      overflow_script
    = Ret ([[0; 1; 0; 1; 0; 2]; [0; 2; 4; 6]], g')
    /\ randomize_custom_data 1 example_sparse_layer [replicate 6 7; replicate 4 9]
         overflow_script
       = Ret ([[0; 1; 0; 1; 0; 2]; [0; 2; 4; 6]], g').
Proof.
  assert (E : exists g', randomize_custom_data 1 example_sparse_layer
                           [replicate 6 0; replicate 4 0] overflow_script
                         = Ret ([[0; 1; 0; 1; 0; 2]; [0; 2; 4; 6]], g'))
    by (eexists; vm_compute; reflexivity).
  destruct E as [g' E]. exists g'. split; [exact E|].
  apply (proj2 (randomize_custom_data_overwrites 1 example_sparse_layer (replicate 6 0)
                  (replicate 4 0) overflow_script
                  ltac:(simpl; lia) ltac:(simpl; lia) ltac:(simpl; lia) ltac:(simpl; lia)
                  ltac:(simpl; lia) eq_refl) _ g' E).
  reflexivity.
Defined.


(** ** Initialising all the data of a layer *)

Lemma product_pos (l : list Z) : Forall (fun w => 1 <= w) l -> 1 <= product l.
Proof.
  induction 1 as [|w l Hw _ IH]; simpl; [lia|]. nia.
Qed.

Lemma sum_range_scale (f : nat -> nat) (w from n : nat) :
  sum_range (fun o => (w * f o)%nat) from n = (w * sum_range f from n)%nat.
Proof.
  revert from. induction n as [|n IH]; intros from; simpl; [lia|]. rewrite IH. lia.
Qed.

Lemma sum_range_term (f : nat -> nat) (from n k : nat) :
  (from <= k < from + n)%nat -> (f k <= sum_range f from n)%nat.
Proof.
  revert from. induction n as [|n IH]; intros from Hk; [lia|]. simpl.
  destruct (decide (k = from)) as [->|Hne]; [lia|].
  specialize (IH (S from) ltac:(lia)). lia.
Qed.

Lemma length_concat_blocks {A} (blocks : list (list A)) (f : nat -> nat) (from : nat) :
  (forall o block, blocks !! o = Some block -> length block = f (from + o)%nat) ->
  length (concat blocks) = sum_range f from (length blocks).
Proof.
  revert from. induction blocks as [|b blocks IH]; intros from H; [reflexivity|].
  simpl. rewrite length_app, (H O b eq_refl), Nat.add_0_r. f_equal.
  apply IH. intros o block Ho. rewrite (H (S o) block Ho). f_equal. lia.
Qed.

(** The offsets of two consecutive rows differ by the degree of the row. *)
Lemma row_offsets_degree (m : list bool) (ic n o : nat) (lo hi : Z) :
  row_offsets m ic n !! o = Some lo -> row_offsets m ic n !! S o = Some hi ->
  hi - lo = Z.of_nat (output_degree m ic o).
Proof.
  intros Hlo Hhi. apply row_offsets_lookup in Hlo, Hhi. subst lo hi.
  rewrite flat_inputs_S, length_app, row_inputs_length. unfold output_degree. lia.
Qed.

(** X12. Let the counts be as [check] accepts them (at least one output,
    fewer than 2^31 cells), every window size at least 1, the number of
    weights connection count x product(window sizes) an [unsigned int],
    and let the buffers of [data] and [data_custom] have the sizes that
    [get_data_config] and [get_data_custom_config] report. When
    [randomize_data] returns, [data_custom] is the compressed-row form of
    a matrix with exactly feature_map_connection_count connections, and
    every weight of [data[0]] has been replaced: [data[0]] is the
    concatenation of one block per output, the block of an output with k
    connected inputs holding product(window sizes) x k accepted draws for
    the standard deviation of that k; with bias, [data[1]] is all zeros. *)
Theorem randomize_data_initialises {G : Type} `{R : random_generator G}
    {Hrange : uniform_in_range G} (fuel : nat) (this : sparse_convolution_layer)
    (data : list (list float)) (cols0 rows0 : list Z) (g : G)
    (data' : list (list float)) (data_custom' : list (list Z)) (g' : G) :
  let oc := output_feature_map_count this in
  let ic := input_feature_map_count this in
  let ec := feature_map_connection_count this in
  1 <= oc -> Z.max oc ic <= ec -> ec <= oc * ic -> oc * ic < 2 ^ 31 ->
  Z.of_nat fuel + ec < 2 ^ 32 ->
  Forall (fun w => 1 <= w) (window_sizes this) ->
  ec * product (window_sizes this) < 2 ^ 32 ->
  map (fun v => Z.of_nat (length v)) data = get_data_config this ->
  map (fun v => Z.of_nat (length v)) [cols0; rows0] = get_data_custom_config this ->
  randomize_data fuel this data [cols0; rows0] g = Ret (data', data_custom', g') ->
  exists m blocks cols rows,
    data_custom' = [cols; rows]
    /\ csr_consistent (Z.to_nat oc) (Z.to_nat ic) m cols rows
    /\ Z.of_nat (true_entries m) = ec
    /\ data' !! O = Some (concat blocks)
    /\ Z.of_nat (length (concat blocks)) = ec * product (window_sizes this)
    /\ length blocks = Z.to_nat oc
    /\ (forall o block, blocks !! o = Some block ->
          let k := Z.of_nat (output_degree m (Z.to_nat ic) o) in
          Z.of_nat (length block) = product (window_sizes this) * k
          /\ Forall (accepted_draw (G := G) (weight_standard_deviation this k)) block)
    /\ (bias this = true -> data' !! 1%nat = Some (replicate (Z.to_nat oc) F_0_0)).
Proof.
  intros oc ic ec Hoc Hmax Hdense Hfit Hfuel Hws Hweights Hdata Hsize H.
  pose proof (product_pos _ Hws) as Hprod.
  assert (Hec : 1 <= ec) by lia.
  assert (Hwv : window_volume this = product (window_sizes this)).
  { unfold window_volume. rewrite fold_mul_u32_eq by lia.
    rewrite Z.mul_1_l. apply u32_small. nia. }
  (* the buffers of [data] *)
  unfold get_data_config in Hdata. fold ec in Hdata.
  rewrite (fold_mul_u32_eq _ ec) in Hdata by lia.
  rewrite (u32_small (ec * _)) in Hdata by nia.
  assert (Hw0 : exists w0, data !! O = Some w0
                  /\ Z.of_nat (length w0) = ec * product (window_sizes this)).
  { destruct data as [|w0 rest]; [destruct (bias this); discriminate Hdata|].
    exists w0. split; [reflexivity|].
    destruct (bias this); simpl in Hdata; injection Hdata as -> _; reflexivity. }
  destruct Hw0 as (w0 & Hw0 & Hlen0).
  assert (Hb0 : bias this = true ->
                exists b0, data !! 1%nat = Some b0 /\ Z.of_nat (length b0) = oc).
  { intros Hb. rewrite Hb in Hdata. destruct data as [|? [|b0 rest]]; try discriminate Hdata.
    exists b0. split; [reflexivity|]. simpl in Hdata. injection Hdata as _ -> _. reflexivity. }
  (* the two calls *)
  unfold randomize_data in H. bind_inv H. destruct a as [dc g1].
  bind_inv H. destruct a as [data1 g2]. injection H as <- <- <-.
  destruct (randomize_custom_data_Ret_inv fuel this Hoc Hmax Hdense Hfit
              cols0 rows0 g dc g1 E) as (m & Em).
  destruct (randomize_custom_data_written fuel this Hoc Hmax Hdense Hfit Hfuel
              cols0 rows0 Hsize g m g1 Em) as (Hlen & Hcount & Hdc).
  fold oc ic ec in Hdc, Hcount, Hlen. rewrite Hdc in E. injection E as <-.
  set (rows := row_offsets m (Z.to_nat ic) (S (Z.to_nat oc))) in *.
  destruct (randomize_weights_blocks this fuel
              [flat_inputs m (Z.to_nat ic) (Z.to_nat oc); rows] rows eq_refl
              ltac:(unfold is_u32; fold oc; lia) data w0 Hw0 ltac:(lia) g1 data1 g2 E0)
    as (blocks & Hdata1 & Hblocks & Hout & Hbias & _).
  fold oc in Hblocks.
  (* the degree of each row *)
  assert (Hdeg : forall o, (o < Z.to_nat oc)%nat ->
            Z.of_nat (output_degree m (Z.to_nat ic) o) <= ec).
  { intros o Ho. rewrite <- Hcount. apply inj_le.
    pose proof (sum_range_term (output_degree m (Z.to_nat ic)) 0 (Z.to_nat oc) o ltac:(lia)).
    rewrite sum_output_degrees in H. unfold true_entries. rewrite Hlen. exact H. }
  assert (Hblock : forall o block, blocks !! o = Some block ->
            Z.of_nat (length block)
            = product (window_sizes this) * Z.of_nat (output_degree m (Z.to_nat ic) o)
            /\ Forall (accepted_draw (G := G)
                 (weight_standard_deviation this
                    (Z.of_nat (output_degree m (Z.to_nat ic) o)))) block).
  { intros o block Ho.
    assert (Holt : (o < Z.to_nat oc)%nat).
    { rewrite <- Hblocks. apply lookup_lt_is_Some_1. eauto. }
    destruct (Hout o block Ho) as (lo & hi & Hlo & Hhi & Hk). cbv zeta in Hk.
    rewrite (row_offsets_degree _ _ _ _ _ _ Hlo Hhi) in Hk.
    specialize (Hdeg o Holt).
    rewrite (u32_small (Z.of_nat _)) in Hk by lia.
    destruct Hk as [Hlenb Hall]. split; [|exact Hall].
    rewrite Hlenb, Hwv.
    destruct (Z.ltb_spec 0 (Z.of_nat (output_degree m (Z.to_nat ic) o))).
    - rewrite u32_small by nia. rewrite Z2Nat.id by nia. reflexivity.
    - simpl. nia. }
  assert (Htotal : Z.of_nat (length (concat blocks)) = ec * product (window_sizes this)).
  { rewrite (length_concat_blocks blocks
               (fun o => (Z.to_nat (product (window_sizes this))
                          * output_degree m (Z.to_nat ic) o)%nat) 0).
    - rewrite sum_range_scale, Hblocks, sum_output_degrees.
      change (0 * Z.to_nat ic)%nat with O. rewrite <- Hlen.
      fold (true_entries m). rewrite Nat2Z.inj_mul, Hcount, Z2Nat.id by lia. lia.
    - intros o block Ho. destruct (Hblock o block Ho) as [Hl _].
      change (0 + o)%nat with o. apply Nat2Z.inj.
      rewrite Hl, Nat2Z.inj_mul, Z2Nat.id by lia. reflexivity. }
  exists m, blocks, (flat_inputs m (Z.to_nat ic) (Z.to_nat oc)), rows.
  split; [reflexivity|].
  split.
  { rewrite <- (app_nil_r (flat_inputs _ _ _)). apply fill_data_custom_consistent, Hlen. }
  split; [exact Hcount|].
  split.
  { rewrite Hdata1, drop_ge, app_nil_r; [reflexivity|]. lia. }
  split; [exact Htotal|]. split; [exact Hblocks|]. split; [exact Hblock|].
  intros Hb. destruct (Hbias Hb) as (b0 & Hb0' & ->).
  destruct (Hb0 Hb) as (b1 & Hb1 & Hlb). rewrite Hb0' in Hb1. injection Hb1 as <-.
  do 2 f_equal. lia.
Qed.

Lemma randomize_data_initialises_witness :
  exists data' data_custom' g' blocks,
    randomize_data 2 example_sparse_layer example_data [replicate 6 0; replicate 4 0]
      example_data_script
    = Ret (data', data_custom', g')
    /\ data' !! O = Some (concat blocks)
    /\ Z.of_nat (length (concat blocks)) = 54
    /\ data' !! 1%nat = Some (replicate 3 F_0_0).
Proof.
  assert (E : exists data' data_custom' g',
            randomize_data 2 example_sparse_layer example_data
              [replicate 6 0; replicate 4 0] example_data_script
            = Ret (data', data_custom', g'))
    by (do 3 eexists; vm_compute; reflexivity).
  destruct E as (data' & data_custom' & g' & E).
  destruct (randomize_data_initialises 2 example_sparse_layer example_data
              (replicate 6 0) (replicate 4 0) example_data_script data' data_custom' g'
              ltac:(simpl; lia) ltac:(simpl; lia) ltac:(simpl; lia) ltac:(simpl; lia)
              ltac:(simpl; lia) ltac:(repeat constructor; lia) ltac:(simpl; lia)
              eq_refl eq_refl E)
    as (m & blocks & cols & rows & _ & _ & _ & H0 & Hlen & _ & _ & Hb).
  exists data', data_custom', g', blocks.
  split; [exact E|]. split; [exact H0|]. split; [exact Hlen|]. exact (Hb eq_refl).
Defined.


(** ** The parameter summary *)

Lemma string_app_assoc (a b c : string) : (a +:+ b) +:+ c = a +:+ (b +:+ c).
Proof.
  induction a as [|x a IH]; [reflexivity|].
  change (String x ((a +:+ b) +:+ c) = String x (a +:+ (b +:+ c))).
  rewrite IH. reflexivity.
Qed.

Lemma string_app_nil_r (a : string) : a +:+ "" = a.
Proof.
  induction a as [|x a IH]; [reflexivity|].
  change (String x (a +:+ "") = String x a). rewrite IH. reflexivity.
Qed.

(** A loop that writes one text per pass, with an "x" before every text
    but the first. *)
Lemma for_prefixed (texts : list string) (body : nat -> string -> outcome string)
    (from : nat) (s : string) :
  (1 <= from)%nat ->
  (forall i t s, texts !! i = Some t -> body (from + i)%nat s = Ret ((s +:+ "x") +:+ t)) ->
  for_ (length texts) from body s = Ret (s +:+ prefixed_x texts).
Proof.
  revert from s. induction texts as [|t texts IH]; intros from s Hfrom Hbody; simpl.
  - rewrite string_app_nil_r. reflexivity.
  - pose proof (Hbody O t s eq_refl) as H0. rewrite Nat.add_0_r in H0.
    rewrite H0, bind_Ret_l, (IH (S from)); [|lia|].
    + f_equal. rewrite !string_app_assoc. reflexivity.
    + intros i t' s' Hi. rewrite <- (Hbody (S i) t' s' Hi). f_equal. lia.
Qed.

Lemma for_joined (texts : list string) (body : nat -> string -> outcome string) (s : string) :
  (forall i t s, texts !! i = Some t ->
     body i s = Ret ((if negb (i =? 0)%nat then s +:+ "x" else s) +:+ t)) ->
  for_ (length texts) 0%nat body s = Ret (s +:+ join_x texts).
Proof.
  intros Hbody. destruct texts as [|t texts]; simpl.
  - rewrite string_app_nil_r. reflexivity.
  - rewrite (Hbody O t s eq_refl), bind_Ret_l. simpl negb. cbv iota.
    rewrite (for_prefixed texts body 1 (s +:+ t)); [|lia|].
    + rewrite string_app_assoc. reflexivity.
    + intros i t' s' Hi. exact (Hbody (S i) t' s' Hi).
Qed.

Lemma put_sizes_Ret (ss : string) (sizes : list Z) :
  put_sizes ss sizes = Ret (ss +:+ join_x (map pretty sizes)).
Proof.
  unfold put_sizes. rewrite <- (length_map pretty sizes).
  apply for_joined. intros i t s Hi.
  rewrite list_lookup_fmap in Hi. destruct (sizes !! i) as [x|] eqn:Hx; [|discriminate Hi].
  injection Hi as <-. apply at_Ret in Hx. rewrite Hx, bind_Ret_l. reflexivity.
Qed.

Section Summary.
Variable this : sparse_convolution_layer.
Hypothesis Hlen : length (left_zero_padding this) = length (right_zero_padding this).

Lemma put_padding_Ret (ss : string) :
  put_padding ss this
  = Ret (ss +:+ join_x (zip_with padding_text (left_zero_padding this)
                          (right_zero_padding this))).
Proof.
  unfold put_padding.
  replace (length (left_zero_padding this))
    with (length (zip_with padding_text (left_zero_padding this)
                    (right_zero_padding this)))
    by (rewrite length_zip_with; lia).
  apply for_joined. intros i t s Hi.
  apply lookup_zip_with_Some in Hi as (l & r & -> & Hl & Hr).
  apply at_Ret in Hl, Hr. rewrite Hl, Hr, !bind_Ret_l.
  unfold padding_text, put_uint. destruct (l =? r); [reflexivity|].
  rewrite !string_app_assoc. reflexivity.
Qed.

Lemma scan_empty_padding_Ret (n i : nat) :
  (i + n = length (left_zero_padding this))%nat ->
  scan_empty_padding this n i
  = Ret (forallb (fun p => (fst p =? 0) && (snd p =? 0))
           (drop i (zip (left_zero_padding this) (right_zero_padding this)))).
Proof.
  revert i. induction n as [|n IH]; intros i Hi.
  - rewrite drop_ge; [reflexivity|]. rewrite length_zip_with. lia.
  - destruct (lookup_lt_is_Some_2 (left_zero_padding this) i ltac:(lia)) as (l & Hl).
    destruct (lookup_lt_is_Some_2 (right_zero_padding this) i ltac:(lia)) as (r & Hr).
    assert (Hz : zip (left_zero_padding this) (right_zero_padding this) !! i = Some (l, r)).
    { apply lookup_zip_with_Some. eauto. }
    rewrite (drop_S _ _ _ Hz). cbn [scan_empty_padding forallb fst snd].
    rewrite (proj2 (at_Ret _ _ _) Hl), bind_Ret_l.
    destruct (l =? 0); [|reflexivity]. cbn [negb andb].
    rewrite (proj2 (at_Ret _ _ _) Hr), bind_Ret_l.
    destruct (r =? 0); [|reflexivity]. cbn [negb].
    apply IH. lia.
Qed.

End Summary.

Lemma scan_empty_stride_Ret (this : sparse_convolution_layer) (n i : nat) :
  (i + n = length (strides this))%nat ->
  scan_empty_stride this n i = Ret (forallb (fun s => s =? 1) (drop i (strides this))).
Proof.
  revert i. induction n as [|n IH]; intros i Hi.
  - rewrite drop_ge; [reflexivity|]. lia.
  - destruct (lookup_lt_is_Some_2 (strides this) i ltac:(lia)) as (s & Hs).
    rewrite (drop_S _ _ _ Hs). cbn [scan_empty_stride forallb].
    rewrite (proj2 (at_Ret _ _ _) Hs), bind_Ret_l.
    destruct (s =? 1); [|reflexivity]. cbn [negb andb].
    apply IH. lia.
Qed.

(** X13. For a layer with as many left as right paddings,
    [get_parameter_strings] returns exactly two lines. The first names the
    window sizes joined by "x" ("fc" when there is none) and the feature
    map counts, and mentions the padding only when some padding is not 0,
    the stride only when some stride is not 1, and the bias only when it
    is missing; the second gives the formatted sparsity ratio when the
    ratio is >= 0 and the connection count otherwise. *)
Theorem parameter_strings_show_non_defaults (format_5f : float -> string)
    (this : sparse_convolution_layer) :
  length (left_zero_padding this) = length (right_zero_padding this) ->
  get_parameter_strings format_5f this
  = Ret [geometry_text this;
         if fge (feature_map_connection_sparsity_ratio this) F_0_0
         then "sparsity ratio " +:+ format_5f (feature_map_connection_sparsity_ratio this)
         else "connections " +:+ pretty (feature_map_connection_count this)].
Proof.
  intros Hlen. unfold get_parameter_strings, geometry_text.
  assert (Hhead : (if bool_decide (window_sizes this = []) then Ret ("" +:+ "fc")
                   else put_sizes "" (window_sizes this))
                  = Ret (if bool_decide (window_sizes this = []) then "fc"
                         else join_x (map pretty (window_sizes this)))).
  { destruct (bool_decide _); [reflexivity|]. rewrite put_sizes_Ret. reflexivity. }
  rewrite Hhead, bind_Ret_l.
  rewrite (scan_empty_padding_Ret this Hlen _ 0 eq_refl), bind_Ret_l, drop_0.
  rewrite (scan_empty_stride_Ret this _ 0 eq_refl), drop_0.
  set (head := if bool_decide (window_sizes this = []) then "fc"
               else join_x (map pretty (window_sizes this))).
  destruct (forallb _ (zip _ _)); cbn [negb];
    rewrite ?(put_padding_Ret this Hlen); rewrite !bind_Ret_l;
    destruct (forallb _ (strides this)); cbn [negb];
    rewrite ?put_sizes_Ret; rewrite ?bind_Ret_l;
    destruct (bias this); cbn [negb];
    destruct (fge _ _); unfold put_uint;
    do 2 f_equal; rewrite ?string_app_assoc, ?string_app_nil_r; reflexivity.
Qed.

Lemma parameter_strings_show_non_defaults_witness :
  get_parameter_strings (fun _ => "") example_padded_layer
  = Ret ["3x3, fm 4x6, pad 1x1, stride 2x2, w/out bias"; "connections 12"].
Proof.
  exact (parameter_strings_show_non_defaults (fun _ => "") example_padded_layer eq_refl).
Defined.


(** ** The negative log likelihood layer *)

Lemma F_1_0_value : F_1_0 = S754_finite false 8388608 (-23).
Proof. vm_compute. reflexivity. Qed.

Lemma SFeqb_finite_eq (s s' : bool) (m m' : positive) (e e' : Z) :
  SFeqb (S754_finite s m e) (S754_finite s' m' e') = true ->
  S754_finite s m e = S754_finite s' m' e'.
Proof.
  unfold SFeqb, SFcompare. change (Pos.compare_cont Eq m m') with (Pos.compare m m').
  destruct s, s'; try discriminate;
    destruct (Z.compare_spec e e') as [->| |]; try discriminate;
    destruct (Pos.compare_spec m m') as [->| |]; try discriminate; reflexivity.
Qed.

Lemma equal_to_one (a : float) : fne a F_1_0 = false -> a = F_1_0.
Proof.
  unfold fne. rewrite F_1_0_value. intros H. apply negb_false_iff in H.
  destruct a as [s|s| |s m e].
  - destruct s; discriminate H.
  - destruct s; discriminate H.
  - discriminate H.
  - apply SFeqb_finite_eq. exact H.
Qed.

(** X14. Reading back what [write_proto] of the negative log likelihood
    layer wrote gives the same layer, whatever the scale and whatever the
    schema default of the field: the parameter message is left out exactly
    when the scale compares equal to 1.0F, and a missing message is read
    as scale 1.0F. *)
Theorem nll_write_then_read_proto (default_scale : float)
    (this : negative_log_likelihood_layer) :
  nll_read_proto default_scale (nll_write_proto this) = this
  /\ (nll_write_proto this = None <-> fne (scale this) F_1_0 = false).
Proof.
  unfold nll_write_proto. destruct this as [s]. simpl.
  destruct (fne s F_1_0) eqn:E; simpl.
  - split; [reflexivity|]. split; discriminate.
  - rewrite (equal_to_one s E). split; [reflexivity|]. split; reflexivity.
Qed.

(** X15. The tests of the shape inference of the negative log
    likelihood layer after the first: with equal feature map counts, inputs
    whose neuron counts per feature map differ are rejected; a third input
    is rejected when it has a feature map count other than 1 (the message
    carries that count) and otherwise when its neuron count per feature map
    differs from that of the first input (the message carries both);
    inputs beyond the third are not looked at. With fewer than two inputs
    the behaviour is undefined. Every exception is a
    [neural_network_exception]. *)
Theorem nll_output_rejections (this : negative_log_likelihood_layer)
    (input0 input1 input2 : layer_configuration_specific)
    (rest : list layer_configuration_specific) :
  nll_get_output_layer_configuration_specific this [] = Undefined
  /\ nll_get_output_layer_configuration_specific this [input0] = Undefined
  /\ (feature_map_count input0 = feature_map_count input1 ->
      (get_neuron_count_per_feature_map input0 <> get_neuron_count_per_feature_map input1 ->
       forall others,
         nll_get_output_layer_configuration_specific this (input0 :: input1 :: others)
         = Throw (neural_network_exception (boost_format
             "Neuron count per feature maps mismatch in 2 input layers for negative_log_likelihood_layer"
             [])))
      /\ (get_neuron_count_per_feature_map input0 = get_neuron_count_per_feature_map input1 ->
          (feature_map_count input2 <> 1 ->
           nll_get_output_layer_configuration_specific this
             (input0 :: input1 :: input2 :: rest)
           = Throw (neural_network_exception (boost_format
               "Feature map count for negative_log_likelihood_layer scaling should be equal to 1, while it is %1%"
               [feature_map_count input2])))
          /\ (feature_map_count input2 = 1 ->
              get_neuron_count_per_feature_map input2
                <> get_neuron_count_per_feature_map input0 ->
              nll_get_output_layer_configuration_specific this
                (input0 :: input1 :: input2 :: rest)
              = Throw (neural_network_exception (boost_format
                  "Neuron count per feature map negative_log_likelihood_layer for scaling equals %1%, expected %2%"
                  [get_neuron_count_per_feature_map input2;
                   get_neuron_count_per_feature_map input0])))
          /\ nll_get_output_layer_configuration_specific this
               (input0 :: input1 :: input2 :: rest)
             = nll_get_output_layer_configuration_specific this [input0; input1; input2]))
  /\ (forall inputs e,
        nll_get_output_layer_configuration_specific this inputs = Throw e ->
        exists m, e = neural_network_exception m).
Proof.
  split; [reflexivity|]. split; [reflexivity|]. split.
  - intros Hfm. unfold nll_get_output_layer_configuration_specific.
    split.
    + intros Hne others. simpl. rewrite Hfm, Z.eqb_refl. simpl.
      apply Z.eqb_neq in Hne. rewrite Hne. reflexivity.
    + intros Hn. apply Z.eqb_eq in Hn. simpl. rewrite Hfm, Z.eqb_refl, Hn. simpl.
      split; [|split].
      * intros Hne. apply Z.eqb_neq in Hne. rewrite Hne. reflexivity.
      * intros H1 Hne. rewrite H1. simpl.
        apply Z.eqb_neq in Hne. rewrite Hne. reflexivity.
      * reflexivity.
  - intros inputs e H. unfold nll_get_output_layer_configuration_specific in H.
    destruct inputs as [|i0 [|i1 inputs]]; try discriminate H.
    simpl in H.
    destruct (feature_map_count i0 =? feature_map_count i1); simpl in H;
      [|injection H as <-; eauto].
    destruct (get_neuron_count_per_feature_map i0 =? get_neuron_count_per_feature_map i1);
      simpl in H; [|injection H as <-; eauto].
    destruct inputs as [|i2 inputs]; simpl in H; [discriminate H|].
    destruct (feature_map_count i2 =? 1); simpl in H; [|injection H as <-; eauto].
    destruct (get_neuron_count_per_feature_map i2 =? get_neuron_count_per_feature_map i0);
      simpl in H; [discriminate H|injection H as <-; eauto].
Qed.

Lemma nll_output_rejections_witness :
  nll_get_output_layer_configuration_specific example_nll
    [example_nll_input; example_nll_input; example_bad_scaling]
  = Throw (neural_network_exception (boost_format
      "Feature map count for negative_log_likelihood_layer scaling should be equal to 1, while it is %1%"
      [2])).
Proof.
  apply (proj1 (proj2 (proj1 (proj2 (proj2 (nll_output_rejections example_nll
           example_nll_input example_nll_input example_bad_scaling []))) eq_refl) eq_refl)).
  simpl. lia.
Defined.


(** * The statistics writer *)

Lemma map_insert_pair_lookup {V} (m : gmap string V) (k : string) (v : V) (name : string) :
  map_insert_pair m k v !! name
  = match m !! name with
    | Some x => Some x
    | None => if decide (name = k) then Some v else None
    end.
Proof.
  unfold map_insert_pair. destruct (m !! k) as [x|] eqn:Hk.
  - destruct (m !! name) eqn:Hn; [reflexivity|].
    destruct (decide (name = k)) as [->|]; [congruence|reflexivity].
  - destruct (decide (name = k)) as [->|Hne].
    + rewrite lookup_insert_eq, Hk. reflexivity.
    + rewrite lookup_insert_ne by congruence. destruct (m !! name); reflexivity.
Qed.

(** Inserting the entries of a list one after the other: a name keeps the
    value it had, or gets the value of its first entry. *)
Lemma foldl_insert_pair_lookup {A V} (f : A -> V) (l : list (string * A))
    (m : gmap string V) (name : string) :
  foldl (fun m it => map_insert_pair m it.1 (f it.2)) m l !! name
  = match m !! name with
    | Some v => Some v
    | None => f <$> (list_to_map l : gmap string A) !! name
    end.
Proof.
  revert m. induction l as [|[k a] l IH]; intros m; simpl.
  - rewrite lookup_empty. destruct (m !! name); reflexivity.
  - rewrite IH, map_insert_pair_lookup.
    destruct (m !! name) as [x|]; [reflexivity|].
    destruct (decide (name = k)) as [->|Hne].
    + rewrite lookup_insert_eq. reflexivity.
    + rewrite lookup_insert_ne by congruence. reflexivity.
Qed.

Lemma set_config_map_fields (running_stat_default : running_stat)
    (config_map : list (string * layer_configuration_specific))
    (this : stat_data_bunch_writer) :
  let step := fun this (it : string * layer_configuration_specific) =>
    {| entry_count := entry_count this;
       layer_name_to_running_stat_list_map :=
         map_insert_pair (layer_name_to_running_stat_list_map this) it.1
           (replicate (Z.to_nat (feature_map_count it.2)) running_stat_default);
       layer_name_to_neuron_count_per_feature_map_map :=
         map_insert_pair (layer_name_to_neuron_count_per_feature_map_map this) it.1
           (get_neuron_count_per_feature_map it.2) |} in
  entry_count (foldl step this config_map) = entry_count this
  /\ layer_name_to_running_stat_list_map (foldl step this config_map)
     = foldl (fun m it => map_insert_pair m it.1
                (replicate (Z.to_nat (feature_map_count it.2)) running_stat_default))
         (layer_name_to_running_stat_list_map this) config_map
  /\ layer_name_to_neuron_count_per_feature_map_map (foldl step this config_map)
     = foldl (fun m it => map_insert_pair m it.1 (get_neuron_count_per_feature_map it.2))
         (layer_name_to_neuron_count_per_feature_map_map this) config_map.
Proof.
  intros step. revert this. induction config_map as [|it l IH]; intros this; simpl.
  - auto.
  - destruct (IH (step this it)) as (H1 & H2 & H3). rewrite H1, H2, H3. auto.
Qed.

(** X16. [set_config_map] replaces the running statistics: afterwards the
    layers with statistics are exactly those of the configuration handed
    in, each with feature_map_count default statistics. It keeps the
    number of entries written so far, and it keeps the neuron count per
    feature map of every layer name it has seen before, whatever the new
    configuration says for that name; only new names get the neuron count
    of their configuration. *)
Theorem set_config_map_replaces (running_stat_default : running_stat)
    (this : stat_data_bunch_writer)
    (config_map : list (string * layer_configuration_specific)) (layer_name : string) :
  let this' := set_config_map running_stat_default this config_map in
  let config := (list_to_map config_map : gmap string layer_configuration_specific) in
  entry_count this' = entry_count this
  /\ layer_name_to_running_stat_list_map this' !! layer_name
     = (fun c => replicate (Z.to_nat (feature_map_count c)) running_stat_default)
         <$> config !! layer_name
  /\ layer_name_to_neuron_count_per_feature_map_map this' !! layer_name
     = match layer_name_to_neuron_count_per_feature_map_map this !! layer_name with
       | Some n => Some n
       | None => get_neuron_count_per_feature_map <$> config !! layer_name
       end.
Proof.
  intros this' config. unfold this', set_config_map.
  match goal with
  | |- context [foldl _ ?w config_map] =>
      destruct (set_config_map_fields running_stat_default config_map w) as (H1 & H2 & H3)
  end.
  cbv zeta in H1, H2, H3. rewrite H1, H2, H3. simpl.
  split; [reflexivity|]. split.
  - rewrite (foldl_insert_pair_lookup
               (fun c => replicate (Z.to_nat (feature_map_count c)) running_stat_default)).
    rewrite lookup_empty. reflexivity.
  - apply (foldl_insert_pair_lookup get_neuron_count_per_feature_map).
Qed.


(** ** What [write] does to the running statistics *)

Section Write.
Variable running_stat_default : running_stat.

Lemma read_values_Ret (n : nat) (data : list float) (s s' : running_stat)
    (data' : list float) :
  read_values n data s = Ret (s', data') ->
  (n <= length data)%nat /\ s' = foldl add_value s (take n data) /\ data' = drop n data.
Proof.
  revert data s. induction n as [|n IH]; intros data s H; simpl in H.
  - injection H as <- <-. rewrite take_0, drop_0. split; [lia|]. auto.
  - destruct data as [|val data]; [discriminate H|].
    apply IH in H as (Hn & -> & ->). simpl. split; [lia|]. auto.
Qed.

Lemma read_values_total (n : nat) (data : list float) (s : running_stat) :
  (n <= length data)%nat ->
  read_values n data s = Ret (foldl add_value s (take n data), drop n data).
Proof.
  revert data s. induction n as [|n IH]; intros data s H; simpl.
  - reflexivity.
  - destruct data as [|val data]; [simpl in H; lia|].
    simpl in H. rewrite IH by lia. reflexivity.
Qed.

(** The loop over the feature maps of one layer. *)
Section Layer.
Variables (n : Z) (running_stats : list running_stat) (data : list float).

Let state_at (i : nat) (s : list running_stat * list float) : Prop :=
  (i * Z.to_nat n <= length data)%nat
  /\ s.2 = drop (i * Z.to_nat n) data
  /\ length s.1 = length running_stats
  /\ forall k, s.1 !! k
       = if decide (k < i)%nat
         then (fun old => merge_stat old
                 (entry_stat running_stat_default (Z.to_nat n) data k))
                <$> running_stats !! k
         else running_stats !! k.

Lemma write_feature_map_step (i : nat) (s s' : list running_stat * list float) :
  (i < length running_stats)%nat -> state_at i s ->
  write_feature_map running_stat_default n i s = Ret s' -> state_at (S i) s'.
Proof.
  intros Hi (Hfit & Hdata & Hlen & Hk) H. destruct s as [rs d]. simpl in *.
  unfold write_feature_map in H. bind_inv H. destruct a as [cur d'].
  apply read_values_Ret in E as (Hread & -> & ->).
  bind_inv H. bind_inv H. injection H as <-.
  apply at_Ret in E. apply set_at_Ret in E0 as [_ ->]. subst d.
  rewrite length_drop in Hread.
  split; [simpl; lia|]. split; [simpl; rewrite drop_drop; f_equal; lia|].
  split; [simpl; rewrite length_insert; exact Hlen|].
  intros k. simpl. destruct (decide (k = i)) as [->|Hne].
  - rewrite list_lookup_insert_eq by lia.
    destruct (decide (i < S i)%nat); [|lia].
    rewrite Hk in E. destruct (decide (i < i)%nat); [lia|]. rewrite E. reflexivity.
  - rewrite list_lookup_insert_ne by congruence. rewrite Hk.
    destruct (decide (k < i)%nat), (decide (k < S i)%nat); try lia; reflexivity.
Qed.

Lemma write_feature_map_total (i : nat) (s : list running_stat * list float) :
  (i < length running_stats)%nat -> state_at i s ->
  (length running_stats * Z.to_nat n <= length data)%nat ->
  exists s', write_feature_map running_stat_default n i s = Ret s'.
Proof.
  intros Hi (Hfit & Hdata & Hlen & Hk) Hall. destruct s as [rs d]. simpl in *.
  unfold write_feature_map. rewrite read_values_total.
  - rewrite bind_Ret_l.
    destruct (lookup_lt_is_Some_2 rs i ltac:(lia)) as (old & Hold).
    rewrite (proj2 (at_Ret _ _ _) Hold), bind_Ret_l.
    rewrite set_at_in_range by lia. rewrite bind_Ret_l. eauto.
  - subst d. rewrite length_drop. nia.
Qed.

Lemma state_at_start : state_at 0 (running_stats, data).
Proof.
  split; [simpl; lia|]. split; [reflexivity|]. split; [reflexivity|].
  intros k. simpl. destruct (decide (k < 0)%nat); [lia|reflexivity].
Qed.

Lemma state_at_end (s : list running_stat * list float) :
  state_at (length running_stats) s ->
  (length running_stats * Z.to_nat n <= length data)%nat
  /\ s.1 = merged_stats running_stat_default (Z.to_nat n) data running_stats.
Proof.
  intros (Hfit & _ & Hlen & Hk). split; [exact Hfit|].
  apply list_eq. intros k. unfold merged_stats. rewrite Hk, list_lookup_imap.
  destruct (decide (k < length running_stats)%nat) as [Hlt|Hge].
  - destruct (running_stats !! k); reflexivity.
  - rewrite lookup_ge_None_2 by lia. reflexivity.
Qed.

Lemma write_feature_maps_Ret (s' : list running_stat * list float) :
  for_ (length running_stats) 0%nat (write_feature_map running_stat_default n)
    (running_stats, data) = Ret s' ->
  (length running_stats * Z.to_nat n <= length data)%nat
  /\ s'.1 = merged_stats running_stat_default (Z.to_nat n) data running_stats.
Proof.
  intros H. apply state_at_end.
  apply (for_partial state_at _ _ _ _ _ state_at_start) in H; [exact H|].
  intros i s s1 Hi Hs Hbody. apply (write_feature_map_step i s s1); [lia|assumption..].
Qed.

Lemma write_feature_maps_total :
  (length running_stats * Z.to_nat n <= length data)%nat ->
  exists s', for_ (length running_stats) 0%nat
               (write_feature_map running_stat_default n) (running_stats, data) = Ret s'.
Proof.
  intros Hall.
  destruct (for_total state_at (length running_stats) 0
              (write_feature_map running_stat_default n) (running_stats, data)
              state_at_start) as (s' & H & _); [|eauto].
  intros i s Hi Hs.
  destruct (write_feature_map_total i s ltac:(lia) Hs Hall) as (s1 & H1).
  exists s1. split; [exact H1|].
  apply (write_feature_map_step i s s1); [lia|assumption..].
Qed.
End Layer.

Lemma length_merged_stats (n : nat) (data : list float) (running_stats : list running_stat) :
  length (merged_stats running_stat_default n data running_stats) = length running_stats.
Proof. unfold merged_stats. apply length_imap. Qed.

(** One layer of a writer in good order. *)
Lemma write_layer_Ret (this this' : stat_data_bunch_writer) (layer_name : string)
    (data : list float) :
  writer_ok this ->
  write_layer running_stat_default (layer_name, data) this = Ret this' ->
  exists running_stats n,
    layer_name_to_running_stat_list_map this !! layer_name = Some running_stats
    /\ layer_name_to_neuron_count_per_feature_map_map this !! layer_name = Some n
    /\ (length running_stats * Z.to_nat n <= length data)%nat
    /\ this' = {| entry_count := entry_count this;
                  layer_name_to_running_stat_list_map :=
                    <[layer_name := merged_stats running_stat_default (Z.to_nat n) data
                                      running_stats]>
                      (layer_name_to_running_stat_list_map this);
                  layer_name_to_neuron_count_per_feature_map_map :=
                    layer_name_to_neuron_count_per_feature_map_map this |}.
Proof.
  intros Hok H. unfold write_layer in H. simpl in H.
  destruct (layer_name_to_running_stat_list_map this !! layer_name) as [rs|] eqn:Hrs;
    [|discriminate H].
  destruct (Hok layer_name rs Hrs) as (Hlen & n & Hn).
  rewrite Hn in H. rewrite u32_small, Nat2Z.id in H by lia.
  bind_inv H. destruct a as [rs' d']. injection H as <-.
  apply (write_feature_maps_Ret n rs data) in E as (Hfit & Hrs').
  simpl in Hrs'. subst rs'. exists rs, n. auto.
Qed.

Lemma write_layer_total (this : stat_data_bunch_writer) (layer_name : string)
    (data : list float) (running_stats : list running_stat) (n : Z) :
  writer_ok this ->
  layer_name_to_running_stat_list_map this !! layer_name = Some running_stats ->
  layer_name_to_neuron_count_per_feature_map_map this !! layer_name = Some n ->
  (length running_stats * Z.to_nat n <= length data)%nat ->
  exists this', write_layer running_stat_default (layer_name, data) this = Ret this'.
Proof.
  intros Hok Hrs Hn Hfit. unfold write_layer. simpl. rewrite Hrs, Hn.
  destruct (Hok layer_name running_stats Hrs) as (Hlen & n' & Hn').
  rewrite Hn in Hn'. injection Hn' as <-.
  rewrite u32_small, Nat2Z.id by lia.
  destruct (write_feature_maps_total n running_stats data Hfit) as ([rs' d'] & ->).
  rewrite bind_Ret_l. eauto.
Qed.

Lemma writer_ok_merged (this : stat_data_bunch_writer) (layer_name : string)
    (running_stats : list running_stat) (n : nat) (data : list float) :
  writer_ok this ->
  layer_name_to_running_stat_list_map this !! layer_name = Some running_stats ->
  writer_ok {| entry_count := entry_count this;
               layer_name_to_running_stat_list_map :=
                 <[layer_name := merged_stats running_stat_default n data running_stats]>
                   (layer_name_to_running_stat_list_map this);
               layer_name_to_neuron_count_per_feature_map_map :=
                 layer_name_to_neuron_count_per_feature_map_map this |}.
Proof.
  intros Hok Hrs name rs. simpl. destruct (decide (name = layer_name)) as [->|Hne].
  - rewrite lookup_insert_eq. intros [= <-]. rewrite length_merged_stats.
    apply (Hok layer_name running_stats Hrs).
  - rewrite lookup_insert_ne by congruence. apply Hok.
Qed.

(** The loop over the layers of [data_map]. *)
Lemma write_layers_Ret (data_map : list (string * list float))
    (this this' : stat_data_bunch_writer) :
  writer_ok this -> NoDup data_map.*1 ->
  for_each data_map (write_layer running_stat_default) this = Ret this' ->
  writer_ok this'
  /\ entry_count this' = entry_count this
  /\ layer_name_to_neuron_count_per_feature_map_map this'
     = layer_name_to_neuron_count_per_feature_map_map this
  /\ (forall layer_name, layer_name ∉ data_map.*1 ->
        layer_name_to_running_stat_list_map this' !! layer_name
        = layer_name_to_running_stat_list_map this !! layer_name)
  /\ (forall layer_name data, (layer_name, data) ∈ data_map ->
        exists running_stats n,
          layer_name_to_running_stat_list_map this !! layer_name = Some running_stats
          /\ layer_name_to_neuron_count_per_feature_map_map this !! layer_name = Some n
          /\ (length running_stats * Z.to_nat n <= length data)%nat
          /\ layer_name_to_running_stat_list_map this' !! layer_name
             = Some (merged_stats running_stat_default (Z.to_nat n) data running_stats)).
Proof.
  revert this. induction data_map as [|[name0 data0] l IH]; intros this Hok Hnd H.
  - simpl in H. injection H as <-.
    split; [exact Hok|]. split; [reflexivity|]. split; [reflexivity|].
    split; [reflexivity|].
    intros name data Hin. apply elem_of_nil in Hin. contradiction.
  - simpl in H. bind_inv H.
    apply NoDup_cons in Hnd as [Hnotin Hnd]. simpl in Hnotin.
    destruct (write_layer_Ret this a name0 data0 Hok E)
      as (rs0 & n0 & Hrs0 & Hn0 & Hfit0 & ->).
    pose proof (writer_ok_merged this name0 rs0 (Z.to_nat n0) data0 Hok Hrs0) as Hok1.
    destruct (IH _ Hok1 Hnd H) as (Hok' & Hcount & Hneuron & Hother & Hin).
    simpl in Hcount, Hneuron, Hother, Hin.
    split; [exact Hok'|]. split; [exact Hcount|]. split; [exact Hneuron|]. split.
    + intros name Hname. simpl in Hname. apply not_elem_of_cons in Hname as [Hne Hname].
      rewrite (Hother name Hname). apply lookup_insert_ne. congruence.
    + intros name data Hmem. apply elem_of_cons in Hmem as [Heq|Hmem].
      * injection Heq as -> ->. exists rs0, n0.
        rewrite (Hother name0 Hnotin), lookup_insert_eq. auto.
      * assert (Hne : name <> name0).
        { intros ->. apply Hnotin. apply list_elem_of_fmap. exists (name0, data). auto. }
        destruct (Hin name data Hmem) as (rs & n & Hrs & Hn & Hfit & Hres).
        rewrite lookup_insert_ne in Hrs by congruence. exists rs, n. auto.
Qed.

Lemma write_layers_total (data_map : list (string * list float))
    (this : stat_data_bunch_writer) :
  writer_ok this -> NoDup data_map.*1 ->
  (forall layer_name data, (layer_name, data) ∈ data_map ->
     exists running_stats n,
       layer_name_to_running_stat_list_map this !! layer_name = Some running_stats
       /\ layer_name_to_neuron_count_per_feature_map_map this !! layer_name = Some n
       /\ (length running_stats * Z.to_nat n <= length data)%nat) ->
  exists this', for_each data_map (write_layer running_stat_default) this = Ret this'.
Proof.
  revert this. induction data_map as [|[name0 data0] l IH]; intros this Hok Hnd Hall.
  - simpl. eauto.
  - apply NoDup_cons in Hnd as [Hnotin Hnd]. simpl in Hnotin.
    destruct (Hall name0 data0 ltac:(left)) as (rs0 & n0 & Hrs0 & Hn0 & Hfit0).
    destruct (write_layer_total this name0 data0 rs0 n0 Hok Hrs0 Hn0 Hfit0) as (this1 & H1).
    simpl. rewrite H1, bind_Ret_l.
    destruct (write_layer_Ret this this1 name0 data0 Hok H1)
      as (rs0' & n0' & Hrs0' & Hn0' & _ & ->).
    apply IH; [apply writer_ok_merged; assumption|exact Hnd|].
    intros name data Hmem. simpl.
    assert (Hne : name <> name0).
    { intros ->. apply Hnotin. apply list_elem_of_fmap. exists (name0, data). auto. }
    rewrite lookup_insert_ne by congruence. apply Hall. right. exact Hmem.
Qed.
End Write.



Lemma example_writer_ok : writer_ok example_writer.
Proof.
  intros name rs H.
  pose proof (set_config_map_replaces example_running_stat stat_data_bunch_writer_new
                example_config_map name) as (_ & Hr & Hn).
  fold example_writer in Hr, Hn. rewrite H in Hr.
  change (layer_name_to_neuron_count_per_feature_map_map stat_data_bunch_writer_new)
    with (∅ : gmap string Z) in Hn.
  rewrite lookup_empty in Hn.
  destruct (list_to_map example_config_map !! name) as [c|] eqn:Hc; [|discriminate Hr].
  split; [|exists (get_neuron_count_per_feature_map c); exact Hn].
  apply elem_of_list_to_map_2 in Hc. simpl in Hr. injection Hr as ->.
  rewrite length_replicate.
  unfold example_config_map in Hc.
  apply elem_of_cons in Hc as [Hc|Hc]; [injection Hc as _ ->; simpl; lia|].
  apply elem_of_cons in Hc as [Hc|Hc]; [injection Hc as _ ->; simpl; lia|].
  apply elem_of_nil in Hc. contradiction.
Qed.

Lemma example_data_map_names : NoDup example_data_map.*1.
Proof.
  simpl. apply NoDup_cons. split; [|apply NoDup_singleton].
  intros H. apply elem_of_cons in H as [H|H]; [discriminate H|].
  apply elem_of_nil in H. contradiction.
Qed.


(** X18. Under the same conditions [write] returns exactly when every
    layer that [data_map] names has running statistics and its data holds
    at least feature map count x neurons per feature map values. *)
Theorem write_returns_iff (running_stat_default : running_stat)
    (this : stat_data_bunch_writer) (data_map : list (string * list float)) :
  writer_ok this -> NoDup data_map.*1 ->
  (exists this', write running_stat_default this data_map = Ret this')
  <-> (forall layer_name data, (layer_name, data) ∈ data_map ->
         exists running_stats n,
           layer_name_to_running_stat_list_map this !! layer_name = Some running_stats
           /\ layer_name_to_neuron_count_per_feature_map_map this !! layer_name = Some n
           /\ (length running_stats * Z.to_nat n <= length data)%nat).
Proof.
  intros Hok Hnd. split.
  - intros (this' & H) name data Hmem. unfold write in H. bind_inv H.
    destruct (write_layers_Ret running_stat_default data_map this a Hok Hnd E)
      as (_ & _ & _ & _ & Hin).
    destruct (Hin name data Hmem) as (rs & n & Hrs & Hn & Hfit & _). eauto.
  - intros Hall.
    destruct (write_layers_total running_stat_default data_map this Hok Hnd Hall)
      as (this1 & H1).
    unfold write. rewrite H1, bind_Ret_l. eauto.
Qed.

Lemma write_returns_iff_witness :
  (exists this', write example_running_stat example_writer example_data_map = Ret this')
  /\ write example_running_stat example_writer [("conv", [F_0_5])] = Undefined
  /\ write example_running_stat example_writer [("pool", [F_0_5])] = Undefined.
Proof.
  split; [|split; vm_compute; reflexivity].
  apply (proj2 (write_returns_iff example_running_stat example_writer example_data_map
                  example_writer_ok example_data_map_names)).
  apply (proj1 (write_returns_iff example_running_stat example_writer example_data_map
                  example_writer_ok example_data_map_names)).
  eexists. vm_compute. reflexivity.
Defined.

(** ** The order of the running minimum and maximum *)

Lemma SFltb_irrefl (a : float) : SFltb a a = false.
Proof.
  unfold SFltb, SFcompare. destruct a as [s|s| |s m e]; try reflexivity.
  - destruct s; reflexivity.
  - change (Pos.compare_cont Eq m m) with (Pos.compare m m).
    rewrite Z.compare_refl, Pos.compare_refl. destruct s; reflexivity.
Qed.

Lemma SFltb_asym (a b : float) : SFltb a b = true -> SFltb b a = false.
Proof.
  unfold SFltb. destruct (SFcompare a b) as [c|] eqn:E; [|discriminate].
  rewrite (SFcompare_antisym b a c E). destruct c; try discriminate. reflexivity.
Qed.

Lemma std_min_not_above (a b : float) : SFltb a (std_min a b) = false.
Proof.
  unfold std_min. destruct (SFltb b a) eqn:E.
  - apply SFltb_asym. exact E.
  - apply SFltb_irrefl.
Qed.

Lemma std_max_not_below (a b : float) : SFltb (std_max a b) a = false.
Proof.
  unfold std_max. destruct (SFltb a b) eqn:E.
  - apply SFltb_asym. exact E.
  - apply SFltb_irrefl.
Qed.

(** X19. A call of [write] never raises a running minimum and never
    lowers a running maximum: for every layer and feature map, the old
    minimum is not below the new one, and the new maximum is not below the
    old one, in the order of [<] on [float]. *)
Theorem write_min_max_monotone (running_stat_default : running_stat)
    (this this' : stat_data_bunch_writer) (data_map : list (string * list float))
    (layer_name : string) (running_stats running_stats' : list running_stat)
    (k : nat) (old new : running_stat) :
  writer_ok this -> NoDup data_map.*1 ->
  write running_stat_default this data_map = Ret this' ->
  layer_name_to_running_stat_list_map this !! layer_name = Some running_stats ->
  layer_name_to_running_stat_list_map this' !! layer_name = Some running_stats' ->
  running_stats !! k = Some old -> running_stats' !! k = Some new ->
  SFltb (min_val old) (min_val new) = false
  /\ SFltb (max_val new) (max_val old) = false.
Proof.
  intros Hok Hnd H Hrs Hrs' Hold Hnew. unfold write in H. bind_inv H.
  injection H as <-. simpl in Hrs'.
  destruct (write_layers_Ret running_stat_default data_map this a Hok Hnd E)
    as (_ & _ & _ & Hother & Hin).
  destruct (decide (layer_name ∈ data_map.*1)) as [Hmem|Hmem].
  - apply list_elem_of_fmap in Hmem as ([name data] & -> & Hmem). simpl in *.
    destruct (Hin name data Hmem) as (rs & n & Hrs0 & _ & _ & Hres).
    rewrite Hrs in Hrs0. injection Hrs0 as <-.
    rewrite Hrs' in Hres. injection Hres as ->.
    unfold merged_stats in Hnew. rewrite list_lookup_imap, Hold in Hnew.
    injection Hnew as <-. simpl.
    split; [apply std_min_not_above|apply std_max_not_below].
  - rewrite (Hother layer_name Hmem), Hrs in Hrs'. injection Hrs' as <-.
    rewrite Hold in Hnew. injection Hnew as <-.
    split; apply SFltb_irrefl.
Qed.

Lemma write_min_max_monotone_witness :
  exists this' running_stats' new,
    write example_running_stat example_writer example_data_map = Ret this'
    /\ layer_name_to_running_stat_list_map this' !! "conv" = Some running_stats'
    /\ running_stats' !! O = Some new
    /\ SFltb (min_val example_running_stat) (min_val new) = false
    /\ SFltb (max_val new) (max_val example_running_stat) = false.
Proof.
  assert (E : exists this' running_stats' new,
            write example_running_stat example_writer example_data_map = Ret this'
            /\ layer_name_to_running_stat_list_map this' !! "conv" = Some running_stats'
            /\ running_stats' !! O = Some new)
    by (do 3 eexists; vm_compute; repeat split; reflexivity).
  destruct E as (this' & rs' & new & E & Hrs' & Hnew).
  exists this', rs', new. split; [exact E|]. split; [exact Hrs'|]. split; [exact Hnew|].
  apply (write_min_max_monotone example_running_stat example_writer this' example_data_map
           "conv" (replicate 2 example_running_stat) rs' 0 example_running_stat new
           example_writer_ok example_data_map_names E); try assumption.
  - vm_compute. reflexivity.
  - reflexivity.
Defined.


(** ** Reading the statistics *)

Lemma foldl_insert_pair_key_lookup {A V} (f : string -> A -> V) (l : list (string * A))
    (m : gmap string V) (name : string) :
  foldl (fun m it => map_insert_pair m it.1 (f it.1 it.2)) m l !! name
  = match m !! name with
    | Some v => Some v
    | None => f name <$> (list_to_map l : gmap string A) !! name
    end.
Proof.
  revert m. induction l as [|[k a] l IH]; intros m; simpl.
  - rewrite lookup_empty. destruct (m !! name); reflexivity.
  - rewrite IH, map_insert_pair_lookup.
    destruct (m !! name) as [x|]; [reflexivity|].
    destruct (decide (name = k)) as [->|Hne].
    + rewrite lookup_insert_eq. reflexivity.
    + rewrite lookup_insert_ne by congruence. reflexivity.
Qed.

Section GetStat.
Variable this : stat_data_bunch_writer.

(** What [get_stat] reports for a layer. *)
Let reported (layer_name : string) (running_stats : list running_stat)
  : list feature_map_data_stat :=
  match layer_name_to_neuron_count_per_feature_map_map this !! layer_name with
  | Some n => map (new_stat (stat_mult this n)) running_stats
  | None => []
  end.

Lemma get_stat_layer_Ret (layer_name : string) (running_stats : list running_stat)
    (res : gmap string (list feature_map_data_stat)) (n : Z) :
  layer_name_to_neuron_count_per_feature_map_map this !! layer_name = Some n ->
  get_stat_layer this (layer_name, running_stats) res
  = Ret (map_insert_pair res layer_name (reported layer_name running_stats)).
Proof.
  intros Hn. unfold get_stat_layer, reported. cbn [fst snd]. rewrite Hn. reflexivity.
Qed.

Lemma get_stat_layers (l : list (string * list running_stat))
    (res : gmap string (list feature_map_data_stat)) :
  (forall it, it ∈ l ->
     is_Some (layer_name_to_neuron_count_per_feature_map_map this !! it.1)) ->
  for_each l (get_stat_layer this) res
  = Ret (foldl (fun res it => map_insert_pair res it.1 (reported it.1 it.2)) res l).
Proof.
  revert res. induction l as [|[name rs] l IH]; intros res Hall;
    cbn [for_each foldl]; [reflexivity|].
  destruct (Hall (name, rs) ltac:(left)) as (n & Hn). cbn [fst] in Hn.
  rewrite (get_stat_layer_Ret name rs res n Hn), bind_Ret_l.
  apply IH. intros it Hit. apply Hall. right. exact Hit.
Qed.

Lemma get_stat_Ret :
  writer_ok this ->
  exists res,
    get_stat this = Ret res
    /\ forall layer_name,
         res !! layer_name
         = reported layer_name <$> layer_name_to_running_stat_list_map this !! layer_name.
Proof.
  intros Hok. unfold get_stat. rewrite get_stat_layers.
  - eexists. split; [reflexivity|]. intros name.
    rewrite (foldl_insert_pair_key_lookup reported), lookup_empty, list_to_map_to_list.
    reflexivity.
  - intros [name rs] Hit. apply elem_of_map_to_list in Hit.
    destruct (Hok name rs Hit) as (_ & n & Hn). simpl. eauto.
Qed.
End GetStat.



(** ** The invariant of the writer *)

Lemma writer_ok_new : writer_ok stat_data_bunch_writer_new.
Proof. intros name rs H. simpl in H. rewrite lookup_empty in H. discriminate H. Qed.

Lemma writer_ok_set_config_map (running_stat_default : running_stat)
    (this : stat_data_bunch_writer)
    (config_map : list (string * layer_configuration_specific)) :
  Forall (fun it => is_u32 (feature_map_count it.2)) config_map ->
  writer_ok (set_config_map running_stat_default this config_map).
Proof.
  intros Hu name rs H.
  pose proof (set_config_map_replaces running_stat_default this config_map name)
    as (_ & Hr & Hn).
  cbv zeta in Hr, Hn. rewrite H in Hr.
  destruct (list_to_map config_map !! name) as [c|] eqn:Hc; [|discriminate Hr].
  simpl in Hr. injection Hr as ->. split.
  - apply elem_of_list_to_map_2 in Hc.
    pose proof (proj1 (Forall_forall _ _) Hu (name, c) Hc) as U. simpl in U.
    unfold is_u32 in U. rewrite length_replicate. lia.
  - rewrite Hn. destruct (layer_name_to_neuron_count_per_feature_map_map this !! name);
      simpl; eauto.
Qed.

Lemma writer_ok_write (running_stat_default : running_stat)
    (this this' : stat_data_bunch_writer) (data_map : list (string * list float)) :
  writer_ok this -> NoDup data_map.*1 ->
  write running_stat_default this data_map = Ret this' -> writer_ok this'.
Proof.
  intros Hok Hnd H. unfold write in H. bind_inv H. injection H as <-.
  destruct (write_layers_Ret running_stat_default data_map this a Hok Hnd E) as (Hok' & _).
  intros name rs Hrs. simpl in *. apply (Hok' name rs Hrs).
Qed.

(** X21. Every writer that calls of [set_config_map] and [write] lead to
    from a new one keeps the invariant that [get_stat] relies on - each
    layer with running statistics has a neuron count - so that [get_stat]
    returns on it: its [find(...)->second] never meets [end()]. *)
Theorem reachable_get_stat (running_stat_default : running_stat)
    (this : stat_data_bunch_writer) :
  reachable running_stat_default this ->
  writer_ok this /\ exists res, get_stat this = Ret res.
Proof.
  intros Hreach.
  assert (Hok : writer_ok this).
  { induction Hreach as [|this config_map _ _ Hu|this data_map this' _ IH Hnd Hw].
    - apply writer_ok_new.
    - apply writer_ok_set_config_map. exact Hu.
    - apply (writer_ok_write running_stat_default this this' data_map IH Hnd Hw). }
  split; [exact Hok|].
  destruct (get_stat_Ret this Hok) as (res & H & _). eauto.
Qed.

Lemma reachable_get_stat_witness :
  exists res, get_stat example_writer = Ret res.
Proof.
  apply (reachable_get_stat example_running_stat example_writer).
  apply reachable_set_config_map; [apply reachable_new|].
  repeat constructor; unfold is_u32; simpl; lia.
Defined.


(** ** The compressed-row representation is faithful *)

Lemma csr_determines_matrix (oc ic : nat) (m m' : list bool) (cols rows : list Z) :
  length m = (oc * ic)%nat -> length m' = (oc * ic)%nat ->
  csr_consistent oc ic m cols rows -> csr_consistent oc ic m' cols rows -> m = m'.
Proof.
  intros Hlen Hlen' C C'. apply list_eq. intros k.
  destruct (decide (k < oc * ic)%nat) as [Hk|Hk];
    [|rewrite !lookup_ge_None_2 by lia; reflexivity].
  assert (Hic : (0 < ic)%nat) by nia.
  pose proof (Nat.div_mod_eq k ic) as Hdiv.
  pose proof (Nat.mod_upper_bound k ic ltac:(lia)) as Hmod.
  set (o := (k / ic)%nat) in *. set (i := (k mod ic)%nat) in *.
  assert (Ho : (o < oc)%nat) by nia.
  destruct (lookup_lt_is_Some_2 rows o ltac:(rewrite (csr_rows_length _ _ _ _ _ C); lia))
    as (lo & Hlo).
  destruct (lookup_lt_is_Some_2 rows (S o) ltac:(rewrite (csr_rows_length _ _ _ _ _ C); lia))
    as (hi & Hhi).
  destruct (csr_row _ _ _ _ _ C o lo hi Ho Hlo Hhi) as (Hrow & _).
  destruct (csr_row _ _ _ _ _ C' o lo hi Ho Hlo Hhi) as (Hrow' & _).
  assert (Hentry : entry m k = entry m' k).
  { replace k with (o * ic + i)%nat by lia.
    specialize (Hrow i). specialize (Hrow' i).
    destruct (entry m (o * ic + i)) eqn:E, (entry m' (o * ic + i)) eqn:E'; try reflexivity.
    - destruct (proj1 Hrow' (proj2 Hrow (conj Hmod eq_refl))) as [_ H]. discriminate H.
    - destruct (proj1 Hrow (proj2 Hrow' (conj Hmod eq_refl))) as [_ H]. discriminate H. }
  unfold entry in Hentry.
  destruct (lookup_lt_is_Some_2 m k ltac:(lia)) as (b & Hb).
  destruct (lookup_lt_is_Some_2 m' k ltac:(lia)) as (b' & Hb').
  rewrite Hb, Hb' in *. simpl in Hentry. congruence.
Qed.

(** X22. The compressed-row representation loses nothing: two
    connection matrices with the same numbers of outputs and inputs for
    which [fill_data_custom] writes the same [data_custom] are the same
    matrix (fewer than 2^31 cells, buffers with room for the connections
    and for output count + 1 offsets). *)
Theorem compressed_rows_determine_matrix (oc ic : nat) (m m' : list bool)
    (cols0 rows0 cols1 rows1 : list Z) (data_custom : list (list Z)) :
  length m = (oc * ic)%nat -> length m' = (oc * ic)%nat ->
  Z.of_nat (oc * ic) < 2 ^ 31 -> Z.of_nat oc < 2 ^ 31 -> Z.of_nat ic < 2 ^ 31 ->
  (true_entries m <= length cols0)%nat -> (true_entries m' <= length cols1)%nat ->
  length rows0 = S oc -> length rows1 = S oc ->
  fill_data_custom [cols0; rows0] m (Z.of_nat oc) (Z.of_nat ic) = Ret data_custom ->
  fill_data_custom [cols1; rows1] m' (Z.of_nat oc) (Z.of_nat ic) = Ret data_custom ->
  m = m'.
Proof.
  intros Hlen Hlen' Hfit Hoc Hic Hc0 Hc1 Hr0 Hr1 H H'.
  rewrite (fill_data_custom_Ret oc ic m cols0 rows0 Hlen Hfit Hoc Hic Hc0 Hr0) in H.
  rewrite (fill_data_custom_Ret oc ic m' cols1 rows1 Hlen' Hfit Hoc Hic Hc1 Hr1) in H'.
  rewrite <- H in H'.
  assert (Hcols : flat_inputs m' ic oc ++ drop (length (flat_inputs m' ic oc)) cols1
                  = flat_inputs m ic oc ++ drop (length (flat_inputs m ic oc)) cols0)
    by congruence.
  assert (Hrows : row_offsets m' ic (S oc) = row_offsets m ic (S oc)) by congruence.
  pose proof (fill_data_custom_consistent oc ic m
                (drop (length (flat_inputs m ic oc)) cols0) Hlen) as C.
  pose proof (fill_data_custom_consistent oc ic m'
                (drop (length (flat_inputs m' ic oc)) cols1) Hlen') as C'.
  rewrite Hcols, Hrows in C'.
  exact (csr_determines_matrix oc ic m m' _ _ Hlen Hlen' C C').
Qed.

Lemma compressed_rows_determine_matrix_witness :
  fill_data_custom [[0; 0]; [0; 0; 0]] example_complete 2 2 = Ret [[0; 1]; [0; 1; 2]]
  /\ fill_data_custom [[5; 5]; [7; 7; 7]] example_complete 2 2 = Ret [[0; 1]; [0; 1; 2]]
  /\ example_complete = [true; false; false; true].
Proof.
  assert (E0 : fill_data_custom [[0; 0]; [0; 0; 0]] example_complete 2 2
               = Ret [[0; 1]; [0; 1; 2]]) by (vm_compute; reflexivity).
  assert (E1 : fill_data_custom [[5; 5]; [7; 7; 7]] [true; false; false; true] 2 2
               = Ret [[0; 1]; [0; 1; 2]]) by (vm_compute; reflexivity).
  split; [exact E0|]. split; [exact E1|].
  apply (compressed_rows_determine_matrix 2 2 example_complete [true; false; false; true]
           [0; 0] [0; 0; 0] [5; 5] [7; 7; 7] [[0; 1]; [0; 1; 2]]
           eq_refl eq_refl ltac:(simpl; lia) ltac:(simpl; lia) ltac:(simpl; lia)
           ltac:(vm_compute; lia) ltac:(vm_compute; lia) eq_refl eq_refl E0 E1).
Defined.
